(** * Verification of the nesting service (services/nestingService.ts)

    The development embeds the two packers of the nesting service:
    [performSheetNesting] (rectangular parts on sheets, with [canPlace] and
    [findBestPosition]) and [performLinearNesting] (cuts on bars).

    Conventions of the embedding.
    - A JavaScript [number] that holds a length, a coordinate, an id or an
      area is an integer of [Z]; this is exact for the doubles of magnitude
      below 2^53, the range in which the packers work.  Ratios (percentages,
      weights) are rationals of [Q].  A [quantity] of a part is a [nat]: the
      source builds [Array(p.quantity)] and counts [i < p.quantity].
    - A JavaScript object used as a dictionary is the list of its own
      properties in creation order ([Js.Obj]); reading a key falls back to
      the properties inherited from [Object.prototype], and [for ... in]
      visits array-index keys first, in ascending order.
    - A call either returns, throws a [TypeError], or (in the model only)
      runs out of the fuel given to a [while] loop: type [outcome].
    - [Math.random] is a sequence of raw draws [nat -> nat] read through a
      call counter.
    - The forms pass the clearances, the stock length, the end allowances
      and the kerf unchecked, so these numbers may be [NaN].  Module
      [WithNaN] embeds the two packers a second time, on numbers that are
      an integer or [NaN]; [performSheetNesting_lift] and
      [performLinearNesting_lift] show that on integers it is the integer
      embedding.  Sums, differences and products are exact in both: the
      rounding of doubles on fractional lengths is not modelled, and no
      property below rests on an exact area, waste or percentage. *)

From Stdlib Require Import ZArith List String Ascii Bool Lia QArith.
From Stdlib Require Import DecimalString DecimalZ DecimalPos Permutation Sorted.
Import ListNotations.
Local Open Scope string_scope.
Local Open Scope Z_scope.

(** ** Outcomes of a call *)

Inductive outcome (A : Type) : Type :=
| Returned (a : A)
| TypeError
| OutOfFuel.

Arguments Returned {A} a.
Arguments TypeError {A}.
Arguments OutOfFuel {A}.

Definition bind {A B : Type} (m : outcome A) (k : A -> outcome B) : outcome B :=
  match m with
  | Returned a => k a
  | TypeError => TypeError
  | OutOfFuel => OutOfFuel
  end.

Notation "x <- m ;; k" := (bind m (fun x => k))
  (at level 61, m at next level, right associativity).

(** ** The JavaScript primitives the service relies on *)

Module Js.

(** [Number.prototype.toString] on an integer. *)
Definition numToString (z : Z) : string :=
  NilZero.string_of_int (Z.to_int z).

(** [String.prototype.split] with a one-character separator. *)
Fixpoint split (sep : ascii) (s : string) : list string :=
  match s with
  | EmptyString => [EmptyString]
  | String c r =>
      if Ascii.eqb c sep then EmptyString :: split sep r
      else match split sep r with
           | h :: t => String c h :: t
           | [] => [String c EmptyString]
           end
  end.

Fixpoint contains (c : ascii) (s : string) : bool :=
  match s with
  | EmptyString => false
  | String d r => Ascii.eqb d c || contains c r
  end.

(** The value of [parseFloat]: not-a-number, an infinity, or a finite
    decimal kept exactly as a rational. *)
Inductive number : Type :=
| NaN
| Infinite (negative : bool)
| Finite (q : Q).

Definition isDigit (c : ascii) : bool :=
  (48 <=? nat_of_ascii c)%nat && (nat_of_ascii c <=? 57)%nat.

Definition digitVal (c : ascii) : Z := Z.of_nat (nat_of_ascii c - 48).

Fixpoint takeDigits (s : string) : list ascii * string :=
  match s with
  | String c r =>
      if isDigit c
      then let (ds, rest) := takeDigits r in (c :: ds, rest)
      else ([], s)
  | EmptyString => ([], s)
  end.

Definition digitsValue (ds : list ascii) : Z :=
  fold_left (fun acc c => acc * 10 + digitVal c) ds 0.

Definition isWhiteSpace (c : ascii) : bool :=
  existsb (Nat.eqb (nat_of_ascii c)) [9; 10; 11; 12; 13; 32]%nat.

Fixpoint skipWhiteSpace (s : string) : string :=
  match s with
  | String c r => if isWhiteSpace c then skipWhiteSpace r else s
  | EmptyString => s
  end.

Definition takeSign (s : string) : bool * string :=
  match s with
  | String "-" r => (true, r)
  | String "+" r => (false, r)
  | _ => (false, s)
  end.

(** Exponent part: [e] or [E], an optional sign, at least one digit. *)
Definition takeExponent (s : string) : Z :=
  match s with
  | String c r =>
      if Ascii.eqb c "e" || Ascii.eqb c "E" then
        let (neg, r1) := takeSign r in
        match fst (takeDigits r1) with
        | [] => 0
        | ds => if neg then - digitsValue ds else digitsValue ds
        end
      else 0
  | EmptyString => 0
  end.

Definition scale10 (m e : Z) : Q :=
  if 0 <=? e then inject_Z (m * 10 ^ e)
  else Qmake m (Z.to_pos (10 ^ (- e))).

(** [parseFloat]: leading white space, then the longest prefix that is a
    decimal literal.  Strings are byte strings, so only the ASCII
    white-space characters are skipped. *)
Definition parseFloat (s : string) : number :=
  let (neg, s1) := takeSign (skipWhiteSpace s) in
  if prefix "Infinity" s1 then Infinite neg
  else
    let (ints, s2) := takeDigits s1 in
    let (fracs, s3) :=
      match s2 with
      | String "." r => takeDigits r
      | _ => ([], s2)
      end in
    match (ints ++ fracs)%list with
    | [] => NaN
    | ds =>
        let m := digitsValue ds in
        let e := takeExponent s3 - Z.of_nat (List.length fracs) in
        Finite (scale10 (if neg then - m else m) e)
    end.

(** [n === z] for a parsed number and an integer. *)
Definition strictEq (n : number) (z : Z) : bool :=
  match n with
  | Finite q => Qeq_bool q (inject_Z z)
  | _ => false
  end.

(** *** Objects used as dictionaries *)

(** Own properties, in creation order. *)
Definition Obj (V : Type) : Type := list (string * V).

(** The properties every object literal inherits from [Object.prototype];
    all of them hold a function or an object, hence a truthy value
    without a [push] method. *)
Definition objectPrototypeKeys : list string :=
  [ "constructor"; "hasOwnProperty"; "isPrototypeOf";
    "propertyIsEnumerable"; "toLocaleString"; "toString"; "valueOf";
    "__proto__"; "__defineGetter__"; "__defineSetter__";
    "__lookupGetter__"; "__lookupSetter__" ].

Definition inheritedKey (k : string) : bool :=
  existsb (String.eqb k) objectPrototypeKeys.

Fixpoint getOwn {V : Type} (k : string) (o : Obj V) : option V :=
  match o with
  | [] => None
  | (k', v) :: r => if String.eqb k k' then Some v else getOwn k r
  end.

(** [o[k] = v]: overwrite in place, or create the property last. *)
Fixpoint set {V : Type} (k : string) (v : V) (o : Obj V) : Obj V :=
  match o with
  | [] => [(k, v)]
  | (k', v') :: r =>
      if String.eqb k k' then (k', v) :: r else (k', v') :: set k v r
  end.

(** A key is an array index when it is the canonical decimal form of an
    integer below 2^32 - 1. *)
Definition arrayIndex (k : string) : option Z :=
  match takeDigits k with
  | (d :: ds, EmptyString) =>
      let v := digitsValue (d :: ds) in
      if (negb (Ascii.eqb d "0") || match ds with [] => true | _ => false end)
         && (v <? 4294967295)
      then Some v else None
  | _ => None
  end.

Fixpoint insertIndexed {V : Type} (e : Z * (string * V))
         (l : list (Z * (string * V))) : list (Z * (string * V)) :=
  match l with
  | [] => [e]
  | e' :: r => if fst e <=? fst e' then e :: l else e' :: insertIndexed e r
  end.

Definition indexedEntries {V : Type} (o : Obj V) : list (Z * (string * V)) :=
  fold_right
    (fun kv acc =>
       match arrayIndex (fst kv) with
       | Some i => insertIndexed (i, kv) acc
       | None => acc
       end) [] o.

Definition namedEntries {V : Type} (o : Obj V) : Obj V :=
  filter (fun kv => match arrayIndex (fst kv) with
                    | Some _ => false
                    | None => true
                    end) o.

(** The order in which [for (const key in o)] visits the properties:
    array indices ascending, then the other keys in creation order. *)
Definition forIn {V : Type} (o : Obj V) : list (string * V) :=
  (map snd (indexedEntries o) ++ namedEntries o)%list.

(** One step of the grouping reducer
    [if (!acc[key]) acc[key] = []; acc[key].push(part); return acc]. *)
Definition pushTo {P : Type} (key : string) (part : P)
           (acc : Obj (list P)) : outcome (Obj (list P)) :=
  match getOwn key acc with
  | Some group => Returned (set key (group ++ [part])%list acc)
  | None =>
      if inheritedKey key then TypeError
      else Returned (set key [part] acc)
  end.

Fixpoint groupBy {P : Type} (keyOf : P -> string) (parts : list P)
         (acc : Obj (list P)) : outcome (Obj (list P)) :=
  match parts with
  | [] => Returned acc
  | p :: r => acc' <- pushTo (keyOf p) p acc ;; groupBy keyOf r acc'
  end.

End Js.

(** ** Types (types.ts) *)

Module Material.
Record t : Type := mk { name : string; density : Z }.
End Material.

Module Sheet.
Record t : Type := mk
  { id : string; length : Z; width : Z; thickness : Z;
    grade : string; quantity : Z; isExpanded : bool }.
End Sheet.

Module Part.
Record t : Type := mk
  { id : Z; name : string; length : Z; width : Z; thickness : Z;
    grade : string; quantity : nat; originalId : Z }.

(** [{ ...p, id: i, quantity: q }] *)
Definition withIdQuantity (p : t) (i : Z) (q : nat) : t :=
  mk i (name p) (length p) (width p) (thickness p) (grade p) q (originalId p).

(** [{ ...p, quantity: q }] *)
Definition withQuantity (p : t) (q : nat) : t :=
  withIdQuantity p (id p) q.
End Part.

(** [PlacedPart extends Part] *)
Module PlacedPart.
Record t : Type := mk { part : Part.t; x : Z; y : Z; rotated : bool }.

(** Horizontal and vertical extents, as every reader of a placed part
    computes them. *)
Definition extentH (p : t) : Z :=
  if rotated p then Part.length (part p) else Part.width (part p).
Definition extentV (p : t) : Z :=
  if rotated p then Part.width (part p) else Part.length (part p).
End PlacedPart.

Module SheetLayout.
Record t : Type := mk
  { sheet : Sheet.t; sheetIndex : Z; placedParts : list PlacedPart.t;
    usedArea : Z; wasteArea : Z; wastePercentage : Q;
    usedWeight : Q; wasteWeight : Q }.
End SheetLayout.

Module SheetNestingResult.
Record t : Type := mk
  { layouts : list SheetLayout.t; unplacedParts : list Part.t;
    totalSheetsUsed : Js.Obj Z;
    totalUsedWeight : Q; totalWasteWeight : Q; totalWastePercentage : Q;
    totalUsedArea : Z; totalSheetArea : Z }.
End SheetNestingResult.

Inductive RotationOption : Type := NONE | NINETY | FREE.

Inductive OptimizationGoal : Type := PRIORITIZE_SPEED | MINIMIZE_WASTE.

(** ** Sheet packer *)

(** The packer on integers; [WithNaN] below has it on clearances that may
    be [NaN]. *)

Record Point : Type := mkPoint { px : Z; py : Z }.

Record Position : Type := mkPosition { pos_x : Z; pos_y : Z; pos_rotated : bool }.

(** The overlap test of [canPlace] between a [width] x [height] rectangle
    at [pos] and an already placed part. *)
Definition overlaps (width height : Z) (pos : Point) (other : PlacedPart.t)
           (partToPartDist : Z) : bool :=
  let otherWidth := PlacedPart.extentH other in
  let otherHeight := PlacedPart.extentV other in
  (px pos <? PlacedPart.x other + otherWidth + partToPartDist)
  && (PlacedPart.x other <? px pos + width + partToPartDist)
  && (py pos <? PlacedPart.y other + otherHeight + partToPartDist)
  && (PlacedPart.y other <? py pos + height + partToPartDist).

Definition canPlace (width height : Z) (pos : Point) (sheet : Sheet.t)
           (placedParts : list PlacedPart.t)
           (partToPartDist partToSheetDist : Z) : bool :=
  if (px pos <? partToSheetDist) || (py pos <? partToSheetDist) then false
  else if px pos + width >? Sheet.length sheet - partToSheetDist then false
  else if py pos + height >? Sheet.width sheet - partToSheetDist then false
  else negb (existsb (fun other => overlaps width height pos other partToPartDist)
                     placedParts).

(** [bestY] and [bestX] start at [Infinity]. *)
Inductive bound : Type := Fin (z : Z) | Infinity.

Definition ltb_bound (z : Z) (b : bound) : bool :=
  match b with Fin b' => z <? b' | Infinity => true end.

Definition eqb_bound (z : Z) (b : bound) : bool :=
  match b with Fin b' => z =? b' | Infinity => false end.

Record Best : Type := mkBest
  { bestPos : option Position; bestY : bound; bestX : bound }.

Definition candidatePoints (placedParts : list PlacedPart.t)
           (partToPartDist partToSheetDist : Z) : list Point :=
  mkPoint partToSheetDist partToSheetDist
  :: flat_map
       (fun p =>
          [ mkPoint (PlacedPart.x p + PlacedPart.extentH p + partToPartDist)
                    (PlacedPart.y p);
            mkPoint (PlacedPart.x p)
                    (PlacedPart.y p + PlacedPart.extentV p + partToPartDist) ])
       placedParts.

Definition tryPoint (sheet : Sheet.t) (placedParts : list PlacedPart.t)
           (partToPartDist partToSheetDist : Z)
           (width height : Z) (rotated : bool) (b : Best) (point : Point) : Best :=
  if canPlace width height point sheet placedParts partToPartDist partToSheetDist
  then
    if ltb_bound (py point) (bestY b)
       || (eqb_bound (py point) (bestY b) && ltb_bound (px point) (bestX b))
    then mkBest (Some (mkPosition (px point) (py point) rotated))
                (Fin (py point)) (Fin (px point))
    else b
  else b.

Definition tryPlacing (sheet : Sheet.t) (placedParts : list PlacedPart.t)
           (partToPartDist partToSheetDist : Z)
           (width height : Z) (rotated : bool) (b : Best) : Best :=
  fold_left
    (tryPoint sheet placedParts partToPartDist partToSheetDist width height rotated)
    (candidatePoints placedParts partToPartDist partToSheetDist) b.

Definition permitsRotation (rotation : RotationOption) : bool :=
  match rotation with NONE => false | _ => true end.

Definition findBestPosition (part : Part.t) (sheet : Sheet.t)
           (placedParts : list PlacedPart.t)
           (partToPartDist partToSheetDist : Z)
           (rotation : RotationOption) : option Position :=
  let b0 := mkBest None Infinity Infinity in
  let b1 := tryPlacing sheet placedParts partToPartDist partToSheetDist
                       (Part.width part) (Part.length part) false b0 in
  let b2 := if permitsRotation rotation
            then tryPlacing sheet placedParts partToPartDist partToSheetDist
                            (Part.length part) (Part.width part) true b1
            else b1 in
  bestPos b2.

Definition area (p : Part.t) : Z := Part.length p * Part.width p.

(** [sort((a, b) => b.length * b.width - a.length * a.width)]: the sort of
    arrays is stable, and [a] stays before [b] when the comparator is not
    positive. *)
Fixpoint insertByArea (a : Part.t) (l : list Part.t) : list Part.t :=
  match l with
  | [] => [a]
  | b :: r => if area b - area a <=? 0 then a :: l else b :: insertByArea a r
  end.

Definition sortByArea (l : list Part.t) : list Part.t :=
  fold_right insertByArea [] l.

(** [Array(p.quantity).fill(null).map((_, i) => ({ ...p, id: p.id * 1000 + i, quantity: 1 }))] *)
Definition expand (p : Part.t) : list Part.t :=
  map (fun i => Part.withIdQuantity p (Part.id p * 1000 + Z.of_nat i) 1%nat)
      (seq 0 (Part.quantity p)).

Definition place (part : Part.t) (pos : Position) : PlacedPart.t :=
  PlacedPart.mk part (pos_x pos) (pos_y pos) (pos_rotated pos).

(** [whole > 0 ? (part / whole) * 100 : 0] *)
Definition percentage (part whole : Z) : Q :=
  if whole >? 0 then ((inject_Z part / inject_Z whole) * 100)%Q else 0%Q.

(** [l.reduce((acc, a) => acc + f(a), 0)] *)
Definition sumQ {A : Type} (f : A -> Q) (l : list A) : Q :=
  fold_left (fun acc a => (acc + f a)%Q) l 0%Q.

Definition sumZ {A : Type} (f : A -> Z) (l : list A) : Z :=
  fold_left (fun acc a => acc + f a) l 0.

Section SheetPacker.

Variables (partToPartDist partToSheetDist : Z).
Variable rotation : RotationOption.
Variable material : Material.t.

(** The [for (const part of partsToPlace)] loop that fills one layout. *)
Fixpoint placeOnSheet (sheetDef : Sheet.t) (partsToPlace : list Part.t)
         (placedParts : list PlacedPart.t) (remainingParts : list Part.t)
         (partsPlacedOnThisSheet : nat)
  : list PlacedPart.t * list Part.t * nat :=
  match partsToPlace with
  | [] => (placedParts, remainingParts, partsPlacedOnThisSheet)
  | part :: rest =>
      match findBestPosition part sheetDef placedParts
                             partToPartDist partToSheetDist rotation with
      | Some position =>
          placeOnSheet sheetDef rest (placedParts ++ [place part position])%list
                       remainingParts (S partsPlacedOnThisSheet)
      | None =>
          placeOnSheet sheetDef rest placedParts
                       (remainingParts ++ [part])%list partsPlacedOnThisSheet
      end
  end.

Definition sumUsedArea (placedParts : list PlacedPart.t) : Z :=
  sumZ (fun p => area (PlacedPart.part p)) placedParts.

Definition volumeToWeight (sheet : Sheet.t) (a : Z) : Q :=
  ((inject_Z a / 1000000) * inject_Z (Sheet.thickness sheet)
   * inject_Z (Material.density material) / 1000)%Q.

Definition finishLayout (sheetDef : Sheet.t) (sheetIndex : Z)
           (placedParts : list PlacedPart.t) : SheetLayout.t :=
  let sheetArea := Sheet.length sheetDef * Sheet.width sheetDef in
  let usedArea := sumUsedArea placedParts in
  let wasteArea := sheetArea - usedArea in
  SheetLayout.mk sheetDef sheetIndex placedParts usedArea wasteArea
                 (percentage wasteArea sheetArea)
                 (volumeToWeight sheetDef usedArea)
                 (volumeToWeight sheetDef wasteArea).

Definition sheetKey (sheetDef : Sheet.t) : string :=
  Js.numToString (Sheet.length sheetDef) ++ "x"
  ++ Js.numToString (Sheet.width sheetDef) ++ "x"
  ++ Js.numToString (Sheet.thickness sheetDef) ++ "-" ++ Sheet.grade sheetDef.

(** [totalSheetsUsed[sheetKey] = (totalSheetsUsed[sheetKey] || 0) + 1];
    the key holds a hyphen, so it names no inherited property. *)
Definition countSheet (sheetDef : Sheet.t) (totalSheetsUsed : Js.Obj Z) : Js.Obj Z :=
  let k := sheetKey sheetDef in
  let old := match Js.getOwn k totalSheetsUsed with
             | Some n => n
             | None => 0
             end in
  Js.set k (old + 1) totalSheetsUsed.

(** What the loops over the sheets carry: the pool, the layouts and the
    usage counts. *)
Definition Progress : Type := (list Part.t * list SheetLayout.t * Js.Obj Z)%type.

(** The [while (partsToPlace.length > 0 && sheetsUsedForThisDef < sheetQuantity)]
    loop of one sheet definition. *)
Fixpoint fillSheets (fuel : nat) (sheetDef : Sheet.t)
         (partsToPlace : list Part.t) (sheetsUsedForThisDef : Z)
         (layouts : list SheetLayout.t) (totalSheetsUsed : Js.Obj Z)
  : outcome Progress :=
  if (0 <? List.length partsToPlace)%nat
     && (sheetsUsedForThisDef <? Sheet.quantity sheetDef)
  then
    match fuel with
    | O => OutOfFuel
    | S fuel' =>
        let '(placedParts, remainingParts, partsPlacedOnThisSheet) :=
          placeOnSheet sheetDef partsToPlace [] [] 0%nat in
        if (partsPlacedOnThisSheet =? 0)%nat
        then Returned (partsToPlace, layouts, totalSheetsUsed)
        else
          let layout :=
            finishLayout sheetDef (Z.of_nat (List.length layouts) + 1) placedParts in
          fillSheets fuel' sheetDef (sortByArea remainingParts)
                     (sheetsUsedForThisDef + 1)
                     (layouts ++ [layout])%list
                     (countSheet sheetDef totalSheetsUsed)
    end
  else Returned (partsToPlace, layouts, totalSheetsUsed).

(** [for (const sheetDef of sheetDefsForGroup)] *)
Fixpoint overSheetDefs (sheetDefs : list Sheet.t) (partsToPlace : list Part.t)
         (layouts : list SheetLayout.t) (totalSheetsUsed : Js.Obj Z)
  : outcome Progress :=
  match sheetDefs with
  | [] => Returned (partsToPlace, layouts, totalSheetsUsed)
  | sheetDef :: rest =>
      match partsToPlace with
      | [] => Returned (partsToPlace, layouts, totalSheetsUsed)
      | _ =>
          r <- fillSheets (List.length partsToPlace) sheetDef partsToPlace 0
                          layouts totalSheetsUsed ;;
          let '(partsToPlace', layouts', totalSheetsUsed') := r in
          overSheetDefs rest partsToPlace' layouts' totalSheetsUsed'
      end
  end.

Definition groupKey (part : Part.t) : string :=
  Part.grade part ++ "-" ++ Js.numToString (Part.thickness part).

(** [availableSheets.filter(s => s.grade === grade && s.thickness === thickness)]
    after [const [grade, thicknessStr] = key.split('-')]. *)
Definition sheetDefsFor (availableSheets : list Sheet.t) (key : string) : list Sheet.t :=
  let segments := Js.split "-" key in
  let thickness := Js.parseFloat (nth 1 segments "undefined") in
  filter (fun s =>
            match segments with
            | grade :: _ => String.eqb (Sheet.grade s) grade
            | [] => false
            end && Js.strictEq thickness (Sheet.thickness s))
         availableSheets.

Record SheetState : Type := mkSheetState
  { st_layouts : list SheetLayout.t;
    st_unplaced : list Part.t;
    st_totals : Js.Obj Z }.

(** The body of [for (const key in partGroups)]. *)
Definition nestGroup (availableSheets : list Sheet.t) (st : SheetState)
           (entry : string * list Part.t) : outcome SheetState :=
  let (key, group) := entry in
  match sheetDefsFor availableSheets key with
  | [] => Returned (mkSheetState (st_layouts st) (st_unplaced st ++ group)%list
                                 (st_totals st))
  | sheetDefsForGroup =>
      r <- overSheetDefs sheetDefsForGroup (sortByArea (flat_map expand group))
                         (st_layouts st) (st_totals st) ;;
      let '(partsToPlace, layouts, totalSheetsUsed) := r in
      Returned (mkSheetState layouts (st_unplaced st ++ partsToPlace)%list
                             totalSheetsUsed)
  end.

Fixpoint nestGroups (availableSheets : list Sheet.t)
         (groups : list (string * list Part.t)) (st : SheetState)
  : outcome SheetState :=
  match groups with
  | [] => Returned st
  | entry :: rest =>
      st' <- nestGroup availableSheets st entry ;;
      nestGroups availableSheets rest st'
  end.

(** [acc.find(p => p.originalId === part.originalId)] followed by
    [existing.quantity++]. *)
Fixpoint bumpQuantity (originalId : Z) (acc : list Part.t) : option (list Part.t) :=
  match acc with
  | [] => None
  | p :: r =>
      if Part.originalId p =? originalId
      then Some (Part.withQuantity p (S (Part.quantity p)) :: r)
      else option_map (cons p) (bumpQuantity originalId r)
  end.

Definition consolidateStep (acc : list Part.t) (part : Part.t) : list Part.t :=
  match bumpQuantity (Part.originalId part) acc with
  | Some acc' => acc'
  | None => (acc ++ [Part.withQuantity part 1%nat])%list
  end.

Definition consolidateUnplaced (unplacedParts : list Part.t) : list Part.t :=
  fold_left consolidateStep unplacedParts [].

Definition performSheetNesting (availableSheets : list Sheet.t)
           (parts : list Part.t) : outcome SheetNestingResult.t :=
  partGroups <- Js.groupBy groupKey parts [] ;;
  st <- nestGroups availableSheets (Js.forIn partGroups) (mkSheetState [] [] []) ;;
  let layouts := st_layouts st in
  let totalSheetArea :=
    sumZ (fun l => Sheet.length (SheetLayout.sheet l)
                   * Sheet.width (SheetLayout.sheet l)) layouts in
  let totalUsedArea := sumZ SheetLayout.usedArea layouts in
  Returned
    (SheetNestingResult.mk
       layouts
       (consolidateUnplaced (st_unplaced st))
       (st_totals st)
       (sumQ SheetLayout.usedWeight layouts)
       (sumQ SheetLayout.wasteWeight layouts)
       (percentage (totalSheetArea - totalUsedArea) totalSheetArea)
       totalUsedArea
       totalSheetArea).

End SheetPacker.

(** ** Linear packer *)

(** The packer on integers; [WithNaN] below has it on a stock length, end
    allowances and effective lengths that may be [NaN]. *)

Module LinearPart.
Record t : Type := mk
  { id : Z; length : Z; quantity : nat; effectiveLength : Z;
    rawMaterial : string }.

(** [{ ...p, quantity: q }] *)
Definition withQuantity (p : t) (q : nat) : t :=
  mk (id p) (length p) q (effectiveLength p) (rawMaterial p).
End LinearPart.

Module CutPart.
Record t : Type := mk
  { id : Z; length : Z; effectiveLength : Z; instanceId : string;
    rawMaterial : string }.
End CutPart.

Module StockLayout.
Record t : Type := mk
  { stockIndex : Z; stockLength : Z; cuts : list CutPart.t;
    usedLength : Z; wasteLength : Z; wastePercentage : Q;
    rawMaterial : string }.
End StockLayout.

Module LinearNestingResult.
Record t : Type := mk
  { layouts : list StockLayout.t; unplacedParts : list LinearPart.t;
    totalStockUsed : Z; totalWaste : Z; totalWastePercentage : Q }.
End LinearNestingResult.

(** [sort((a, b) => b.effectiveLength - a.effectiveLength)], stable. *)
Fixpoint insertByLength (a : CutPart.t) (l : list CutPart.t) : list CutPart.t :=
  match l with
  | [] => [a]
  | b :: r =>
      if CutPart.effectiveLength b - CutPart.effectiveLength a <=? 0
      then a :: l else b :: insertByLength a r
  end.

Definition sortByLength (l : list CutPart.t) : list CutPart.t :=
  fold_right insertByLength [] l.

Definition sumEffective (cuts : list CutPart.t) : Z :=
  fold_left (fun sum c => sum + CutPart.effectiveLength c) cuts 0.

(** The cut instances of one part: [instanceId] is [`${p.id}-${i}`]. *)
Definition instances (p : LinearPart.t) : list CutPart.t :=
  map (fun i =>
         CutPart.mk (LinearPart.id p) (LinearPart.length p)
                    (LinearPart.effectiveLength p)
                    (Js.numToString (LinearPart.id p) ++ "-"
                     ++ Js.numToString (Z.of_nat i))
                    (LinearPart.rawMaterial p))
      (seq 0 (LinearPart.quantity p)).

Fixpoint setNth {A : Type} (n : nat) (a : A) (l : list A) {struct l} : list A :=
  match l, n with
  | [], _ => []
  | _ :: r, O => a :: r
  | b :: r, S n' => b :: setNth n' a r
  end.

(** [[t[j], t[k]] = [t[k], t[j]]] *)
Definition swap {A : Type} (t : list A) (j k : nat) : list A :=
  match nth_error t j, nth_error t k with
  | Some tj, Some tk => setNth k tj (setNth j tk t)
  | _, _ => t
  end.

Definition SHUFFLE_ITERATIONS : nat := 50.

Section LinearPacker.

Variable stockLength : Z.
Variable optimizationGoal : OptimizationGoal.
Variables leftEndAllowance rightEndAllowance : Z.

(** The raw draws behind [Math.random]: the call number [n] yields
    [Math.floor(Math.random() * (j + 1)) = random n mod (j + 1)], and
    every index of [0 .. j] is the image of some draw. *)
Variable random : nat -> nat.

Definition usableStockLength : Z :=
  stockLength - leftEndAllowance - rightEndAllowance.

(** [partsInGroup.forEach]: immediate rejection, or expansion. *)
Fixpoint expandGroup (partsInGroup : list LinearPart.t)
         (allCutParts : list CutPart.t) (unplacedForGroup : list LinearPart.t)
  : list CutPart.t * list LinearPart.t :=
  match partsInGroup with
  | [] => (allCutParts, unplacedForGroup)
  | p :: r =>
      if LinearPart.effectiveLength p >? usableStockLength
      then expandGroup r allCutParts (unplacedForGroup ++ [p])%list
      else expandGroup r (allCutParts ++ instances p)%list unplacedForGroup
  end.

(** The greedy accumulation shared by the baseline and the trials. *)
Fixpoint accumulate (parts : list CutPart.t) (cuts : list CutPart.t)
         (usedLength : Z) : list CutPart.t * Z :=
  match parts with
  | [] => (cuts, usedLength)
  | part :: r =>
      if usedLength + CutPart.effectiveLength part <=? usableStockLength
      then accumulate r (cuts ++ [part])%list
                      (usedLength + CutPart.effectiveLength part)
      else accumulate r cuts usedLength
  end.

(** [for (let j = t.length - 1; j > 0; j--)]: one in-place shuffle,
    started at index [j]; [calls] counts the draws made so far. *)
Fixpoint shuffleFrom (j : nat) (t : list CutPart.t) (calls : nat)
  : list CutPart.t * nat :=
  match j with
  | O => (t, calls)
  | S j' =>
      let k := (random calls mod (j + 1))%nat in
      shuffleFrom j' (swap t j k) (S calls)
  end.

Definition shuffle (t : list CutPart.t) (calls : nat) : list CutPart.t * nat :=
  shuffleFrom (List.length t - 1) t calls.

(** The remaining [i] iterations of the trial loop. *)
Fixpoint trials (i : nat) (tempRemainingParts : list CutPart.t) (calls : nat)
         (bestCutsForThisBar : list CutPart.t) (bestWaste : Z)
  : list CutPart.t * Z * nat :=
  match i with
  | O => (bestCutsForThisBar, bestWaste, calls)
  | S i' =>
      let (temp', calls') := shuffle tempRemainingParts calls in
      let (currentCuts, currentUsed) := accumulate temp' [] 0 in
      let currentWaste := usableStockLength - currentUsed in
      if currentWaste <? bestWaste
      then trials i' temp' calls' currentCuts currentWaste
      else trials i' temp' calls' bestCutsForThisBar bestWaste
  end.

Definition minimizesWaste : bool :=
  match optimizationGoal with MINIMIZE_WASTE => true | PRIORITIZE_SPEED => false end.

(** The first-fit-decreasing baseline of one bar. *)
Definition greedyBaseline (allCutParts : list CutPart.t) : list CutPart.t * Z :=
  accumulate (sortByLength allCutParts) [] 0.

(** The cuts chosen for one bar, their waste, and the draws consumed. *)
Definition bestCutsFor (allCutParts : list CutPart.t) (calls : nat)
  : list CutPart.t * Z * nat :=
  let (greedyCuts, usedLength) := greedyBaseline allCutParts in
  let bestWaste := usableStockLength - usedLength in
  if minimizesWaste && (1 <? List.length allCutParts)%nat
  then trials SHUFFLE_ITERATIONS allCutParts calls greedyCuts bestWaste
  else (greedyCuts, bestWaste, calls).

(** The [Map] of the empty-bar branch, in insertion order. *)
Fixpoint countOriginal (original : LinearPart.t)
         (unplacedMap : list (Z * (LinearPart.t * nat)))
  : list (Z * (LinearPart.t * nat)) :=
  match unplacedMap with
  | [] => [(LinearPart.id original, (original, 1%nat))]
  | (k, (part, count)) :: r =>
      if k =? LinearPart.id original
      then (k, (part, S count)) :: r
      else (k, (part, count)) :: countOriginal original r
  end.

(** [partsInGroup.find(p => p.id === rcp.id)!] yields [undefined] when
    nothing matches, and reading [original.id] then throws. *)
Fixpoint rollBack (partsInGroup : list LinearPart.t) (allCutParts : list CutPart.t)
         (unplacedMap : list (Z * (LinearPart.t * nat)))
  : outcome (list (Z * (LinearPart.t * nat))) :=
  match allCutParts with
  | [] => Returned unplacedMap
  | rcp :: r =>
      match find (fun p => LinearPart.id p =? CutPart.id rcp) partsInGroup with
      | Some original => rollBack partsInGroup r (countOriginal original unplacedMap)
      | None => TypeError
      end
  end.

Definition removePlaced (bestCutsForThisBar allCutParts : list CutPart.t)
  : list CutPart.t :=
  let placedInstanceIds := map CutPart.instanceId bestCutsForThisBar in
  filter (fun p => negb (existsb (String.eqb (CutPart.instanceId p)) placedInstanceIds))
         allCutParts.

Definition newStockLayout (stockIndex : Z) (rawMaterial : string)
           (bestCutsForThisBar : list CutPart.t) : StockLayout.t :=
  StockLayout.mk stockIndex stockLength bestCutsForThisBar
                 (sumEffective bestCutsForThisBar) 0 0%Q rawMaterial.

(** What the bar loop carries besides the pool: the unplaced parts of the
    group, the layouts, the layout counter and the number of draws. *)
Record BarState : Type := mkBarState
  { bs_unplaced : list LinearPart.t;
    bs_layouts : list StockLayout.t;
    bs_counter : Z;
    bs_calls : nat }.

(** [while (allCutParts.length > 0)] *)
Fixpoint fillBars (fuel : nat) (rawMaterial : string)
         (partsInGroup : list LinearPart.t) (allCutParts : list CutPart.t)
         (st : BarState) : outcome BarState :=
  match allCutParts with
  | [] => Returned st
  | _ :: _ =>
      match fuel with
      | O => OutOfFuel
      | S fuel' =>
          let '(bestCutsForThisBar, _, calls') := bestCutsFor allCutParts (bs_calls st) in
          match bestCutsForThisBar with
          | [] =>
              unplacedMap <- rollBack partsInGroup allCutParts [] ;;
              Returned
                (mkBarState
                   (bs_unplaced st
                    ++ map (fun item => LinearPart.withQuantity (fst (snd item))
                                                                (snd (snd item)))
                           unplacedMap)%list
                   (bs_layouts st) (bs_counter st) calls')
          | _ :: _ =>
              fillBars fuel' rawMaterial partsInGroup
                       (removePlaced bestCutsForThisBar allCutParts)
                       (mkBarState
                          (bs_unplaced st)
                          (bs_layouts st
                           ++ [newStockLayout (bs_counter st) rawMaterial
                                              bestCutsForThisBar])%list
                          (bs_counter st + 1) calls')
          end
      end
  end.

Record LinearState : Type := mkLinearState
  { ls_layouts : list StockLayout.t;
    ls_unplaced : list LinearPart.t;
    ls_counter : Z;
    ls_calls : nat }.

(** The body of [for (const rawMaterial in partGroups)]. *)
Definition nestMaterial (st : LinearState) (entry : string * list LinearPart.t)
  : outcome LinearState :=
  let (rawMaterial, partsInGroup) := entry in
  let (allCutParts, unplacedForGroup) := expandGroup partsInGroup [] [] in
  bs <- fillBars (List.length allCutParts) rawMaterial partsInGroup allCutParts
                 (mkBarState unplacedForGroup (ls_layouts st) (ls_counter st)
                             (ls_calls st)) ;;
  Returned (mkLinearState (bs_layouts bs) (ls_unplaced st ++ bs_unplaced bs)%list
                          (bs_counter bs) (bs_calls bs)).

Fixpoint nestMaterials (groups : list (string * list LinearPart.t))
         (st : LinearState) : outcome LinearState :=
  match groups with
  | [] => Returned st
  | entry :: rest => st' <- nestMaterial st entry ;; nestMaterials rest st'
  end.

(** [allLayouts.forEach]: the waste of each committed layout. *)
Definition finalize (layout : StockLayout.t) : StockLayout.t :=
  let wasteLength := StockLayout.stockLength layout - StockLayout.usedLength layout in
  StockLayout.mk (StockLayout.stockIndex layout) (StockLayout.stockLength layout)
                 (StockLayout.cuts layout) (StockLayout.usedLength layout)
                 wasteLength
                 (percentage wasteLength (StockLayout.stockLength layout))
                 (StockLayout.rawMaterial layout).

(** [acc.find(p => p.id === part.id)] followed by
    [existing.quantity += part.quantity]. *)
Fixpoint addQuantity (part : LinearPart.t) (acc : list LinearPart.t)
  : option (list LinearPart.t) :=
  match acc with
  | [] => None
  | p :: r =>
      if LinearPart.id p =? LinearPart.id part
      then Some (LinearPart.withQuantity
                   p (LinearPart.quantity p + LinearPart.quantity part) :: r)
      else option_map (cons p) (addQuantity part r)
  end.

Definition consolidateLinearStep (acc : list LinearPart.t) (part : LinearPart.t)
  : list LinearPart.t :=
  match addQuantity part acc with
  | Some acc' => acc'
  | None => (acc ++ [part])%list
  end.

Definition consolidateLinear (allUnplacedParts : list LinearPart.t)
  : list LinearPart.t :=
  fold_left consolidateLinearStep allUnplacedParts [].

Definition performLinearNesting (parts : list LinearPart.t)
  : outcome LinearNestingResult.t :=
  partGroups <- Js.groupBy LinearPart.rawMaterial parts [] ;;
  st <- nestMaterials (Js.forIn partGroups) (mkLinearState [] [] 1 0%nat) ;;
  let allLayouts := map finalize (ls_layouts st) in
  let totalWaste := sumZ StockLayout.wasteLength allLayouts in
  let totalStockLength := Z.of_nat (List.length allLayouts) * stockLength in
  Returned
    (LinearNestingResult.mk
       allLayouts
       (consolidateLinear (ls_unplaced st))
       (Z.of_nat (List.length allLayouts))
       totalWaste
       (percentage totalWaste totalStockLength)).

End LinearPacker.

Arguments bestCutsFor : simpl never.

(** ** Parsers of the input forms (utils/helpers.ts) *)

(** The parsers read numbers out of text, so a number here is whatever
    [parseFloat] and [parseInt] yield: not-a-number, an infinity or a
    finite value ([Js.number]). *)
Module Num.

Definition isNaN (n : Js.number) : bool :=
  match n with Js.NaN => true | _ => false end.

(** [n <= 0], [n < 0], [n > 0] and [n === 0]; a comparison with [NaN] is
    false. *)
Definition leZero (n : Js.number) : bool :=
  match n with
  | Js.NaN => false
  | Js.Infinite negative => negative
  | Js.Finite q => Qle_bool q 0
  end.

Definition ltZero (n : Js.number) : bool :=
  match n with
  | Js.NaN => false
  | Js.Infinite negative => negative
  | Js.Finite q => negb (Qle_bool 0 q)
  end.

Definition gtZero (n : Js.number) : bool :=
  match n with
  | Js.NaN => false
  | Js.Infinite negative => negb negative
  | Js.Finite q => negb (Qle_bool q 0)
  end.

Definition isZero (n : Js.number) : bool :=
  match n with
  | Js.Finite q => Qeq_bool q 0
  | _ => false
  end.

End Num.

(** [arr.push(a)] *)
Definition push {A : Type} (arr : list A) (a : A) : list A := (arr ++ [a])%list.

(** The parts as the parsers build them. *)
Module ParsedLinearPart.
Record t : Type := mk
  { id : Z; rawMaterial : string; length : Js.number; quantity : Js.number;
    effectiveLength : Js.number }.
End ParsedLinearPart.

Module ParsedPart.
Record t : Type := mk
  { id : Z; originalId : Z; name : string; length : Js.number;
    width : Js.number; thickness : Js.number; grade : string;
    quantity : Js.number }.
End ParsedPart.

Section Parsers.

(** The built-ins that the parsers call on text and on numbers:
    [String.prototype.trim], [parseFloat], [parseInt(_, 10)] and the
    addition of two numbers.  They are left open, so that what is proved
    of the parsers holds whatever these return. *)
Variable trim : string -> string.
Variable parseFloat : string -> Js.number.
Variable parseInt : string -> Js.number.
Variable add : Js.number -> Js.number -> Js.number.

(** [`Error on line ${n}: ${what}`] *)
Definition errorOnLine (n : Z) (what : string) : string :=
  "Error on line " ++ Js.numToString n ++ ": " ++ what.

(** [s.split(sep).map(f => f.trim())] *)
Definition splitTrim (sep : ascii) (s : string) : list string :=
  map trim (Js.split sep s).

Definition nonEmpty (s : string) : bool :=
  match s with EmptyString => false | _ => true end.

(** The callback of [lines.forEach((line, i) => ...)] in
    [parseLinearParts]. *)
Definition parseLinearLine (allowance : Js.number)
           (acc : list ParsedLinearPart.t * list string) (i : nat) (line : string)
  : list ParsedLinearPart.t * list string :=
  let (parts, errors) := acc in
  let lineNum := Z.of_nat i + 1 in
  let fields := splitTrim "," line in
  match fields with
  | [rawMaterial; lengthStr; quantityStr] =>
      let length := parseFloat lengthStr in
      let quantity := parseInt quantityStr in
      if negb (nonEmpty rawMaterial) then
        (parts, push errors (errorOnLine lineNum "Raw material is missing."))
      else if Num.isNaN length || Num.isNaN quantity then
        (parts,
         push errors
              (errorOnLine lineNum "Invalid number format for length or quantity."))
      else if Num.leZero length || Num.ltZero quantity then
        (parts,
         push errors
              (errorOnLine lineNum
                           "Length must be positive and quantity non-negative."))
      else if Num.gtZero quantity then
        (push parts
              (ParsedLinearPart.mk (Z.of_nat i) rawMaterial length quantity
                                   (add length allowance)),
         errors)
      else (parts, errors)
  | _ =>
      (parts,
       push errors
            (errorOnLine lineNum
                         ("Expected 3 fields (raw material, length, quantity), but found "
                          ++ Js.numToString (Z.of_nat (List.length fields)) ++ ".")))
  end.

(** [forEach], from index [i]. *)
Fixpoint forEachLine (allowance : Js.number) (i : nat) (lines : list string)
         (acc : list ParsedLinearPart.t * list string)
  : list ParsedLinearPart.t * list string :=
  match lines with
  | [] => acc
  | line :: rest =>
      forEachLine allowance (S i) rest (parseLinearLine allowance acc i line)
  end.

(** [csvData.split('\n').map(s => s.trim()).filter(Boolean)] *)
Definition linearLines (csvData : string) : list string :=
  filter nonEmpty (splitTrim "010" csvData).

Definition parseLinearParts (csvData : string) (allowance : Js.number)
  : list ParsedLinearPart.t * list string :=
  forEachLine allowance 0 (linearLines csvData) ([], []).

(** [column[i] || ''] *)
Definition cell (column : list string) (i : nat) : string := nth i column "".

(** [column[i] === '']; an index out of range gives [undefined], which is
    not the empty string. *)
Definition isEmptyAt (column : list string) (i : nat) : bool :=
  match nth_error column i with
  | Some s => negb (nonEmpty s)
  | None => false
  end.

(** The body of [for (let i = 0; i < lineCount; i++)] in
    [parseSheetPartsFromColumns]. *)
Definition parseSheetRow
           (names lengths widths thicknesses grades quantities : list string)
           (acc : list ParsedPart.t * list string) (i : nat)
  : list ParsedPart.t * list string :=
  let (parts, errors) := acc in
  let lineNum := Z.of_nat i + 1 in
  let name := cell names i in
  let lengthStr := cell lengths i in
  let widthStr := cell widths i in
  let thicknessStr := cell thicknesses i in
  let grade := cell grades i in
  let quantityStr := cell quantities i in
  if negb (nonEmpty name) && negb (nonEmpty lengthStr) && negb (nonEmpty widthStr)
     && negb (nonEmpty thicknessStr) && negb (nonEmpty grade)
     && negb (nonEmpty quantityStr)
  then acc
  else
    let length := parseFloat lengthStr in
    let width := parseFloat widthStr in
    let thickness := parseFloat thicknessStr in
    let quantity := parseInt quantityStr in
    if negb (nonEmpty name) || Num.isNaN length || Num.isNaN width
       || Num.isNaN thickness || negb (nonEmpty grade) || Num.isNaN quantity
    then
      (parts,
       push errors
            (errorOnLine lineNum
                         "One or more fields have an invalid format or are missing."))
    else if Num.isZero quantity then acc
    else if Num.leZero length || Num.leZero width || Num.leZero thickness then
      (parts, push errors (errorOnLine lineNum "Dimensions must be positive numbers."))
    else if Num.ltZero quantity then
      (parts, push errors (errorOnLine lineNum "Quantity must be a positive number."))
    else
      (push parts
            (ParsedPart.mk lineNum lineNum name length width thickness grade quantity),
       errors).

Definition parseSheetPartsFromColumns
           (namesStr lengthsStr widthsStr thicknessesStr gradesStr quantitiesStr : string)
  : list ParsedPart.t * list string :=
  let names := splitTrim "010" namesStr in
  let lengths := splitTrim "010" lengthsStr in
  let widths := splitTrim "010" widthsStr in
  let thicknesses := splitTrim "010" thicknessesStr in
  let grades := splitTrim "010" gradesStr in
  let quantities := splitTrim "010" quantitiesStr in
  let lineCount :=
    fold_left Nat.max
              [List.length lengths; List.length widths; List.length thicknesses;
               List.length grades; List.length quantities]
              (List.length names) in
  if (lineCount =? 1)%nat
     && isEmptyAt names 0 && isEmptyAt lengths 0 && isEmptyAt widths 0
     && isEmptyAt thicknesses 0 && isEmptyAt grades 0 && isEmptyAt quantities 0
  then ([], [])
  else
    fold_left (parseSheetRow names lengths widths thicknesses grades quantities)
              (seq 0 lineCount) ([], []).

End Parsers.

(** ** The packers on numbers that may be [NaN] *)

(** The forms hand the clearances, the stock length, the end allowances
    and the kerf to the packers as [parseFloat] reads them, so a field left
    blank arrives as [NaN].  A number of this part of the embedding is an
    integer or [NaN]: a sum, a difference or a product with [NaN] is [NaN],
    and every comparison with [NaN] is false. *)
Module Number.

Inductive t : Type :=
| NaN
| Int (z : Z).

Definition add (a b : t) : t :=
  match a, b with
  | Int x, Int y => Int (x + y)
  | _, _ => NaN
  end.

Definition sub (a b : t) : t :=
  match a, b with
  | Int x, Int y => Int (x - y)
  | _, _ => NaN
  end.

Definition mul (a b : t) : t :=
  match a, b with
  | Int x, Int y => Int (x * y)
  | _, _ => NaN
  end.

Definition ltb (a b : t) : bool :=
  match a, b with
  | Int x, Int y => x <? y
  | _, _ => false
  end.

Definition leb (a b : t) : bool :=
  match a, b with
  | Int x, Int y => x <=? y
  | _, _ => false
  end.

Definition gtb (a b : t) : bool :=
  match a, b with
  | Int x, Int y => x >? y
  | _, _ => false
  end.

(** [a === b] *)
Definition eqb (a b : t) : bool :=
  match a, b with
  | Int x, Int y => x =? y
  | _, _ => false
  end.

Definition isNaN (a : t) : bool :=
  match a with NaN => true | Int _ => false end.

(** The result [v] of a sort comparator is not above zero; the sort reads
    a result of [NaN] as [+0]. *)
Definition notPositive (v : t) : bool :=
  match v with
  | Int z => z <=? 0
  | NaN => true
  end.

(** [l.reduce((acc, a) => acc + f(a), 0)] *)
Definition sum {A : Type} (f : A -> t) (l : list A) : t :=
  fold_left (fun acc a => add acc (f a)) l (Int 0).

(** [whole > 0 ? (part / whole) * 100 : 0]; [None] stands for [NaN]. *)
Definition percentage (part whole : t) : option Q :=
  if gtb whole (Int 0) then
    match part, whole with
    | Int p, Int w => Some ((inject_Z p / inject_Z w) * 100)%Q
    | _, _ => None
    end
  else Some 0%Q.

End Number.

Declare Scope number_scope.
Delimit Scope number_scope with num.
Bind Scope number_scope with Number.t.
Infix "+" := Number.add : number_scope.
Infix "-" := Number.sub : number_scope.
Infix "*" := Number.mul : number_scope.
Infix "<?" := Number.ltb : number_scope.
Infix "<=?" := Number.leb : number_scope.
Infix ">?" := Number.gtb : number_scope.
Infix "=?" := Number.eqb : number_scope.

Module WithNaN.

(** *** Sheet packer *)

(** The parts and the sheets keep the integer fields of [Part] and [Sheet]:
    the parser refuses a part with a field that is not a number, and the
    form of the sheets stores [parseFloat(value) || 0].  The clearances are
    passed as they are read, so the coordinates computed from them may be
    [NaN] as well. *)
Module PlacedPart.
Record t : Type := mk { part : Part.t; x : Number.t; y : Number.t; rotated : bool }.

Definition extentH (p : t) : Z :=
  if rotated p then Part.length (part p) else Part.width (part p).
Definition extentV (p : t) : Z :=
  if rotated p then Part.width (part p) else Part.length (part p).
End PlacedPart.

Module SheetLayout.
Record t : Type := mk
  { sheet : Sheet.t; sheetIndex : Z; placedParts : list PlacedPart.t;
    usedArea : Z; wasteArea : Z; wastePercentage : Q;
    usedWeight : Q; wasteWeight : Q }.
End SheetLayout.

Module SheetNestingResult.
Record t : Type := mk
  { layouts : list SheetLayout.t; unplacedParts : list Part.t;
    totalSheetsUsed : Js.Obj Z;
    totalUsedWeight : Q; totalWasteWeight : Q; totalWastePercentage : Q;
    totalUsedArea : Z; totalSheetArea : Z }.
End SheetNestingResult.

Record Point : Type := mkPoint { px : Number.t; py : Number.t }.

Record Position : Type :=
  mkPosition { pos_x : Number.t; pos_y : Number.t; pos_rotated : bool }.

Definition overlaps (width height : Z) (pos : Point) (other : PlacedPart.t)
           (partToPartDist : Number.t) : bool :=
  let otherWidth := Number.Int (PlacedPart.extentH other) in
  let otherHeight := Number.Int (PlacedPart.extentV other) in
  (px pos <? PlacedPart.x other + otherWidth + partToPartDist)%num
  && (PlacedPart.x other <? px pos + Number.Int width + partToPartDist)%num
  && (py pos <? PlacedPart.y other + otherHeight + partToPartDist)%num
  && (PlacedPart.y other <? py pos + Number.Int height + partToPartDist)%num.

Definition canPlace (width height : Z) (pos : Point) (sheet : Sheet.t)
           (placedParts : list PlacedPart.t)
           (partToPartDist partToSheetDist : Number.t) : bool :=
  if (px pos <? partToSheetDist)%num || (py pos <? partToSheetDist)%num then false
  else if (px pos + Number.Int width >? Number.Int (Sheet.length sheet) - partToSheetDist)%num
  then false
  else if (py pos + Number.Int height >? Number.Int (Sheet.width sheet) - partToSheetDist)%num
  then false
  else negb (existsb (fun other => overlaps width height pos other partToPartDist)
                     placedParts).

(** [bestY] and [bestX] start at [Infinity]; [NaN] is not below it. *)
Inductive bound : Type := Fin (n : Number.t) | Infinity.

Definition ltb_bound (n : Number.t) (b : bound) : bool :=
  match b with Fin b' => (n <? b')%num | Infinity => negb (Number.isNaN n) end.

Definition eqb_bound (n : Number.t) (b : bound) : bool :=
  match b with Fin b' => (n =? b')%num | Infinity => false end.

Record Best : Type := mkBest
  { bestPos : option Position; bestY : bound; bestX : bound }.

Definition candidatePoints (placedParts : list PlacedPart.t)
           (partToPartDist partToSheetDist : Number.t) : list Point :=
  mkPoint partToSheetDist partToSheetDist
  :: flat_map
       (fun p =>
          [ mkPoint (PlacedPart.x p + Number.Int (PlacedPart.extentH p) + partToPartDist)%num
                    (PlacedPart.y p);
            mkPoint (PlacedPart.x p)
                    (PlacedPart.y p + Number.Int (PlacedPart.extentV p) + partToPartDist)%num ])
       placedParts.

Definition tryPoint (sheet : Sheet.t) (placedParts : list PlacedPart.t)
           (partToPartDist partToSheetDist : Number.t)
           (width height : Z) (rotated : bool) (b : Best) (point : Point) : Best :=
  if canPlace width height point sheet placedParts partToPartDist partToSheetDist
  then
    if ltb_bound (py point) (bestY b)
       || (eqb_bound (py point) (bestY b) && ltb_bound (px point) (bestX b))
    then mkBest (Some (mkPosition (px point) (py point) rotated))
                (Fin (py point)) (Fin (px point))
    else b
  else b.

Definition tryPlacing (sheet : Sheet.t) (placedParts : list PlacedPart.t)
           (partToPartDist partToSheetDist : Number.t)
           (width height : Z) (rotated : bool) (b : Best) : Best :=
  fold_left
    (tryPoint sheet placedParts partToPartDist partToSheetDist width height rotated)
    (candidatePoints placedParts partToPartDist partToSheetDist) b.

Definition findBestPosition (part : Part.t) (sheet : Sheet.t)
           (placedParts : list PlacedPart.t)
           (partToPartDist partToSheetDist : Number.t)
           (rotation : RotationOption) : option Position :=
  let b0 := mkBest None Infinity Infinity in
  let b1 := tryPlacing sheet placedParts partToPartDist partToSheetDist
                       (Part.width part) (Part.length part) false b0 in
  let b2 := if permitsRotation rotation
            then tryPlacing sheet placedParts partToPartDist partToSheetDist
                            (Part.length part) (Part.width part) true b1
            else b1 in
  bestPos b2.

Definition place (part : Part.t) (pos : Position) : PlacedPart.t :=
  PlacedPart.mk part (pos_x pos) (pos_y pos) (pos_rotated pos).

Section SheetPacker.

Variables (partToPartDist partToSheetDist : Number.t).
Variable rotation : RotationOption.
Variable material : Material.t.

Fixpoint placeOnSheet (sheetDef : Sheet.t) (partsToPlace : list Part.t)
         (placedParts : list PlacedPart.t) (remainingParts : list Part.t)
         (partsPlacedOnThisSheet : nat)
  : list PlacedPart.t * list Part.t * nat :=
  match partsToPlace with
  | [] => (placedParts, remainingParts, partsPlacedOnThisSheet)
  | part :: rest =>
      match findBestPosition part sheetDef placedParts
                             partToPartDist partToSheetDist rotation with
      | Some position =>
          placeOnSheet sheetDef rest (placedParts ++ [place part position])%list
                       remainingParts (S partsPlacedOnThisSheet)
      | None =>
          placeOnSheet sheetDef rest placedParts
                       (remainingParts ++ [part])%list partsPlacedOnThisSheet
      end
  end.

Definition finishLayout (sheetDef : Sheet.t) (sheetIndex : Z)
           (placedParts : list PlacedPart.t) : SheetLayout.t :=
  let sheetArea := Sheet.length sheetDef * Sheet.width sheetDef in
  let usedArea := sumZ (fun p => area (PlacedPart.part p)) placedParts in
  let wasteArea := sheetArea - usedArea in
  SheetLayout.mk sheetDef sheetIndex placedParts usedArea wasteArea
                 (percentage wasteArea sheetArea)
                 (volumeToWeight material sheetDef usedArea)
                 (volumeToWeight material sheetDef wasteArea).

Definition Progress : Type := (list Part.t * list SheetLayout.t * Js.Obj Z)%type.

Fixpoint fillSheets (fuel : nat) (sheetDef : Sheet.t)
         (partsToPlace : list Part.t) (sheetsUsedForThisDef : Z)
         (layouts : list SheetLayout.t) (totalSheetsUsed : Js.Obj Z)
  : outcome Progress :=
  if (0 <? List.length partsToPlace)%nat
     && (sheetsUsedForThisDef <? Sheet.quantity sheetDef)
  then
    match fuel with
    | O => OutOfFuel
    | S fuel' =>
        let '(placedParts, remainingParts, partsPlacedOnThisSheet) :=
          placeOnSheet sheetDef partsToPlace [] [] 0%nat in
        if (partsPlacedOnThisSheet =? 0)%nat
        then Returned (partsToPlace, layouts, totalSheetsUsed)
        else
          let layout :=
            finishLayout sheetDef (Z.of_nat (List.length layouts) + 1) placedParts in
          fillSheets fuel' sheetDef (sortByArea remainingParts)
                     (sheetsUsedForThisDef + 1)
                     (layouts ++ [layout])%list
                     (countSheet sheetDef totalSheetsUsed)
    end
  else Returned (partsToPlace, layouts, totalSheetsUsed).

Fixpoint overSheetDefs (sheetDefs : list Sheet.t) (partsToPlace : list Part.t)
         (layouts : list SheetLayout.t) (totalSheetsUsed : Js.Obj Z)
  : outcome Progress :=
  match sheetDefs with
  | [] => Returned (partsToPlace, layouts, totalSheetsUsed)
  | sheetDef :: rest =>
      match partsToPlace with
      | [] => Returned (partsToPlace, layouts, totalSheetsUsed)
      | _ =>
          r <- fillSheets (List.length partsToPlace) sheetDef partsToPlace 0
                          layouts totalSheetsUsed ;;
          let '(partsToPlace', layouts', totalSheetsUsed') := r in
          overSheetDefs rest partsToPlace' layouts' totalSheetsUsed'
      end
  end.

Record SheetState : Type := mkSheetState
  { st_layouts : list SheetLayout.t;
    st_unplaced : list Part.t;
    st_totals : Js.Obj Z }.

Definition nestGroup (availableSheets : list Sheet.t) (st : SheetState)
           (entry : string * list Part.t) : outcome SheetState :=
  let (key, group) := entry in
  match sheetDefsFor availableSheets key with
  | [] => Returned (mkSheetState (st_layouts st) (st_unplaced st ++ group)%list
                                 (st_totals st))
  | sheetDefsForGroup =>
      r <- overSheetDefs sheetDefsForGroup (sortByArea (flat_map expand group))
                         (st_layouts st) (st_totals st) ;;
      let '(partsToPlace, layouts, totalSheetsUsed) := r in
      Returned (mkSheetState layouts (st_unplaced st ++ partsToPlace)%list
                             totalSheetsUsed)
  end.

Fixpoint nestGroups (availableSheets : list Sheet.t)
         (groups : list (string * list Part.t)) (st : SheetState)
  : outcome SheetState :=
  match groups with
  | [] => Returned st
  | entry :: rest =>
      st' <- nestGroup availableSheets st entry ;;
      nestGroups availableSheets rest st'
  end.

Definition performSheetNesting (availableSheets : list Sheet.t)
           (parts : list Part.t) : outcome SheetNestingResult.t :=
  partGroups <- Js.groupBy groupKey parts [] ;;
  st <- nestGroups availableSheets (Js.forIn partGroups) (mkSheetState [] [] []) ;;
  let layouts := st_layouts st in
  let totalSheetArea :=
    sumZ (fun l => Sheet.length (SheetLayout.sheet l)
                   * Sheet.width (SheetLayout.sheet l)) layouts in
  let totalUsedArea := sumZ SheetLayout.usedArea layouts in
  Returned
    (SheetNestingResult.mk
       layouts
       (consolidateUnplaced (st_unplaced st))
       (st_totals st)
       (sumQ SheetLayout.usedWeight layouts)
       (sumQ SheetLayout.wasteWeight layouts)
       (percentage (totalSheetArea - totalUsedArea) totalSheetArea)
       totalUsedArea
       totalSheetArea).

End SheetPacker.

(** *** Linear packer *)

(** The stock length and the end allowances are passed as they are read,
    and [effectiveLength] is the sum of a length and of the kerf as it is
    read; the parser refuses the other fields of a part when they are not
    numbers. *)
Module LinearPart.
Record t : Type := mk
  { id : Z; length : Z; quantity : nat; effectiveLength : Number.t;
    rawMaterial : string }.

Definition withQuantity (p : t) (q : nat) : t :=
  mk (id p) (length p) q (effectiveLength p) (rawMaterial p).
End LinearPart.

Module CutPart.
Record t : Type := mk
  { id : Z; length : Z; effectiveLength : Number.t; instanceId : string;
    rawMaterial : string }.
End CutPart.

Module StockLayout.
Record t : Type := mk
  { stockIndex : Z; stockLength : Number.t; cuts : list CutPart.t;
    usedLength : Number.t; wasteLength : Number.t; wastePercentage : option Q;
    rawMaterial : string }.
End StockLayout.

Module LinearNestingResult.
Record t : Type := mk
  { layouts : list StockLayout.t; unplacedParts : list LinearPart.t;
    totalStockUsed : Z; totalWaste : Number.t; totalWastePercentage : option Q }.
End LinearNestingResult.

(** [sort((a, b) => b.effectiveLength - a.effectiveLength)], stable.  When
    all the effective lengths are [NaN] every comparison reads [+0] and the
    order is kept; when only some are, the comparator is not consistent and
    the order is left to the engine, which the insertion below does not
    claim to follow. *)
Fixpoint insertByLength (a : CutPart.t) (l : list CutPart.t) : list CutPart.t :=
  match l with
  | [] => [a]
  | b :: r =>
      if Number.notPositive (CutPart.effectiveLength b - CutPart.effectiveLength a)
      then a :: l else b :: insertByLength a r
  end.

Definition sortByLength (l : list CutPart.t) : list CutPart.t :=
  fold_right insertByLength [] l.

Definition sumEffective (cuts : list CutPart.t) : Number.t :=
  Number.sum CutPart.effectiveLength cuts.

Definition instances (p : LinearPart.t) : list CutPart.t :=
  map (fun i =>
         CutPart.mk (LinearPart.id p) (LinearPart.length p)
                    (LinearPart.effectiveLength p)
                    (Js.numToString (LinearPart.id p) ++ "-"
                     ++ Js.numToString (Z.of_nat i))
                    (LinearPart.rawMaterial p))
      (seq 0 (LinearPart.quantity p)).

Section LinearPacker.

Variable stockLength : Number.t.
Variable optimizationGoal : OptimizationGoal.
Variables leftEndAllowance rightEndAllowance : Number.t.
Variable random : nat -> nat.

Definition usableStockLength : Number.t :=
  stockLength - leftEndAllowance - rightEndAllowance.

Fixpoint expandGroup (partsInGroup : list LinearPart.t)
         (allCutParts : list CutPart.t) (unplacedForGroup : list LinearPart.t)
  : list CutPart.t * list LinearPart.t :=
  match partsInGroup with
  | [] => (allCutParts, unplacedForGroup)
  | p :: r =>
      if (LinearPart.effectiveLength p >? usableStockLength)%num
      then expandGroup r allCutParts (unplacedForGroup ++ [p])%list
      else expandGroup r (allCutParts ++ instances p)%list unplacedForGroup
  end.

Fixpoint accumulate (parts : list CutPart.t) (cuts : list CutPart.t)
         (usedLength : Number.t) : list CutPart.t * Number.t :=
  match parts with
  | [] => (cuts, usedLength)
  | part :: r =>
      if (usedLength + CutPart.effectiveLength part <=? usableStockLength)%num
      then accumulate r (cuts ++ [part])%list
                      (usedLength + CutPart.effectiveLength part)%num
      else accumulate r cuts usedLength
  end.

Fixpoint shuffleFrom (j : nat) (t : list CutPart.t) (calls : nat)
  : list CutPart.t * nat :=
  match j with
  | O => (t, calls)
  | S j' =>
      let k := (random calls mod (j + 1))%nat in
      shuffleFrom j' (swap t j k) (S calls)
  end.

Definition shuffle (t : list CutPart.t) (calls : nat) : list CutPart.t * nat :=
  shuffleFrom (List.length t - 1) t calls.

Fixpoint trials (i : nat) (tempRemainingParts : list CutPart.t) (calls : nat)
         (bestCutsForThisBar : list CutPart.t) (bestWaste : Number.t)
  : list CutPart.t * Number.t * nat :=
  match i with
  | O => (bestCutsForThisBar, bestWaste, calls)
  | S i' =>
      let (temp', calls') := shuffle tempRemainingParts calls in
      let (currentCuts, currentUsed) := accumulate temp' [] (Number.Int 0) in
      let currentWaste := (usableStockLength - currentUsed)%num in
      if (currentWaste <? bestWaste)%num
      then trials i' temp' calls' currentCuts currentWaste
      else trials i' temp' calls' bestCutsForThisBar bestWaste
  end.

Definition minimizesWaste : bool :=
  match optimizationGoal with MINIMIZE_WASTE => true | PRIORITIZE_SPEED => false end.

Definition greedyBaseline (allCutParts : list CutPart.t)
  : list CutPart.t * Number.t :=
  accumulate (sortByLength allCutParts) [] (Number.Int 0).

Definition bestCutsFor (allCutParts : list CutPart.t) (calls : nat)
  : list CutPart.t * Number.t * nat :=
  let (greedyCuts, usedLength) := greedyBaseline allCutParts in
  let bestWaste := (usableStockLength - usedLength)%num in
  if minimizesWaste && (1 <? List.length allCutParts)%nat
  then trials SHUFFLE_ITERATIONS allCutParts calls greedyCuts bestWaste
  else (greedyCuts, bestWaste, calls).

Fixpoint countOriginal (original : LinearPart.t)
         (unplacedMap : list (Z * (LinearPart.t * nat)))
  : list (Z * (LinearPart.t * nat)) :=
  match unplacedMap with
  | [] => [(LinearPart.id original, (original, 1%nat))]
  | (k, (part, count)) :: r =>
      if k =? LinearPart.id original
      then (k, (part, S count)) :: r
      else (k, (part, count)) :: countOriginal original r
  end.

Fixpoint rollBack (partsInGroup : list LinearPart.t) (allCutParts : list CutPart.t)
         (unplacedMap : list (Z * (LinearPart.t * nat)))
  : outcome (list (Z * (LinearPart.t * nat))) :=
  match allCutParts with
  | [] => Returned unplacedMap
  | rcp :: r =>
      match find (fun p => LinearPart.id p =? CutPart.id rcp) partsInGroup with
      | Some original => rollBack partsInGroup r (countOriginal original unplacedMap)
      | None => TypeError
      end
  end.

Definition removePlaced (bestCutsForThisBar allCutParts : list CutPart.t)
  : list CutPart.t :=
  let placedInstanceIds := map CutPart.instanceId bestCutsForThisBar in
  filter (fun p => negb (existsb (String.eqb (CutPart.instanceId p)) placedInstanceIds))
         allCutParts.

Definition newStockLayout (stockIndex : Z) (rawMaterial : string)
           (bestCutsForThisBar : list CutPart.t) : StockLayout.t :=
  StockLayout.mk stockIndex stockLength bestCutsForThisBar
                 (sumEffective bestCutsForThisBar) (Number.Int 0) (Some 0%Q) rawMaterial.

Record BarState : Type := mkBarState
  { bs_unplaced : list LinearPart.t;
    bs_layouts : list StockLayout.t;
    bs_counter : Z;
    bs_calls : nat }.

Fixpoint fillBars (fuel : nat) (rawMaterial : string)
         (partsInGroup : list LinearPart.t) (allCutParts : list CutPart.t)
         (st : BarState) : outcome BarState :=
  match allCutParts with
  | [] => Returned st
  | _ :: _ =>
      match fuel with
      | O => OutOfFuel
      | S fuel' =>
          let '(bestCutsForThisBar, _, calls') := bestCutsFor allCutParts (bs_calls st) in
          match bestCutsForThisBar with
          | [] =>
              unplacedMap <- rollBack partsInGroup allCutParts [] ;;
              Returned
                (mkBarState
                   (bs_unplaced st
                    ++ map (fun item => LinearPart.withQuantity (fst (snd item))
                                                                (snd (snd item)))
                           unplacedMap)%list
                   (bs_layouts st) (bs_counter st) calls')
          | _ :: _ =>
              fillBars fuel' rawMaterial partsInGroup
                       (removePlaced bestCutsForThisBar allCutParts)
                       (mkBarState
                          (bs_unplaced st)
                          (bs_layouts st
                           ++ [newStockLayout (bs_counter st) rawMaterial
                                              bestCutsForThisBar])%list
                          (bs_counter st + 1) calls')
          end
      end
  end.

Record LinearState : Type := mkLinearState
  { ls_layouts : list StockLayout.t;
    ls_unplaced : list LinearPart.t;
    ls_counter : Z;
    ls_calls : nat }.

Definition nestMaterial (st : LinearState) (entry : string * list LinearPart.t)
  : outcome LinearState :=
  let (rawMaterial, partsInGroup) := entry in
  let (allCutParts, unplacedForGroup) := expandGroup partsInGroup [] [] in
  bs <- fillBars (List.length allCutParts) rawMaterial partsInGroup allCutParts
                 (mkBarState unplacedForGroup (ls_layouts st) (ls_counter st)
                             (ls_calls st)) ;;
  Returned (mkLinearState (bs_layouts bs) (ls_unplaced st ++ bs_unplaced bs)%list
                          (bs_counter bs) (bs_calls bs)).

Fixpoint nestMaterials (groups : list (string * list LinearPart.t))
         (st : LinearState) : outcome LinearState :=
  match groups with
  | [] => Returned st
  | entry :: rest => st' <- nestMaterial st entry ;; nestMaterials rest st'
  end.

Definition finalize (layout : StockLayout.t) : StockLayout.t :=
  let wasteLength :=
    (StockLayout.stockLength layout - StockLayout.usedLength layout)%num in
  StockLayout.mk (StockLayout.stockIndex layout) (StockLayout.stockLength layout)
                 (StockLayout.cuts layout) (StockLayout.usedLength layout)
                 wasteLength
                 (Number.percentage wasteLength (StockLayout.stockLength layout))
                 (StockLayout.rawMaterial layout).

Fixpoint addQuantity (part : LinearPart.t) (acc : list LinearPart.t)
  : option (list LinearPart.t) :=
  match acc with
  | [] => None
  | p :: r =>
      if LinearPart.id p =? LinearPart.id part
      then Some (LinearPart.withQuantity
                   p (LinearPart.quantity p + LinearPart.quantity part) :: r)
      else option_map (cons p) (addQuantity part r)
  end.

Definition consolidateLinearStep (acc : list LinearPart.t) (part : LinearPart.t)
  : list LinearPart.t :=
  match addQuantity part acc with
  | Some acc' => acc'
  | None => (acc ++ [part])%list
  end.

Definition consolidateLinear (allUnplacedParts : list LinearPart.t)
  : list LinearPart.t :=
  fold_left consolidateLinearStep allUnplacedParts [].

Definition performLinearNesting (parts : list LinearPart.t)
  : outcome LinearNestingResult.t :=
  partGroups <- Js.groupBy LinearPart.rawMaterial parts [] ;;
  st <- nestMaterials (Js.forIn partGroups) (mkLinearState [] [] 1 0%nat) ;;
  let allLayouts := map finalize (ls_layouts st) in
  let totalWaste := Number.sum StockLayout.wasteLength allLayouts in
  let totalStockLength := (Number.Int (Z.of_nat (List.length allLayouts)) * stockLength)%num in
  Returned
    (LinearNestingResult.mk
       allLayouts
       (consolidateLinear (ls_unplaced st))
       (Z.of_nat (List.length allLayouts))
       totalWaste
       (Number.percentage totalWaste totalStockLength)).

End LinearPacker.

End WithNaN.

Arguments WithNaN.bestCutsFor : simpl never.

(** ** Notions used to state the properties *)

(** Two placed parts clash when the overlap test of [canPlace], taken with
    the extents and the corner of the first, succeeds against the second. *)
Definition clash (partToPartDist : Z) (a b : PlacedPart.t) : bool :=
  overlaps (PlacedPart.extentH a) (PlacedPart.extentV a)
           (mkPoint (PlacedPart.x a) (PlacedPart.y a)) b partToPartDist.

(** The overlap test fails on at least one axis: along one of them the two
    parts are at least the clearance apart. *)
Definition separated (partToPartDist : Z) (a b : PlacedPart.t) : Prop :=
  PlacedPart.x b + PlacedPart.extentH b + partToPartDist <= PlacedPart.x a
  \/ PlacedPart.x a + PlacedPart.extentH a + partToPartDist <= PlacedPart.x b
  \/ PlacedPart.y b + PlacedPart.extentV b + partToPartDist <= PlacedPart.y a
  \/ PlacedPart.y a + PlacedPart.extentV a + partToPartDist <= PlacedPart.y b.

(** No two parts at different indices of a layout clash. *)
Definition clashFree (partToPartDist : Z) (placed : list PlacedPart.t) : Prop :=
  forall i j a b,
    i <> j -> nth_error placed i = Some a -> nth_error placed j = Some b ->
    clash partToPartDist a b = false.

(** [(y1, x1)] is not after [(y2, x2)] in the bottom-left order. *)
Definition bottomLeftLe (y1 x1 y2 x2 : Z) : Prop :=
  y1 < y2 \/ (y1 = y2 /\ x1 <= x2).

(** [(y1, x1)] is strictly before [(y2, x2)]. *)
Definition bottomLeftLt (y1 x1 y2 x2 : Z) : Prop :=
  y1 < y2 \/ (y1 = y2 /\ x1 < x2).

(** [bestY] and [bestX] are the coordinates of [bestPos]. *)
Definition bestOk (b : Best) : Prop :=
  match bestPos b with
  | None => bestY b = Infinity /\ bestX b = Infinity
  | Some pos => bestY b = Fin (pos_y pos) /\ bestX b = Fin (pos_x pos)
  end.

(** The extents tried for an orientation of a part. *)
Definition extentsOf (part : Part.t) (rotated : bool) : Z * Z :=
  if rotated then (Part.length part, Part.width part)
  else (Part.width part, Part.length part).

(** A candidate point at which the part fits in the given orientation. *)
Definition feasible (part : Part.t) (sheet : Sheet.t)
           (placedParts : list PlacedPart.t)
           (partToPartDist partToSheetDist : Z)
           (rotated : bool) (point : Point) : Prop :=
  In point (candidatePoints placedParts partToPartDist partToSheetDist)
  /\ canPlace (fst (extentsOf part rotated)) (snd (extentsOf part rotated))
              point sheet placedParts partToPartDist partToSheetDist = true.

(** A layout as the sheet packer builds it: one pass of [placeOnSheet]
    over a pool of the group [key], on a sheet selected for that key. *)
Definition builtLayout (partToPartDist partToSheetDist : Z)
           (rotation : RotationOption) (material : Material.t)
           (availableSheets : list Sheet.t) (layout : SheetLayout.t) : Prop :=
  exists key sheetDef pool sheetIndex placedParts remainingParts count,
    In sheetDef (sheetDefsFor availableSheets key)
    /\ Forall (fun p => groupKey p = key) pool
    /\ placeOnSheet partToPartDist partToSheetDist rotation sheetDef pool [] [] 0%nat
       = (placedParts, remainingParts, count)
    /\ layout = finishLayout material sheetDef sheetIndex placedParts.

(** The candidates of the trial loop, in the order in which they are found. *)
Fixpoint trialResults (stockLength leftEndAllowance rightEndAllowance : Z)
         (random : nat -> nat) (i : nat) (tempRemainingParts : list CutPart.t)
         (calls : nat) : list (list CutPart.t * Z) :=
  match i with
  | O => []
  | S i' =>
      let (temp', calls') := shuffle random tempRemainingParts calls in
      let (currentCuts, currentUsed) :=
        accumulate stockLength leftEndAllowance rightEndAllowance temp' [] 0 in
      (currentCuts,
       usableStockLength stockLength leftEndAllowance rightEndAllowance - currentUsed)
      :: trialResults stockLength leftEndAllowance rightEndAllowance random
                      i' temp' calls'
  end.

(** What every candidate of a bar satisfies: its recorded waste is the
    usable length minus the lengths of its cuts, its cuts come from the
    pool, and they fit the bar unless there are none. *)
Definition candidateOk (stockLength leftEndAllowance rightEndAllowance : Z)
           (pool cuts : list CutPart.t) (waste : Z) : Prop :=
  waste = usableStockLength stockLength leftEndAllowance rightEndAllowance
          - sumEffective cuts
  /\ incl cuts pool
  /\ (cuts = []
      \/ sumEffective cuts
         <= usableStockLength stockLength leftEndAllowance rightEndAllowance).

(** A bar as the linear packer commits it: the cuts chosen by
    [bestCutsFor] on a non-empty pool whose instances all fit a bar. *)
Definition committedBar (stockLength : Z) (optimizationGoal : OptimizationGoal)
           (leftEndAllowance rightEndAllowance : Z) (random : nat -> nat)
           (pool : list CutPart.t) (calls : nat) (layout : StockLayout.t) : Prop :=
  pool <> []
  /\ StockLayout.cuts layout
     = fst (fst (bestCutsFor stockLength optimizationGoal leftEndAllowance
                             rightEndAllowance random pool calls))
  /\ StockLayout.cuts layout <> []
  /\ StockLayout.usedLength layout = sumEffective (StockLayout.cuts layout)
  /\ StockLayout.stockLength layout = stockLength.

(** A layout committed by the bar loop on some pool that fits. *)
Definition barOf (stockLength : Z) (optimizationGoal : OptimizationGoal)
           (leftEndAllowance rightEndAllowance : Z) (random : nat -> nat)
           (layout : StockLayout.t) : Prop :=
  exists pool calls,
    Forall (fun c => CutPart.effectiveLength c
                     <= usableStockLength stockLength leftEndAllowance
                                          rightEndAllowance) pool
    /\ committedBar stockLength optimizationGoal leftEndAllowance
                    rightEndAllowance random pool calls layout.

(** Quantities of a part identity in the input and in a sheet result. *)
Definition requestedQuantity (originalId : Z) (parts : list Part.t) : nat :=
  list_sum (map Part.quantity
                (filter (fun p => Part.originalId p =? originalId) parts)).

Definition placedQuantity (originalId : Z) (layouts : list SheetLayout.t) : nat :=
  List.length
    (filter (fun pp => Part.originalId (PlacedPart.part pp) =? originalId)
            (flat_map SheetLayout.placedParts layouts)).

(** The number of entries of an identity in a list of parts. *)
Definition unitCount (originalId : Z) (l : list Part.t) : nat :=
  List.length (filter (fun p => Part.originalId p =? originalId) l).

(** The parts placed on a list of layouts. *)
Definition placedOn (layouts : list SheetLayout.t) : list Part.t :=
  flat_map (fun l => map PlacedPart.part (SheetLayout.placedParts l)) layouts.

(** A part row whose group key selects some sheet definition. *)
Definition matched (availableSheets : list Sheet.t) (p : Part.t) : bool :=
  match sheetDefsFor availableSheets (groupKey p) with
  | [] => false
  | _ :: _ => true
  end.

(** What the state of the sheet packer holds after the rows [done]: the
    units of the matched rows, placed or left over, and one entry for each
    unmatched row. *)
Definition accounted (availableSheets : list Sheet.t) (st : SheetState)
           (done : list Part.t) : Prop :=
  forall o,
    (unitCount o (placedOn (st_layouts st)) + unitCount o (st_unplaced st)
     = requestedQuantity o (filter (matched availableSheets) done)
       + unitCount o (filter (fun p => negb (matched availableSheets p)) done))%nat.

(** The total quantity of the linear parts of an id. *)
Definition requestedLength (id : Z) (parts : list LinearPart.t) : nat :=
  list_sum (map LinearPart.quantity
                (filter (fun p => LinearPart.id p =? id) parts)).

(** The units of an id cut on a list of layouts. *)
Definition cutQuantity (id : Z) (layouts : list StockLayout.t) : nat :=
  List.length
    (filter (fun c => CutPart.id c =? id) (flat_map StockLayout.cuts layouts)).

(** [cuts] is taken from [pool], each instance at most once. *)
Definition takenFrom (pool cuts : list CutPart.t) : Prop :=
  exists skipped, Permutation pool (cuts ++ skipped).

(** The cuts of a list of layouts. *)
Definition cutsOn (layouts : list StockLayout.t) : list CutPart.t :=
  flat_map StockLayout.cuts layouts.

(** A placed part lies on the sheet, the part-to-sheet clearance away from
    each edge. *)
Definition inside (partToSheetDist : Z) (sheet : Sheet.t) (pp : PlacedPart.t) : Prop :=
  partToSheetDist <= PlacedPart.x pp
  /\ partToSheetDist <= PlacedPart.y pp
  /\ PlacedPart.x pp + PlacedPart.extentH pp <= Sheet.length sheet - partToSheetDist
  /\ PlacedPart.y pp + PlacedPart.extentV pp <= Sheet.width sheet - partToSheetDist.

(** A unit instance of a row of the input:
    [{ ...p, id: p.id * 1000 + i, quantity: 1 }] with [i < p.quantity]. *)
Definition unitOf (parts : list Part.t) (q : Part.t) : Prop :=
  exists p i,
    In p parts /\ (i < Part.quantity p)%nat
    /\ q = Part.withIdQuantity p (Part.id p * 1000 + Z.of_nat i) 1%nat.

(** The layout at position [index] of a result: a pass of [placeOnSheet]
    that placed something, over units of the rows of one group, on a sheet
    selected for the key of the group, numbered [index + 1]. *)
Definition builtAt (partToPartDist partToSheetDist : Z)
           (rotation : RotationOption) (material : Material.t)
           (availableSheets : list Sheet.t) (parts : list Part.t)
           (index : nat) (layout : SheetLayout.t) : Prop :=
  exists key sheetDef pool placedParts remainingParts count,
    In sheetDef (sheetDefsFor availableSheets key)
    /\ Forall (fun q => groupKey q = key /\ unitOf parts q) pool
    /\ placeOnSheet partToPartDist partToSheetDist rotation sheetDef pool [] [] 0%nat
       = (placedParts, remainingParts, count)
    /\ count <> 0%nat
    /\ layout = finishLayout material sheetDef (Z.of_nat index + 1) placedParts.

(** The number of layouts cut from sheets of a key
    [`${length}x${width}x${thickness}-${grade}`]. *)
Definition layoutsOf (key : string) (layouts : list SheetLayout.t) : nat :=
  List.length
    (filter (fun l => String.eqb (sheetKey (SheetLayout.sheet l)) key) layouts).

(** The usage counts agree with the layouts: a key is present exactly when
    a layout uses it, with the number of such layouts. *)
Definition countsAgree (layouts : list SheetLayout.t) (totals : Js.Obj Z) : Prop :=
  forall key,
    Js.getOwn key totals
    = if (layoutsOf key layouts =? 0)%nat then None
      else Some (Z.of_nat (layoutsOf key layouts)).

(** The sheets of the grade and thickness of a part. *)
Definition sheetsLike (availableSheets : list Sheet.t) (p : Part.t) : list Sheet.t :=
  filter (fun s => String.eqb (Sheet.grade s) (Part.grade p)
                   && (Sheet.thickness s =? Part.thickness p))
         availableSheets.

(** The finder has a position for the part on the empty sheet. *)
Definition findsEmpty (partToPartDist partToSheetDist : Z) (rotation : RotationOption)
           (sheet : Sheet.t) (p : Part.t) : bool :=
  match findBestPosition p sheet [] partToPartDist partToSheetDist rotation with
  | Some _ => true
  | None => false
  end.

(** The part fits on the empty sheet, the part-to-sheet clearance away
    from the edges, as it is or turned if the rotation option permits. *)
Definition fitsEmpty (partToSheetDist : Z) (rotation : RotationOption)
           (sheet : Sheet.t) (p : Part.t) : Prop :=
  (partToSheetDist + Part.width p <= Sheet.length sheet - partToSheetDist
   /\ partToSheetDist + Part.length p <= Sheet.width sheet - partToSheetDist)
  \/ (rotation <> NONE
      /\ partToSheetDist + Part.length p <= Sheet.length sheet - partToSheetDist
      /\ partToSheetDist + Part.width p <= Sheet.width sheet - partToSheetDist).

(** The number of units requested by the rows of the input. *)
Definition totalUnits (parts : list Part.t) : nat :=
  list_sum (map Part.quantity parts).

(** [u] repeats the name, dimensions, thickness, grade and identity of
    the row [p]. *)
Definition sameRow (p u : Part.t) : Prop :=
  Part.name u = Part.name p /\ Part.length u = Part.length p
  /\ Part.width u = Part.width p /\ Part.thickness u = Part.thickness p
  /\ Part.grade u = Part.grade p /\ Part.originalId u = Part.originalId p.

(** The bars that the bar loop opens for one raw material, from the pool
    it starts with: each bar holds the cuts chosen by [bestCutsFor] on the
    pool left by the bars before it, is numbered by the layout counter, and
    takes its cuts out of the pool by instance identifier. *)
Fixpoint barsOf (stockLength : Z) (optimizationGoal : OptimizationGoal)
         (leftEndAllowance rightEndAllowance : Z) (random : nat -> nat)
         (rawMaterial : string) (counter : Z) (pool : list CutPart.t)
         (opened : list StockLayout.t) : Prop :=
  match opened with
  | [] => True
  | layout :: rest =>
      exists calls,
        pool <> []
        /\ StockLayout.cuts layout
           = fst (fst (bestCutsFor stockLength optimizationGoal leftEndAllowance
                                   rightEndAllowance random pool calls))
        /\ StockLayout.cuts layout <> []
        /\ layout = newStockLayout stockLength counter rawMaterial
                                   (StockLayout.cuts layout)
        /\ barsOf stockLength optimizationGoal leftEndAllowance rightEndAllowance
                  random rawMaterial (counter + 1)
                  (removePlaced (StockLayout.cuts layout) pool) rest
  end.

(** The instances of the parts of a group that fit a bar, in order. *)
Definition poolOf (stockLength leftEndAllowance rightEndAllowance : Z)
           (partsInGroup : list LinearPart.t) : list CutPart.t :=
  flat_map instances
           (filter (fun p => negb (LinearPart.effectiveLength p
                                   >? usableStockLength stockLength leftEndAllowance
                                                        rightEndAllowance))
                   partsInGroup).

(** The bars of a whole run: the bars of each group, one group after
    the other, numbered consecutively. *)
Fixpoint barsOfGroups (stockLength : Z) (optimizationGoal : OptimizationGoal)
         (leftEndAllowance rightEndAllowance : Z) (random : nat -> nat)
         (groups : list (string * list LinearPart.t)) (counter : Z)
         (bars : list StockLayout.t) : Prop :=
  match groups with
  | [] => bars = []
  | (rawMaterial, partsInGroup) :: rest =>
      exists opened others,
        bars = (opened ++ others)%list
        /\ barsOf stockLength optimizationGoal leftEndAllowance rightEndAllowance
                  random rawMaterial counter
                  (poolOf stockLength leftEndAllowance rightEndAllowance partsInGroup)
                  opened
        /\ barsOfGroups stockLength optimizationGoal leftEndAllowance
                        rightEndAllowance random rest
                        (counter + Z.of_nat (List.length opened)) others
  end.

(** A cut is an instance of a part of the input that fits a bar. *)
Definition cutOf (stockLength leftEndAllowance rightEndAllowance : Z)
           (parts : list LinearPart.t) (c : CutPart.t) : Prop :=
  exists p,
    In p parts /\ In c (instances p)
    /\ LinearPart.effectiveLength p
       <= usableStockLength stockLength leftEndAllowance rightEndAllowance.

(** No instance of the pool that is not among the cuts can be added to
    them: its effective length passes what the cuts leave of the usable
    length. *)
Definition saturated (usable : Z) (pool cuts : list CutPart.t) : Prop :=
  forall x,
    In x pool ->
    In x cuts \/ usable < sumEffective cuts + CutPart.effectiveLength x.

(** [b] is not longer than [a]. *)
Definition notLonger (a b : CutPart.t) : Prop :=
  CutPart.effectiveLength b <= CutPart.effectiveLength a.

(** A part that [parseLinearParts] accepts: a raw material, a length that
    is a number above zero, a quantity that is a number above zero, and
    the allowance added to the length. *)
Definition acceptedLinear (add : Js.number -> Js.number -> Js.number)
           (allowance : Js.number) (p : ParsedLinearPart.t) : Prop :=
  ParsedLinearPart.rawMaterial p <> ""
  /\ Num.isNaN (ParsedLinearPart.length p) = false
  /\ Num.leZero (ParsedLinearPart.length p) = false
  /\ Num.isNaN (ParsedLinearPart.quantity p) = false
  /\ Num.gtZero (ParsedLinearPart.quantity p) = true
  /\ ParsedLinearPart.effectiveLength p = add (ParsedLinearPart.length p) allowance.

(** A part that [parseSheetPartsFromColumns] accepts. *)
Definition acceptedSheet (p : ParsedPart.t) : Prop :=
  ParsedPart.originalId p = ParsedPart.id p
  /\ ParsedPart.name p <> "" /\ ParsedPart.grade p <> ""
  /\ Num.isNaN (ParsedPart.length p) = false
  /\ Num.leZero (ParsedPart.length p) = false
  /\ Num.isNaN (ParsedPart.width p) = false
  /\ Num.leZero (ParsedPart.width p) = false
  /\ Num.isNaN (ParsedPart.thickness p) = false
  /\ Num.leZero (ParsedPart.thickness p) = false
  /\ Num.isNaN (ParsedPart.quantity p) = false
  /\ Num.isZero (ParsedPart.quantity p) = false
  /\ Num.ltZero (ParsedPart.quantity p) = false.

(** The part records what its line says: the line splits into three
    fields, the raw material, the text of the length and the text of the
    quantity. *)
Definition readsLine (trim : string -> string)
           (parseFloat parseInt : string -> Js.number)
           (line : string) (p : ParsedLinearPart.t) : Prop :=
  exists lengthStr quantityStr,
    splitTrim trim "," line = [ParsedLinearPart.rawMaterial p; lengthStr; quantityStr]
    /\ ParsedLinearPart.length p = parseFloat lengthStr
    /\ ParsedLinearPart.quantity p = parseInt quantityStr.

(** The part records the cells of the row [i] of the six columns. *)
Definition readsRow (parseFloat parseInt : string -> Js.number)
           (names lengths widths thicknesses grades quantities : list string)
           (i : nat) (p : ParsedPart.t) : Prop :=
  ParsedPart.name p = cell names i
  /\ ParsedPart.length p = parseFloat (cell lengths i)
  /\ ParsedPart.width p = parseFloat (cell widths i)
  /\ ParsedPart.thickness p = parseFloat (cell thicknesses i)
  /\ ParsedPart.grade p = cell grades i
  /\ ParsedPart.quantity p = parseInt (cell quantities i).

(** What is left of a pool once the bars opened [before] have taken their
    cuts out of it. *)
Definition poolAfter (pool : list CutPart.t) (before : list StockLayout.t)
  : list CutPart.t :=
  fold_left (fun left layout => removePlaced (StockLayout.cuts layout) left)
            before pool.

(** The remaining pool of the bar at position [i] of the layouts of a
    result: the instances of the parts of its raw material that fit a bar,
    in the order of the input, without the instances cut on the earlier
    layouts of that raw material. *)
Definition remainingPool (stockLength leftEndAllowance rightEndAllowance : Z)
           (parts : list LinearPart.t) (layouts : list StockLayout.t)
           (i : nat) (layout : StockLayout.t) : list CutPart.t :=
  let material := StockLayout.rawMaterial layout in
  poolAfter
    (poolOf stockLength leftEndAllowance rightEndAllowance
            (filter (fun p => String.eqb (LinearPart.rawMaterial p) material) parts))
    (filter (fun l => String.eqb (StockLayout.rawMaterial l) material)
            (firstn i layouts)).

(** The integer embedding read inside the embedding with [NaN]: what the
    packers are given, and what they return, when every number is an
    integer. *)
Module Lift.

Definition outcome {A B : Type} (f : A -> B) (m : outcome A) : outcome B :=
  match m with
  | Returned a => Returned (f a)
  | TypeError => TypeError
  | OutOfFuel => OutOfFuel
  end.

Definition placed (p : PlacedPart.t) : WithNaN.PlacedPart.t :=
  WithNaN.PlacedPart.mk (PlacedPart.part p) (Number.Int (PlacedPart.x p))
                        (Number.Int (PlacedPart.y p)) (PlacedPart.rotated p).

Definition point (p : Point) : WithNaN.Point :=
  WithNaN.mkPoint (Number.Int (px p)) (Number.Int (py p)).

Definition position (p : Position) : WithNaN.Position :=
  WithNaN.mkPosition (Number.Int (pos_x p)) (Number.Int (pos_y p)) (pos_rotated p).

Definition bound (b : bound) : WithNaN.bound :=
  match b with
  | Fin z => WithNaN.Fin (Number.Int z)
  | Infinity => WithNaN.Infinity
  end.

Definition best (b : Best) : WithNaN.Best :=
  WithNaN.mkBest (option_map position (bestPos b)) (bound (bestY b)) (bound (bestX b)).

Definition layout (l : SheetLayout.t) : WithNaN.SheetLayout.t :=
  WithNaN.SheetLayout.mk
    (SheetLayout.sheet l) (SheetLayout.sheetIndex l)
    (map placed (SheetLayout.placedParts l))
    (SheetLayout.usedArea l) (SheetLayout.wasteArea l)
    (SheetLayout.wastePercentage l) (SheetLayout.usedWeight l)
    (SheetLayout.wasteWeight l).



Definition linearPart (p : LinearPart.t) : WithNaN.LinearPart.t :=
  WithNaN.LinearPart.mk (LinearPart.id p) (LinearPart.length p)
                        (LinearPart.quantity p)
                        (Number.Int (LinearPart.effectiveLength p))
                        (LinearPart.rawMaterial p).

Definition cut (c : CutPart.t) : WithNaN.CutPart.t :=
  WithNaN.CutPart.mk (CutPart.id c) (CutPart.length c)
                     (Number.Int (CutPart.effectiveLength c))
                     (CutPart.instanceId c) (CutPart.rawMaterial c).

Definition stock (l : StockLayout.t) : WithNaN.StockLayout.t :=
  WithNaN.StockLayout.mk
    (StockLayout.stockIndex l) (Number.Int (StockLayout.stockLength l))
    (map cut (StockLayout.cuts l))
    (Number.Int (StockLayout.usedLength l))
    (Number.Int (StockLayout.wasteLength l))
    (Some (StockLayout.wastePercentage l))
    (StockLayout.rawMaterial l).

Definition barState (st : BarState) : WithNaN.BarState :=
  WithNaN.mkBarState (map linearPart (bs_unplaced st)) (map stock (bs_layouts st))
                     (bs_counter st) (bs_calls st).

Definition linearState (st : LinearState) : WithNaN.LinearState :=
  WithNaN.mkLinearState (map stock (ls_layouts st)) (map linearPart (ls_unplaced st))
                        (ls_counter st) (ls_calls st).

Definition linearResult (r : LinearNestingResult.t) : WithNaN.LinearNestingResult.t :=
  WithNaN.LinearNestingResult.mk
    (map stock (LinearNestingResult.layouts r))
    (map linearPart (LinearNestingResult.unplacedParts r))
    (LinearNestingResult.totalStockUsed r)
    (Number.Int (LinearNestingResult.totalWaste r))
    (Some (LinearNestingResult.totalWastePercentage r)).

(** Grouped values, key by key. *)
Definition groups {A B : Type} (f : A -> B) (o : Js.Obj (list A)) : Js.Obj (list B) :=
  map (fun kv => (fst kv, map f (snd kv))) o.

End Lift.

(** The notions of the properties, on numbers that may be [NaN]. *)
Module OnNumbers.

(** The overlap test of [canPlace] between two placed parts. *)
Definition clash (partToPartDist : Number.t) (a b : WithNaN.PlacedPart.t) : bool :=
  WithNaN.overlaps (WithNaN.PlacedPart.extentH a) (WithNaN.PlacedPart.extentV a)
                   (WithNaN.mkPoint (WithNaN.PlacedPart.x a) (WithNaN.PlacedPart.y a))
                   b partToPartDist.

(** Along one axis the two parts are at least the clearance apart; each
    comparison is the one the code makes, so it fails on [NaN]. *)
Definition separated (partToPartDist : Number.t) (a b : WithNaN.PlacedPart.t) : Prop :=
  let right (p : WithNaN.PlacedPart.t) :=
    (WithNaN.PlacedPart.x p + Number.Int (WithNaN.PlacedPart.extentH p)
     + partToPartDist)%num in
  let top (p : WithNaN.PlacedPart.t) :=
    (WithNaN.PlacedPart.y p + Number.Int (WithNaN.PlacedPart.extentV p)
     + partToPartDist)%num in
  (right b <=? WithNaN.PlacedPart.x a)%num = true
  \/ (right a <=? WithNaN.PlacedPart.x b)%num = true
  \/ (top b <=? WithNaN.PlacedPart.y a)%num = true
  \/ (top a <=? WithNaN.PlacedPart.y b)%num = true.

(** No two parts at different positions of the list pass the overlap
    test. *)
Definition clashFree (partToPartDist : Number.t)
           (placed : list WithNaN.PlacedPart.t) : Prop :=
  forall i j a b,
    i <> j -> nth_error placed i = Some a -> nth_error placed j = Some b ->
    clash partToPartDist a b = false.


(** A placed part lies on the sheet, the part-to-sheet clearance away from
    each edge. *)
Definition inside (partToSheetDist : Number.t) (sheet : Sheet.t)
           (pp : WithNaN.PlacedPart.t) : Prop :=
  (partToSheetDist <=? WithNaN.PlacedPart.x pp)%num = true
  /\ (partToSheetDist <=? WithNaN.PlacedPart.y pp)%num = true
  /\ (WithNaN.PlacedPart.x pp + Number.Int (WithNaN.PlacedPart.extentH pp)
      <=? Number.Int (Sheet.length sheet) - partToSheetDist)%num = true
  /\ (WithNaN.PlacedPart.y pp + Number.Int (WithNaN.PlacedPart.extentV pp)
      <=? Number.Int (Sheet.width sheet) - partToSheetDist)%num = true.

(** The cut fits a bar by itself. *)
Definition fits (usable : Number.t) (c : WithNaN.CutPart.t) : Prop :=
  (WithNaN.CutPart.effectiveLength c <=? usable)%num = true.

(** The total quantity of the linear parts of an id. *)
Definition requestedLength (id : Z) (parts : list WithNaN.LinearPart.t) : nat :=
  list_sum (map WithNaN.LinearPart.quantity
                (filter (fun p => WithNaN.LinearPart.id p =? id) parts)).

(** Every cut of the pool is an instance of a part of the group. *)
Definition owned (partsInGroup : list WithNaN.LinearPart.t)
           (pool : list WithNaN.CutPart.t) : Prop :=
  Forall (fun c => exists p, In p partsInGroup
                             /\ WithNaN.LinearPart.id p = WithNaN.CutPart.id c) pool.

End OnNumbers.

(** ** Inputs of the scenarios *)

Definition steel : Material.t := Material.mk "MS" 7850.

(** Scenario B: a sheet of length 300 and width 500, a part of length 450
    and width 100. *)
Definition sheetB : Sheet.t := Sheet.mk "sheet-1" 300 500 2 "MS" 1 false.
Definition partB : Part.t := Part.mk 1 "bracket" 450 100 2 "MS" 1 1.


(** Five units of a part for which no sheet is offered. *)
Definition partFive : Part.t := Part.mk 1 "panel" 400 300 2 "MS" 5 1.

(** A sheet of length 1000 and width 500 on which three units of
    [partFive] fit side by side. *)
Definition sheetWide : Sheet.t := Sheet.mk "sheet-4" 1000 500 2 "MS" 1 false.

(** A part of grade [SS-304] and the sheet its key selects. *)
Definition partHyphen : Part.t := Part.mk 1 "cover" 100 100 5 "SS-304" 2 7.
Definition sheetHyphen : Sheet.t := Sheet.mk "sheet-3" 1000 500 304 "SS" 1 false.

(** Scenario D: a part longer than the bar. *)
Definition partD : LinearPart.t := LinearPart.mk 0 1200 1 1200 "ISMB 200".

(** The same part under a raw material named like an inherited property. *)
Definition partConstructor : LinearPart.t :=
  LinearPart.mk 0 1200 1 1200 "constructor".

(** Scenario C: two parts of length 2000 and one of length 1000 on bars of
    length 6000. *)
Definition partC1 : LinearPart.t := LinearPart.mk 0 2000 2 2000 "ISMB 200".
Definition partC2 : LinearPart.t := LinearPart.mk 1 1000 1 1000 "ISMB 200".

(** A pool on which first-fit-decreasing is not optimal: lengths 6, 5 and
    5 on bars of length 10. *)
Definition partSix : LinearPart.t := LinearPart.mk 0 6 1 6 "rod".
Definition partFives : LinearPart.t := LinearPart.mk 1 5 2 5 "rod".

(** Two sequences of draws. *)
Definition drawsZero (n : nat) : nat := 0%nat.
Definition drawsOne (n : nat) : nat := 1%nat.

(** A stock of ten sheets of length 1000 and width 500. *)
Definition sheetStock : Sheet.t := Sheet.mk "sheet-5" 1000 500 2 "MS" 10 false.

(** One choice of the built-ins for the examples, exact on ASCII text
    and on decimal numbers: [trim] strips the ASCII white space,
    [parseInt(_, 10)] reads an optional sign and the digits that follow,
    and the sum of two finite numbers is their sum. *)
Fixpoint dropTrailingSpace (s : string) : string :=
  match s with
  | EmptyString => EmptyString
  | String c r =>
      match dropTrailingSpace r with
      | EmptyString => if Js.isWhiteSpace c then EmptyString else String c EmptyString
      | r' => String c r'
      end
  end.

Definition asciiTrim (s : string) : string :=
  dropTrailingSpace (Js.skipWhiteSpace s).

Definition parseInt10 (s : string) : Js.number :=
  let (negative, digits) := Js.takeSign (Js.skipWhiteSpace s) in
  match fst (Js.takeDigits digits) with
  | [] => Js.NaN
  | ds => Js.Finite (inject_Z (if negative then - Js.digitsValue ds
                               else Js.digitsValue ds))
  end.

Definition addNumbers (a b : Js.number) : Js.number :=
  match a, b with
  | Js.Finite x, Js.Finite y => Js.Finite (x + y)
  | Js.NaN, _ | _, Js.NaN => Js.NaN
  | Js.Infinite m, Js.Infinite n => if Bool.eqb m n then a else Js.NaN
  | Js.Infinite _, _ => a
  | _, Js.Infinite _ => b
  end.

(** Three lines of the demonstration data of the app, a blank line, a line
    of quantity zero and a line without quantity. *)
Definition demoCsv : string :=
  String.concat (String "010" EmptyString)
                ["MS,1994,2"; " SS , 2064 , 1 "; ""; "MS,1277,0"; "MS,2400"; "SS,105,10"].

(** ** Lemmas on the JavaScript primitives *)

Lemma bind_Returned {A B : Type} (m : outcome A) (k : A -> outcome B) (b : B) :
  bind m k = Returned b -> exists a, m = Returned a /\ k a = Returned b.
Proof.
  destruct m as [a| |]; simpl; intros H; try discriminate.
  exists a; split; [reflexivity | exact H].
Qed.

Lemma bind_ext {A B : Type} (m : outcome A) (k k' : A -> outcome B) :
  (forall a, k a = k' a) -> bind m k = bind m k'.
Proof. intros H. destruct m; simpl; [apply H | reflexivity | reflexivity]. Qed.

Module JsFacts.
Import Js.

Lemma contains_append (c : ascii) (s t : string) :
    contains c (s ++ t) = contains c s || contains c t.
  Proof.
    induction s as [|d s IH]; simpl; [reflexivity|].
    rewrite IH. apply orb_assoc.
  Qed.

Lemma inheritedKey_hyphen (k : string) :
    contains "-" k = true -> inheritedKey k = false.
  Proof.
    intros Hk. unfold inheritedKey, objectPrototypeKeys. simpl.
    repeat match goal with
           | |- context [String.eqb k ?s] =>
               destruct (String.eqb_spec k s) as [->|_];
               [vm_compute in Hk; discriminate|]
           end.
    reflexivity.
  Qed.

Lemma takeDigits_all (k : string) (ds : list ascii) :
    takeDigits k = (ds, EmptyString) -> contains "-" k = false.
  Proof.
    revert ds. induction k as [|c k IH]; intros ds H; simpl in *; [reflexivity|].
    destruct (isDigit c) eqn:Hc; [|discriminate].
    destruct (takeDigits k) as [ds' rest] eqn:Hk.
    injection H as _ Hrest. subst rest.
    rewrite (IH ds' eq_refl), orb_false_r.
    destruct (Ascii.eqb_spec c "-") as [->|_]; [discriminate Hc | reflexivity].
  Qed.

Lemma arrayIndex_hyphen (k : string) :
    contains "-" k = true -> arrayIndex k = None.
  Proof.
    intros Hk. unfold arrayIndex.
    destruct (takeDigits k) as [ds rest] eqn:Hd.
    destruct ds as [|d ds]; [reflexivity|].
    destruct rest; [|reflexivity].
    apply takeDigits_all in Hd. congruence.
  Qed.

  (** The first segment of a split holds no separator. *)
Lemma split_head (sep : ascii) (s : string) :
    exists h t, split sep s = h :: t /\ contains sep h = false.
  Proof.
    induction s as [|c s (h & t & Hs & Hh)]; simpl.
    - exists EmptyString, []. split; reflexivity.
    - destruct (Ascii.eqb c sep) eqn:Hc.
      + exists EmptyString, (split sep s). split; reflexivity.
      + rewrite Hs. exists (String c h), t. split; [reflexivity|].
        simpl. rewrite Hc, Hh. reflexivity.
  Qed.

Lemma getOwn_In {V : Type} (k : string) (o : Obj V) (v : V) :
    getOwn k o = Some v -> In (k, v) o.
  Proof.
    induction o as [|[k' v'] o IH]; simpl; [discriminate|].
    destruct (String.eqb_spec k k') as [->|_].
    - intros [= ->]. left; reflexivity.
    - intros H. right. exact (IH H).
  Qed.

Lemma set_In {V : Type} (k : string) (v : V) (o : Obj V) (e : string * V) :
    In e (set k v o) -> e = (k, v) \/ In e o.
  Proof.
    induction o as [|[k' v'] o IH]; simpl.
    - intros [<-|[]]. left; reflexivity.
    - destruct (String.eqb_spec k k') as [->|_]; simpl.
      + intros [<-|H]; [left; reflexivity | right; right; exact H].
      + intros [<-|H]; [right; left; reflexivity|].
        destruct (IH H) as [->|H']; [left; reflexivity | right; right; exact H'].
  Qed.

Lemma insertIndexed_In {V : Type} (e x : Z * (string * V))
        (l : list (Z * (string * V))) :
    In x (insertIndexed e l) -> x = e \/ In x l.
  Proof.
    induction l as [|e' l IH]; simpl.
    - intros [<-|[]]. left; reflexivity.
    - destruct (fst e <=? fst e'); simpl.
      + intros [<-|H]; [left; reflexivity | right; exact H].
      + intros [<-|H]; [right; left; reflexivity|].
        destruct (IH H) as [->|H']; [left; reflexivity | right; right; exact H'].
  Qed.

Lemma indexedEntries_In {V : Type} (o : Obj V) (x : Z * (string * V)) :
    In x (indexedEntries o) -> In (snd x) o.
  Proof.
    induction o as [|kv o IH]; simpl; [intros []|].
    destruct (arrayIndex (fst kv)) as [i|].
    - intros H. apply insertIndexed_In in H as [->|H]; [left; reflexivity|].
      right. exact (IH H).
    - intros H. right. exact (IH H).
  Qed.

  (** [for ... in] visits own properties only. *)
Lemma forIn_In {V : Type} (o : Obj V) (e : string * V) :
    In e (forIn o) -> In e o.
  Proof.
    unfold forIn. intros H. apply in_app_or in H as [H|H].
    - apply in_map_iff in H as (x & <- & Hx). exact (indexedEntries_In o x Hx).
    - unfold namedEntries in H. apply filter_In in H. exact (proj1 H).
  Qed.

  (** Every group of a grouping holds parts of the input under their key. *)
Lemma groupBy_groups {P : Type} (keyOf : P -> string) (parts : list P) :
    forall acc o,
      groupBy keyOf parts acc = Returned o ->
      (forall k g p, In (k, g) acc -> In p g -> keyOf p = k) ->
      forall k g p, In (k, g) o -> In p g -> keyOf p = k.
  Proof.
    induction parts as [|q parts IH]; simpl; intros acc o H Hacc.
    - injection H as <-. exact Hacc.
    - apply bind_Returned in H as (acc' & Hpush & Hrest).
      apply (IH acc' o Hrest). clear IH Hrest.
      intros k g p Hin Hp. unfold pushTo in Hpush.
      destruct (getOwn (keyOf q) acc) as [group|] eqn:Hget.
      + injection Hpush as <-. apply set_In in Hin as [[= -> ->]|Hin].
        * apply in_app_or in Hp as [Hp|[<-|[]]]; [|reflexivity].
          exact (Hacc _ _ _ (getOwn_In _ _ _ Hget) Hp).
        * exact (Hacc _ _ _ Hin Hp).
      + destruct (inheritedKey (keyOf q)); [discriminate|].
        injection Hpush as <-. apply set_In in Hin as [[= -> ->]|Hin].
        * destruct Hp as [<-|[]]. reflexivity.
        * exact (Hacc _ _ _ Hin Hp).
  Qed.

  (** Grouping throws only on a key inherited from [Object.prototype]. *)
Lemma groupBy_returns {P : Type} (keyOf : P -> string) (parts : list P) :
    (forall p, In p parts -> inheritedKey (keyOf p) = false) ->
    forall acc, exists o, groupBy keyOf parts acc = Returned o.
  Proof.
    induction parts as [|q parts IH]; simpl; intros Hk acc.
    - exists acc. reflexivity.
    - assert (Hq : inheritedKey (keyOf q) = false) by (apply Hk; left; reflexivity).
      unfold pushTo. rewrite Hq.
      destruct (getOwn (keyOf q) acc); simpl; apply IH; intros p Hp; apply Hk; right; exact Hp.
  Qed.

End JsFacts.

(** ** The position finder *)

Section OnePass.

Variables (sheet : Sheet.t) (placedParts : list PlacedPart.t).
Variables (partToPartDist partToSheetDist : Z).
Variables (width height : Z) (rotated : bool).

Let can (pt : Point) : bool :=
    canPlace width height pt sheet placedParts partToPartDist partToSheetDist.
Let step : Best -> Point -> Best :=
    tryPoint sheet placedParts partToPartDist partToSheetDist width height rotated.

  (** The three ways a candidate point leaves the incumbent. *)
Lemma tryPoint_cases (b : Best) (pt : Point) :
    bestOk b ->
    (step b pt = b
     /\ (can pt = false
         \/ exists pos, bestPos b = Some pos
                        /\ bottomLeftLe (pos_y pos) (pos_x pos) (py pt) (px pt)))
    \/ (step b pt = mkBest (Some (mkPosition (px pt) (py pt) rotated))
                           (Fin (py pt)) (Fin (px pt))
        /\ can pt = true
        /\ forall pos, bestPos b = Some pos ->
                       bottomLeftLt (py pt) (px pt) (pos_y pos) (pos_x pos)).
  Proof.
    intros Hok. unfold step, tryPoint. fold (can pt).
    destruct (can pt) eqn:Hcan; [|left; split; [reflexivity | left; reflexivity]].
    unfold bestOk in Hok.
    destruct b as [[pos|] bY bX]; simpl in *; destruct Hok as [-> ->]; simpl.
    - destruct (py pt <? pos_y pos) eqn:Hy; simpl.
      + right. repeat split. intros pos' [= <-]. left. lia.
      + destruct (py pt =? pos_y pos) eqn:He; simpl.
        * destruct (px pt <? pos_x pos) eqn:Hx.
          -- right. repeat split. intros pos' [= <-]. right. lia.
          -- left. split; [reflexivity|]. right. exists pos.
             split; [reflexivity|]. right. lia.
        * left. split; [reflexivity|]. right. exists pos.
          split; [reflexivity|]. left. lia.
    - right. repeat split. intros pos' [=].
  Qed.

Lemma tryPoint_ok (b : Best) (pt : Point) : bestOk b -> bestOk (step b pt).
  Proof.
    intros Hok. destruct (tryPoint_cases b pt Hok) as [[-> _]|[-> _]].
    - exact Hok.
    - split; reflexivity.
  Qed.

Lemma tryPoint_origin (b : Best) (pt : Point) (p1 : Position) :
    bestOk b -> bestPos (step b pt) = Some p1 ->
    bestPos b = Some p1
    \/ (p1 = mkPosition (px pt) (py pt) rotated /\ can pt = true
        /\ forall pos, bestPos b = Some pos ->
                       bottomLeftLt (pos_y p1) (pos_x p1) (pos_y pos) (pos_x pos)).
  Proof.
    intros Hok H. destruct (tryPoint_cases b pt Hok) as [[E _]|(E & Hc & Hlt)];
      rewrite E in H.
    - left. exact H.
    - right. simpl in H. injection H as <-. repeat split; assumption.
  Qed.

Lemma tryPoint_keeps (b : Best) (pt : Point) (pos : Position) :
    bestOk b -> bestPos b = Some pos ->
    exists p1, bestPos (step b pt) = Some p1
               /\ bottomLeftLe (pos_y p1) (pos_x p1) (pos_y pos) (pos_x pos).
  Proof.
    intros Hok Hb. destruct (tryPoint_cases b pt Hok) as [[-> _]|(-> & _ & Hlt)].
    - exists pos. split; [exact Hb|]. right. lia.
    - eexists. split; [reflexivity|]. simpl.
      destruct (Hlt pos Hb) as [H|H]; [left | right]; lia.
  Qed.

Lemma tryPoint_covers (b : Best) (pt : Point) :
    bestOk b -> can pt = true ->
    exists p1, bestPos (step b pt) = Some p1
               /\ bottomLeftLe (pos_y p1) (pos_x p1) (py pt) (px pt).
  Proof.
    intros Hok Hc.
    destruct (tryPoint_cases b pt Hok) as [[-> [Hf|(pos & Hb & Hle)]]|(-> & _ & _)].
    - congruence.
    - exists pos. split; assumption.
    - eexists. split; [reflexivity|]. simpl. right. lia.
  Qed.

Lemma tryPoints_ok (pts : list Point) :
    forall b, bestOk b -> bestOk (fold_left step pts b).
  Proof.
    induction pts as [|pt pts IH]; simpl; intros b Hok; [exact Hok|].
    apply IH, tryPoint_ok, Hok.
  Qed.

Lemma tryPoints_keeps (pts : list Point) :
    forall b pos, bestOk b -> bestPos b = Some pos ->
    exists p1, bestPos (fold_left step pts b) = Some p1
               /\ bottomLeftLe (pos_y p1) (pos_x p1) (pos_y pos) (pos_x pos).
  Proof.
    induction pts as [|pt pts IH]; simpl; intros b pos Hok Hb.
    - exists pos. split; [exact Hb|]. right. lia.
    - destruct (tryPoint_keeps b pt pos Hok Hb) as (p1 & H1 & Hle1).
      destruct (IH _ p1 (tryPoint_ok b pt Hok) H1) as (p2 & H2 & Hle2).
      exists p2. split; [exact H2|]. unfold bottomLeftLe in *. lia.
  Qed.

Lemma tryPoints_covers (pts : list Point) :
    forall b pt, bestOk b -> In pt pts -> can pt = true ->
    exists p1, bestPos (fold_left step pts b) = Some p1
               /\ bottomLeftLe (pos_y p1) (pos_x p1) (py pt) (px pt).
  Proof.
    induction pts as [|q pts IH]; simpl; intros b pt Hok Hin Hc; [contradiction|].
    destruct Hin as [->|Hin].
    - destruct (tryPoint_covers b pt Hok Hc) as (p1 & H1 & Hle1).
      destruct (tryPoints_keeps pts _ p1 (tryPoint_ok b pt Hok) H1) as (p2 & H2 & Hle2).
      exists p2. split; [exact H2|]. unfold bottomLeftLe in *. lia.
    - exact (IH _ pt (tryPoint_ok b q Hok) Hin Hc).
  Qed.

  (** The incumbent after a pass is the one before it, or a feasible point
      of the pass that is strictly before the old incumbent. *)
Lemma tryPoints_origin (pts : list Point) :
    forall b p1, bestOk b -> bestPos (fold_left step pts b) = Some p1 ->
    bestPos b = Some p1
    \/ (pos_rotated p1 = rotated
        /\ In (mkPoint (pos_x p1) (pos_y p1)) pts
        /\ can (mkPoint (pos_x p1) (pos_y p1)) = true
        /\ forall pos, bestPos b = Some pos ->
                       bottomLeftLt (pos_y p1) (pos_x p1) (pos_y pos) (pos_x pos)).
  Proof.
    induction pts as [|pt pts IH]; simpl; intros b p1 Hok H; [left; exact H|].
    destruct (IH _ p1 (tryPoint_ok b pt Hok) H) as [H1|(Hr & Hin & Hc & Hlt)].
    - destruct (tryPoint_origin b pt p1 Hok H1) as [Hb|(-> & Hc & Hlt)].
      + left. exact Hb.
      + right. simpl. destruct pt as [x y]. simpl in *.
        repeat split; try assumption. left. reflexivity.
    - right. repeat split; try assumption; [right; exact Hin|].
      intros pos Hb.
      destruct (tryPoint_keeps b pt pos Hok Hb) as (p2 & H2 & Hle).
      specialize (Hlt p2 H2). unfold bottomLeftLe, bottomLeftLt in *. lia.
  Qed.

End OnePass.

Section FindBestPosition.

Variables (part : Part.t) (sheet : Sheet.t) (placedParts : list PlacedPart.t).
Variables (partToPartDist partToSheetDist : Z) (rotation : RotationOption).

Let found : option Position :=
  findBestPosition part sheet placedParts partToPartDist partToSheetDist rotation.
Let fits (rotated : bool) (pt : Point) : Prop :=
  feasible part sheet placedParts partToPartDist partToSheetDist rotated pt.
Let unrotatedPass : Best :=
  tryPlacing sheet placedParts partToPartDist partToSheetDist
             (Part.width part) (Part.length part) false
             (mkBest None Infinity Infinity).

Lemma start_ok : bestOk (mkBest None Infinity Infinity).
Proof. split; reflexivity. Qed.

Lemma unrotatedPass_ok : bestOk unrotatedPass.
Proof. apply tryPoints_ok, start_ok. Qed.

(** What the first pass leaves: an unrotated feasible point. *)
Lemma unrotatedPass_origin (pos : Position) :
  bestPos unrotatedPass = Some pos ->
  pos_rotated pos = false /\ fits false (mkPoint (pos_x pos) (pos_y pos)).
Proof.
  intros H. apply tryPoints_origin in H; [|exact start_ok].
  destruct H as [H|(Hr & Hin & Hc & _)]; [discriminate H|].
  split; [exact Hr|]. split; assumption.
Qed.

Lemma unrotatedPass_covers (pt : Point) :
  fits false pt ->
  exists pos, bestPos unrotatedPass = Some pos
              /\ bottomLeftLe (pos_y pos) (pos_x pos) (py pt) (px pt).
Proof.
  intros [Hin Hc]. exact (tryPoints_covers _ _ _ _ _ _ _ _ _ pt start_ok Hin Hc).
Qed.

Lemma findBestPosition_unfold :
  found = bestPos (if permitsRotation rotation
                   then tryPlacing sheet placedParts partToPartDist partToSheetDist
                                   (Part.length part) (Part.width part) true
                                   unrotatedPass
                   else unrotatedPass).
Proof. reflexivity. Qed.

(** The returned position is a feasible candidate, rotated only when
    rotation is permitted. *)
Lemma findBestPosition_sound (pos : Position) :
  found = Some pos ->
  fits (pos_rotated pos) (mkPoint (pos_x pos) (pos_y pos))
  /\ (pos_rotated pos = true -> permitsRotation rotation = true).
Proof.
  rewrite findBestPosition_unfold. destruct (permitsRotation rotation).
  - intros H. apply tryPoints_origin in H; [|exact unrotatedPass_ok].
    destruct H as [H|(Hr & Hin & Hc & _)].
    + destruct (unrotatedPass_origin pos H) as [-> Hf]. split; [exact Hf | discriminate].
    + rewrite Hr. split; [split; assumption | reflexivity].
  - intros H. destruct (unrotatedPass_origin pos H) as [-> Hf].
    split; [exact Hf | discriminate].
Qed.

(** A feasible pair makes the finder return a position that is not after it. *)
Lemma findBestPosition_covers (rotated : bool) (pt : Point) :
  (rotated = true -> permitsRotation rotation = true) ->
  fits rotated pt ->
  exists pos, found = Some pos
              /\ bottomLeftLe (pos_y pos) (pos_x pos) (py pt) (px pt).
Proof.
  intros Hperm Hf. rewrite findBestPosition_unfold.
  destruct rotated.
  - rewrite (Hperm eq_refl). destruct Hf as [Hin Hc].
    exact (tryPoints_covers _ _ _ _ _ _ _ _ _ pt unrotatedPass_ok Hin Hc).
  - destruct (unrotatedPass_covers pt Hf) as (p1 & H1 & Hle1).
    destruct (permitsRotation rotation).
    + destruct (tryPoints_keeps sheet placedParts partToPartDist partToSheetDist
                                (Part.length part) (Part.width part) true
                                (candidatePoints placedParts partToPartDist partToSheetDist)
                                _ p1 unrotatedPass_ok H1) as (p2 & H2 & Hle2).
      exists p2. split; [exact H2|]. unfold bottomLeftLe in *. lia.
    + exists p1. split; assumption.
Qed.


End FindBestPosition.

(** ** One pass over a sheet *)

Section PlaceOnSheet.

Variables (partToPartDist partToSheetDist : Z) (rotation : RotationOption).
Variable sheetDef : Sheet.t.

Let pass := placeOnSheet partToPartDist partToSheetDist rotation sheetDef.
Let free := clashFree partToPartDist.

(** Every instance of the pool is placed or deferred, and the counter
    counts the placements. *)
Lemma placeOnSheet_count (pool : list Part.t) :
  forall placed remaining count placed' remaining' count',
    pass pool placed remaining count = (placed', remaining', count') ->
    (count' + List.length remaining' = count + List.length remaining + List.length pool)%nat
    /\ (count <= count')%nat.
Proof.
  induction pool as [|part pool IH]; simpl; intros placed remaining count p' r' c' H.
  - injection H as <- <- <-. lia.
  - unfold pass in H. simpl in H.
    destruct (findBestPosition part sheetDef placed partToPartDist partToSheetDist rotation).
    + apply IH in H. lia.
    + apply IH in H. rewrite length_app in H. simpl in H. lia.
Qed.

(** Deferred instances come from the pool. *)
Lemma placeOnSheet_remaining (Q : Part.t -> Prop) (pool : list Part.t) :
  forall placed remaining count placed' remaining' count',
    pass pool placed remaining count = (placed', remaining', count') ->
    Forall Q pool -> Forall Q remaining -> Forall Q remaining'.
Proof.
  induction pool as [|part pool IH]; simpl; intros placed remaining count p' r' c' H Hp Hr.
  - injection H as <- <- <-. exact Hr.
  - unfold pass in H. simpl in H. inversion Hp as [|? ? Hq Hp']; subst.
    destruct (findBestPosition part sheetDef placed partToPartDist partToSheetDist rotation).
    + exact (IH _ _ _ _ _ _ H Hp' Hr).
    + apply (IH _ _ _ _ _ _ H Hp'). apply Forall_app. split; [exact Hr|].
      constructor; [exact Hq | constructor].
Qed.

(** Placed parts are instances of the pool. *)
Lemma placeOnSheet_placed (Q : Part.t -> Prop) (pool : list Part.t) :
  forall placed remaining count placed' remaining' count',
    pass pool placed remaining count = (placed', remaining', count') ->
    Forall Q pool -> Forall (fun pp => Q (PlacedPart.part pp)) placed ->
    Forall (fun pp => Q (PlacedPart.part pp)) placed'.
Proof.
  induction pool as [|part pool IH]; simpl; intros placed remaining count p' r' c' H Hp Hpl.
  - injection H as <- <- <-. exact Hpl.
  - unfold pass in H. simpl in H. inversion Hp as [|? ? Hq Hp']; subst.
    destruct (findBestPosition part sheetDef placed partToPartDist partToSheetDist rotation).
    + apply (IH _ _ _ _ _ _ H Hp'). apply Forall_app. split; [exact Hpl|].
      constructor; [exact Hq | constructor].
    + exact (IH _ _ _ _ _ _ H Hp' Hpl).
Qed.







End PlaceOnSheet.

(** ** The loops of the sheet packer *)

Lemma insertByArea_In (a x : Part.t) (l : list Part.t) :
  In x (insertByArea a l) <-> x = a \/ In x l.
Proof.
  induction l as [|b l IH]; simpl.
  - intuition auto.
  - destruct (area b - area a <=? 0); simpl; [intuition auto|].
    rewrite IH. intuition auto.
Qed.

Lemma sortByArea_In (x : Part.t) (l : list Part.t) :
  In x (sortByArea l) <-> In x l.
Proof.
  induction l as [|a l IH]; simpl; [reflexivity|].
  rewrite insertByArea_In, IH. intuition auto.
Qed.

Lemma sortByArea_Forall (Q : Part.t -> Prop) (l : list Part.t) :
  Forall Q l -> Forall Q (sortByArea l).
Proof.
  rewrite !Forall_forall. intros H x Hx. apply H, sortByArea_In, Hx.
Qed.

Lemma insertByArea_length (a : Part.t) (l : list Part.t) :
  List.length (insertByArea a l) = S (List.length l).
Proof.
  induction l as [|b l IH]; simpl; [reflexivity|].
  destruct (area b - area a <=? 0); simpl; [reflexivity | rewrite IH; reflexivity].
Qed.

Lemma sortByArea_length (l : list Part.t) :
  List.length (sortByArea l) = List.length l.
Proof.
  induction l as [|a l IH]; simpl; [reflexivity|].
  rewrite insertByArea_length, IH. reflexivity.
Qed.

Lemma groupKey_hyphen (p : Part.t) : Js.contains "-" (groupKey p) = true.
Proof.
  unfold groupKey. rewrite !JsFacts.contains_append. simpl.
  apply orb_true_r.
Qed.

Lemma expand_groupKey (p q : Part.t) : In q (expand p) -> groupKey q = groupKey p.
Proof.
  unfold expand. intros H. apply in_map_iff in H as (i & <- & _). reflexivity.
Qed.

Section SheetLoops.

Variables (partToPartDist partToSheetDist : Z) (rotation : RotationOption).
Variable material : Material.t.
Variable availableSheets : list Sheet.t.

Let built := builtLayout partToPartDist partToSheetDist rotation material availableSheets.
Let fill := fillSheets partToPartDist partToSheetDist rotation material.
Let over := overSheetDefs partToPartDist partToSheetDist rotation material.

(** The fuel given to the [while] loop is never used up: every pass that
    places something shortens the pool. *)
Lemma fillSheets_returns (fuel : nat) :
  forall sheetDef pool used layouts totals,
    (List.length pool <= fuel)%nat ->
    exists r, fill fuel sheetDef pool used layouts totals = Returned r.
Proof.
  induction fuel as [|fuel IH]; intros sheetDef pool used layouts totals Hlen.
  - destruct pool; [|simpl in Hlen; lia]. simpl. eexists; reflexivity.
  - unfold fill. simpl.
    destruct ((0 <? List.length pool)%nat && (used <? Sheet.quantity sheetDef));
      [|eexists; reflexivity].
    destruct (placeOnSheet partToPartDist partToSheetDist rotation sheetDef pool [] [] 0)
      as [[placed remaining] count] eqn:Hpass.
    destruct (count =? 0)%nat eqn:Hc; [eexists; reflexivity|].
    apply IH. apply placeOnSheet_count in Hpass. apply Nat.eqb_neq in Hc.
    rewrite sortByArea_length. simpl in Hpass. lia.
Qed.

Lemma fillSheets_built (key : string) (fuel : nat) :
  forall sheetDef pool used layouts totals pool' layouts' totals',
    fill fuel sheetDef pool used layouts totals = Returned (pool', layouts', totals') ->
    In sheetDef (sheetDefsFor availableSheets key) ->
    Forall (fun p => groupKey p = key) pool ->
    Forall built layouts ->
    Forall (fun p => groupKey p = key) pool' /\ Forall built layouts'.
Proof.
  induction fuel as [|fuel IH];
    intros sheetDef pool used layouts totals pool' layouts' totals' H Hdef Hpool Hlay;
    unfold fill in H; simpl in H;
    destruct ((0 <? List.length pool)%nat && (used <? Sheet.quantity sheetDef));
    try discriminate;
    try (injection H as <- <- <-; split; assumption).
  destruct (placeOnSheet partToPartDist partToSheetDist rotation sheetDef pool [] [] 0)
    as [[placed remaining] count] eqn:Hpass.
  destruct (count =? 0)%nat; [injection H as <- <- <-; split; assumption|].
  apply (IH _ _ _ _ _ _ _ _ H Hdef).
  - apply sortByArea_Forall.
    exact (placeOnSheet_remaining _ _ _ _ _ _ _ _ _ _ _ _ Hpass Hpool (Forall_nil _)).
  - apply Forall_app. split; [exact Hlay|]. constructor; [|constructor].
    exists key, sheetDef, pool, (Z.of_nat (List.length layouts) + 1), placed, remaining, count.
    repeat split; assumption.
Qed.

Lemma overSheetDefs_returns (sheetDefs : list Sheet.t) :
  forall pool layouts totals, exists r, over sheetDefs pool layouts totals = Returned r.
Proof.
  induction sheetDefs as [|sheetDef rest IH]; intros pool layouts totals; simpl.
  - eexists; reflexivity.
  - destruct pool as [|p pool]; [eexists; reflexivity|].
    destruct (fillSheets_returns (List.length (p :: pool)) sheetDef (p :: pool) 0
                                 layouts totals (Nat.le_refl _)) as ([[pool' l'] t'] & Hr).
    unfold over. simpl. unfold fill in Hr. simpl in Hr. rewrite Hr. simpl. apply IH.
Qed.

Lemma overSheetDefs_built (key : string) (sheetDefs : list Sheet.t) :
  forall pool layouts totals pool' layouts' totals',
    over sheetDefs pool layouts totals = Returned (pool', layouts', totals') ->
    (forall s, In s sheetDefs -> In s (sheetDefsFor availableSheets key)) ->
    Forall (fun p => groupKey p = key) pool ->
    Forall built layouts ->
    Forall built layouts'.
Proof.
  induction sheetDefs as [|sheetDef rest IH];
    intros pool layouts totals pool' layouts' totals' H Hdefs Hpool Hlay;
    unfold over in H; simpl in H.
  - injection H as <- <- <-. exact Hlay.
  - destruct pool as [|p pool]; [injection H as <- <- <-; exact Hlay|].
    apply bind_Returned in H as ([[pool1 l1] t1] & Hfill & Hrest).
    destruct (fillSheets_built key _ _ _ _ _ _ _ _ _ Hfill
                               (Hdefs _ (or_introl eq_refl)) Hpool Hlay) as [Hpool1 Hl1].
    apply (IH _ _ _ _ _ _ Hrest); try assumption.
    intros s Hs. apply Hdefs. right. exact Hs.
Qed.

Lemma nestGroup_returns (st : SheetState) (entry : string * list Part.t) :
  exists st', nestGroup partToPartDist partToSheetDist rotation material
                        availableSheets st entry = Returned st'.
Proof.
  destruct entry as [key group]. unfold nestGroup.
  destruct (sheetDefsFor availableSheets key) as [|s defs]; [eexists; reflexivity|].
  destruct (overSheetDefs_returns (s :: defs) (sortByArea (flat_map expand group))
                                  (st_layouts st) (st_totals st)) as ([[pool' l'] t'] & Hr).
  unfold over in Hr. rewrite Hr. simpl. eexists; reflexivity.
Qed.

Lemma nestGroup_built (st st' : SheetState) (key : string) (group : list Part.t) :
  nestGroup partToPartDist partToSheetDist rotation material
            availableSheets st (key, group) = Returned st' ->
  Forall (fun p => groupKey p = key) group ->
  Forall built (st_layouts st) -> Forall built (st_layouts st').
Proof.
  unfold nestGroup. intros H Hgroup Hlay.
  destruct (sheetDefsFor availableSheets key) as [|s defs] eqn:Hdefs.
  - injection H as <-. exact Hlay.
  - apply bind_Returned in H as ([[pool' l'] t'] & Hover & Hret).
    injection Hret as <-. simpl.
    apply (overSheetDefs_built key _ _ _ _ _ _ _ Hover); try assumption.
    + rewrite Hdefs. auto.
    + apply sortByArea_Forall. apply Forall_forall. intros q Hq.
      apply in_flat_map in Hq as (p & Hp & Hq).
      rewrite (expand_groupKey p q Hq).
      rewrite Forall_forall in Hgroup. exact (Hgroup p Hp).
Qed.

Lemma nestGroups_returns (groups : list (string * list Part.t)) :
  forall st, exists st', nestGroups partToPartDist partToSheetDist rotation material
                                    availableSheets groups st = Returned st'.
Proof.
  induction groups as [|entry rest IH]; intros st; simpl; [eexists; reflexivity|].
  destruct (nestGroup_returns st entry) as (st1 & ->). simpl. apply IH.
Qed.

Lemma nestGroups_built (groups : list (string * list Part.t)) :
  forall st st',
    nestGroups partToPartDist partToSheetDist rotation material
               availableSheets groups st = Returned st' ->
    (forall k g p, In (k, g) groups -> In p g -> groupKey p = k) ->
    Forall built (st_layouts st) -> Forall built (st_layouts st').
Proof.
  induction groups as [|[key group] rest IH]; intros st st' H Hkeys Hlay; simpl in H.
  - injection H as <-. exact Hlay.
  - apply bind_Returned in H as (st1 & H1 & Hrest).
    apply (IH _ _ Hrest).
    + intros k g p Hin. apply Hkeys. right. exact Hin.
    + apply (nestGroup_built _ _ _ _ H1); [|exact Hlay].
      apply Forall_forall. intros p Hp. exact (Hkeys key group p (or_introl eq_refl) Hp).
Qed.

(** The sheet packer always returns. *)
Lemma performSheetNesting_returns (parts : list Part.t) :
  exists r, performSheetNesting partToPartDist partToSheetDist rotation material
                                availableSheets parts = Returned r.
Proof.
  unfold performSheetNesting.
  destruct (JsFacts.groupBy_returns groupKey parts
              (fun p _ => JsFacts.inheritedKey_hyphen _ (groupKey_hyphen p)) [])
    as (groups & ->). simpl.
  destruct (nestGroups_returns (Js.forIn groups) (mkSheetState [] [] [])) as (st & ->).
  simpl. eexists; reflexivity.
Qed.

(** Every layout of the result was built by a pass of [placeOnSheet]. *)
Lemma performSheetNesting_built (parts : list Part.t) (r : SheetNestingResult.t) :
  performSheetNesting partToPartDist partToSheetDist rotation material
                      availableSheets parts = Returned r ->
  Forall built (SheetNestingResult.layouts r).
Proof.
  unfold performSheetNesting. intros H.
  apply bind_Returned in H as (groups & Hg & H).
  apply bind_Returned in H as (st & Hst & H).
  injection H as <-. simpl.
  apply (nestGroups_built _ _ _ Hst); [|constructor].
  intros k g p Hin Hp. apply JsFacts.forIn_In in Hin.
  apply (JsFacts.groupBy_groups groupKey parts [] groups Hg) with (g := g); try assumption.
  intros ? ? ? [].
Qed.

End SheetLoops.

(** ** Properties of the sheet packer *)



(** A placed part lies on a sheet selected for the key of its own group. *)
Lemma builtLayout_lookup ppd psd rotation material availableSheets layout pp :
  builtLayout ppd psd rotation material availableSheets layout ->
  In pp (SheetLayout.placedParts layout) ->
  In (SheetLayout.sheet layout)
     (sheetDefsFor availableSheets (groupKey (PlacedPart.part pp))).
Proof.
  intros (key & sheetDef & pool & idx & placed & remaining & count
          & Hdef & Hpool & Hpass & ->) Hin.
  simpl in *.
  pose proof (placeOnSheet_placed _ _ _ _ (fun p => groupKey p = key) _ _ _ _ _ _ _
                                  Hpass Hpool (Forall_nil _)) as Hplaced.
  rewrite Forall_forall in Hplaced. rewrite (Hplaced pp Hin). exact Hdef.
Qed.

(** The lookup compares the sheet's grade with the first segment of the
    key and its thickness with the number parsed from the second. *)
Lemma sheetDefsFor_In (availableSheets : list Sheet.t) (key : string) (s : Sheet.t) :
  In s (sheetDefsFor availableSheets key) ->
  In s availableSheets
  /\ hd_error (Js.split "-" key) = Some (Sheet.grade s)
  /\ Js.strictEq (Js.parseFloat (nth 1 (Js.split "-" key) "undefined"))
                 (Sheet.thickness s) = true.
Proof.
  unfold sheetDefsFor. intros H. apply filter_In in H as [Hin Hf].
  apply andb_true_iff in Hf as [Hg Ht].
  split; [exact Hin|]. split; [|exact Ht].
  destruct (Js.split "-" key) as [|grade rest]; [discriminate|].
  apply String.eqb_eq in Hg. simpl. congruence.
Qed.

Lemma sheetDefsFor_grade (availableSheets : list Sheet.t) (key : string) (s : Sheet.t) :
  In s (sheetDefsFor availableSheets key) ->
  Js.contains "-" (Sheet.grade s) = false.
Proof.
  intros H. apply sheetDefsFor_In in H as (_ & Hhd & _).
  destruct (JsFacts.split_head "-" key) as (h & t & Hs & Hh).
  rewrite Hs in Hhd. simpl in Hhd. congruence.
Qed.

Lemma groupBy_single (p : Part.t) :
  Js.groupBy groupKey [p] [] = Returned [(groupKey p, [p])].
Proof.
  simpl. unfold Js.pushTo. simpl.
  rewrite (JsFacts.inheritedKey_hyphen _ (groupKey_hyphen p)). reflexivity.
Qed.

Lemma forIn_single (p : Part.t) (g : list Part.t) :
  Js.forIn [(groupKey p, g)] = [(groupKey p, g)].
Proof.
  unfold Js.forIn, Js.indexedEntries, Js.namedEntries. simpl.
  rewrite (JsFacts.arrayIndex_hyphen _ (groupKey_hyphen p)). reflexivity.
Qed.

(** In scenario B the finder returns the origin, unrotated, whatever the
    rotation option. *)
Lemma findBestPosition_scenario_B (q : Part.t) (s : Sheet.t) (rotation : RotationOption) :
  Part.length q = 450 -> Part.width q = 100 ->
  Sheet.length s = 300 -> Sheet.width s = 500 ->
  findBestPosition q s [] 0 0 rotation = Some (mkPosition 0 0 false).
Proof.
  intros Hl Hw Hsl Hsw.
  unfold findBestPosition, tryPlacing, candidatePoints, tryPoint, canPlace.
  simpl. rewrite Hl, Hw, Hsl, Hsw. simpl.
  destruct rotation; reflexivity.
Qed.

Lemma feasible_scenario_B (q : Part.t) (s : Sheet.t) :
  Part.length q = 450 -> Part.width q = 100 ->
  Sheet.length s = 300 -> Sheet.width s = 500 ->
  feasible q s [] 0 0 false (mkPoint 0 0)
  /\ forall pt, ~ feasible q s [] 0 0 true pt.
Proof.
  intros Hl Hw Hsl Hsw. unfold feasible, extentsOf, canPlace. simpl.
  rewrite Hl, Hw, Hsl, Hsw. split.
  - split; [left; reflexivity | reflexivity].
  - intros pt [[<-|[]] Hc]. simpl in Hc. discriminate Hc.
Qed.

(** ** The greedy accumulation and the trials *)

Lemma insertByLength_In (a x : CutPart.t) (l : list CutPart.t) :
  In x (insertByLength a l) <-> x = a \/ In x l.
Proof.
  induction l as [|b l IH]; simpl.
  - intuition auto.
  - destruct (CutPart.effectiveLength b - CutPart.effectiveLength a <=? 0); simpl;
      [intuition auto|].
    rewrite IH. intuition auto.
Qed.

Lemma sortByLength_In (x : CutPart.t) (l : list CutPart.t) :
  In x (sortByLength l) <-> In x l.
Proof.
  induction l as [|a l IH]; simpl; [reflexivity|].
  rewrite insertByLength_In, IH. intuition auto.
Qed.

Lemma sortByLength_nonempty (l : list CutPart.t) : l <> [] -> sortByLength l <> [].
Proof.
  destruct l as [|a l]; [congruence|]. intros _ H.
  assert (Hin : In a (sortByLength (a :: l))) by (apply sortByLength_In; left; reflexivity).
  rewrite H in Hin. exact Hin.
Qed.

Lemma sumEffective_from (cuts : list CutPart.t) (z : Z) :
  fold_left (fun sum c => sum + CutPart.effectiveLength c) cuts z
  = z + sumEffective cuts.
Proof.
  unfold sumEffective. revert z.
  induction cuts as [|c cuts IH]; intros z; simpl; [lia|].
  rewrite (IH (z + CutPart.effectiveLength c)), (IH (CutPart.effectiveLength c)). lia.
Qed.

Lemma sumEffective_app (cuts more : list CutPart.t) :
  sumEffective (cuts ++ more) = sumEffective cuts + sumEffective more.
Proof.
  unfold sumEffective at 1. rewrite fold_left_app, sumEffective_from.
  reflexivity.
Qed.

Lemma sumEffective_cons (c : CutPart.t) (cuts : list CutPart.t) :
  sumEffective (c :: cuts) = CutPart.effectiveLength c + sumEffective cuts.
Proof. exact (sumEffective_app [c] cuts). Qed.

Lemma setNth_In {A : Type} (n : nat) (a x : A) (l : list A) :
  In x (setNth n a l) -> x = a \/ In x l.
Proof.
  revert n. induction l as [|b l IH]; intros n; simpl; [intros []|].
  destruct n; simpl.
  - intros [<-|H]; [left; reflexivity | right; right; exact H].
  - intros [<-|H]; [right; left; reflexivity|].
    destruct (IH n H) as [->|H']; [left; reflexivity | right; right; exact H'].
Qed.

Lemma setNth_length {A : Type} (n : nat) (a : A) (l : list A) :
  List.length (setNth n a l) = List.length l.
Proof.
  revert n. induction l as [|b l IH]; intros n; simpl; [reflexivity|].
  destruct n; simpl; [reflexivity | rewrite IH; reflexivity].
Qed.

Lemma swap_In {A : Type} (t : list A) (j k : nat) (x : A) :
  In x (swap t j k) -> In x t.
Proof.
  unfold swap.
  destruct (nth_error t j) as [tj|] eqn:Hj; [|auto].
  destruct (nth_error t k) as [tk|] eqn:Hk; [|auto].
  intros H. apply setNth_In in H as [->|H]; [exact (nth_error_In _ _ Hj)|].
  apply setNth_In in H as [->|H]; [exact (nth_error_In _ _ Hk) | exact H].
Qed.

Lemma swap_length {A : Type} (t : list A) (j k : nat) :
  List.length (swap t j k) = List.length t.
Proof.
  unfold swap.
  destruct (nth_error t j); [|reflexivity].
  destruct (nth_error t k); [|reflexivity].
  rewrite !setNth_length. reflexivity.
Qed.

Section Accumulation.

Variables (stockLength leftEndAllowance rightEndAllowance : Z).
Variable random : nat -> nat.

Let usable := usableStockLength stockLength leftEndAllowance rightEndAllowance.
Let acc := accumulate stockLength leftEndAllowance rightEndAllowance.
Let fits (c : CutPart.t) : Prop := CutPart.effectiveLength c <= usable.
Let ok := candidateOk stockLength leftEndAllowance rightEndAllowance.

(** The accumulation appends cuts taken from the list it scans, adds their
    lengths to the running sum, and never passes the usable length. *)
Lemma accumulate_added (parts : list CutPart.t) :
  forall cuts used cuts' used',
    acc parts cuts used = (cuts', used') ->
    exists added,
      cuts' = (cuts ++ added)%list
      /\ used' = used + sumEffective added
      /\ incl added parts
      /\ (added = [] \/ used' <= usable).
Proof.
  induction parts as [|part parts IH]; intros cuts used cuts' used' H;
    unfold acc in H; simpl in H.
  - injection H as <- <-. exists []. rewrite app_nil_r.
    repeat split; [unfold sumEffective; simpl; lia | intros x [] | left; reflexivity].
  - fold usable in H.
    destruct (used + CutPart.effectiveLength part <=? usable) eqn:Hfit.
    + apply IH in H as (added & Hc & Hu & Hincl & Hcap); subst cuts' used'.
      exists (part :: added). rewrite <- app_assoc. simpl.
      split; [reflexivity|]. split; [rewrite sumEffective_cons; lia|].
      split.
      * intros x [<-|Hx]; [left; reflexivity | right; exact (Hincl x Hx)].
      * right. destruct Hcap as [->|Hcap]; [|exact Hcap].
        unfold sumEffective. simpl. apply Z.leb_le in Hfit. lia.
    + apply IH in H as (added & Hc & Hu & Hincl & Hcap); subst cuts' used'.
      exists added. repeat split; try assumption.
      intros x Hx. right. exact (Hincl x Hx).
Qed.

(** A first element that fits is taken. *)
Lemma accumulate_first (part : CutPart.t) (parts : list CutPart.t) :
  fits part -> fst (acc (part :: parts) [] 0) <> [].
Proof.
  intros Hfit. destruct (acc (part :: parts) [] 0) as [cuts' used'] eqn:H.
  unfold acc in H. simpl in H. fold usable in H.
  assert (Hle : (CutPart.effectiveLength part <=? usable) = true)
    by (apply Z.leb_le; exact Hfit).
  rewrite Hle in H.
  apply accumulate_added in H as (added & Hc & _). subst cuts'.
  simpl. discriminate.
Qed.

Lemma accumulate_candidate (pool parts : list CutPart.t) :
  incl parts pool ->
  ok pool (fst (acc parts [] 0)) (usable - snd (acc parts [] 0)).
Proof.
  intros Hincl. destruct (acc parts [] 0) as [cuts used] eqn:H.
  apply accumulate_added in H as (added & Hc & Hu & Hadd & Hcap); subst cuts used. simpl.
  repeat split.
  - intros x Hx. exact (Hincl x (Hadd x Hx)).
  - destruct Hcap as [->|Hcap]; [left; reflexivity | right; lia].
Qed.

Lemma shuffleFrom_In (j : nat) :
  forall t calls x, In x (fst (shuffleFrom random j t calls)) -> In x t.
Proof.
  induction j as [|j IH]; intros t calls x; simpl; [auto|].
  intros H. apply IH in H. exact (swap_In _ _ _ _ H).
Qed.

Lemma shuffleFrom_length (j : nat) :
  forall t calls, List.length (fst (shuffleFrom random j t calls)) = List.length t.
Proof.
  induction j as [|j IH]; intros t calls; simpl; [reflexivity|].
  rewrite IH. apply swap_length.
Qed.

Lemma shuffle_incl (t : list CutPart.t) (calls : nat) :
  incl (fst (shuffle random t calls)) t.
Proof. intros x. apply shuffleFrom_In. Qed.

Lemma shuffle_length (t : list CutPart.t) (calls : nat) :
  List.length (fst (shuffle random t calls)) = List.length t.
Proof. apply shuffleFrom_length. Qed.

End Accumulation.

Section Trials.

Variables (stockLength leftEndAllowance rightEndAllowance : Z).
Variable random : nat -> nat.
Variable pool : list CutPart.t.

Let usable := usableStockLength stockLength leftEndAllowance rightEndAllowance.
Let ok := candidateOk stockLength leftEndAllowance rightEndAllowance pool.
Let run := trials stockLength leftEndAllowance rightEndAllowance random.
Let found := trialResults stockLength leftEndAllowance rightEndAllowance random.

(** The trial loop keeps a candidate of the pool and never raises the
    recorded waste. *)
Lemma trials_candidate (i : nat) :
  forall temp calls best bestWaste,
    incl temp pool -> ok best bestWaste ->
    ok (fst (fst (run i temp calls best bestWaste)))
       (snd (fst (run i temp calls best bestWaste)))
    /\ snd (fst (run i temp calls best bestWaste)) <= bestWaste.
Proof.
  induction i as [|i IH]; intros temp calls best bestWaste Htemp Hok;
    unfold run; simpl.
  - split; [exact Hok | lia].
  - pose proof (shuffle_incl random temp calls) as Hsh.
    destruct (shuffle random temp calls) as [temp' calls']. simpl in Hsh.
    assert (Htemp' : incl temp' pool) by (intros x Hx; exact (Htemp x (Hsh x Hx))).
    pose proof (accumulate_candidate stockLength leftEndAllowance rightEndAllowance
                                     pool temp' Htemp') as Hcand.
    destruct (accumulate stockLength leftEndAllowance rightEndAllowance temp' [] 0)
      as [currentCuts currentUsed]. simpl in Hcand.
    fold usable.
    destruct (usable - currentUsed <? bestWaste) eqn:Hlt.
    + destruct (IH temp' calls' currentCuts (usable - currentUsed) Htemp' Hcand)
        as [H1 H2].
      split; [exact H1|]. apply Z.ltb_lt in Hlt. unfold run in H2. lia.
    + exact (IH temp' calls' best bestWaste Htemp' Hok).
Qed.

(** With a pool whose instances all fit a bar, a non-empty incumbent stays
    non-empty: every trial takes at least its first instance. *)
Lemma trials_nonempty (i : nat) :
  (forall c, In c pool -> CutPart.effectiveLength c <= usable) ->
  forall temp calls best bestWaste,
    incl temp pool -> temp <> [] -> best <> [] ->
    fst (fst (run i temp calls best bestWaste)) <> [].
Proof.
  intros Hfits. induction i as [|i IH]; intros temp calls best bestWaste Htemp Hne Hbest;
    unfold run; simpl; [exact Hbest|].
  pose proof (shuffle_incl random temp calls) as Hsh.
  pose proof (shuffle_length random temp calls) as Hlen.
  destruct (shuffle random temp calls) as [temp' calls']. simpl in Hsh, Hlen.
  assert (Htemp' : incl temp' pool) by (intros x Hx; exact (Htemp x (Hsh x Hx))).
  assert (Hne' : temp' <> []).
  { intros ->. destruct temp; [congruence | discriminate Hlen]. }
  assert (Hcur : fst (accumulate stockLength leftEndAllowance rightEndAllowance
                                 temp' [] 0) <> []).
  { destruct temp' as [|c temp']; [congruence|].
    apply accumulate_first. apply Hfits, Htemp'. left; reflexivity. }
  destruct (accumulate stockLength leftEndAllowance rightEndAllowance temp' [] 0)
    as [currentCuts currentUsed]. simpl in Hcur.
  destruct (_ <? bestWaste); apply IH; assumption.
Qed.

(** The result of the trial loop is the first candidate of least waste
    among the incumbent and the trials, in the order they are found. *)
Lemma trials_first_minimum (i : nat) :
  forall temp calls best bestWaste,
    let candidates := (best, bestWaste) :: found i temp calls in
    let result := fst (run i temp calls best bestWaste) in
    exists n,
      nth_error candidates n = Some result
      /\ (forall e, In e candidates -> snd result <= snd e)
      /\ (forall m e, (m < n)%nat -> nth_error candidates m = Some e ->
                      snd result < snd e).
Proof.
  induction i as [|i IH]; intros temp calls best bestWaste; unfold run, found; simpl.
  - exists 0%nat. split; [reflexivity|]. split.
    + intros e [<-|[]]. simpl. lia.
    + intros m e Hm. lia.
  - destruct (shuffle random temp calls) as [temp' calls'].
    destruct (accumulate stockLength leftEndAllowance rightEndAllowance temp' [] 0)
      as [currentCuts currentUsed].
    fold usable.
    destruct (usable - currentUsed <? bestWaste) eqn:Hlt.
    + apply Z.ltb_lt in Hlt.
      destruct (IH temp' calls' currentCuts (usable - currentUsed)) as (n & Hn & Hall & Hbefore).
      unfold run, found in *. simpl in *.
      exists (S n). split; [exact Hn|]. split.
      * intros e [<-|He]; [|exact (Hall e He)].
        specialize (Hall _ (or_introl eq_refl)). simpl in *. lia.
      * intros m e Hm He. destruct m as [|m].
        -- simpl in He. injection He as <-. simpl.
           specialize (Hall _ (or_introl eq_refl)). simpl in Hall. lia.
        -- apply (Hbefore m e); [lia | exact He].
    + apply Z.ltb_ge in Hlt.
      destruct (IH temp' calls' best bestWaste) as (n & Hn & Hall & Hbefore).
      unfold run, found in *. simpl in *.
      destruct n as [|n].
      * exists 0%nat. simpl in Hn. split; [exact Hn|]. injection Hn as Hn.
        split.
        -- intros e [<-|[<-|He]].
           ++ rewrite <- Hn. simpl. lia.
           ++ rewrite <- Hn. simpl. lia.
           ++ apply Hall. right. exact He.
        -- intros m e Hm. lia.
      * exists (S (S n)). simpl in Hn. split; [exact Hn|].
        pose proof (Hbefore 0%nat (best, bestWaste) ltac:(lia) eq_refl) as H0.
        simpl in H0. split.
        -- intros e [<-|[<-|He]].
           ++ simpl. lia.
           ++ simpl. lia.
           ++ apply Hall. right. exact He.
        -- intros m e Hm He. destruct m as [|[|m]].
           ++ simpl in He. injection He as <-. simpl. lia.
           ++ simpl in He. injection He as <-. simpl. lia.
           ++ apply (Hbefore (S m) e); [lia | exact He].
Qed.

End Trials.

Section BestCuts.

Variable stockLength : Z.
Variable optimizationGoal : OptimizationGoal.
Variables leftEndAllowance rightEndAllowance : Z.
Variable random : nat -> nat.

Let usable := usableStockLength stockLength leftEndAllowance rightEndAllowance.
Let best :=
  bestCutsFor stockLength optimizationGoal leftEndAllowance rightEndAllowance random.
Let baseline := greedyBaseline stockLength leftEndAllowance rightEndAllowance.

Lemma greedyBaseline_candidate (pool : list CutPart.t) :
  candidateOk stockLength leftEndAllowance rightEndAllowance pool
              (fst (baseline pool)) (usable - snd (baseline pool)).
Proof.
  apply accumulate_candidate. intros x Hx. apply sortByLength_In, Hx.
Qed.

Lemma bestCutsFor_unfold (pool : list CutPart.t) (calls : nat) :
  best pool calls
  = if minimizesWaste optimizationGoal && (1 <? List.length pool)%nat
    then trials stockLength leftEndAllowance rightEndAllowance random
                SHUFFLE_ITERATIONS pool calls
                (fst (baseline pool)) (usable - snd (baseline pool))
    else (fst (baseline pool), usable - snd (baseline pool), calls).
Proof.
  unfold best, bestCutsFor, baseline.
  destruct (greedyBaseline stockLength leftEndAllowance rightEndAllowance pool).
  reflexivity.
Qed.

(** The cuts chosen for a bar are a candidate of the pool, and their waste
    is at most the waste of the first-fit-decreasing baseline. *)
Lemma bestCutsFor_candidate (pool : list CutPart.t) (calls : nat) :
  candidateOk stockLength leftEndAllowance rightEndAllowance pool
              (fst (fst (best pool calls))) (snd (fst (best pool calls)))
  /\ snd (fst (best pool calls)) <= usable - snd (baseline pool).
Proof.
  pose proof (greedyBaseline_candidate pool) as Hbase.
  rewrite bestCutsFor_unfold.
  destruct (minimizesWaste optimizationGoal && (1 <? List.length pool)%nat).
  - apply trials_candidate; [apply incl_refl | exact Hbase].
  - split; [exact Hbase | apply Z.le_refl].
Qed.

(** On a non-empty pool whose instances all fit, some cut is chosen. *)
Lemma bestCutsFor_nonempty (pool : list CutPart.t) (calls : nat) :
  pool <> [] ->
  (forall c, In c pool -> CutPart.effectiveLength c <= usable) ->
  fst (fst (best pool calls)) <> [].
Proof.
  intros Hne Hfits.
  assert (Hbase : fst (baseline pool) <> []).
  { unfold baseline, greedyBaseline.
    pose proof (sortByLength_nonempty pool Hne) as Hs.
    destruct (sortByLength pool) as [|c sorted] eqn:E; [congruence|].
    apply accumulate_first. apply Hfits, sortByLength_In. rewrite E. left; reflexivity. }
  rewrite bestCutsFor_unfold.
  destruct (minimizesWaste optimizationGoal && (1 <? List.length pool)%nat).
  - apply trials_nonempty with (pool := pool); try assumption. apply incl_refl.
  - exact Hbase.
Qed.

End BestCuts.

(** Removing the instances of a non-empty choice shortens the pool. *)
Lemma removePlaced_shorter (chosen pool : list CutPart.t) :
  chosen <> [] -> incl chosen pool ->
  (List.length (removePlaced chosen pool) < List.length pool)%nat.
Proof.
  intros Hne Hincl. destruct chosen as [|c chosen]; [congruence|].
  assert (Hc : In c pool) by (apply Hincl; left; reflexivity).
  unfold removePlaced.
  set (keep := fun p : CutPart.t =>
                 negb (existsb (String.eqb (CutPart.instanceId p))
                               (map CutPart.instanceId (c :: chosen)))).
  assert (Hdrop : keep c = false).
  { unfold keep. simpl. rewrite String.eqb_refl. reflexivity. }
  clearbody keep. clear Hincl Hne.
  induction pool as [|p pool IH]; [contradiction|]. simpl.
  destruct Hc as [->|Hc].
  - rewrite Hdrop. pose proof (filter_length_le keep pool). lia.
  - specialize (IH Hc). destruct (keep p); simpl; lia.
Qed.

Lemma removePlaced_incl (chosen pool : list CutPart.t) :
  incl (removePlaced chosen pool) pool.
Proof. intros x Hx. unfold removePlaced in Hx. apply filter_In in Hx. exact (proj1 Hx). Qed.

(** ** The loops of the linear packer *)

Lemma groupBy_no_fuel {P : Type} (keyOf : P -> string) (parts : list P) :
  forall acc, Js.groupBy keyOf parts acc <> OutOfFuel.
Proof.
  induction parts as [|q parts IH]; intros acc; simpl; [discriminate|].
  unfold Js.pushTo.
  destruct (Js.getOwn (keyOf q) acc); simpl; [apply IH|].
  destruct (Js.inheritedKey (keyOf q)); simpl; [discriminate | apply IH].
Qed.

(** Grouping throws exactly when some key is inherited. *)
Lemma groupBy_throws {P : Type} (keyOf : P -> string) (parts : list P) :
  forall acc, Js.groupBy keyOf parts acc = TypeError ->
              exists p, In p parts /\ Js.inheritedKey (keyOf p) = true.
Proof.
  induction parts as [|q parts IH]; intros acc; simpl; [discriminate|].
  unfold Js.pushTo.
  destruct (Js.getOwn (keyOf q) acc); simpl.
  - intros H. destruct (IH _ H) as (p & Hp & Hk). exists p. auto.
  - destruct (Js.inheritedKey (keyOf q)) eqn:Hq; simpl.
    + intros _. exists q. auto.
    + intros H. destruct (IH _ H) as (p & Hp & Hk). exists p. auto.
Qed.

Section LinearLoops.

Variable stockLength : Z.
Variable optimizationGoal : OptimizationGoal.
Variables leftEndAllowance rightEndAllowance : Z.
Variable random : nat -> nat.

Let usable := usableStockLength stockLength leftEndAllowance rightEndAllowance.
Let fits (c : CutPart.t) : Prop := CutPart.effectiveLength c <= usable.
Let oversize (p : LinearPart.t) : bool := LinearPart.effectiveLength p >? usable.
Let bar := barOf stockLength optimizationGoal leftEndAllowance rightEndAllowance random.
Let fill :=
  fillBars stockLength optimizationGoal leftEndAllowance rightEndAllowance random.

(** Immediate rejection: the oversize parts go to the unplaced list, in
    order, and every instance created fits a bar. *)
Lemma expandGroup_spec (partsInGroup : list LinearPart.t) :
  forall cuts unplaced,
    Forall fits cuts ->
    Forall fits (fst (expandGroup stockLength leftEndAllowance rightEndAllowance
                                  partsInGroup cuts unplaced))
    /\ snd (expandGroup stockLength leftEndAllowance rightEndAllowance
                        partsInGroup cuts unplaced)
       = (unplaced ++ filter oversize partsInGroup)%list.
Proof.
  induction partsInGroup as [|p parts IH]; intros cuts unplaced Hcuts; simpl.
  - rewrite app_nil_r. split; [exact Hcuts | reflexivity].
  - fold usable.
    replace (oversize p) with (LinearPart.effectiveLength p >? usable) by reflexivity.
    destruct (LinearPart.effectiveLength p >? usable) eqn:Hp.
    + destruct (IH cuts (unplaced ++ [p])%list Hcuts) as [H1 H2].
      split; [exact H1|]. rewrite H2, <- app_assoc. reflexivity.
    + apply IH. apply Forall_app. split; [exact Hcuts|].
      apply Forall_forall. intros c Hc. unfold instances in Hc.
      apply in_map_iff in Hc as (i & <- & _). unfold fits. simpl.
      rewrite Z.gtb_ltb in Hp. apply Z.ltb_ge in Hp. exact Hp.
Qed.

(** The bar loop never runs out of fuel and never reaches the empty-bar
    branch when the pool fits: it returns, leaves the unplaced parts of
    the group as they are, and every layout it adds is a committed bar. *)
Lemma fillBars_spec (rawMaterial : string) (partsInGroup : list LinearPart.t)
      (fuel : nat) :
  forall pool st,
    (List.length pool <= fuel)%nat ->
    Forall fits pool ->
    exists st',
      fill fuel rawMaterial partsInGroup pool st = Returned st'
      /\ bs_unplaced st' = bs_unplaced st
      /\ (Forall bar (bs_layouts st) -> Forall bar (bs_layouts st')).
Proof.
  induction fuel as [|fuel IH]; intros pool st Hlen Hfits.
  - destruct pool; [|simpl in Hlen; lia]. exists st. repeat split. auto.
  - destruct pool as [|c pool]; [exists st; repeat split; auto|].
    unfold fill. simpl.
    set (full := c :: pool) in *.
    assert (Hne : full <> []) by discriminate.
    assert (Hfits' : forall x, In x full -> CutPart.effectiveLength x <= usable)
      by (apply Forall_forall; exact Hfits).
    pose proof (bestCutsFor_nonempty stockLength optimizationGoal leftEndAllowance
                  rightEndAllowance random full (bs_calls st) Hne Hfits') as Hchosen.
    destruct (bestCutsFor_candidate stockLength optimizationGoal leftEndAllowance
                rightEndAllowance random full (bs_calls st)) as [(_ & Hincl & _) _].
    remember (bestCutsFor stockLength optimizationGoal leftEndAllowance
                rightEndAllowance random full (bs_calls st)) as res eqn:Hbest in *.
    destruct res as [[chosen waste] calls']. simpl in Hchosen, Hincl.
    destruct chosen as [|k chosen]; [congruence|].
    destruct (IH (removePlaced (k :: chosen) full)
                 (mkBarState (bs_unplaced st)
                    (bs_layouts st
                     ++ [newStockLayout stockLength (bs_counter st) rawMaterial
                                        (k :: chosen)])%list
                    (bs_counter st + 1) calls'))
      as (st' & Hrun & Hun & Hlay).
    + pose proof (removePlaced_shorter (k :: chosen) full ltac:(discriminate) Hincl).
      simpl in Hlen. unfold full in *. simpl in *. lia.
    + apply Forall_forall. intros x Hx. apply Hfits', (removePlaced_incl _ _ x Hx).
    + exists st'. split; [exact Hrun|]. split; [exact Hun|].
      intros Hbars. apply Hlay. simpl.
      apply Forall_app. split; [exact Hbars|]. constructor; [|constructor].
      exists full, (bs_calls st). split; [exact Hfits|].
      unfold committedBar. rewrite <- Hbest. simpl.
      repeat split; try assumption; discriminate.
Qed.

Let unplacedOf (groups : list (string * list LinearPart.t)) : list LinearPart.t :=
  flat_map (fun entry => filter oversize (snd entry)) groups.

Lemma nestMaterial_spec (st : LinearState) (entry : string * list LinearPart.t) :
  Forall bar (ls_layouts st) ->
  exists st',
    nestMaterial stockLength optimizationGoal leftEndAllowance rightEndAllowance
                 random st entry = Returned st'
    /\ Forall bar (ls_layouts st')
    /\ ls_unplaced st' = (ls_unplaced st ++ filter oversize (snd entry))%list.
Proof.
  intros Hbars. destruct entry as [rawMaterial partsInGroup]. unfold nestMaterial.
  destruct (expandGroup_spec partsInGroup [] [] (Forall_nil _)) as [Hfits Hun].
  destruct (expandGroup stockLength leftEndAllowance rightEndAllowance
                        partsInGroup [] []) as [allCutParts unplacedForGroup].
  simpl in Hfits, Hun.
  destruct (fillBars_spec rawMaterial partsInGroup (List.length allCutParts) allCutParts
              (mkBarState unplacedForGroup (ls_layouts st) (ls_counter st) (ls_calls st))
              (Nat.le_refl _) Hfits) as (bs & Hrun & Hbs & Hlay).
  unfold fill in Hrun. rewrite Hrun. simpl.
  eexists. split; [reflexivity|]. simpl. split; [exact (Hlay Hbars)|].
  rewrite Hbs. simpl. rewrite Hun. reflexivity.
Qed.

Lemma nestMaterials_spec (groups : list (string * list LinearPart.t)) :
  forall st,
    Forall bar (ls_layouts st) ->
    exists st',
      nestMaterials stockLength optimizationGoal leftEndAllowance rightEndAllowance
                    random groups st = Returned st'
      /\ Forall bar (ls_layouts st')
      /\ ls_unplaced st' = (ls_unplaced st ++ unplacedOf groups)%list.
Proof.
  induction groups as [|entry rest IH]; intros st Hbars; simpl.
  - exists st. rewrite app_nil_r. repeat split. exact Hbars.
  - destruct (nestMaterial_spec st entry Hbars) as (st1 & -> & Hb1 & Hu1). simpl.
    destruct (IH st1 Hb1) as (st' & Hrun & Hb & Hu).
    exists st'. split; [exact Hrun|]. split; [exact Hb|].
    rewrite Hu, Hu1, <- app_assoc. reflexivity.
Qed.

(** The linear packer, once the grouping has returned: the layouts are
    committed bars with their waste filled in, and the unplaced parts are
    the consolidated oversize parts of the groups. *)
Lemma performLinearNesting_spec (parts : list LinearPart.t)
      (groups : Js.Obj (list LinearPart.t)) :
  Js.groupBy LinearPart.rawMaterial parts [] = Returned groups ->
  exists r bars,
    performLinearNesting stockLength optimizationGoal leftEndAllowance
                         rightEndAllowance random parts = Returned r
    /\ LinearNestingResult.layouts r = map (finalize) bars
    /\ Forall bar bars
    /\ LinearNestingResult.unplacedParts r
       = consolidateLinear (unplacedOf (Js.forIn groups)).
Proof.
  intros Hg. unfold performLinearNesting. rewrite Hg. simpl.
  destruct (nestMaterials_spec (Js.forIn groups) (mkLinearState [] [] 1 0%nat)
                               (Forall_nil _)) as (st & -> & Hb & Hu).
  simpl. eexists. exists (ls_layouts st). split; [reflexivity|]. simpl.
  split; [reflexivity|]. split; [exact Hb|]. rewrite Hu. reflexivity.
Qed.

(** The linear packer returns, unless the grouping throws on a raw
    material named like a property inherited from [Object.prototype]. *)
Lemma performLinearNesting_outcome (parts : list LinearPart.t) :
  (exists groups, Js.groupBy LinearPart.rawMaterial parts [] = Returned groups)
  \/ (performLinearNesting stockLength optimizationGoal leftEndAllowance
                           rightEndAllowance random parts = TypeError
      /\ exists p, In p parts /\ Js.inheritedKey (LinearPart.rawMaterial p) = true).
Proof.
  destruct (Js.groupBy LinearPart.rawMaterial parts []) as [groups| |] eqn:Hg.
  - left. exists groups. reflexivity.
  - right. split; [unfold performLinearNesting; rewrite Hg; reflexivity|].
    exact (groupBy_throws _ _ _ Hg).
  - exfalso. exact (groupBy_no_fuel _ _ _ Hg).
Qed.

End LinearLoops.

(** ** Properties of the linear packer *)

Section LinearResults.

Variable stockLength : Z.
Variable optimizationGoal : OptimizationGoal.
Variables leftEndAllowance rightEndAllowance : Z.
Variable random : nat -> nat.

Let usable := usableStockLength stockLength leftEndAllowance rightEndAllowance.
Let bar := barOf stockLength optimizationGoal leftEndAllowance rightEndAllowance random.
Let run :=
  performLinearNesting stockLength optimizationGoal leftEndAllowance
                       rightEndAllowance random.

Lemma performLinearNesting_returns (parts : list LinearPart.t) :
  (forall p, In p parts -> Js.inheritedKey (LinearPart.rawMaterial p) = false) ->
  exists r, run parts = Returned r.
Proof.
  intros Hsafe.
  destruct (JsFacts.groupBy_returns LinearPart.rawMaterial parts Hsafe []) as (groups & Hg).
  destruct (performLinearNesting_spec stockLength optimizationGoal leftEndAllowance
              rightEndAllowance random parts groups Hg) as (r & _ & Hr & _).
  exists r. exact Hr.
Qed.

(** Every layout of a result is a committed bar with its waste filled in. *)
Lemma performLinearNesting_layouts (parts : list LinearPart.t)
      (r : LinearNestingResult.t) (layout : StockLayout.t) :
  run parts = Returned r ->
  In layout (LinearNestingResult.layouts r) ->
  exists committed, bar committed /\ layout = finalize committed.
Proof.
  intros Hr Hin.
  destruct (performLinearNesting_outcome stockLength optimizationGoal leftEndAllowance
              rightEndAllowance random parts) as [(groups & Hg)|[Hthrow _]].
  - destruct (performLinearNesting_spec stockLength optimizationGoal leftEndAllowance
                rightEndAllowance random parts groups Hg) as (r' & bars & Hr' & Hl & Hb & _).
    unfold run in Hr. rewrite Hr' in Hr. injection Hr as <-.
    rewrite Hl in Hin. apply in_map_iff in Hin as (committed & <- & Hc).
    exists committed. split; [|reflexivity].
    rewrite Forall_forall in Hb. exact (Hb committed Hc).
  - unfold run in Hr. congruence.
Qed.

Lemma performLinearNesting_no_fuel (parts : list LinearPart.t) :
  run parts <> OutOfFuel.
Proof.
  destruct (performLinearNesting_outcome stockLength optimizationGoal leftEndAllowance
              rightEndAllowance random parts) as [(groups & Hg)|[Hthrow _]].
  - destruct (performLinearNesting_spec stockLength optimizationGoal leftEndAllowance
                rightEndAllowance random parts groups Hg) as (r & _ & Hr & _).
    unfold run. rewrite Hr. discriminate.
  - unfold run. rewrite Hthrow. discriminate.
Qed.

End LinearResults.

Lemma greedyBaseline_used (stockLength leftEndAllowance rightEndAllowance : Z)
      (pool : list CutPart.t) :
  snd (greedyBaseline stockLength leftEndAllowance rightEndAllowance pool)
  = sumEffective (fst (greedyBaseline stockLength leftEndAllowance rightEndAllowance pool)).
Proof.
  unfold greedyBaseline.
  destruct (accumulate stockLength leftEndAllowance rightEndAllowance
                       (sortByLength pool) [] 0) as [cuts used] eqn:H.
  apply accumulate_added in H as (added & Hc & Hu & _). subst. simpl. lia.
Qed.

(** In speed mode no draw is read. *)
Lemma bestCutsFor_speed (stockLength leftEndAllowance rightEndAllowance : Z)
      (random : nat -> nat) (pool : list CutPart.t) (calls : nat) :
  bestCutsFor stockLength PRIORITIZE_SPEED leftEndAllowance rightEndAllowance
              random pool calls
  = (fst (greedyBaseline stockLength leftEndAllowance rightEndAllowance pool),
     usableStockLength stockLength leftEndAllowance rightEndAllowance
     - snd (greedyBaseline stockLength leftEndAllowance rightEndAllowance pool),
     calls).
Proof. rewrite bestCutsFor_unfold. reflexivity. Qed.

Lemma fillBars_speed (stockLength leftEndAllowance rightEndAllowance : Z)
      (random1 random2 : nat -> nat) (rawMaterial : string)
      (partsInGroup : list LinearPart.t) (fuel : nat) :
  forall pool st,
    fillBars stockLength PRIORITIZE_SPEED leftEndAllowance rightEndAllowance
             random1 fuel rawMaterial partsInGroup pool st
    = fillBars stockLength PRIORITIZE_SPEED leftEndAllowance rightEndAllowance
               random2 fuel rawMaterial partsInGroup pool st.
Proof.
  induction fuel as [|fuel IH]; intros pool st.
  { destruct pool; reflexivity. }
  destruct pool as [|c pool]; [reflexivity|].
  simpl. rewrite !bestCutsFor_speed.
  destruct (fst (greedyBaseline stockLength leftEndAllowance rightEndAllowance
                                (c :: pool))); [reflexivity | apply IH].
Qed.

Lemma nestMaterials_speed (stockLength leftEndAllowance rightEndAllowance : Z)
      (random1 random2 : nat -> nat) (groups : list (string * list LinearPart.t)) :
  forall st,
    nestMaterials stockLength PRIORITIZE_SPEED leftEndAllowance rightEndAllowance
                  random1 groups st
    = nestMaterials stockLength PRIORITIZE_SPEED leftEndAllowance rightEndAllowance
                    random2 groups st.
Proof.
  induction groups as [|[rawMaterial partsInGroup] rest IH]; intros st; simpl;
    [reflexivity|].
  unfold nestMaterial.
  destruct (expandGroup stockLength leftEndAllowance rightEndAllowance
                        partsInGroup [] []) as [allCutParts unplacedForGroup].
  rewrite (fillBars_speed stockLength leftEndAllowance rightEndAllowance
                          random1 random2).
  apply bind_ext. exact IH.
Qed.

(** ** Immediate rejection *)

Lemma filter_permutation {A : Type} (keep : A -> bool) (xs ys : list A)
      (H : Permutation xs ys) :
  Permutation (filter keep xs) (filter keep ys).
Proof.
  induction H as [|a xs ys _ IH|a b xs|xs ys zs _ IH1 _ IH2]; simpl.
  - apply perm_nil.
  - destruct (keep a); [apply perm_skip|]; exact IH.
  - destruct (keep a), (keep b); try reflexivity. apply perm_swap.
  - exact (perm_trans IH1 IH2).
Qed.

Lemma filter_split {A : Type} (f : A -> bool) (l : list A) :
  Permutation (filter f l ++ filter (fun a => negb (f a)) l) l.
Proof.
  induction l as [|a l IH]; simpl; [constructor|].
  destruct (f a); simpl.
  - constructor. exact IH.
  - apply Permutation_sym, Permutation_cons_app, Permutation_sym, IH.
Qed.

Lemma flat_map_filter {A B : Type} (f : B -> bool) (g : A -> list B) (l : list A) :
  flat_map (fun a => filter f (g a)) l = filter f (flat_map g l).
Proof.
  induction l as [|a l IH]; simpl; [reflexivity|].
  rewrite filter_app, IH. reflexivity.
Qed.

Module GroupFacts.
Import Js.

Lemma set_existing {P : Type} (k : string) (p : P) (o : Obj (list P)) (g : list P) :
  getOwn k o = Some g ->
  Permutation (flat_map snd (set k (g ++ [p])%list o)) (p :: flat_map snd o).
Proof.
  induction o as [|[k' v'] o IH]; simpl; [discriminate|].
  destruct (String.eqb k k').
  - intros [= ->]. simpl. rewrite <- app_assoc. simpl.
    apply Permutation_sym, Permutation_middle.
  - intros H. simpl.
    apply Permutation_trans with (v' ++ p :: flat_map snd o)%list.
    + apply Permutation_app_head, IH, H.
    + apply Permutation_sym, Permutation_middle.
Qed.

Lemma set_fresh {P : Type} (k : string) (p : P) (o : Obj (list P)) :
  getOwn k o = None ->
  Permutation (flat_map snd (set k [p] o)) (p :: flat_map snd o).
Proof.
  induction o as [|[k' v'] o IH]; simpl; [intros _; apply Permutation_refl|].
  destruct (String.eqb k k'); [discriminate|].
  intros H. simpl.
  apply Permutation_trans with (v' ++ p :: flat_map snd o)%list.
  - apply Permutation_app_head, IH, H.
  - apply Permutation_sym, Permutation_middle.
Qed.

(** Grouping keeps every part, once. *)
Lemma groupBy_permutation {P : Type} (keyOf : P -> string) (parts : list P) :
  forall acc o,
    groupBy keyOf parts acc = Returned o ->
    Permutation (flat_map snd o) (flat_map snd acc ++ parts).
Proof.
  induction parts as [|q parts IH]; simpl; intros acc o H.
  - injection H as <-. rewrite app_nil_r. apply Permutation_refl.
  - apply bind_Returned in H as (acc' & Hpush & Hrest).
    apply (Permutation_trans (IH _ _ Hrest)).
    apply Permutation_trans with ((q :: flat_map snd acc) ++ parts)%list;
      [|simpl; apply Permutation_middle].
    apply Permutation_app_tail. unfold pushTo in Hpush.
    destruct (getOwn (keyOf q) acc) as [group|] eqn:Hget.
    + injection Hpush as <-. exact (set_existing _ _ _ _ Hget).
    + destruct (inheritedKey (keyOf q)); [discriminate|].
      injection Hpush as <-. exact (set_fresh _ _ _ Hget).
Qed.

Lemma insertIndexed_permutation {V : Type} (e : Z * (string * V))
      (l : list (Z * (string * V))) :
  Permutation (insertIndexed e l) (e :: l).
Proof.
  induction l as [|e' l IH]; simpl; [apply Permutation_refl|].
  destruct (fst e <=? fst e'); [apply Permutation_refl|].
  apply Permutation_trans with (e' :: e :: l); [constructor; exact IH | apply perm_swap].
Qed.

Lemma indexedEntries_permutation {V : Type} (o : Obj V) :
  Permutation (map snd (indexedEntries o))
              (filter (fun kv => negb match arrayIndex (fst kv) with
                                      | Some _ => false
                                      | None => true
                                      end) o).
Proof.
  induction o as [|kv o IH]; simpl; [constructor|].
  destruct (arrayIndex (fst kv)) as [i|]; simpl; [|exact IH].
  apply Permutation_trans with (map snd ((i, kv) :: indexedEntries o)).
  - apply Permutation_map, insertIndexed_permutation.
  - simpl. constructor. exact IH.
Qed.

(** [for ... in] visits every own property, once. *)
Lemma forIn_permutation {V : Type} (o : Obj V) : Permutation (forIn o) o.
Proof.
  unfold forIn, namedEntries.
  apply Permutation_trans
    with (filter (fun kv => match arrayIndex (fst kv) with
                            | Some _ => false
                            | None => true
                            end) o
          ++ filter (fun kv => negb match arrayIndex (fst kv) with
                                    | Some _ => false
                                    | None => true
                                    end) o)%list.
  - apply Permutation_trans with (1 := Permutation_app_comm _ _).
    apply Permutation_app_head, indexedEntries_permutation.
  - apply filter_split.
Qed.

End GroupFacts.

Lemma requestedLength_permutation (id : Z) (l l' : list LinearPart.t) :
  Permutation l l' -> requestedLength id l = requestedLength id l'.
Proof.
  intros H. unfold requestedLength.
  apply Permutation_list_sum, Permutation_map, filter_permutation, H.
Qed.

Lemma requestedLength_app (id : Z) (l l' : list LinearPart.t) :
  requestedLength id (l ++ l') = (requestedLength id l + requestedLength id l')%nat.
Proof.
  unfold requestedLength. rewrite filter_app, map_app, list_sum_app. reflexivity.
Qed.

Lemma addQuantity_quantity (id : Z) (part : LinearPart.t) (acc acc' : list LinearPart.t) :
  addQuantity part acc = Some acc' ->
  requestedLength id acc' = (requestedLength id acc + requestedLength id [part])%nat.
Proof.
  revert acc'. induction acc as [|p acc IH]; intros acc'; simpl; [discriminate|].
  destruct (LinearPart.id p =? LinearPart.id part) eqn:Hp.
  - intros [= <-]. apply Z.eqb_eq in Hp. unfold requestedLength. simpl.
    rewrite Hp. destruct (LinearPart.id part =? id); simpl; lia.
  - destruct (addQuantity part acc) as [acc1|]; simpl; [|discriminate].
    intros [= <-]. specialize (IH acc1 eq_refl).
    unfold requestedLength in *. simpl.
    destruct (LinearPart.id p =? id); simpl; simpl in IH; lia.
Qed.

(** Consolidation keeps, for every id, the total quantity. *)
Lemma consolidateLinear_quantity (id : Z) (l : list LinearPart.t) :
  requestedLength id (consolidateLinear l) = requestedLength id l.
Proof.
  unfold consolidateLinear.
  enough (H : forall acc,
             requestedLength id (fold_left consolidateLinearStep l acc)
             = (requestedLength id acc + requestedLength id l)%nat)
    by (rewrite H; reflexivity).
  induction l as [|part l IH]; intros acc; simpl.
  - unfold requestedLength at 3. simpl. lia.
  - rewrite IH. change (part :: l) with ([part] ++ l)%list.
    rewrite (requestedLength_app id [part] l).
    unfold consolidateLinearStep.
    destruct (addQuantity part acc) as [acc'|] eqn:Hadd.
    + rewrite (addQuantity_quantity id part acc acc' Hadd). lia.
    + rewrite requestedLength_app. lia.
Qed.

Lemma addQuantity_fresh (part : LinearPart.t) (acc : list LinearPart.t) :
  ~ In (LinearPart.id part) (map LinearPart.id acc) -> addQuantity part acc = None.
Proof.
  induction acc as [|p acc IH]; simpl; [reflexivity|].
  intros H. destruct (Z.eqb_spec (LinearPart.id p) (LinearPart.id part)) as [E|_].
  - exfalso. apply H. left. exact E.
  - rewrite IH; [reflexivity|]. intros Hin. apply H. right. exact Hin.
Qed.

(** Parts of pairwise distinct ids are consolidated as they are. *)
Lemma consolidateLinear_distinct (l : list LinearPart.t) :
  NoDup (map LinearPart.id l) -> consolidateLinear l = l.
Proof.
  unfold consolidateLinear.
  enough (H : forall acc, NoDup (map LinearPart.id (acc ++ l)) ->
                          fold_left consolidateLinearStep l acc = (acc ++ l)%list)
    by (intros Hnd; exact (H [] Hnd)).
  induction l as [|part l IH]; intros acc Hnd; simpl.
  - rewrite app_nil_r. reflexivity.
  - unfold consolidateLinearStep at 2. rewrite addQuantity_fresh.
    + rewrite IH; rewrite <- app_assoc; [reflexivity | exact Hnd].
    + rewrite map_app in Hnd. simpl in Hnd. apply NoDup_remove_2 in Hnd.
      intros Hin. apply Hnd. apply in_or_app. left. exact Hin.
Qed.

(** Immediate rejection, whenever the packer returns: no cut of a layout
    exceeds the usable length, so an oversize part contributes to no
    layout; for every id the unplaced parts report the total quantity of
    the oversize parts of that id; and when the ids of the input are
    pairwise distinct, the unplaced parts are the oversize parts
    themselves, each with its quantity. *)
Lemma immediate_rejection
      (stockLength : Z) (optimizationGoal : OptimizationGoal)
      (leftEndAllowance rightEndAllowance : Z) (random : nat -> nat)
      (parts : list LinearPart.t) (r : LinearNestingResult.t) :
  let usable := usableStockLength stockLength leftEndAllowance rightEndAllowance in
  let oversize (p : LinearPart.t) := LinearPart.effectiveLength p >? usable in
  performLinearNesting stockLength optimizationGoal leftEndAllowance
                       rightEndAllowance random parts = Returned r ->
  (forall layout c,
      In layout (LinearNestingResult.layouts r) -> In c (StockLayout.cuts layout) ->
      CutPart.effectiveLength c <= usable)
  /\ (forall id,
         requestedLength id (LinearNestingResult.unplacedParts r)
         = requestedLength id (filter oversize parts))
  /\ (NoDup (map LinearPart.id parts) ->
      Permutation (LinearNestingResult.unplacedParts r) (filter oversize parts)).
Proof.
  intros usable oversize Hr.
  split.
  { intros layout c Hin Hc.
    destruct (performLinearNesting_layouts _ _ _ _ _ _ _ _ Hr Hin)
      as (committed & (pool & calls & Hfits & _ & Hcuts & _) & ->).
    simpl in Hc. rewrite Hcuts in Hc.
    destruct (bestCutsFor_candidate stockLength optimizationGoal leftEndAllowance
                rightEndAllowance random pool calls) as [(_ & Hincl & _) _].
    rewrite Forall_forall in Hfits. exact (Hfits c (Hincl c Hc)). }
  destruct (performLinearNesting_outcome stockLength optimizationGoal leftEndAllowance
              rightEndAllowance random parts) as [(groups & Hg)|[Hthrow _]];
    [|congruence].
  destruct (performLinearNesting_spec stockLength optimizationGoal leftEndAllowance
              rightEndAllowance random parts groups Hg) as (r' & bars & Hr' & _ & _ & Hun).
  rewrite Hr' in Hr. injection Hr as ->.
  assert (Hperm : Permutation
                    (flat_map (fun entry => filter oversize (snd entry)) (Js.forIn groups))
                    (filter oversize parts)).
  { rewrite flat_map_filter. apply filter_permutation.
    apply Permutation_trans with (flat_map snd groups).
    - apply Permutation_flat_map, GroupFacts.forIn_permutation.
    - exact (GroupFacts.groupBy_permutation _ _ _ _ Hg). }
  split.
  - intros id. rewrite Hun, consolidateLinear_quantity.
    exact (requestedLength_permutation id _ _ Hperm).
  - intros Hnd. rewrite Hun, consolidateLinear_distinct; [exact Hperm|].
    apply Permutation_NoDup with (map LinearPart.id (filter oversize parts)).
    + apply Permutation_map, Permutation_sym, Hperm.
    + clear -Hnd. induction parts as [|p parts IH]; simpl; [constructor|].
      inversion Hnd as [|? ? Hp Hnd']; subst.
      destruct (oversize p); simpl; [|exact (IH Hnd')].
      constructor; [|exact (IH Hnd')].
      intros Hin. apply Hp. apply in_map_iff in Hin as (q & Hq & Hin).
      apply filter_In in Hin. apply in_map_iff. exists q. tauto.
Qed.

(** ** Quantities in the result of the sheet packer *)

Lemma unitCount_app (o : Z) (l l' : list Part.t) :
  unitCount o (l ++ l') = (unitCount o l + unitCount o l')%nat.
Proof. unfold unitCount. rewrite filter_app, length_app. reflexivity. Qed.

Lemma unitCount_permutation (o : Z) (l l' : list Part.t) :
  Permutation l l' -> unitCount o l = unitCount o l'.
Proof.
  intros H. unfold unitCount. apply Permutation_length, filter_permutation, H.
Qed.

Lemma requestedQuantity_app (o : Z) (l l' : list Part.t) :
  requestedQuantity o (l ++ l') = (requestedQuantity o l + requestedQuantity o l')%nat.
Proof.
  unfold requestedQuantity. rewrite filter_app, map_app, list_sum_app. reflexivity.
Qed.

Lemma requestedQuantity_permutation (o : Z) (l l' : list Part.t) :
  Permutation l l' -> requestedQuantity o l = requestedQuantity o l'.
Proof.
  intros H. unfold requestedQuantity.
  apply Permutation_list_sum, Permutation_map, filter_permutation, H.
Qed.

Lemma placedQuantity_placedOn (o : Z) (layouts : list SheetLayout.t) :
  placedQuantity o layouts = unitCount o (placedOn layouts).
Proof.
  unfold placedQuantity, unitCount, placedOn.
  induction layouts as [|l layouts IH]; simpl; [reflexivity|].
  rewrite !filter_app, !length_app, IH. f_equal.
  induction (SheetLayout.placedParts l) as [|pp pps IHp]; simpl; [reflexivity|].
  destruct (Part.originalId (PlacedPart.part pp) =? o); simpl; rewrite IHp; reflexivity.
Qed.

Lemma placedOn_app (a b : list SheetLayout.t) :
  placedOn (a ++ b) = (placedOn a ++ placedOn b)%list.
Proof. unfold placedOn. apply flat_map_app. Qed.

Lemma unitCount_instances (o : Z) (p : Part.t) (q n : nat) :
  forall start,
    unitCount o (map (fun i => Part.withIdQuantity p (Part.id p * 1000 + Z.of_nat i) q)
                     (seq start n))
    = if Part.originalId p =? o then n else 0%nat.
Proof.
  unfold unitCount.
  induction n as [|n IH]; intros start; simpl.
  - destruct (Part.originalId p =? o); reflexivity.
  - specialize (IH (S start)).
    destruct (Part.originalId p =? o); simpl; rewrite IH; reflexivity.
Qed.

(** The units of an expanded row are as many as its quantity. *)
Lemma unitCount_expand (o : Z) (p : Part.t) :
  unitCount o (expand p) = requestedQuantity o [p].
Proof.
  unfold expand. rewrite unitCount_instances. unfold requestedQuantity. simpl.
  destruct (Part.originalId p =? o); simpl; lia.
Qed.

Lemma unitCount_expand_all (o : Z) (group : list Part.t) :
  unitCount o (flat_map expand group) = requestedQuantity o group.
Proof.
  induction group as [|p group IH]; simpl; [reflexivity|].
  rewrite unitCount_app, unitCount_expand, IH.
  change (p :: group) with ([p] ++ group)%list.
  rewrite requestedQuantity_app. reflexivity.
Qed.

Lemma insertByArea_permutation (a : Part.t) (l : list Part.t) :
  Permutation (insertByArea a l) (a :: l).
Proof.
  induction l as [|b l IH]; simpl; [reflexivity|].
  destruct (area b - area a <=? 0); [reflexivity|].
  apply perm_trans with (b :: a :: l); [apply perm_skip, IH | apply perm_swap].
Qed.

Lemma sortByArea_permutation (l : list Part.t) : Permutation (sortByArea l) l.
Proof.
  induction l as [|a l IH]; simpl; [reflexivity|].
  apply perm_trans with (a :: sortByArea l);
    [apply insertByArea_permutation | apply perm_skip, IH].
Qed.

(** Consolidation counts one unit per entry. *)
Lemma bumpQuantity_quantity (o oid : Z) (acc acc' : list Part.t) :
  bumpQuantity oid acc = Some acc' ->
  requestedQuantity o acc'
  = (requestedQuantity o acc + if (oid =? o)%Z then 1 else 0)%nat.
Proof.
  revert acc'. induction acc as [|p acc IH]; intros acc'; simpl; [discriminate|].
  destruct (Part.originalId p =? oid) eqn:Hp.
  - intros [= <-]. apply Z.eqb_eq in Hp. unfold requestedQuantity. simpl.
    rewrite Hp. destruct (oid =? o); simpl; lia.
  - destruct (bumpQuantity oid acc) as [acc1|]; simpl; [|discriminate].
    intros [= <-]. specialize (IH acc1 eq_refl).
    unfold requestedQuantity in *. simpl.
    destruct (Part.originalId p =? o); simpl; lia.
Qed.

Lemma consolidateUnplaced_quantity (o : Z) (l : list Part.t) :
  requestedQuantity o (consolidateUnplaced l) = unitCount o l.
Proof.
  unfold consolidateUnplaced.
  enough (H : forall acc,
             requestedQuantity o (fold_left consolidateStep l acc)
             = (requestedQuantity o acc + unitCount o l)%nat)
    by (rewrite H; reflexivity).
  induction l as [|part l IH]; intros acc; simpl.
  - unfold unitCount. simpl. lia.
  - rewrite IH. change (part :: l) with ([part] ++ l)%list.
    rewrite (unitCount_app o [part] l).
    assert (Hone : unitCount o [part]
                   = if Part.originalId part =? o then 1%nat else 0%nat).
    { unfold unitCount. simpl. destruct (Part.originalId part =? o); reflexivity. }
    unfold consolidateStep.
    destruct (bumpQuantity (Part.originalId part) acc) as [acc'|] eqn:Hb.
    + rewrite (bumpQuantity_quantity o _ acc acc' Hb), Hone. lia.
    + rewrite requestedQuantity_app, Hone. unfold requestedQuantity. simpl.
      destruct (Part.originalId part =? o); simpl; lia.
Qed.

Section SheetQuantities.

Variables (partToPartDist partToSheetDist : Z) (rotation : RotationOption).
Variable material : Material.t.
Variable availableSheets : list Sheet.t.

(** One pass places or defers every instance of the pool. *)
Lemma placeOnSheet_permutation (sheetDef : Sheet.t) (pool : list Part.t) :
  forall placed remaining count placed' remaining' count',
    placeOnSheet partToPartDist partToSheetDist rotation sheetDef pool
                 placed remaining count = (placed', remaining', count') ->
    Permutation (map PlacedPart.part placed' ++ remaining')
                (map PlacedPart.part placed ++ remaining ++ pool).
Proof.
  induction pool as [|part pool IH]; simpl; intros placed remaining count p' r' c' H.
  - injection H as <- <- <-. rewrite app_nil_r. reflexivity.
  - destruct (findBestPosition part sheetDef placed partToPartDist partToSheetDist rotation)
      as [pos|].
    + apply IH in H. apply (perm_trans H). rewrite map_app, <- app_assoc. simpl.
      apply Permutation_app_head.
      apply perm_trans with (part :: remaining ++ pool);
        [reflexivity | apply Permutation_middle].
    + apply IH in H. apply (perm_trans H). rewrite <- !app_assoc. reflexivity.
Qed.

(** The layouts opened for a sheet definition hold what left the pool. *)
Lemma fillSheets_permutation (fuel : nat) :
  forall sheetDef pool used layouts totals pool' layouts' totals',
    fillSheets partToPartDist partToSheetDist rotation material fuel sheetDef
               pool used layouts totals = Returned (pool', layouts', totals') ->
    exists opened,
      layouts' = (layouts ++ opened)%list
      /\ Permutation (placedOn opened ++ pool') pool.
Proof.
  induction fuel as [|fuel IH];
    intros sheetDef pool used layouts totals pool' layouts' totals' H; simpl in H;
    destruct ((0 <? List.length pool)%nat && (used <? Sheet.quantity sheetDef));
    try discriminate;
    try (injection H as <- <- <-; exists []; rewrite app_nil_r; split; reflexivity).
  destruct (placeOnSheet partToPartDist partToSheetDist rotation sheetDef pool [] [] 0)
    as [[placed remaining] count] eqn:Hpass.
  destruct (count =? 0)%nat;
    [injection H as <- <- <-; exists []; rewrite app_nil_r; split; reflexivity|].
  apply IH in H as (opened & -> & Hperm).
  apply placeOnSheet_permutation in Hpass. simpl in Hpass.
  eexists (_ :: opened). rewrite <- app_assoc. split; [reflexivity|].
  unfold placedOn in *. simpl. rewrite <- app_assoc.
  apply perm_trans with (map PlacedPart.part placed ++ sortByArea remaining)%list.
  - apply Permutation_app_head, Hperm.
  - apply perm_trans with (map PlacedPart.part placed ++ remaining)%list;
      [apply Permutation_app_head, sortByArea_permutation | exact Hpass].
Qed.

Lemma overSheetDefs_permutation (sheetDefs : list Sheet.t) :
  forall pool layouts totals pool' layouts' totals',
    overSheetDefs partToPartDist partToSheetDist rotation material sheetDefs
                  pool layouts totals = Returned (pool', layouts', totals') ->
    exists opened,
      layouts' = (layouts ++ opened)%list
      /\ Permutation (placedOn opened ++ pool') pool.
Proof.
  induction sheetDefs as [|sheetDef rest IH];
    intros pool layouts totals pool' layouts' totals' H; simpl in H.
  - injection H as <- <- <-. exists []. rewrite app_nil_r. split; reflexivity.
  - destruct pool as [|p pool];
      [injection H as <- <- <-; exists []; rewrite app_nil_r; split; reflexivity|].
    apply bind_Returned in H as ([[pool1 l1] t1] & Hfill & Hrest).
    apply fillSheets_permutation in Hfill as (opened1 & -> & Hperm1).
    apply IH in Hrest as (opened2 & -> & Hperm2).
    exists (opened1 ++ opened2)%list. rewrite app_assoc. split; [reflexivity|].
    rewrite placedOn_app, <- app_assoc.
    apply perm_trans with (placedOn opened1 ++ pool1)%list;
      [apply Permutation_app_head, Hperm2 | exact Hperm1].
Qed.

Lemma filter_all {A : Type} (keep : A -> bool) (xs : list A)
      (Hkeep : forall x, In x xs -> keep x = true) :
  filter keep xs = xs.
Proof.
  induction xs as [|x xs IH]; simpl; [reflexivity|].
  rewrite (Hkeep x (or_introl eq_refl)), IH; [reflexivity|].
  intros y Hy. apply Hkeep. right. exact Hy.
Qed.

Lemma filter_none {A : Type} (keep : A -> bool) (xs : list A)
      (Hdrop : forall x, In x xs -> keep x = false) :
  filter keep xs = [].
Proof.
  induction xs as [|x xs IH]; simpl; [reflexivity|].
  rewrite (Hdrop x (or_introl eq_refl)). apply IH.
  intros y Hy. apply Hdrop. right. exact Hy.
Qed.

Lemma nestGroup_accounted (st st' : SheetState) (key : string) (group done : list Part.t) :
  nestGroup partToPartDist partToSheetDist rotation material
            availableSheets st (key, group) = Returned st' ->
  (forall p, In p group -> groupKey p = key) ->
  accounted availableSheets st done -> accounted availableSheets st' (done ++ group).
Proof.
  unfold nestGroup. intros H Hkey Hacc o. specialize (Hacc o).
  rewrite !filter_app, requestedQuantity_app, unitCount_app.
  destruct (sheetDefsFor availableSheets key) as [|s defs] eqn:Hdefs.
  - injection H as <-. simpl. rewrite unitCount_app.
    assert (Hno : forall p, In p group -> matched availableSheets p = false).
    { intros p Hp. unfold matched. rewrite (Hkey p Hp), Hdefs. reflexivity. }
    rewrite (filter_none (matched availableSheets) group Hno).
    rewrite (filter_all (fun p => negb (matched availableSheets p)) group)
      by (intros p Hp; rewrite (Hno p Hp); reflexivity).
    unfold requestedQuantity at 2. simpl. lia.
  - apply bind_Returned in H as ([[pool' l'] t'] & Hover & Hret).
    injection Hret as <-. simpl.
    apply overSheetDefs_permutation in Hover as (opened & -> & Hperm).
    assert (Hyes : forall p, In p group -> matched availableSheets p = true).
    { intros p Hp. unfold matched. rewrite (Hkey p Hp), Hdefs. reflexivity. }
    rewrite (filter_all (matched availableSheets) group Hyes).
    rewrite (filter_none (fun p => negb (matched availableSheets p)) group)
      by (intros p Hp; rewrite (Hyes p Hp); reflexivity).
    rewrite placedOn_app, !unitCount_app.
    pose proof (unitCount_permutation o _ _ Hperm) as Hcount.
    rewrite unitCount_app in Hcount.
    rewrite (unitCount_permutation o _ _ (sortByArea_permutation _)) in Hcount.
    rewrite unitCount_expand_all in Hcount.
    unfold unitCount at 6. simpl. lia.
Qed.

Lemma nestGroups_accounted (groups : list (string * list Part.t)) :
  forall st st' done,
    nestGroups partToPartDist partToSheetDist rotation material
               availableSheets groups st = Returned st' ->
    (forall k g p, In (k, g) groups -> In p g -> groupKey p = k) ->
    accounted availableSheets st done ->
    accounted availableSheets st' (done ++ flat_map snd groups).
Proof.
  induction groups as [|[key group] rest IH]; intros st st' done H Hkeys Hacc; simpl in H.
  - injection H as <-. simpl. rewrite app_nil_r. exact Hacc.
  - apply bind_Returned in H as (st1 & H1 & Hrest). simpl.
    rewrite app_assoc. apply (IH _ _ _ Hrest).
    + intros k g p Hin. apply Hkeys. right. exact Hin.
    + apply (nestGroup_accounted _ _ _ _ _ H1); [|exact Hacc].
      intros p Hp. exact (Hkeys key group p (or_introl eq_refl) Hp).
Qed.

(** The quantities of a result, for every identity: the units placed and
    the quantity reported unplaced add up to the quantity requested by the
    rows whose group has a sheet, plus one unit for each row whose group
    has none. *)
Lemma performSheetNesting_quantities (parts : list Part.t) (r : SheetNestingResult.t)
      (o : Z) :
  performSheetNesting partToPartDist partToSheetDist rotation material
                      availableSheets parts = Returned r ->
  (placedQuantity o (SheetNestingResult.layouts r)
   + requestedQuantity o (SheetNestingResult.unplacedParts r)
   = requestedQuantity o (filter (matched availableSheets) parts)
     + unitCount o (filter (fun p => negb (matched availableSheets p)) parts))%nat.
Proof.
  unfold performSheetNesting. intros H.
  apply bind_Returned in H as (groups & Hg & H).
  apply bind_Returned in H as (st & Hst & H).
  injection H as <-. simpl.
  rewrite placedQuantity_placedOn, consolidateUnplaced_quantity.
  assert (Hstart : accounted availableSheets (mkSheetState [] [] []) []) by (intros o'; reflexivity).
  pose proof (nestGroups_accounted _ _ _ _ Hst
                (fun k g p Hin Hp =>
                   JsFacts.groupBy_groups groupKey parts [] groups Hg
                     (fun _ _ _ F _ => match F with end) k g p
                     (JsFacts.forIn_In _ _ Hin) Hp)
                Hstart o) as Hacc.
  simpl in Hacc. rewrite Hacc.
  assert (Hperm : Permutation (flat_map snd (Js.forIn groups)) parts).
  { apply perm_trans with (flat_map snd groups).
    - apply Permutation_flat_map, GroupFacts.forIn_permutation.
    - exact (GroupFacts.groupBy_permutation _ _ _ _ Hg). }
  f_equal.
  - apply requestedQuantity_permutation, filter_permutation, Hperm.
  - apply unitCount_permutation, filter_permutation, Hperm.
Qed.

(** Conservation, when every row is offered a sheet of its group. *)
Lemma performSheetNesting_conserves (parts : list Part.t) (r : SheetNestingResult.t)
      (o : Z) :
  performSheetNesting partToPartDist partToSheetDist rotation material
                      availableSheets parts = Returned r ->
  (forall p, In p parts -> matched availableSheets p = true) ->
  (placedQuantity o (SheetNestingResult.layouts r)
   + requestedQuantity o (SheetNestingResult.unplacedParts r)
   = requestedQuantity o parts)%nat.
Proof.
  intros Hr Hall. rewrite (performSheetNesting_quantities parts r o Hr).
  rewrite (filter_all (matched availableSheets) parts Hall).
  rewrite (filter_none (fun p => negb (matched availableSheets p)) parts)
    by (intros p Hp; rewrite (Hall p Hp); reflexivity).
  unfold unitCount. simpl. lia.
Qed.

End SheetQuantities.

(** Scenario D: the oversize part is the only unplaced part, with its
    quantity, and no bar is opened. *)
Lemma scenario_D (optimizationGoal : OptimizationGoal) (random : nat -> nat) :
  performLinearNesting 1000 optimizationGoal 0 0 random [partD]
  = Returned (LinearNestingResult.mk [] [partD] 0 0 0%Q).
Proof. reflexivity. Qed.

(** A part offered no sheet at all is reported with quantity 1, whatever
    the quantity requested. *)
Lemma unmatched_part_reported_once
      (partToPartDist partToSheetDist : Z) (rotation : RotationOption)
      (material : Material.t) (p : Part.t) :
  exists r,
    performSheetNesting partToPartDist partToSheetDist rotation material [] [p]
    = Returned r
    /\ SheetNestingResult.layouts r = []
    /\ SheetNestingResult.unplacedParts r = [Part.withQuantity p 1].
Proof.
  eexists. split.
  - unfold performSheetNesting. rewrite groupBy_single. cbn [bind].
    rewrite forIn_single. reflexivity.
  - split; reflexivity.
Qed.

(** ** Conservation in the linear packer *)

(** ** Instance identifiers *)

Module InstanceIds.

Lemma uint_no_hyphen (d : Decimal.uint) :
  Js.contains "-" (NilEmpty.string_of_uint d) = false.
Proof. induction d; simpl; auto. Qed.

Lemma numToString_nat (i : nat) :
  Js.contains "-" (Js.numToString (Z.of_nat i)) = false.
Proof.
  unfold Js.numToString. destruct (Z.of_nat i) as [|p|p] eqn:E; simpl.
  - reflexivity.
  - unfold NilZero.string_of_uint.
    destruct (Pos.to_uint p); try apply uint_no_hyphen. reflexivity.
  - lia.
Qed.

Lemma string_of_uint_inj (d d' : Decimal.uint) :
  NilEmpty.string_of_uint d = NilEmpty.string_of_uint d' -> d = d'.
Proof.
  intros H. pose proof (NilEmpty.usu d) as Hd. rewrite H, NilEmpty.usu in Hd.
  congruence.
Qed.

Lemma numToString_inj (z z' : Z) : Js.numToString z = Js.numToString z' -> z = z'.
Proof.
  unfold Js.numToString. intros H. apply DecimalZ.to_int_inj.
  assert (Hnil : forall p, NilZero.string_of_uint (Pos.to_uint p)
                           = NilEmpty.string_of_uint (Pos.to_uint p)).
  { intros p. pose proof (Unsigned.to_uint_nonnil p).
    unfold NilZero.string_of_uint. destruct (Pos.to_uint p); congruence. }
  assert (Hdigit : forall p, exists c s,
               NilEmpty.string_of_uint (Pos.to_uint p) = String c s
               /\ c <> "-"%char
               /\ (c = "0"%char -> s <> EmptyString \/ False)).
  { intros p. pose proof (Unsigned.to_uint_nonnil p) as Hn.
    pose proof (Unsigned.to_uint_nonzero p) as Hz.
    destruct (Pos.to_uint p) as [|d|d|d|d|d|d|d|d|d|d]; try congruence; simpl;
      eexists; eexists; (split; [reflexivity|]); (split; [discriminate|]);
      intros E; try discriminate E.
    left. destruct d; simpl; try discriminate. congruence. }
  destruct z as [|p|p]; destruct z' as [|q|q]; simpl in *; rewrite ?Hnil in H;
    try reflexivity.
  - destruct (Hdigit q) as (c & s & E & _ & Hzero). rewrite E in H.
    injection H as <- <-. destruct (Hzero eq_refl) as [F|[]]. congruence.
  - destruct (Hdigit q) as (c & s & E & _). rewrite E in H. discriminate H.
  - destruct (Hdigit p) as (c & s & E & _ & Hzero). rewrite E in H.
    injection H as -> ->. destruct (Hzero eq_refl) as [F|[]]. congruence.
  - f_equal. exact (string_of_uint_inj _ _ H).
  - destruct (Hdigit p) as (c & s & E & Hc & _). rewrite E in H.
    injection H as -> _. congruence.
  - discriminate H.
  - destruct (Hdigit q) as (c & s & E & Hc & _). rewrite E in H.
    injection H as <- _. congruence.
  - injection H as H. f_equal. exact (string_of_uint_inj _ _ H).
Qed.

(** A string is cut in one way only before a hyphen-free suffix. *)
Lemma hyphen_suffix_inj (a a' b b' : string) :
  Js.contains "-" b = false -> Js.contains "-" b' = false ->
  a ++ "-" ++ b = a' ++ "-" ++ b' -> a = a' /\ b = b'.
Proof.
  intros Hb Hb'. revert a'.
  induction a as [|c a IH]; intros [|c' a']; simpl; intros H.
  - injection H as ->. split; reflexivity.
  - injection H as <- ->. rewrite JsFacts.contains_append in Hb. simpl in Hb.
    rewrite orb_true_r in Hb. discriminate.
  - injection H as -> <-. rewrite JsFacts.contains_append in Hb'. simpl in Hb'.
    rewrite orb_true_r in Hb'. discriminate.
  - injection H as -> H. destruct (IH a' H) as [-> ->]. split; reflexivity.
Qed.

(** Instances of parts of distinct ids bear distinct identifiers. *)
Lemma instances_distinct (group : list LinearPart.t) :
  NoDup (map LinearPart.id group) ->
  NoDup (map CutPart.instanceId (flat_map instances group)).
Proof.
  induction group as [|p group IH]; simpl; intros Hnd; [constructor|].
  inversion Hnd as [|? ? Hp Hnd']; subst.
  rewrite map_app. apply NoDup_app.
  - unfold instances. rewrite map_map. simpl.
    apply Finite.Injective_map_NoDup; [|apply seq_NoDup].
    intros i j H. apply hyphen_suffix_inj in H as [_ H];
      try apply numToString_nat.
    apply numToString_inj in H. lia.
  - exact (IH Hnd').
  - intros s Hs Hs'.
    apply in_map_iff in Hs as (c & <- & Hc).
    apply in_map_iff in Hs' as (c' & Heq & Hc').
    unfold instances in Hc. apply in_map_iff in Hc as (i & <- & _).
    apply in_flat_map in Hc' as (q & Hq & Hc'). unfold instances in Hc'.
    apply in_map_iff in Hc' as (j & <- & _). simpl in Heq.
    apply hyphen_suffix_inj in Heq as [Heq _]; try apply numToString_nat.
    apply numToString_inj in Heq. apply Hp. rewrite <- Heq.
    apply in_map. exact Hq.
Qed.

End InstanceIds.

(** ** Every instance is cut once *)

Lemma insertByLength_permutation (a : CutPart.t) (l : list CutPart.t) :
  Permutation (insertByLength a l) (a :: l).
Proof.
  induction l as [|b l IH]; simpl; [reflexivity|].
  destruct (CutPart.effectiveLength b - CutPart.effectiveLength a <=? 0);
    [reflexivity|].
  apply perm_trans with (b :: a :: l); [apply perm_skip, IH | apply perm_swap].
Qed.

Lemma sortByLength_permutation (l : list CutPart.t) : Permutation (sortByLength l) l.
Proof.
  induction l as [|a l IH]; simpl; [reflexivity|].
  apply perm_trans with (a :: sortByLength l);
    [apply insertByLength_permutation | apply perm_skip, IH].
Qed.

(** Overwriting an element: putting the old one back is putting the new
    one in front. *)
Lemma setNth_permutation {A : Type} (l : list A) :
  forall n a x, nth_error l n = Some x ->
                Permutation (x :: setNth n a l) (a :: l).
Proof.
  induction l as [|b l IH]; intros [|n] a x H; simpl in *; try discriminate.
  - injection H as ->. apply perm_swap.
  - apply perm_trans with (b :: x :: setNth n a l); [apply perm_swap|].
    apply perm_trans with (b :: a :: l); [apply perm_skip, IH, H | apply perm_swap].
Qed.

Lemma nth_error_setNth {A : Type} (l : list A) :
  forall j k a x y,
    nth_error l j = Some x -> nth_error l k = Some y ->
    nth_error (setNth j a l) k = Some (if (k =? j)%nat then a else y).
Proof.
  induction l as [|b l IH]; intros [|j] [|k] a x y Hj Hk; simpl in *;
    try discriminate; try assumption; try reflexivity.
  exact (IH j k a x y Hj Hk).
Qed.

Lemma swap_permutation {A : Type} (t : list A) (j k : nat) :
  Permutation (swap t j k) t.
Proof.
  unfold swap.
  destruct (nth_error t j) as [tj|] eqn:Hj; [|reflexivity].
  destruct (nth_error t k) as [tk|] eqn:Hk; [|reflexivity].
  pose proof (nth_error_setNth t j k tk tj tk Hj Hk) as Hk'.
  assert (Hsame : (if (k =? j)%nat then tk else tk) = tk) by (destruct (k =? j)%nat; reflexivity).
  rewrite Hsame in Hk'.
  apply Permutation_cons_inv with (a := tk).
  apply perm_trans with (tj :: setNth j tk t).
  - exact (setNth_permutation _ k tj tk Hk').
  - exact (setNth_permutation _ j tk tj Hj).
Qed.

Lemma takenFrom_permutation (pool pool' cuts : list CutPart.t) :
  Permutation pool' pool -> takenFrom pool' cuts -> takenFrom pool cuts.
Proof.
  intros Hp (skipped & Hs). exists skipped.
  exact (perm_trans (Permutation_sym Hp) Hs).
Qed.

Section EveryInstance.

Variable stockLength : Z.
Variable optimizationGoal : OptimizationGoal.
Variables leftEndAllowance rightEndAllowance : Z.
Variable random : nat -> nat.

Let usable := usableStockLength stockLength leftEndAllowance rightEndAllowance.
Let fits (c : CutPart.t) : Prop := CutPart.effectiveLength c <= usable.

Lemma shuffleFrom_permutation (j : nat) :
  forall t calls, Permutation (fst (shuffleFrom random j t calls)) t.
Proof.
  induction j as [|j IH]; intros t calls; simpl; [reflexivity|].
  exact (perm_trans (IH _ _) (swap_permutation _ _ _)).
Qed.

(** The accumulation takes each instance of the list it scans at most once. *)
Lemma accumulate_takenFrom (parts : list CutPart.t) :
  forall cuts used,
    exists added skipped,
      fst (accumulate stockLength leftEndAllowance rightEndAllowance parts cuts used)
      = (cuts ++ added)%list
      /\ Permutation parts (added ++ skipped).
Proof.
  induction parts as [|part parts IH]; intros cuts used; simpl.
  - exists [], []. rewrite app_nil_r. split; reflexivity.
  - destruct (used + CutPart.effectiveLength part
              <=? usableStockLength stockLength leftEndAllowance rightEndAllowance).
    + destruct (IH (cuts ++ [part])%list (used + CutPart.effectiveLength part))
        as (added & skipped & -> & Hperm).
      exists (part :: added), skipped. rewrite <- app_assoc. split; [reflexivity|].
      simpl. apply perm_skip, Hperm.
    + destruct (IH cuts used) as (added & skipped & -> & Hperm).
      exists added, (part :: skipped). split; [reflexivity|].
      apply Permutation_cons_app, Hperm.
Qed.

Lemma trials_takenFrom (pool : list CutPart.t) (i : nat) :
  forall temp calls best bestWaste,
    Permutation temp pool -> takenFrom pool best ->
    takenFrom pool
              (fst (fst (trials stockLength leftEndAllowance rightEndAllowance
                                random i temp calls best bestWaste))).
Proof.
  induction i as [|i IH]; intros temp calls best bestWaste Htemp Hbest; simpl;
    [exact Hbest|].
  pose proof (shuffleFrom_permutation (List.length temp - 1) temp calls) as Hsh.
  fold (shuffle random temp calls) in Hsh.
  destruct (shuffle random temp calls) as [temp' calls']. simpl in Hsh.
  assert (Htemp' : Permutation temp' pool) by exact (perm_trans Hsh Htemp).
  destruct (accumulate_takenFrom temp' [] 0) as (added & skipped & Hacc & Hperm).
  destruct (accumulate stockLength leftEndAllowance rightEndAllowance temp' [] 0)
    as [currentCuts currentUsed]. simpl in Hacc. subst currentCuts.
  destruct (_ <? bestWaste); apply IH; try assumption.
  apply (takenFrom_permutation pool temp' added Htemp'). exists skipped. exact Hperm.
Qed.

(** The cuts chosen for a bar are instances of the pool, each taken once. *)
Lemma bestCutsFor_takenFrom (pool : list CutPart.t) (calls : nat) :
  takenFrom pool
            (fst (fst (bestCutsFor stockLength optimizationGoal leftEndAllowance
                                   rightEndAllowance random pool calls))).
Proof.
  assert (Hbase : takenFrom pool (fst (greedyBaseline stockLength leftEndAllowance
                                                      rightEndAllowance pool))).
  { unfold greedyBaseline.
    destruct (accumulate_takenFrom (sortByLength pool) [] 0)
      as (added & skipped & -> & Hperm).
    apply (takenFrom_permutation pool (sortByLength pool) added
                                 (sortByLength_permutation pool)).
    exists skipped. exact Hperm. }
  rewrite bestCutsFor_unfold.
  destruct (minimizesWaste optimizationGoal && (1 <? List.length pool)%nat).
  - apply trials_takenFrom; [reflexivity | exact Hbase].
  - exact Hbase.
Qed.

Lemma NoDup_map_filter {A B : Type} (g : A -> B) (f : A -> bool) (l : list A) :
  NoDup (map g l) -> NoDup (map g (filter f l)).
Proof.
  induction l as [|a l IH]; simpl; intros H; [constructor|].
  inversion H as [|? ? Ha Hl]; subst.
  destruct (f a); simpl; [|exact (IH Hl)].
  constructor; [|exact (IH Hl)].
  intros Hin. apply Ha. apply in_map_iff in Hin as (b & Hb & Hin).
  apply filter_In in Hin. apply in_map_iff. exists b. tauto.
Qed.

(** With distinct identifiers, removing the chosen instances leaves the
    skipped ones. *)
Lemma removePlaced_permutation (chosen skipped pool : list CutPart.t) :
  NoDup (map CutPart.instanceId pool) ->
  Permutation pool (chosen ++ skipped) ->
  Permutation (removePlaced chosen pool) skipped.
Proof.
  intros Hnd Hperm. unfold removePlaced.
  set (keep := fun p : CutPart.t =>
                 negb (existsb (String.eqb (CutPart.instanceId p))
                               (map CutPart.instanceId chosen))).
  apply perm_trans with (filter keep (chosen ++ skipped));
    [apply filter_permutation, Hperm|].
  assert (Hnd' : NoDup (map CutPart.instanceId (chosen ++ skipped)))
    by exact (Permutation_NoDup (Permutation_map _ Hperm) Hnd).
  rewrite filter_app.
  assert (Hin : forall c, keep c = false <-> In (CutPart.instanceId c)
                                                (map CutPart.instanceId chosen)).
  { intros c. unfold keep. rewrite negb_false_iff, existsb_exists. split.
    - intros (s & Hs & E). apply String.eqb_eq in E. congruence.
    - intros H. exists (CutPart.instanceId c). split; [exact H | apply String.eqb_refl]. }
  rewrite (filter_none keep chosen), (filter_all keep skipped); [reflexivity| |].
  - intros c Hc. destruct (keep c) eqn:E; [reflexivity|].
    apply Hin in E. rewrite map_app in Hnd'.
    exfalso. revert E. clear -Hnd' Hc.
    induction (map CutPart.instanceId chosen) as [|s ids IH]; simpl; [auto|].
    inversion Hnd' as [|? ? Hs Hrest]; subst.
    intros [E|E]; [subst s|exact (IH Hrest E)].
    apply Hs. apply in_or_app. right. apply in_map. exact Hc.
  - intros c Hc. apply Hin. apply in_map. exact Hc.
Qed.

(** With distinct identifiers and a pool that fits, the bars opened by the
    loop hold every instance of the pool, once. *)
Lemma fillBars_permutation (rawMaterial : string) (partsInGroup : list LinearPart.t)
      (fuel : nat) :
  forall pool st st',
    (List.length pool <= fuel)%nat ->
    Forall fits pool ->
    NoDup (map CutPart.instanceId pool) ->
    fillBars stockLength optimizationGoal leftEndAllowance rightEndAllowance random
             fuel rawMaterial partsInGroup pool st = Returned st' ->
    exists opened,
      bs_layouts st' = (bs_layouts st ++ opened)%list
      /\ Permutation (cutsOn opened) pool.
Proof.
  induction fuel as [|fuel IH]; intros pool st st' Hlen Hfits Hnd H.
  - destruct pool; [|simpl in Hlen; lia]. injection H as <-.
    exists []. rewrite app_nil_r. split; reflexivity.
  - destruct pool as [|c pool].
    { injection H as <-. exists []. rewrite app_nil_r. split; reflexivity. }
    cbn -[removePlaced] in H. set (full := c :: pool) in *.
    assert (Hall : forall x, In x full -> CutPart.effectiveLength x <= usable)
      by (apply Forall_forall; exact Hfits).
    pose proof (bestCutsFor_nonempty stockLength optimizationGoal leftEndAllowance
                  rightEndAllowance random full (bs_calls st)
                  ltac:(discriminate) Hall) as Hchosen.
    destruct (bestCutsFor_candidate stockLength optimizationGoal leftEndAllowance
                rightEndAllowance random full (bs_calls st)) as [(_ & Hincl & _) _].
    destruct (bestCutsFor_takenFrom full (bs_calls st)) as (skipped & Htaken).
    destruct (bestCutsFor stockLength optimizationGoal leftEndAllowance
                rightEndAllowance random full (bs_calls st))
      as [[chosen waste] calls']. simpl in Hchosen, Hincl, Htaken.
    destruct chosen as [|k chosen]; [congruence|].
    pose proof (removePlaced_permutation (k :: chosen) skipped full Hnd Htaken) as Hrest.
    apply IH in H as (opened & Hlay & Hperm).
    + simpl in Hlay. rewrite <- app_assoc in Hlay. simpl in Hlay.
      eexists. split; [exact Hlay|].
      unfold cutsOn in *. simpl.
      apply perm_trans with ((k :: chosen) ++ skipped)%list;
        [|exact (Permutation_sym Htaken)].
      simpl. apply perm_skip, Permutation_app_head.
      exact (perm_trans Hperm Hrest).
    + pose proof (removePlaced_shorter (k :: chosen) full ltac:(discriminate) Hincl).
      unfold full in *. simpl in *. lia.
    + apply Forall_forall. intros x Hx. apply Hall, (removePlaced_incl _ _ x Hx).
    + unfold removePlaced. apply NoDup_map_filter, Hnd.
Qed.

Let fitting (p : LinearPart.t) : bool := negb (LinearPart.effectiveLength p >? usable).

Lemma expandGroup_instances (partsInGroup : list LinearPart.t) :
  forall cuts unplaced,
    fst (expandGroup stockLength leftEndAllowance rightEndAllowance
                     partsInGroup cuts unplaced)
    = (cuts ++ flat_map instances (filter fitting partsInGroup))%list.
Proof.
  induction partsInGroup as [|p parts IH]; intros cuts unplaced; simpl.
  - rewrite app_nil_r. reflexivity.
  - unfold fitting at 1. fold usable.
    destruct (LinearPart.effectiveLength p >? usable); simpl.
    + apply IH.
    + rewrite IH, <- app_assoc. reflexivity.
Qed.

Lemma nestMaterial_permutation (st st' : LinearState)
      (entry : string * list LinearPart.t) :
  NoDup (map LinearPart.id (snd entry)) ->
  nestMaterial stockLength optimizationGoal leftEndAllowance rightEndAllowance
               random st entry = Returned st' ->
  exists opened,
    ls_layouts st' = (ls_layouts st ++ opened)%list
    /\ Permutation (cutsOn opened) (flat_map instances (filter fitting (snd entry))).
Proof.
  destruct entry as [rawMaterial partsInGroup]. simpl. intros Hnd H.
  unfold nestMaterial in H.
  pose proof (expandGroup_instances partsInGroup [] []) as Hexp.
  destruct (expandGroup_spec stockLength leftEndAllowance rightEndAllowance
              partsInGroup [] [] (Forall_nil _)) as [Hfits _].
  destruct (expandGroup stockLength leftEndAllowance rightEndAllowance
                        partsInGroup [] []) as [allCutParts unplacedForGroup].
  simpl in Hexp, Hfits. subst allCutParts.
  apply bind_Returned in H as (bs & Hfill & Hret). injection Hret as <-. simpl.
  apply fillBars_permutation in Hfill; [exact Hfill | lia | exact Hfits |].
  apply InstanceIds.instances_distinct, NoDup_map_filter, Hnd.
Qed.

Lemma nestMaterials_permutation (groups : list (string * list LinearPart.t)) :
  forall st st',
    Forall (fun entry => NoDup (map LinearPart.id (snd entry))) groups ->
    nestMaterials stockLength optimizationGoal leftEndAllowance rightEndAllowance
                  random groups st = Returned st' ->
    exists opened,
      ls_layouts st' = (ls_layouts st ++ opened)%list
      /\ Permutation (cutsOn opened)
                     (flat_map instances (filter fitting (flat_map snd groups))).
Proof.
  induction groups as [|entry rest IH]; intros st st' Hnd H; simpl in *.
  - injection H as <-. exists []. rewrite app_nil_r. split; reflexivity.
  - inversion Hnd as [|? ? Hentry Hrest]; subst.
    apply bind_Returned in H as (st1 & H1 & H2).
    destruct (nestMaterial_permutation _ _ _ Hentry H1) as (o1 & L1 & P1).
    destruct (IH _ _ Hrest H2) as (o2 & L2 & P2).
    exists (o1 ++ o2)%list. rewrite L2, L1, <- app_assoc. split; [reflexivity|].
    unfold cutsOn in *. rewrite flat_map_app, filter_app, flat_map_app.
    apply Permutation_app; assumption.
Qed.

End EveryInstance.

Lemma NoDup_groups {A B : Type} (g : B -> Z) (groups : list (A * list B)) :
  NoDup (map g (flat_map snd groups)) ->
  Forall (fun entry => NoDup (map g (snd entry))) groups.
Proof.
  induction groups as [|entry rest IH]; simpl; intros H; constructor.
  - rewrite map_app in H. exact (NoDup_app_remove_r _ _ H).
  - apply IH. rewrite map_app in H. exact (NoDup_app_remove_l _ _ H).
Qed.

Lemma cutQuantity_instances (id : Z) (l : list LinearPart.t) :
  List.length (filter (fun c => CutPart.id c =? id) (flat_map instances l))
  = requestedLength id l.
Proof.
  unfold requestedLength.
  induction l as [|p l IH]; simpl; [reflexivity|].
  rewrite filter_app, length_app, IH.
  assert (H : forall start n,
             List.length
               (filter (fun c => CutPart.id c =? id)
                  (map (fun i =>
                          CutPart.mk (LinearPart.id p) (LinearPart.length p)
                                     (LinearPart.effectiveLength p)
                                     (Js.numToString (LinearPart.id p) ++ "-"
                                      ++ Js.numToString (Z.of_nat i))
                                     (LinearPart.rawMaterial p))
                       (seq start n)))
             = if LinearPart.id p =? id then n else 0%nat).
  { intros start n. revert start.
    induction n as [|n IHn]; intros start; cbn [seq map filter CutPart.id].
    - destruct (LinearPart.id p =? id); reflexivity.
    - specialize (IHn (S start)).
      destruct (LinearPart.id p =? id); cbn [List.length]; rewrite IHn; reflexivity. }
  unfold instances. rewrite H.
  destruct (LinearPart.id p =? id); simpl; reflexivity.
Qed.

Lemma cuts_finalize (layouts : list StockLayout.t) :
  flat_map StockLayout.cuts (map finalize layouts) = flat_map StockLayout.cuts layouts.
Proof.
  induction layouts as [|l layouts IH]; simpl; [reflexivity|].
  rewrite IH. reflexivity.
Qed.

(** Conservation for the linear packer, whenever it returns and the ids of
    the input are pairwise distinct: for every id, the cuts of the layouts
    and the unplaced quantity add up to the quantity requested, and the
    cuts are exactly the instances of the parts that fit a bar. *)
Lemma performLinearNesting_conserves
      (stockLength : Z) (optimizationGoal : OptimizationGoal)
      (leftEndAllowance rightEndAllowance : Z) (random : nat -> nat)
      (parts : list LinearPart.t) (r : LinearNestingResult.t) :
  NoDup (map LinearPart.id parts) ->
  performLinearNesting stockLength optimizationGoal leftEndAllowance
                       rightEndAllowance random parts = Returned r ->
  forall id,
    (cutQuantity id (LinearNestingResult.layouts r)
     + requestedLength id (LinearNestingResult.unplacedParts r))%nat
    = requestedLength id parts.
Proof.
  intros Hnd Hr id.
  destruct (immediate_rejection _ _ _ _ _ _ _ Hr) as (_ & Hun & _).
  rewrite Hun. clear Hun.
  unfold performLinearNesting in Hr.
  apply bind_Returned in Hr as (groups & Hg & Hr).
  apply bind_Returned in Hr as (st & Hst & Hr). injection Hr as <-. simpl.
  assert (Hperm : Permutation (flat_map snd (Js.forIn groups)) parts).
  { apply Permutation_trans with (flat_map snd groups).
    - apply Permutation_flat_map, GroupFacts.forIn_permutation.
    - exact (GroupFacts.groupBy_permutation _ _ _ _ Hg). }
  apply nestMaterials_permutation in Hst as (opened & Hlay & Hcuts).
  - simpl in Hlay. subst opened. unfold cutQuantity. rewrite cuts_finalize.
    unfold cutsOn in Hcuts.
    rewrite (Permutation_length (filter_permutation _ _ _ Hcuts)).
    rewrite cutQuantity_instances.
    rewrite (requestedLength_permutation id _ _ (filter_permutation _ _ _ Hperm)).
    rewrite <- requestedLength_app.
    apply requestedLength_permutation.
    apply perm_trans with (1 := Permutation_app_comm _ _).
    exact (filter_split _ parts).
  - apply NoDup_groups.
    exact (Permutation_NoDup (Permutation_map _ (Permutation_sym Hperm)) Hnd).
Qed.

(** ** The layouts of the sheet packer, one by one *)

Section SheetLayouts.

Variables (partToPartDist partToSheetDist : Z) (rotation : RotationOption).
Variable material : Material.t.
Variable availableSheets : list Sheet.t.
Variable parts : list Part.t.

Let at_ := builtAt partToPartDist partToSheetDist rotation material availableSheets parts.
Let allAt (layouts : list SheetLayout.t) : Prop :=
  forall i layout, nth_error layouts i = Some layout -> at_ i layout.
Let unitIn (key : string) (q : Part.t) : Prop := groupKey q = key /\ unitOf parts q.

Lemma allAt_snoc (layouts : list SheetLayout.t) (layout : SheetLayout.t) :
  allAt layouts -> at_ (List.length layouts) layout -> allAt (layouts ++ [layout]).
Proof.
  intros Hall Hnew i l Hi.
  destruct (Nat.lt_ge_cases i (List.length layouts)) as [Hlt|Hge].
  - rewrite nth_error_app1 in Hi by exact Hlt. exact (Hall i l Hi).
  - rewrite nth_error_app2 in Hi by exact Hge.
    destruct (i - List.length layouts)%nat as [|m] eqn:Hm; simpl in Hi.
    + injection Hi as <-. replace i with (List.length layouts) by lia. exact Hnew.
    + destruct m; discriminate Hi.
Qed.

Lemma fillSheets_at (key : string) (fuel : nat) :
  forall sheetDef pool used layouts totals pool' layouts' totals',
    fillSheets partToPartDist partToSheetDist rotation material
               fuel sheetDef pool used layouts totals
    = Returned (pool', layouts', totals') ->
    In sheetDef (sheetDefsFor availableSheets key) ->
    Forall (unitIn key) pool ->
    allAt layouts ->
    Forall (unitIn key) pool' /\ allAt layouts'.
Proof.
  induction fuel as [|fuel IH];
    intros sheetDef pool used layouts totals pool' layouts' totals' H Hdef Hpool Hlay;
    simpl in H;
    destruct ((0 <? List.length pool)%nat && (used <? Sheet.quantity sheetDef));
    try discriminate;
    try (injection H as <- <- <-; split; assumption).
  destruct (placeOnSheet partToPartDist partToSheetDist rotation sheetDef pool [] [] 0)
    as [[placed remaining] count] eqn:Hpass.
  destruct (count =? 0)%nat eqn:Hcount; [injection H as <- <- <-; split; assumption|].
  apply (IH _ _ _ _ _ _ _ _ H Hdef).
  - apply sortByArea_Forall.
    exact (placeOnSheet_remaining _ _ _ _ _ _ _ _ _ _ _ _ Hpass Hpool (Forall_nil _)).
  - apply allAt_snoc; [exact Hlay|].
    exists key, sheetDef, pool, placed, remaining, count.
    apply Nat.eqb_neq in Hcount. repeat split; assumption.
Qed.

Lemma overSheetDefs_at (key : string) (sheetDefs : list Sheet.t) :
  forall pool layouts totals pool' layouts' totals',
    overSheetDefs partToPartDist partToSheetDist rotation material
                  sheetDefs pool layouts totals
    = Returned (pool', layouts', totals') ->
    (forall s, In s sheetDefs -> In s (sheetDefsFor availableSheets key)) ->
    Forall (unitIn key) pool ->
    allAt layouts ->
    allAt layouts'.
Proof.
  induction sheetDefs as [|sheetDef rest IH];
    intros pool layouts totals pool' layouts' totals' H Hdefs Hpool Hlay; simpl in H.
  - injection H as <- <- <-. exact Hlay.
  - destruct pool as [|p pool]; [injection H as <- <- <-; exact Hlay|].
    apply bind_Returned in H as ([[pool1 l1] t1] & Hfill & Hrest).
    destruct (fillSheets_at key _ _ _ _ _ _ _ _ _ Hfill
                            (Hdefs _ (or_introl eq_refl)) Hpool Hlay) as [Hpool1 Hl1].
    apply (IH _ _ _ _ _ _ Hrest); try assumption.
    intros s Hs. apply Hdefs. right. exact Hs.
Qed.

Lemma expand_unitOf (p q : Part.t) : In p parts -> In q (expand p) -> unitOf parts q.
Proof.
  intros Hp Hq. unfold expand in Hq. apply in_map_iff in Hq as (i & <- & Hi).
  apply in_seq in Hi. exists p, i. repeat split; [exact Hp | lia].
Qed.

Lemma nestGroup_at (st st' : SheetState) (key : string) (group : list Part.t) :
  nestGroup partToPartDist partToSheetDist rotation material
            availableSheets st (key, group) = Returned st' ->
  Forall (fun p => groupKey p = key /\ In p parts) group ->
  allAt (st_layouts st) -> allAt (st_layouts st').
Proof.
  unfold nestGroup. intros H Hgroup Hlay.
  destruct (sheetDefsFor availableSheets key) as [|s defs] eqn:Hdefs.
  - injection H as <-. exact Hlay.
  - apply bind_Returned in H as ([[pool' l'] t'] & Hover & Hret).
    injection Hret as <-. simpl.
    apply (overSheetDefs_at key _ _ _ _ _ _ _ Hover); try assumption.
    + rewrite Hdefs. auto.
    + apply sortByArea_Forall. apply Forall_forall. intros q Hq.
      apply in_flat_map in Hq as (p & Hp & Hq).
      rewrite Forall_forall in Hgroup. destruct (Hgroup p Hp) as [Hk Hin].
      split; [rewrite (expand_groupKey p q Hq); exact Hk | exact (expand_unitOf p q Hin Hq)].
Qed.

Lemma nestGroups_at (groups : list (string * list Part.t)) :
  forall st st',
    nestGroups partToPartDist partToSheetDist rotation material
               availableSheets groups st = Returned st' ->
    (forall k g p, In (k, g) groups -> In p g -> groupKey p = k /\ In p parts) ->
    allAt (st_layouts st) -> allAt (st_layouts st').
Proof.
  induction groups as [|[key group] rest IH]; intros st st' H Hkeys Hlay; simpl in H.
  - injection H as <-. exact Hlay.
  - apply bind_Returned in H as (st1 & H1 & Hrest).
    apply (IH _ _ Hrest).
    + intros k g p Hin. apply Hkeys. right. exact Hin.
    + apply (nestGroup_at _ _ _ _ H1); [|exact Hlay].
      apply Forall_forall. intros p Hp. exact (Hkeys key group p (or_introl eq_refl) Hp).
Qed.

End SheetLayouts.

(** Every layout of a result, at its position. *)
Lemma performSheetNesting_at
      (partToPartDist partToSheetDist : Z) (rotation : RotationOption)
      (material : Material.t) (availableSheets : list Sheet.t)
      (parts : list Part.t) (r : SheetNestingResult.t) (i : nat)
      (layout : SheetLayout.t) :
  performSheetNesting partToPartDist partToSheetDist rotation material
                      availableSheets parts = Returned r ->
  nth_error (SheetNestingResult.layouts r) i = Some layout ->
  builtAt partToPartDist partToSheetDist rotation material availableSheets parts
          i layout.
Proof.
  unfold performSheetNesting. intros H.
  apply bind_Returned in H as (groups & Hg & H).
  apply bind_Returned in H as (st & Hst & H).
  injection H as <-. simpl. revert i layout.
  apply (nestGroups_at _ _ _ _ _ _ _ _ _ Hst).
  - intros k g p Hin Hp. split.
    + apply JsFacts.forIn_In in Hin.
      apply (JsFacts.groupBy_groups groupKey parts [] groups Hg) with (g := g);
        try assumption.
      intros ? ? ? [].
    + apply (Permutation_in p (GroupFacts.groupBy_permutation _ _ _ _ Hg)).
      apply (Permutation_in p (Permutation_flat_map snd (GroupFacts.forIn_permutation groups))).
      apply in_flat_map. exists (k, g). split; assumption.
  - intros i layout Hi. destruct i; discriminate Hi.
Qed.

(** ** What a pass leaves on a sheet *)

Section PassFacts.

Variables (partToPartDist partToSheetDist : Z) (rotation : RotationOption).
Variable sheetDef : Sheet.t.

Let pass := placeOnSheet partToPartDist partToSheetDist rotation sheetDef.

Lemma canPlace_inside (width height : Z) (pt : Point) (placed : list PlacedPart.t) :
  canPlace width height pt sheetDef placed partToPartDist partToSheetDist = true ->
  partToSheetDist <= px pt /\ partToSheetDist <= py pt
  /\ px pt + width <= Sheet.length sheetDef - partToSheetDist
  /\ py pt + height <= Sheet.width sheetDef - partToSheetDist.
Proof.
  unfold canPlace. intros H.
  destruct (Z.ltb_spec (px pt) partToSheetDist); [discriminate H|].
  destruct (Z.ltb_spec (py pt) partToSheetDist); [discriminate H|].
  simpl in H. rewrite !Z.gtb_ltb in H.
  destruct (Z.ltb_spec (Sheet.length sheetDef - partToSheetDist) (px pt + width));
    [discriminate H|].
  destruct (Z.ltb_spec (Sheet.width sheetDef - partToSheetDist) (py pt + height));
    [discriminate H|].
  lia.
Qed.

(** A part placed where the finder says lies inside the sheet, and is
    rotated only when rotation is permitted. *)
Lemma findBestPosition_inside (part : Part.t) (placed : list PlacedPart.t)
      (pos : Position) :
  findBestPosition part sheetDef placed partToPartDist partToSheetDist rotation = Some pos ->
  inside partToSheetDist sheetDef (place part pos)
  /\ (PlacedPart.rotated (place part pos) = true -> permitsRotation rotation = true).
Proof.
  intros H. apply findBestPosition_sound in H as [[_ Hc] Hrot].
  split; [|exact Hrot].
  apply canPlace_inside in Hc.
  unfold inside, place, PlacedPart.extentH, PlacedPart.extentV, extentsOf in *.
  simpl in *. destruct (pos_rotated pos); simpl in *; lia.
Qed.

(** On an empty sheet the only candidate point is the corner. *)
Lemma findBestPosition_corner (part : Part.t) (pos : Position) :
  findBestPosition part sheetDef [] partToPartDist partToSheetDist rotation = Some pos ->
  pos_x pos = partToSheetDist /\ pos_y pos = partToSheetDist.
Proof.
  intros H. apply findBestPosition_sound in H as [[Hin _] _].
  simpl in Hin. destruct Hin as [Hpt|[]].
  injection Hpt as Hx Hy. split; congruence.
Qed.

(** A pass appends to the parts already placed; the counter counts what it
    appends, and what it appends satisfies every property that the finder
    guarantees. *)
Lemma placeOnSheet_appends (Q : PlacedPart.t -> Prop) (pool : list Part.t) :
  (forall part placed pos,
      In part pool ->
      findBestPosition part sheetDef placed partToPartDist partToSheetDist rotation
      = Some pos ->
      Q (place part pos)) ->
  forall placed remaining count placed' remaining' count',
    pass pool placed remaining count = (placed', remaining', count') ->
    exists added,
      placed' = (placed ++ added)%list
      /\ count' = (count + List.length added)%nat
      /\ Forall Q added.
Proof.
  induction pool as [|part pool IH]; intros HQ placed remaining count p' r' c' H.
  - injection H as <- <- <-. exists []. rewrite app_nil_r. repeat split; [simpl; lia|constructor].
  - unfold pass in H. simpl in H.
    assert (HQ' : forall part0 placed0 pos,
               In part0 pool ->
               findBestPosition part0 sheetDef placed0 partToPartDist partToSheetDist
                                rotation = Some pos -> Q (place part0 pos))
      by (intros ? ? ? Hin; apply HQ; right; exact Hin).
    destruct (findBestPosition part sheetDef placed partToPartDist partToSheetDist rotation)
      as [pos|] eqn:Hfind.
    + destruct (IH HQ' _ _ _ _ _ _ H) as (added & -> & -> & Hadded).
      exists (place part pos :: added). rewrite <- app_assoc. simpl.
      repeat split; [lia|]. constructor; [|exact Hadded].
      exact (HQ part placed pos (or_introl eq_refl) Hfind).
    + exact (IH HQ' _ _ _ _ _ _ H).
Qed.

(** The first part of a pass over an empty sheet sits in the corner. *)
Lemma placeOnSheet_corner (pool : list Part.t) :
  forall remaining placed' remaining' count',
    pass pool [] remaining 0%nat = (placed', remaining', count') ->
    count' <> 0%nat ->
    exists first rest,
      placed' = first :: rest
      /\ PlacedPart.x first = partToSheetDist /\ PlacedPart.y first = partToSheetDist.
Proof.
  induction pool as [|part pool IH]; intros remaining p' r' c' H Hc.
  - injection H as <- <- <-. contradiction.
  - unfold pass in H. simpl in H.
    destruct (findBestPosition part sheetDef [] partToPartDist partToSheetDist rotation)
      as [pos|] eqn:Hfind.
    + destruct (placeOnSheet_appends (fun _ => True) pool (fun _ _ _ _ _ => I)
                                     _ _ _ _ _ _ H) as (added & -> & _ & _).
      exists (place part pos), added. split; [reflexivity|].
      exact (findBestPosition_corner part pos Hfind).
    + exact (IH _ _ _ _ H Hc).
Qed.

End PassFacts.

Lemma sumZ_from {A : Type} (f : A -> Z) (l : list A) (z : Z) :
  fold_left (fun acc a => acc + f a) l z = z + sumZ f l.
Proof.
  unfold sumZ. revert z. induction l as [|a l IH]; intros z; simpl; [lia|].
  rewrite (IH (z + f a)), (IH (f a)). lia.
Qed.

Lemma sumZ_app {A : Type} (f : A -> Z) (l l' : list A) :
  sumZ f (l ++ l') = sumZ f l + sumZ f l'.
Proof.
  unfold sumZ at 1. rewrite fold_left_app. fold (sumZ f l). apply sumZ_from.
Qed.

Lemma sumZ_cons {A : Type} (f : A -> Z) (a : A) (l : list A) :
  sumZ f (a :: l) = f a + sumZ f l.
Proof. change (a :: l) with ([a] ++ l)%list. rewrite sumZ_app. reflexivity. Qed.

(** ** Usage counts *)

Lemma getOwn_set_same {V : Type} (k : string) (v : V) (o : Js.Obj V) :
  Js.getOwn k (Js.set k v o) = Some v.
Proof.
  induction o as [|[k' v'] o IH]; simpl.
  - rewrite String.eqb_refl. reflexivity.
  - destruct (String.eqb k k') eqn:E; simpl; rewrite E; [reflexivity | exact IH].
Qed.

Lemma getOwn_set_other {V : Type} (k k' : string) (v : V) (o : Js.Obj V) :
  k' <> k -> Js.getOwn k' (Js.set k v o) = Js.getOwn k' o.
Proof.
  intros Hne. induction o as [|[k0 v0] o IH]; simpl.
  - destruct (String.eqb_spec k' k); [contradiction | reflexivity].
  - destruct (String.eqb_spec k k0) as [->|Hk]; simpl.
    + destruct (String.eqb_spec k' k0); [contradiction | reflexivity].
    + destruct (String.eqb k' k0); [reflexivity | exact IH].
Qed.

Lemma layoutsOf_snoc (key : string) (layouts : list SheetLayout.t) (l : SheetLayout.t) :
  layoutsOf key (layouts ++ [l])
  = (layoutsOf key layouts
     + if String.eqb (sheetKey (SheetLayout.sheet l)) key then 1 else 0)%nat.
Proof.
  unfold layoutsOf. rewrite filter_app, length_app. simpl.
  destruct (String.eqb (sheetKey (SheetLayout.sheet l)) key); reflexivity.
Qed.

Lemma countSheet_agrees (layouts : list SheetLayout.t) (totals : Js.Obj Z)
      (l : SheetLayout.t) :
  countsAgree layouts totals ->
  countsAgree (layouts ++ [l]) (countSheet (SheetLayout.sheet l) totals).
Proof.
  intros H key. rewrite layoutsOf_snoc. unfold countSheet.
  destruct (String.eqb_spec (sheetKey (SheetLayout.sheet l)) key) as [<-|Hne].
  - rewrite getOwn_set_same, (H (sheetKey (SheetLayout.sheet l))).
    destruct (layoutsOf (sheetKey (SheetLayout.sheet l)) layouts) as [|n]; simpl.
    + reflexivity.
    + replace (n + 1 =? 0)%nat with false by (symmetry; apply Nat.eqb_neq; lia).
      f_equal. lia.
  - rewrite getOwn_set_other by congruence. rewrite Nat.add_0_r. apply H.
Qed.

Section UsageCounts.

Variables (partToPartDist partToSheetDist : Z) (rotation : RotationOption).
Variable material : Material.t.

Lemma fillSheets_counts (fuel : nat) :
  forall sheetDef pool used layouts totals pool' layouts' totals',
    fillSheets partToPartDist partToSheetDist rotation material
               fuel sheetDef pool used layouts totals
    = Returned (pool', layouts', totals') ->
    countsAgree layouts totals -> countsAgree layouts' totals'.
Proof.
  induction fuel as [|fuel IH];
    intros sheetDef pool used layouts totals pool' layouts' totals' H Hc;
    simpl in H;
    destruct ((0 <? List.length pool)%nat && (used <? Sheet.quantity sheetDef));
    try discriminate;
    try (injection H as <- <- <-; assumption).
  destruct (placeOnSheet partToPartDist partToSheetDist rotation sheetDef pool [] [] 0)
    as [[placed remaining] count].
  destruct (count =? 0)%nat; [injection H as <- <- <-; assumption|].
  apply (IH _ _ _ _ _ _ _ _ H).
  exact (countSheet_agrees layouts totals
           (finishLayout material sheetDef (Z.of_nat (List.length layouts) + 1) placed) Hc).
Qed.

Lemma overSheetDefs_counts (sheetDefs : list Sheet.t) :
  forall pool layouts totals pool' layouts' totals',
    overSheetDefs partToPartDist partToSheetDist rotation material
                  sheetDefs pool layouts totals
    = Returned (pool', layouts', totals') ->
    countsAgree layouts totals -> countsAgree layouts' totals'.
Proof.
  induction sheetDefs as [|sheetDef rest IH];
    intros pool layouts totals pool' layouts' totals' H Hc; simpl in H.
  - injection H as <- <- <-. exact Hc.
  - destruct pool as [|p pool]; [injection H as <- <- <-; exact Hc|].
    apply bind_Returned in H as ([[pool1 l1] t1] & Hfill & Hrest).
    exact (IH _ _ _ _ _ _ Hrest (fillSheets_counts _ _ _ _ _ _ _ _ _ Hfill Hc)).
Qed.

Lemma nestGroups_counts (availableSheets : list Sheet.t)
      (groups : list (string * list Part.t)) :
  forall st st',
    nestGroups partToPartDist partToSheetDist rotation material
               availableSheets groups st = Returned st' ->
    countsAgree (st_layouts st) (st_totals st) ->
    countsAgree (st_layouts st') (st_totals st').
Proof.
  induction groups as [|[key group] rest IH]; intros st st' H Hc; simpl in H.
  - injection H as <-. exact Hc.
  - apply bind_Returned in H as (st1 & H1 & Hrest).
    apply (IH _ _ Hrest). unfold nestGroup in H1.
    destruct (sheetDefsFor availableSheets key) as [|s defs].
    + injection H1 as <-. exact Hc.
    + apply bind_Returned in H1 as ([[pool' l'] t'] & Hover & Hret).
      injection Hret as <-. simpl.
      exact (overSheetDefs_counts (s :: defs) _ _ _ _ _ _ Hover Hc).
Qed.

End UsageCounts.

(** ** Consolidation of the unplaced parts *)

Lemma bumpQuantity_ids (o : Z) (acc acc' : list Part.t) :
  bumpQuantity o acc = Some acc' ->
  map Part.originalId acc' = map Part.originalId acc
  /\ (Forall (fun u => (1 <= Part.quantity u)%nat) acc ->
      Forall (fun u => (1 <= Part.quantity u)%nat) acc').
Proof.
  revert acc'. induction acc as [|p acc IH]; intros acc'; simpl; [discriminate|].
  destruct (Part.originalId p =? o).
  - intros [= <-]. split; [reflexivity|].
    intros H. inversion H; subst. constructor; [simpl; lia | assumption].
  - destruct (bumpQuantity o acc) as [acc1|]; simpl; [|discriminate].
    intros [= <-]. destruct (IH acc1 eq_refl) as [Hids Hq]. split.
    + simpl. rewrite Hids. reflexivity.
    + intros H. inversion H; subst. constructor; [assumption | auto].
Qed.

Lemma bumpQuantity_fresh (o : Z) (acc : list Part.t) :
  bumpQuantity o acc = None -> ~ In o (map Part.originalId acc).
Proof.
  induction acc as [|p acc IH]; simpl; [tauto|].
  destruct (Z.eqb_spec (Part.originalId p) o); [discriminate|].
  destruct (bumpQuantity o acc); simpl; [discriminate|].
  intros _ [H|H]; [contradiction | exact (IH eq_refl H)].
Qed.

(** The consolidated list names each identity once, with a quantity of at
    least one, and names only identities of the list it consolidates. *)
Lemma consolidateUnplaced_shape (l : list Part.t) :
  NoDup (map Part.originalId (consolidateUnplaced l))
  /\ Forall (fun u => (1 <= Part.quantity u)%nat) (consolidateUnplaced l)
  /\ incl (map Part.originalId (consolidateUnplaced l)) (map Part.originalId l).
Proof.
  unfold consolidateUnplaced.
  enough (H : forall acc,
             NoDup (map Part.originalId acc) ->
             Forall (fun u => (1 <= Part.quantity u)%nat) acc ->
             NoDup (map Part.originalId (fold_left consolidateStep l acc))
             /\ Forall (fun u => (1 <= Part.quantity u)%nat)
                       (fold_left consolidateStep l acc)
             /\ incl (map Part.originalId (fold_left consolidateStep l acc))
                     (map Part.originalId acc ++ map Part.originalId l)).
  { destruct (H [] (NoDup_nil _) (Forall_nil _)) as (H1 & H2 & H3). auto. }
  induction l as [|part l IH]; intros acc Hnd Hq; simpl.
  - split; [exact Hnd|]. split; [exact Hq|]. rewrite app_nil_r. apply incl_refl.
  - unfold consolidateStep at 2 4 6.
    destruct (bumpQuantity (Part.originalId part) acc) as [acc'|] eqn:Hb.
    + destruct (bumpQuantity_ids _ _ _ Hb) as [Hids Hq'].
      destruct (IH acc') as (H1 & H2 & H3); [rewrite Hids; exact Hnd | auto |].
      split; [exact H1|]. split; [exact H2|].
      rewrite Hids in H3. intros x Hx. specialize (H3 x Hx).
      apply in_app_or in H3. apply in_or_app. simpl. tauto.
    + destruct (IH (acc ++ [Part.withQuantity part 1%nat])%list) as (H1 & H2 & H3).
      * rewrite map_app. simpl.
        apply NoDup_app; [exact Hnd | constructor; [simpl; tauto | constructor] |].
        intros x Hx [<-|[]]. exact (bumpQuantity_fresh _ _ Hb Hx).
      * apply Forall_app. split; [exact Hq|]. constructor; [simpl; lia | constructor].
      * split; [exact H1|]. split; [exact H2|].
        intros x Hx. specialize (H3 x Hx). rewrite map_app in H3. simpl in H3.
        apply in_app_or in H3. apply in_or_app. simpl.
        destruct H3 as [H3|H3]; [|tauto].
        apply in_app_or in H3. simpl in H3. tauto.
Qed.

(** ** Printing a thickness and parsing it back *)

Module Decimals.

Lemma takeDigits_uint (d : Decimal.uint) :
  Js.takeDigits (NilEmpty.string_of_uint d)
  = (list_ascii_of_string (NilEmpty.string_of_uint d), EmptyString).
Proof. induction d; simpl; rewrite ?IHd; reflexivity. Qed.

Lemma digitsValue_acc (d : Decimal.uint) :
  forall acc : positive,
    fold_left (fun a c => a * 10 + Js.digitVal c)
              (list_ascii_of_string (NilEmpty.string_of_uint d)) (Z.pos acc)
    = Z.pos (Pos.of_uint_acc d acc).
Proof.
  induction d; intros acc;
    cbn [NilEmpty.string_of_uint list_ascii_of_string fold_left Pos.of_uint_acc];
    try reflexivity;
    rewrite <- IHd; f_equal;
    match goal with |- context [Js.digitVal ?c] =>
      let v := eval vm_compute in (Js.digitVal c) in
      change (Js.digitVal c) with v
    end; lia.
Qed.

Lemma digitsValue_uint (d : Decimal.uint) :
  Js.digitsValue (list_ascii_of_string (NilEmpty.string_of_uint d))
  = Z.of_N (Pos.of_uint d).
Proof.
  unfold Js.digitsValue.
  induction d; simpl; try reflexivity; try exact IHd;
    match goal with
    | |- _ = Z.pos (Pos.of_uint_acc _ ?a) => exact (digitsValue_acc d a)
    end.
Qed.

Lemma parseFloat_uint (d : Decimal.uint) :
  d <> Decimal.Nil ->
  Js.parseFloat (NilEmpty.string_of_uint d)
  = Js.Finite (inject_Z (Z.of_N (Pos.of_uint d) * 1)).
Proof.
  intros Hd. rewrite <- digitsValue_uint.
  destruct d; [contradiction| ..];
    unfold Js.parseFloat;
    match goal with
    | |- context [NilEmpty.string_of_uint (?D ?d')] =>
        pose proof (takeDigits_uint (D d')) as Ht;
        remember (list_ascii_of_string (NilEmpty.string_of_uint (D d'))) as ds eqn:Hds;
        simpl in Ht, Hds |- *; rewrite Ht; rewrite app_nil_r;
        rewrite Hds at 1; rewrite Hds at 1; simpl; rewrite <- Hds; reflexivity
    end.
Qed.

End Decimals.

(** A non-negative integer printed by [toString] and read by [parseFloat]
    is strictly equal to itself and to nothing else. *)
Lemma strictEq_numToString (z t : Z) :
  0 <= z -> Js.strictEq (Js.parseFloat (Js.numToString z)) t = (z =? t).
Proof.
  intros Hz. unfold Js.numToString. destruct z as [|p|p]; [| |lia].
  - simpl. unfold Qeq_bool. simpl. rewrite Z.mul_1_r. reflexivity.
  - simpl. unfold NilZero.string_of_uint.
    pose proof (Unsigned.to_uint_nonnil p) as Hnil.
    pose proof (Unsigned.of_to p) as Hof.
    destruct (Pos.to_uint p) as [|d|d|d|d|d|d|d|d|d|d] eqn:Hd; [contradiction| ..];
      rewrite <- Hd in *; (rewrite Decimals.parseFloat_uint by exact Hnil);
      rewrite Hof; unfold Js.strictEq, Qeq_bool; simpl;
      rewrite ?Z.mul_1_r, ?Pos.mul_1_r; reflexivity.
Qed.

Lemma numToString_no_hyphen (z : Z) :
  0 <= z -> Js.contains "-" (Js.numToString z) = false.
Proof.
  intros Hz. rewrite <- (Z2Nat.id z Hz). apply InstanceIds.numToString_nat.
Qed.

Lemma split_whole (sep : ascii) (s : string) :
  Js.contains sep s = false -> Js.split sep s = [s].
Proof.
  induction s as [|c s IH]; simpl; [reflexivity|].
  destruct (Ascii.eqb c sep); simpl; [discriminate|].
  intros H. rewrite (IH H). reflexivity.
Qed.

Lemma split_first (sep : ascii) (s t : string) :
  Js.contains sep s = false ->
  Js.split sep (s ++ String sep t) = s :: Js.split sep t.
Proof.
  induction s as [|c s IH]; simpl.
  - intros _. rewrite Ascii.eqb_refl. reflexivity.
  - destruct (Ascii.eqb c sep); simpl; [discriminate|].
    intros H. rewrite (IH H). reflexivity.
Qed.

(** For a grade without a hyphen and a non-negative thickness, the key
    of the group selects exactly the sheets of that grade and thickness. *)
Lemma sheetDefsFor_exact (availableSheets : list Sheet.t) (p : Part.t) :
  Js.contains "-" (Part.grade p) = false ->
  0 <= Part.thickness p ->
  sheetDefsFor availableSheets (groupKey p) = sheetsLike availableSheets p.
Proof.
  intros Hg Ht. unfold sheetDefsFor, sheetsLike, groupKey.
  change (Part.grade p ++ "-" ++ Js.numToString (Part.thickness p))
    with (Part.grade p ++ String "-" (Js.numToString (Part.thickness p))).
  rewrite (split_first "-" _ _ Hg), (split_whole "-" _ (numToString_no_hyphen _ Ht)).
  simpl. apply filter_ext. intros s.
  rewrite (strictEq_numToString _ _ Ht), Z.eqb_sym. reflexivity.
Qed.

(** ** Enough sheets for a group *)

Lemma findBestPosition_dims (p q : Part.t) (sheet : Sheet.t)
      (placed : list PlacedPart.t) (ppd psd : Z) (rotation : RotationOption) :
  Part.width q = Part.width p -> Part.length q = Part.length p ->
  match findBestPosition q sheet placed ppd psd rotation with
  | Some _ => true | None => false end
  = match findBestPosition p sheet placed ppd psd rotation with
    | Some _ => true | None => false end.
Proof.
  intros Hw Hl. unfold findBestPosition. rewrite Hw, Hl.
  set (b1 := tryPlacing _ _ _ _ _ _ _ _).
  destruct (permitsRotation rotation); reflexivity.
Qed.

Lemma totalUnits_expand (group : list Part.t) :
  List.length (flat_map expand group) = totalUnits group.
Proof.
  unfold totalUnits. induction group as [|p group IH]; simpl; [reflexivity|].
  rewrite length_app, IH. unfold expand. rewrite length_map, length_seq. reflexivity.
Qed.

Lemma totalUnits_permutation (l l' : list Part.t) :
  Permutation l l' -> totalUnits l = totalUnits l'.
Proof. intros H. apply Permutation_list_sum, Permutation_map, H. Qed.

Lemma totalUnits_group {K : Type} (groups : list (K * list Part.t)) (k : K)
      (g : list Part.t) :
  In (k, g) groups -> (totalUnits g <= totalUnits (flat_map snd groups))%nat.
Proof.
  unfold totalUnits.
  induction groups as [|[k' g'] groups IH]; simpl; [tauto|].
  rewrite map_app, list_sum_app. intros [[= -> ->]|H]; [lia|].
  specialize (IH H). lia.
Qed.

Lemma fitsEmpty_finds (partToPartDist partToSheetDist : Z) (rotation : RotationOption)
      (sheet : Sheet.t) (p : Part.t) :
  fitsEmpty partToSheetDist rotation sheet p ->
  findsEmpty partToPartDist partToSheetDist rotation sheet p = true.
Proof.
  intros Hfit. unfold findsEmpty.
  assert (Hcan : forall w h,
             partToSheetDist + w <= Sheet.length sheet - partToSheetDist ->
             partToSheetDist + h <= Sheet.width sheet - partToSheetDist ->
             canPlace w h (mkPoint partToSheetDist partToSheetDist) sheet []
                      partToPartDist partToSheetDist = true).
  { intros w h Hw Hh. unfold canPlace. simpl.
    rewrite Z.ltb_irrefl. simpl. rewrite !Z.gtb_ltb.
    destruct (Z.ltb_spec (Sheet.length sheet - partToSheetDist) (partToSheetDist + w));
      [lia|].
    destruct (Z.ltb_spec (Sheet.width sheet - partToSheetDist) (partToSheetDist + h));
      [lia | reflexivity]. }
  destruct Hfit as [[Hw Hl]|(Hrot & Hl & Hw)].
  - destruct (findBestPosition_covers p sheet [] partToPartDist partToSheetDist rotation
                false (mkPoint partToSheetDist partToSheetDist)) as (pos & -> & _);
      [discriminate | | reflexivity].
    split; [left; reflexivity | exact (Hcan _ _ Hw Hl)].
  - destruct (findBestPosition_covers p sheet [] partToPartDist partToSheetDist rotation
                true (mkPoint partToSheetDist partToSheetDist)) as (pos & -> & _);
      [intros _; destruct rotation; [contradiction | reflexivity | reflexivity] |
       | reflexivity].
    split; [left; reflexivity | exact (Hcan _ _ Hl Hw)].
Qed.

Section Supply.

Variables (partToPartDist partToSheetDist : Z) (rotation : RotationOption).
Variable material : Material.t.

Let fitsOn := findsEmpty partToPartDist partToSheetDist rotation.

(** The first part of the pool that fits an empty sheet is placed on it. *)
Lemma placeOnSheet_places (sheetDef : Sheet.t) (pool : list Part.t) :
  forall remaining placed' remaining' count',
    placeOnSheet partToPartDist partToSheetDist rotation sheetDef pool [] remaining 0%nat
    = (placed', remaining', count') ->
    (exists q, In q pool /\ fitsOn sheetDef q = true) ->
    count' <> 0%nat.
Proof.
  induction pool as [|part pool IH]; intros remaining p' r' c' H (q & Hq & Hfit).
  - destruct Hq.
  - simpl in H.
    destruct (findBestPosition part sheetDef [] partToPartDist partToSheetDist rotation)
      as [pos|] eqn:Hfind.
    + apply placeOnSheet_count in H. lia.
    + apply (IH _ _ _ _ H). exists q. split; [|exact Hfit].
      destruct Hq as [<-|Hq]; [|exact Hq].
      unfold fitsOn, findsEmpty in Hfit. rewrite Hfind in Hfit. discriminate Hfit.
Qed.

(** With a supply as large as the pool and a sheet on which every part of
    the pool fits, the loop over that sheet definition empties the pool. *)
Lemma fillSheets_empties (fuel : nat) :
  forall sheetDef pool used layouts totals,
    (List.length pool <= fuel)%nat ->
    Forall (fun q => fitsOn sheetDef q = true) pool ->
    used + Z.of_nat (List.length pool) <= Sheet.quantity sheetDef ->
    exists layouts' totals',
      fillSheets partToPartDist partToSheetDist rotation material
                 fuel sheetDef pool used layouts totals
      = Returned ([], layouts', totals').
Proof.
  induction fuel as [|fuel IH]; intros sheetDef pool used layouts totals Hlen Hfit Hq.
  - destruct pool; [|simpl in Hlen; lia]. simpl. eexists; eexists; reflexivity.
  - destruct pool as [|p pool]; [simpl; eexists; eexists; reflexivity|].
    set (full := p :: pool) in *.
    cbn [fillSheets].
    replace ((0 <? List.length full)%nat && (used <? Sheet.quantity sheetDef))
      with true
      by (symmetry; apply andb_true_iff; split;
          [apply Nat.ltb_lt | apply Z.ltb_lt]; unfold full in *; simpl in *; lia).
    destruct (placeOnSheet partToPartDist partToSheetDist rotation sheetDef full [] [] 0)
      as [[placed remaining] count] eqn:Hpass.
    assert (Hcount : count <> 0%nat).
    { apply (placeOnSheet_places _ _ _ _ _ _ Hpass). exists p. split; [left; reflexivity|].
      inversion Hfit; assumption. }
    apply Nat.eqb_neq in Hcount. rewrite Hcount. apply Nat.eqb_neq in Hcount.
    pose proof (placeOnSheet_count _ _ _ _ _ _ _ _ _ _ _ Hpass) as [Hsum _].
    simpl in Hsum.
    apply IH.
    + rewrite sortByArea_length. unfold full in *. simpl in *. lia.
    + apply sortByArea_Forall.
      exact (placeOnSheet_remaining _ _ _ _ _ _ _ _ _ _ _ _ Hpass Hfit (Forall_nil _)).
    + rewrite sortByArea_length. unfold full in *. simpl in *. lia.
Qed.

Lemma Forall_permutation_tail {A : Type} (Q : A -> Prop) (a b c : list A) :
  Permutation (a ++ b) c -> Forall Q c -> Forall Q b /\ (List.length b <= List.length c)%nat.
Proof.
  intros Hp Hc. split.
  - apply Forall_forall. intros x Hx. rewrite Forall_forall in Hc. apply Hc.
    apply (Permutation_in x Hp). apply in_or_app. right. exact Hx.
  - rewrite <- (Permutation_length Hp), length_app. lia.
Qed.

Lemma overSheetDefs_empties (sheetDefs : list Sheet.t) (s : Sheet.t) :
  forall pool layouts totals,
    In s sheetDefs ->
    Forall (fun q => fitsOn s q = true) pool ->
    Z.of_nat (List.length pool) <= Sheet.quantity s ->
    exists layouts' totals',
      overSheetDefs partToPartDist partToSheetDist rotation material
                    sheetDefs pool layouts totals
      = Returned ([], layouts', totals').
Proof.
  induction sheetDefs as [|sheetDef rest IH]; intros pool layouts totals Hin Hfit Hq.
  - destruct Hin.
  - destruct pool as [|p pool]; [simpl; eexists; eexists; reflexivity|].
    set (full := p :: pool) in *. cbn [overSheetDefs]. unfold full at 1.
    destruct Hin as [->|Hin].
    + destruct (fillSheets_empties (List.length full) s full 0 layouts totals
                                   (Nat.le_refl _) Hfit ltac:(lia))
        as (l1 & t1 & ->).
      simpl. destruct rest; simpl; eexists; eexists; reflexivity.
    + destruct (fillSheets_returns partToPartDist partToSheetDist rotation material
                  (List.length full) sheetDef full 0 layouts totals (Nat.le_refl _))
        as ([[pool1 l1] t1] & Hr).
      rewrite Hr. simpl.
      destruct (fillSheets_permutation _ _ _ _ _ _ _ _ _ _ _ _ _ Hr)
        as (opened & _ & Hperm).
      destruct (Forall_permutation_tail _ _ _ _ Hperm Hfit) as [Hfit1 Hlen1].
      apply IH; [exact Hin | exact Hfit1 | lia].
Qed.


Lemma nestGroup_nothing_left (availableSheets : list Sheet.t) (st st' : SheetState)
      (key : string) (group : list Part.t) :
  nestGroup partToPartDist partToSheetDist rotation material
            availableSheets st (key, group) = Returned st' ->
  (group = []
   \/ exists s, In s (sheetDefsFor availableSheets key)
                /\ Z.of_nat (totalUnits group) <= Sheet.quantity s
                /\ Forall (fun q => fitsOn s q = true) group) ->
  st_unplaced st' = st_unplaced st.
Proof.
  unfold nestGroup. intros H [->|(s & Hs & Hq & Hfit)].
  - destruct (sheetDefsFor availableSheets key) as [|s0 defs].
    + injection H as <-. simpl. apply app_nil_r.
    + simpl in H. injection H as <-. simpl. apply app_nil_r.
  - destruct (sheetDefsFor availableSheets key) as [|s0 defs] eqn:Hdefs; [destruct Hs|].
    destruct (overSheetDefs_empties (s0 :: defs) s (sortByArea (flat_map expand group))
                                    (st_layouts st) (st_totals st) Hs)
      as (l' & t' & Hover).
    + apply sortByArea_Forall. apply Forall_forall. intros u Hu.
      apply in_flat_map in Hu as (q & Hq' & Hu).
      rewrite Forall_forall in Hfit. rewrite <- (Hfit q Hq').
      unfold expand in Hu. apply in_map_iff in Hu as (i & <- & _).
      unfold fitsOn, findsEmpty. apply findBestPosition_dims; reflexivity.
    + rewrite sortByArea_length, totalUnits_expand. exact Hq.
    + rewrite Hover in H. simpl in H. injection H as <-. simpl. apply app_nil_r.
Qed.

Lemma nestGroups_nothing_left (availableSheets : list Sheet.t)
      (groups : list (string * list Part.t)) :
  forall st st',
    nestGroups partToPartDist partToSheetDist rotation material
               availableSheets groups st = Returned st' ->
    (forall k g,
        In (k, g) groups ->
        g = []
        \/ exists s, In s (sheetDefsFor availableSheets k)
                     /\ Z.of_nat (totalUnits g) <= Sheet.quantity s
                     /\ Forall (fun q => fitsOn s q = true) g) ->
    st_unplaced st' = st_unplaced st.
Proof.
  induction groups as [|[key group] rest IH]; intros st st' H Hall; simpl in H.
  - injection H as <-. reflexivity.
  - apply bind_Returned in H as (st1 & H1 & Hrest).
    rewrite (IH _ _ Hrest (fun k g Hin => Hall k g (or_intror Hin))).
    exact (nestGroup_nothing_left _ _ _ _ _ H1 (Hall key group (or_introl eq_refl))).
Qed.

End Supply.

(** ** What the unplaced parts repeat *)

Lemma sameRow_refl (p : Part.t) : sameRow p p.
Proof. repeat split. Qed.

Lemma sameRow_withQuantity (p u : Part.t) (n : nat) :
  sameRow p u -> sameRow p (Part.withQuantity u n).
Proof. intros H. exact H. Qed.

Lemma bumpQuantity_rows (Q : Part.t -> Prop) (o : Z) (acc acc' : list Part.t) :
  (forall u n, Q u -> Q (Part.withQuantity u n)) ->
  bumpQuantity o acc = Some acc' -> Forall Q acc -> Forall Q acc'.
Proof.
  intros HQ. revert acc'.
  induction acc as [|p acc IH]; intros acc'; simpl; [discriminate|].
  destruct (Part.originalId p =? o).
  - intros [= <-] H. inversion H; subst. constructor; [apply HQ; assumption | assumption].
  - destruct (bumpQuantity o acc) as [acc1|]; simpl; [|discriminate].
    intros [= <-] H. inversion H; subst. constructor; [assumption | auto].
Qed.

Lemma consolidateUnplaced_rows (Q : Part.t -> Prop) (l : list Part.t) :
  (forall u n, Q u -> Q (Part.withQuantity u n)) ->
  Forall Q l -> Forall Q (consolidateUnplaced l).
Proof.
  intros HQ. unfold consolidateUnplaced.
  enough (H : forall acc, Forall Q acc -> Forall Q l ->
                          Forall Q (fold_left consolidateStep l acc))
    by (apply H; constructor).
  induction l as [|part l IH]; intros acc Hacc Hl; simpl; [exact Hacc|].
  inversion Hl; subst. apply IH; [|assumption].
  unfold consolidateStep.
  destruct (bumpQuantity (Part.originalId part) acc) as [acc'|] eqn:Hb.
  - exact (bumpQuantity_rows Q _ _ _ HQ Hb Hacc).
  - apply Forall_app. split; [exact Hacc|]. constructor; [apply HQ; assumption | constructor].
Qed.

Section UnplacedRows.

Variables (partToPartDist partToSheetDist : Z) (rotation : RotationOption).
Variable material : Material.t.
Variable availableSheets : list Sheet.t.
Variable parts : list Part.t.

Let fromRow (u : Part.t) : Prop := exists p, In p parts /\ sameRow p u.

Lemma nestGroups_rows (groups : list (string * list Part.t)) :
  forall st st',
    nestGroups partToPartDist partToSheetDist rotation material
               availableSheets groups st = Returned st' ->
    (forall k g p, In (k, g) groups -> In p g -> In p parts) ->
    Forall fromRow (st_unplaced st) -> Forall fromRow (st_unplaced st').
Proof.
  induction groups as [|[key group] rest IH]; intros st st' H Hin Hun; simpl in H.
  - injection H as <-. exact Hun.
  - apply bind_Returned in H as (st1 & H1 & Hrest).
    apply (IH _ _ Hrest); [intros k g p Hkg; apply (Hin k g p); right; exact Hkg|].
    unfold nestGroup in H1.
    destruct (sheetDefsFor availableSheets key) as [|s defs].
    + injection H1 as <-. simpl. apply Forall_app. split; [exact Hun|].
      apply Forall_forall. intros p Hp. exists p. split; [|apply sameRow_refl].
      exact (Hin key group p (or_introl eq_refl) Hp).
    + apply bind_Returned in H1 as ([[pool' l'] t'] & Hover & Hret).
      injection Hret as <-. simpl. apply Forall_app. split; [exact Hun|].
      destruct (overSheetDefs_permutation _ _ _ _ (s :: defs) _ _ _ _ _ _ Hover)
        as (opened & _ & Hperm).
      apply Forall_forall. intros u Hu.
      assert (Hpool : In u (sortByArea (flat_map expand group))).
      { apply (Permutation_in u Hperm). apply in_or_app. right. exact Hu. }
      apply (proj1 (sortByArea_In _ _)) in Hpool.
      apply in_flat_map in Hpool as (p & Hp & Hq).
      exists p. split; [exact (Hin key group p (or_introl eq_refl) Hp)|].
      unfold expand in Hq. apply in_map_iff in Hq as (i & <- & _). repeat split.
Qed.

End UnplacedRows.

(** ** The bars of the linear packer, one by one *)

Section BarChain.

Variable stockLength : Z.
Variable optimizationGoal : OptimizationGoal.
Variables leftEndAllowance rightEndAllowance : Z.
Variable random : nat -> nat.

Let usable := usableStockLength stockLength leftEndAllowance rightEndAllowance.
Let chain := barsOf stockLength optimizationGoal leftEndAllowance rightEndAllowance random.
Let chains :=
  barsOfGroups stockLength optimizationGoal leftEndAllowance rightEndAllowance random.

Lemma fillBars_chain (rawMaterial : string) (partsInGroup : list LinearPart.t)
      (fuel : nat) :
  forall pool st st',
    fillBars stockLength optimizationGoal leftEndAllowance rightEndAllowance random
             fuel rawMaterial partsInGroup pool st = Returned st' ->
    exists opened,
      bs_layouts st' = (bs_layouts st ++ opened)%list
      /\ bs_counter st' = bs_counter st + Z.of_nat (List.length opened)
      /\ chain rawMaterial (bs_counter st) pool opened.
Proof.
  induction fuel as [|fuel IH]; intros pool st st' H.
  - destruct pool; [|discriminate H]. injection H as <-.
    exists []. rewrite app_nil_r. simpl. repeat split. lia.
  - destruct pool as [|c pool].
    { injection H as <-. exists []. rewrite app_nil_r. simpl. repeat split. lia. }
    cbn -[removePlaced] in H. set (full := c :: pool) in *.
    destruct (bestCutsFor stockLength optimizationGoal leftEndAllowance
                rightEndAllowance random full (bs_calls st))
      as [[chosen waste] calls'] eqn:Hbest.
    destruct chosen as [|k chosen].
    + apply bind_Returned in H as (unplacedMap & _ & H). injection H as <-.
      exists []. rewrite app_nil_r. simpl. repeat split. lia.
    + apply IH in H as (opened & Hlay & Hcount & Hchain).
      simpl in Hlay, Hcount, Hchain. rewrite <- app_assoc in Hlay. simpl in Hlay.
      eexists. split; [exact Hlay|]. split; [cbn [List.length]; lia|].
      simpl. exists (bs_calls st). rewrite Hbest. simpl.
      repeat split; try discriminate. exact Hchain.
Qed.

Lemma nestMaterial_chain (st st' : LinearState) (rawMaterial : string)
      (partsInGroup : list LinearPart.t) :
  nestMaterial stockLength optimizationGoal leftEndAllowance rightEndAllowance
               random st (rawMaterial, partsInGroup) = Returned st' ->
  exists opened,
    ls_layouts st' = (ls_layouts st ++ opened)%list
    /\ ls_counter st' = ls_counter st + Z.of_nat (List.length opened)
    /\ chain rawMaterial (ls_counter st)
             (poolOf stockLength leftEndAllowance rightEndAllowance partsInGroup)
             opened.
Proof.
  unfold nestMaterial. intros H.
  pose proof (expandGroup_instances stockLength leftEndAllowance rightEndAllowance
                                    partsInGroup [] []) as Hexp.
  destruct (expandGroup stockLength leftEndAllowance rightEndAllowance
                        partsInGroup [] []) as [allCutParts unplacedForGroup].
  simpl in Hexp. subst allCutParts.
  apply bind_Returned in H as (bs & Hfill & Hret). injection Hret as <-. simpl.
  apply fillBars_chain in Hfill as (opened & Hlay & Hcount & Hchain).
  exists opened. repeat split; assumption.
Qed.

Lemma nestMaterials_chains (groups : list (string * list LinearPart.t)) :
  forall st st',
    nestMaterials stockLength optimizationGoal leftEndAllowance rightEndAllowance
                  random groups st = Returned st' ->
    exists bars,
      ls_layouts st' = (ls_layouts st ++ bars)%list
      /\ chains groups (ls_counter st) bars.
Proof.
  induction groups as [|[rawMaterial partsInGroup] rest IH]; intros st st' H; simpl in H.
  - injection H as <-. exists []. rewrite app_nil_r. split; reflexivity.
  - apply bind_Returned in H as (st1 & H1 & H2).
    apply nestMaterial_chain in H1 as (opened & Hlay & Hcount & Hchain).
    apply IH in H2 as (others & Hlay2 & Hchains).
    exists (opened ++ others)%list. split.
    + rewrite Hlay2, Hlay, <- app_assoc. reflexivity.
    + simpl. exists opened, others. split; [reflexivity|]. split; [exact Hchain|].
      rewrite <- Hcount. exact Hchains.
Qed.

(** A result is the consolidated oversize parts and the bars of the
    groups, visited in the order of [for ... in], with their waste. *)
Lemma performLinearNesting_chains (parts : list LinearPart.t)
      (r : LinearNestingResult.t) :
  performLinearNesting stockLength optimizationGoal leftEndAllowance
                       rightEndAllowance random parts = Returned r ->
  exists groups bars,
    Js.groupBy LinearPart.rawMaterial parts [] = Returned groups
    /\ chains (Js.forIn groups) 1 bars
    /\ LinearNestingResult.layouts r = map finalize bars
    /\ LinearNestingResult.totalStockUsed r = Z.of_nat (List.length bars)
    /\ LinearNestingResult.totalWaste r
       = sumZ StockLayout.wasteLength (map finalize bars).
Proof.
  unfold performLinearNesting. intros H.
  apply bind_Returned in H as (groups & Hg & H).
  apply bind_Returned in H as (st & Hst & H). injection H as <-. simpl.
  apply nestMaterials_chains in Hst as (bars & Hlay & Hchains).
  simpl in Hlay, Hchains. rewrite Hlay.
  exists groups, bars.
  repeat split; try assumption. rewrite length_map. reflexivity.
Qed.

End BarChain.

(** ** What every bar satisfies *)

Section EachBar.

Variable stockLength : Z.
Variable optimizationGoal : OptimizationGoal.
Variables leftEndAllowance rightEndAllowance : Z.
Variable random : nat -> nat.

Let usable := usableStockLength stockLength leftEndAllowance rightEndAllowance.
Let chain := barsOf stockLength optimizationGoal leftEndAllowance rightEndAllowance random.
Let chains :=
  barsOfGroups stockLength optimizationGoal leftEndAllowance rightEndAllowance random.

(** The bar at position [i] of a chain: its number, its material, its
    fields, and a pool, part of the pool of the chain, from which its cuts
    were chosen. *)
Lemma barsOf_nth (rawMaterial : string) (opened : list StockLayout.t) :
  forall counter pool i layout,
    chain rawMaterial counter pool opened ->
    nth_error opened i = Some layout ->
    StockLayout.stockIndex layout = counter + Z.of_nat i
    /\ StockLayout.rawMaterial layout = rawMaterial
    /\ StockLayout.stockLength layout = stockLength
    /\ StockLayout.usedLength layout = sumEffective (StockLayout.cuts layout)
    /\ StockLayout.cuts layout <> []
    /\ exists pool' calls,
         incl pool' pool
         /\ StockLayout.cuts layout
            = fst (fst (bestCutsFor stockLength optimizationGoal leftEndAllowance
                                    rightEndAllowance random pool' calls)).
Proof.
  induction opened as [|l rest IH]; intros counter pool i layout Hchain Hi.
  - destruct i; discriminate Hi.
  - destruct Hchain as (calls & Hne & Hcuts & Hsome & Hl & Hrest).
    destruct i as [|i]; simpl in Hi.
    + injection Hi as <-. rewrite Hl at 1 2 3 4. simpl.
      repeat split; try assumption; [lia|].
      exists pool, calls. split; [apply incl_refl | exact Hcuts].
    + destruct (IH _ _ _ _ Hrest Hi) as (H1 & H2 & H3 & H4 & H5 & pool' & calls' & Hincl & H6).
      repeat split; try assumption; [lia|].
      exists pool', calls'. split; [|exact H6].
      intros x Hx. exact (removePlaced_incl _ _ x (Hincl x Hx)).
Qed.

Lemma barsOfGroups_nth (groups : list (string * list LinearPart.t)) :
  forall counter bars i layout,
    chains groups counter bars ->
    nth_error bars i = Some layout ->
    StockLayout.stockIndex layout = counter + Z.of_nat i
    /\ StockLayout.stockLength layout = stockLength
    /\ StockLayout.usedLength layout = sumEffective (StockLayout.cuts layout)
    /\ StockLayout.cuts layout <> []
    /\ exists partsInGroup pool' calls,
         In (StockLayout.rawMaterial layout, partsInGroup) groups
         /\ incl pool' (poolOf stockLength leftEndAllowance rightEndAllowance
                               partsInGroup)
         /\ StockLayout.cuts layout
            = fst (fst (bestCutsFor stockLength optimizationGoal leftEndAllowance
                                    rightEndAllowance random pool' calls)).
Proof.
  induction groups as [|[rawMaterial partsInGroup] rest IH];
    intros counter bars i layout Hchains Hi.
  - change (bars = []) in Hchains. subst bars. destruct i; discriminate Hi.
  - destruct Hchains as (opened & others & -> & Hchain & Hothers).
    destruct (Nat.lt_ge_cases i (List.length opened)) as [Hlt|Hge].
    + rewrite nth_error_app1 in Hi by exact Hlt.
      destruct (barsOf_nth _ _ _ _ _ _ Hchain Hi)
        as (H1 & H2 & H3 & H4 & H5 & pool' & calls & Hincl & H6).
      repeat split; try assumption.
      exists partsInGroup, pool', calls. rewrite H2.
      split; [left; reflexivity|]. split; assumption.
    + rewrite nth_error_app2 in Hi by exact Hge.
      destruct (IH _ _ _ _ Hothers Hi)
        as (H1 & H3 & H4 & H5 & g & pool' & calls & Hin & Hincl & H6).
      repeat split; try assumption; [lia|].
      exists g, pool', calls. split; [right; exact Hin|]. split; assumption.
Qed.

End EachBar.

Lemma finalize_fields (layout : StockLayout.t) :
  StockLayout.stockIndex (finalize layout) = StockLayout.stockIndex layout
  /\ StockLayout.stockLength (finalize layout) = StockLayout.stockLength layout
  /\ StockLayout.cuts (finalize layout) = StockLayout.cuts layout
  /\ StockLayout.usedLength (finalize layout) = StockLayout.usedLength layout
  /\ StockLayout.rawMaterial (finalize layout) = StockLayout.rawMaterial layout
  /\ StockLayout.wasteLength (finalize layout)
     = StockLayout.stockLength layout - StockLayout.usedLength layout.
Proof. repeat split. Qed.

(** Every layout of a result, at its position. *)
Lemma performLinearNesting_nth
      (stockLength : Z) (optimizationGoal : OptimizationGoal)
      (leftEndAllowance rightEndAllowance : Z) (random : nat -> nat)
      (parts : list LinearPart.t) (r : LinearNestingResult.t)
      (i : nat) (layout : StockLayout.t) :
  performLinearNesting stockLength optimizationGoal leftEndAllowance
                       rightEndAllowance random parts = Returned r ->
  nth_error (LinearNestingResult.layouts r) i = Some layout ->
  StockLayout.stockIndex layout = Z.of_nat i + 1
  /\ StockLayout.stockLength layout = stockLength
  /\ StockLayout.usedLength layout = sumEffective (StockLayout.cuts layout)
  /\ StockLayout.wasteLength layout = stockLength - StockLayout.usedLength layout
  /\ StockLayout.cuts layout <> []
  /\ exists pool calls,
       Forall (fun c => cutOf stockLength leftEndAllowance rightEndAllowance parts c
                        /\ CutPart.rawMaterial c = StockLayout.rawMaterial layout) pool
       /\ StockLayout.cuts layout
          = fst (fst (bestCutsFor stockLength optimizationGoal leftEndAllowance
                                  rightEndAllowance random pool calls)).
Proof.
  intros Hr Hi.
  destruct (performLinearNesting_chains _ _ _ _ _ _ _ Hr)
    as (groups & bars & Hg & Hchains & Hlay & _).
  rewrite Hlay, nth_error_map in Hi.
  destruct (nth_error bars i) as [bar|] eqn:Hbar; [|discriminate Hi].
  injection Hi as <-.
  destruct (barsOfGroups_nth _ _ _ _ _ _ _ _ _ _ Hchains Hbar)
    as (H1 & H2 & H3 & H4 & g & pool & calls & Hin & Hincl & H5).
  destruct (finalize_fields bar) as (F1 & F2 & F3 & F4 & F5 & F6).
  rewrite F1, F2, F3, F4, F5, F6, H2.
  repeat split; try assumption; [lia|].
  exists pool, calls. split; [|exact H5].
  apply Forall_forall. intros c Hc. apply Hincl in Hc.
  unfold poolOf in Hc. apply in_flat_map in Hc as (p & Hp & Hc).
  apply filter_In in Hp as [Hp Hfit].
  assert (Hkey : LinearPart.rawMaterial p = StockLayout.rawMaterial bar).
  { apply JsFacts.forIn_In in Hin.
    apply (JsFacts.groupBy_groups LinearPart.rawMaterial parts [] groups Hg) with (g := g);
      try assumption.
    intros ? ? ? []. }
  split.
  - exists p. split; [|split; [exact Hc|]].
    + apply (Permutation_in p (GroupFacts.groupBy_permutation _ _ _ _ Hg)).
      apply (Permutation_in p (Permutation_flat_map snd
                                 (GroupFacts.forIn_permutation groups))).
      apply in_flat_map. exists (StockLayout.rawMaterial bar, g). split; assumption.
    + apply negb_true_iff in Hfit. rewrite Z.gtb_ltb in Hfit.
      apply Z.ltb_ge in Hfit. exact Hfit.
  - unfold instances in Hc. apply in_map_iff in Hc as (k & <- & _). exact Hkey.
Qed.

(** ** First fit *)

Lemma StronglySorted_nth {A : Type} (R : A -> A -> Prop) (l : list A) :
  StronglySorted R l ->
  forall i j a b,
    (i < j)%nat -> nth_error l i = Some a -> nth_error l j = Some b -> R a b.
Proof.
  induction 1 as [|x l Hl IH Hx]; intros i j a b Hij Ha Hb.
  - destruct i; discriminate Ha.
  - destruct j as [|j]; [lia|]. simpl in Hb.
    destruct i as [|i]; simpl in Ha.
    + injection Ha as <-. rewrite Forall_forall in Hx.
      exact (Hx b (nth_error_In _ _ Hb)).
    + apply (IH i j a b); [lia | assumption | assumption].
Qed.

Lemma StronglySorted_app {A : Type} (R : A -> A -> Prop) (l l' : list A) :
  StronglySorted R l -> StronglySorted R l' ->
  (forall a b, In a l -> In b l' -> R a b) ->
  StronglySorted R (l ++ l').
Proof.
  induction 1 as [|x l Hl IH Hx]; intros Hl' Hcross; simpl; [exact Hl'|].
  constructor.
  - apply IH; [exact Hl'|]. intros a b Ha Hb. apply Hcross; [right; exact Ha | exact Hb].
  - apply Forall_app. split; [exact Hx|].
    apply Forall_forall. intros b Hb. apply Hcross; [left; reflexivity | exact Hb].
Qed.

Lemma sumEffective_nonneg (cuts : list CutPart.t) :
  Forall (fun c => 0 <= CutPart.effectiveLength c) cuts -> 0 <= sumEffective cuts.
Proof.
  induction 1 as [|c cuts Hc _ IH]; [unfold sumEffective; simpl; lia|].
  rewrite sumEffective_cons. lia.
Qed.

Section FirstFit.

Variables (stockLength leftEndAllowance rightEndAllowance : Z).
Variable random : nat -> nat.

Let usable := usableStockLength stockLength leftEndAllowance rightEndAllowance.
Let acc := accumulate stockLength leftEndAllowance rightEndAllowance.
Let nonneg (c : CutPart.t) : Prop := 0 <= CutPart.effectiveLength c.

(** An instance that the accumulation skips does not fit what is left at
    the end either, the lengths being non-negative. *)
Lemma accumulate_saturated (parts : list CutPart.t) :
  forall cuts used cuts' used',
    acc parts cuts used = (cuts', used') ->
    used = sumEffective cuts ->
    Forall nonneg parts ->
    forall x, In x parts ->
              In x cuts' \/ usable < sumEffective cuts' + CutPart.effectiveLength x.
Proof.
  induction parts as [|part parts IH]; intros cuts used cuts' used' H Hused Hnn x Hx.
  - destruct Hx.
  - inversion Hnn as [|? ? Hpart Hrest]; subst.
    pose proof H as Hadd. unfold acc in H. simpl in H. fold usable in H.
    destruct (sumEffective cuts + CutPart.effectiveLength part <=? usable) eqn:Hfit.
    + destruct Hx as [<-|Hx].
      * left. apply accumulate_added in H as (added & -> & _).
        apply in_or_app. left. apply in_or_app. right. left. reflexivity.
      * apply (IH _ _ _ _ H); [|exact Hrest | exact Hx].
        rewrite sumEffective_app. unfold sumEffective at 3. simpl. lia.
    + destruct Hx as [<-|Hx]; [|exact (IH _ _ _ _ H eq_refl Hrest x Hx)].
      right. apply accumulate_added in H as (added & -> & _ & Hincl & _).
      rewrite sumEffective_app. apply Z.leb_gt in Hfit.
      assert (0 <= sumEffective added).
      { apply sumEffective_nonneg. apply Forall_forall. intros c Hc.
        rewrite Forall_forall in Hrest. exact (Hrest c (Hincl c Hc)). }
      lia.
Qed.

Lemma accumulate_saturates (pool parts : list CutPart.t) :
  (forall x, In x pool -> In x parts) ->
  Forall nonneg parts ->
  saturated usable pool (fst (acc parts [] 0)).
Proof.
  intros Hall Hnn x Hx.
  destruct (acc parts [] 0) as [cuts used] eqn:H. simpl.
  exact (accumulate_saturated parts [] 0 cuts used H eq_refl Hnn x (Hall x Hx)).
Qed.

Lemma trials_saturated (pool : list CutPart.t) (i : nat) :
  Forall nonneg pool ->
  forall temp calls best bestWaste,
    Permutation temp pool ->
    saturated usable pool best ->
    saturated usable pool
              (fst (fst (trials stockLength leftEndAllowance rightEndAllowance
                                random i temp calls best bestWaste))).
Proof.
  intros Hnn.
  induction i as [|i IH]; intros temp calls best bestWaste Htemp Hbest; simpl;
    [exact Hbest|].
  pose proof (shuffleFrom_permutation random (List.length temp - 1) temp calls) as Hsh.
  fold (shuffle random temp calls) in Hsh.
  destruct (shuffle random temp calls) as [temp' calls']. simpl in Hsh.
  assert (Htemp' : Permutation temp' pool) by exact (perm_trans Hsh Htemp).
  pose proof (accumulate_saturates pool temp'
                (fun x Hx => Permutation_in x (Permutation_sym Htemp') Hx)
                (Permutation_Forall (Permutation_sym Htemp') Hnn)) as Hsat.
  unfold acc in Hsat.
  destruct (accumulate stockLength leftEndAllowance rightEndAllowance temp' [] 0)
    as [currentCuts currentUsed]. simpl in Hsat.
  destruct (_ <? bestWaste); apply IH; assumption.
Qed.

(** The cuts chosen for a bar leave no room for any instance of the pool
    that is not among them. *)
Lemma bestCutsFor_saturated (optimizationGoal : OptimizationGoal)
      (pool : list CutPart.t) (calls : nat) :
  Forall nonneg pool ->
  saturated usable pool
            (fst (fst (bestCutsFor stockLength optimizationGoal leftEndAllowance
                                   rightEndAllowance random pool calls))).
Proof.
  intros Hnn.
  assert (Hbase : saturated usable pool
                            (fst (greedyBaseline stockLength leftEndAllowance
                                                 rightEndAllowance pool))).
  { unfold greedyBaseline. apply accumulate_saturates.
    - intros x Hx. apply sortByLength_In, Hx.
    - apply Forall_forall. intros x Hx. apply (proj1 (sortByLength_In _ _)) in Hx.
      rewrite Forall_forall in Hnn. exact (Hnn x Hx). }
  rewrite bestCutsFor_unfold.
  destruct (minimizesWaste optimizationGoal && (1 <? List.length pool)%nat).
  - apply trials_saturated; [exact Hnn | reflexivity | exact Hbase].
  - exact Hbase.
Qed.

(** What is left in the pool after a bar does not fit on that bar. *)
Lemma removePlaced_saturated (pool chosen : list CutPart.t) (x : CutPart.t) :
  saturated usable pool chosen ->
  In x (removePlaced chosen pool) ->
  usable < sumEffective chosen + CutPart.effectiveLength x.
Proof.
  intros Hsat Hx. unfold removePlaced in Hx. apply filter_In in Hx as [Hx Hnot].
  destruct (Hsat x Hx) as [Hin|Hgt]; [|exact Hgt].
  apply negb_true_iff in Hnot.
  assert (Hex : existsb (String.eqb (CutPart.instanceId x))
                        (map CutPart.instanceId chosen) = true).
  { apply existsb_exists. exists (CutPart.instanceId x).
    split; [apply in_map; exact Hin | apply String.eqb_refl]. }
  congruence.
Qed.

(** First fit along a chain: the cuts of a later bar do not fit on an
    earlier one. *)
Lemma barsOf_first_fit (optimizationGoal : OptimizationGoal) (rawMaterial : string)
      (opened : list StockLayout.t) :
  forall counter pool,
    barsOf stockLength optimizationGoal leftEndAllowance rightEndAllowance random
           rawMaterial counter pool opened ->
    Forall nonneg pool ->
    Forall (fun l => incl (StockLayout.cuts l) pool) opened
    /\ StronglySorted
         (fun earlier later =>
            forall c, In c (StockLayout.cuts later) ->
                      usable < StockLayout.usedLength earlier
                               + CutPart.effectiveLength c)
         opened.
Proof.
  induction opened as [|l rest IH]; intros counter pool Hchain Hnn.
  - split; constructor.
  - destruct Hchain as (calls & Hne & Hcuts & Hsome & Hl & Hrest).
    set (rest_pool := removePlaced (StockLayout.cuts l) pool) in *.
    assert (Hnn' : Forall nonneg rest_pool).
    { apply Forall_forall. intros x Hx. rewrite Forall_forall in Hnn.
      exact (Hnn x (removePlaced_incl _ _ x Hx)). }
    destruct (IH _ _ Hrest Hnn') as [Hincl Hsorted].
    assert (Hchosen : incl (StockLayout.cuts l) pool).
    { rewrite Hcuts.
      destruct (bestCutsFor_candidate stockLength optimizationGoal leftEndAllowance
                  rightEndAllowance random pool calls) as [(_ & Hi & _) _].
      exact Hi. }
    split.
    + constructor; [exact Hchosen|].
      apply Forall_forall. intros l' Hl' x Hx. rewrite Forall_forall in Hincl.
      exact (removePlaced_incl _ _ x (Hincl l' Hl' x Hx)).
    + constructor; [exact Hsorted|].
      apply Forall_forall. intros l' Hl' c Hc. rewrite Forall_forall in Hincl.
      assert (Hused : StockLayout.usedLength l = sumEffective (StockLayout.cuts l))
        by (rewrite Hl at 1; reflexivity).
      rewrite Hused.
      apply (removePlaced_saturated pool); [|exact (Hincl l' Hl' c Hc)].
      rewrite Hcuts. apply bestCutsFor_saturated. exact Hnn.
Qed.

End FirstFit.

(** ** The keys of a grouping *)

Lemma set_keys {V : Type} (k : string) (v : V) (o : Js.Obj V) :
  map fst (Js.set k v o)
  = match Js.getOwn k o with
    | Some _ => map fst o
    | None => (map fst o ++ [k])%list
    end.
Proof.
  induction o as [|[k' v'] o IH]; simpl; [reflexivity|].
  destruct (String.eqb k k'); simpl; [reflexivity|].
  rewrite IH. destruct (Js.getOwn k o); reflexivity.
Qed.

Lemma getOwn_absent {V : Type} (k : string) (o : Js.Obj V) :
  Js.getOwn k o = None -> ~ In k (map fst o).
Proof.
  induction o as [|[k' v'] o IH]; simpl; [tauto|].
  destruct (String.eqb_spec k k'); [discriminate|].
  intros H [Heq|Hin]; [congruence | exact (IH H Hin)].
Qed.

(** Each key names one group. *)
Lemma groupBy_keys {P : Type} (keyOf : P -> string) (parts : list P) :
  forall acc o,
    Js.groupBy keyOf parts acc = Returned o ->
    NoDup (map fst acc) -> NoDup (map fst o).
Proof.
  induction parts as [|q parts IH]; simpl; intros acc o H Hnd.
  - injection H as <-. exact Hnd.
  - apply bind_Returned in H as (acc' & Hpush & Hrest).
    apply (IH _ _ Hrest). unfold Js.pushTo in Hpush.
    destruct (Js.getOwn (keyOf q) acc) as [group|] eqn:Hget.
    + injection Hpush as <-. rewrite set_keys, Hget. exact Hnd.
    + destruct (Js.inheritedKey (keyOf q)); [discriminate|].
      injection Hpush as <-. rewrite set_keys, Hget.
      apply NoDup_app; [exact Hnd | constructor; [simpl; tauto | constructor] |].
      intros x Hx [<-|[]]. exact (getOwn_absent _ _ Hget Hx).
Qed.

Lemma forIn_keys {V : Type} (o : Js.Obj V) :
  NoDup (map fst o) -> NoDup (map fst (Js.forIn o)).
Proof.
  apply Permutation_NoDup, Permutation_map, Permutation_sym, GroupFacts.forIn_permutation.
Qed.

Lemma StronglySorted_impl {A : Type} (R R' : A -> A -> Prop) (l : list A) :
  (forall a b, R a b -> R' a b) -> StronglySorted R l -> StronglySorted R' l.
Proof.
  intros Himpl. induction 1 as [|x l Hl IH Hx]; constructor; [exact IH|].
  apply Forall_forall. intros b Hb. rewrite Forall_forall in Hx. exact (Himpl _ _ (Hx b Hb)).
Qed.

Section FirstFitGroups.

Variable stockLength : Z.
Variable optimizationGoal : OptimizationGoal.
Variables leftEndAllowance rightEndAllowance : Z.
Variable random : nat -> nat.

Let usable := usableStockLength stockLength leftEndAllowance rightEndAllowance.
Let laterFits (earlier later : StockLayout.t) : Prop :=
  StockLayout.rawMaterial earlier = StockLayout.rawMaterial later ->
  forall c, In c (StockLayout.cuts later) ->
            usable < StockLayout.usedLength earlier + CutPart.effectiveLength c.

Lemma barsOfGroups_first_fit (groups : list (string * list LinearPart.t)) :
  forall counter bars,
    barsOfGroups stockLength optimizationGoal leftEndAllowance rightEndAllowance
                 random groups counter bars ->
    NoDup (map fst groups) ->
    (forall k g p, In (k, g) groups -> In p g -> 0 <= LinearPart.effectiveLength p) ->
    Forall (fun l => In (StockLayout.rawMaterial l) (map fst groups)) bars
    /\ StronglySorted laterFits bars.
Proof.
  induction groups as [|[rawMaterial partsInGroup] rest IH];
    intros counter bars Hchains Hnd Hnn.
  - simpl in Hchains. subst bars. split; constructor.
  - destruct Hchains as (opened & others & -> & Hchain & Hothers).
    inversion Hnd as [|? ? Hfresh Hnd']; subst.
    destruct (IH _ _ Hothers Hnd' (fun k g p Hin => Hnn k g p (or_intror Hin)))
      as [Hmat Hsorted].
    assert (Hopened : Forall (fun l => StockLayout.rawMaterial l = rawMaterial) opened).
    { apply Forall_forall. intros l Hl. apply In_nth_error in Hl as (i & Hi).
      exact (proj1 (proj2 (barsOf_nth _ _ _ _ _ _ _ _ _ _ _ Hchain Hi))). }
    split.
    + apply Forall_app. split.
      * apply Forall_forall. intros l Hl. rewrite Forall_forall in Hopened.
        left. symmetry. exact (Hopened l Hl).
      * apply Forall_forall. intros l Hl. rewrite Forall_forall in Hmat.
        right. exact (Hmat l Hl).
    + apply StronglySorted_app; [|exact Hsorted|].
      * apply (StronglySorted_impl
                 (fun earlier later =>
                    forall c, In c (StockLayout.cuts later) ->
                              usable < StockLayout.usedLength earlier
                                       + CutPart.effectiveLength c)).
        { intros a b H _. exact H. }
        apply (barsOf_first_fit _ _ _ _ _ _ _ _ _ Hchain).
        apply Forall_forall. intros c Hc. unfold poolOf in Hc.
        apply in_flat_map in Hc as (p & Hp & Hc). apply filter_In in Hp as [Hp _].
        unfold instances in Hc. apply in_map_iff in Hc as (i & <- & _). simpl.
        exact (Hnn rawMaterial partsInGroup p (or_introl eq_refl) Hp).
      * intros a b Ha Hb Heq. exfalso. apply Hfresh.
        rewrite Forall_forall in Hopened, Hmat.
        rewrite <- (Hopened a Ha), Heq. exact (Hmat b Hb).
Qed.

End FirstFitGroups.

(** ** First fit decreasing *)

Lemma insertByLength_descending (a : CutPart.t) (l : list CutPart.t) :
  StronglySorted notLonger l -> StronglySorted notLonger (insertByLength a l).
Proof.
  induction 1 as [|b l Hl IH Hb]; simpl; [repeat constructor|].
  destruct (Z.leb_spec (CutPart.effectiveLength b - CutPart.effectiveLength a) 0).
  - constructor; [constructor; assumption|].
    constructor; [unfold notLonger; lia|].
    apply Forall_forall. intros x Hx. rewrite Forall_forall in Hb.
    specialize (Hb x Hx). unfold notLonger in *. lia.
  - constructor; [exact IH|].
    apply Forall_forall. intros x Hx. apply insertByLength_In in Hx as [->|Hx].
    + unfold notLonger. lia.
    + rewrite Forall_forall in Hb. exact (Hb x Hx).
Qed.

Lemma sortByLength_descending (l : list CutPart.t) :
  StronglySorted notLonger (sortByLength l).
Proof.
  induction l as [|a l IH]; simpl; [constructor|].
  apply insertByLength_descending, IH.
Qed.

(** The accumulation keeps the order of the list it scans. *)
Lemma accumulate_sorted (stockLength leftEndAllowance rightEndAllowance : Z)
      (R : CutPart.t -> CutPart.t -> Prop) (parts : list CutPart.t) :
  StronglySorted R parts ->
  forall cuts used,
    exists added,
      fst (accumulate stockLength leftEndAllowance rightEndAllowance parts cuts used)
      = (cuts ++ added)%list
      /\ incl added parts
      /\ StronglySorted R added.
Proof.
  induction 1 as [|part parts Hparts IH Hpart]; intros cuts used; simpl.
  - exists []. rewrite app_nil_r. repeat split; [apply incl_refl | constructor].
  - destruct (used + CutPart.effectiveLength part
              <=? usableStockLength stockLength leftEndAllowance rightEndAllowance).
    + destruct (IH (cuts ++ [part])%list (used + CutPart.effectiveLength part))
        as (added & -> & Hincl & Hsorted).
      exists (part :: added). rewrite <- app_assoc. split; [reflexivity|]. split.
      * intros x [<-|Hx]; [left; reflexivity | right; exact (Hincl x Hx)].
      * constructor; [exact Hsorted|].
        apply Forall_forall. intros x Hx. rewrite Forall_forall in Hpart.
        exact (Hpart x (Hincl x Hx)).
    + destruct (IH cuts used) as (added & -> & Hincl & Hsorted).
      exists added. split; [reflexivity|]. split; [|exact Hsorted].
      intros x Hx. right. exact (Hincl x Hx).
Qed.

Lemma greedyBaseline_descending (stockLength leftEndAllowance rightEndAllowance : Z)
      (pool : list CutPart.t) :
  StronglySorted notLonger
                 (fst (greedyBaseline stockLength leftEndAllowance rightEndAllowance pool)).
Proof.
  unfold greedyBaseline.
  destruct (accumulate_sorted stockLength leftEndAllowance rightEndAllowance notLonger
              (sortByLength pool) (sortByLength_descending pool) [] 0)
    as (added & -> & _ & Hsorted).
  exact Hsorted.
Qed.

(** ** When the grouping throws *)

Lemma groupBy_inherited {P : Type} (keyOf : P -> string) (parts : list P) :
  forall acc,
    (forall k, In k (map fst acc) -> Js.inheritedKey k = false) ->
    (exists p, In p parts /\ Js.inheritedKey (keyOf p) = true) ->
    Js.groupBy keyOf parts acc = TypeError.
Proof.
  induction parts as [|q parts IH]; intros acc Hacc (p & Hp & Hk); [destruct Hp|].
  simpl. unfold Js.pushTo.
  destruct (Js.getOwn (keyOf q) acc) as [group|] eqn:Hget.
  - assert (Hq : Js.inheritedKey (keyOf q) = false).
    { apply Hacc. apply JsFacts.getOwn_In in Hget.
      apply in_map_iff. exists (keyOf q, group). split; [reflexivity | exact Hget]. }
    simpl. apply IH.
    + intros k Hin. rewrite set_keys, Hget in Hin. exact (Hacc k Hin).
    + destruct Hp as [<-|Hp]; [congruence | exists p; split; assumption].
  - destruct (Js.inheritedKey (keyOf q)) eqn:Hq; [reflexivity|].
    simpl. apply IH.
    + intros k Hin. rewrite set_keys, Hget in Hin.
      apply in_app_or in Hin as [Hin|[<-|[]]]; [exact (Hacc k Hin) | exact Hq].
    + destruct Hp as [<-|Hp]; [congruence | exists p; split; assumption].
Qed.

(** ** The draws of a shuffle *)

Lemma shuffleFrom_calls (random : nat -> nat) (j : nat) :
  forall t calls, snd (shuffleFrom random j t calls) = (calls + j)%nat.
Proof.
  induction j as [|j IH]; intros t calls; simpl; [lia|].
  rewrite IH. lia.
Qed.

Lemma shuffleFrom_length_eq (random : nat -> nat) (j : nat) :
  forall t calls, List.length (fst (shuffleFrom random j t calls)) = List.length t.
Proof.
  intros t calls. apply Permutation_length, shuffleFrom_permutation.
Qed.

Lemma trials_calls (stockLength leftEndAllowance rightEndAllowance : Z)
      (random : nat -> nat) (i : nat) :
  forall temp calls best bestWaste,
    snd (trials stockLength leftEndAllowance rightEndAllowance random
                i temp calls best bestWaste)
    = (calls + i * (List.length temp - 1))%nat.
Proof.
  induction i as [|i IH]; intros temp calls best bestWaste; simpl; [lia|].
  pose proof (shuffleFrom_calls random (List.length temp - 1) temp calls) as Hc.
  pose proof (shuffleFrom_length_eq random (List.length temp - 1) temp calls) as Hl.
  fold (shuffle random temp calls) in Hc, Hl.
  destruct (shuffle random temp calls) as [temp' calls']. simpl in Hc, Hl.
  destruct (accumulate stockLength leftEndAllowance rightEndAllowance temp' [] 0)
    as [currentCuts currentUsed].
  destruct (_ <? bestWaste); rewrite IH, Hc, Hl; lia.
Qed.

Lemma sumEffective_member (cuts : list CutPart.t) (c : CutPart.t) :
  Forall (fun x => 0 <= CutPart.effectiveLength x) cuts ->
  In c cuts -> CutPart.effectiveLength c <= sumEffective cuts.
Proof.
  induction 1 as [|x cuts Hx Hall IH]; intros Hc; [destruct Hc|].
  rewrite sumEffective_cons. pose proof (sumEffective_nonneg cuts Hall).
  destruct Hc as [<-|Hc]; [lia | specialize (IH Hc); lia].
Qed.

(** ** The parsers *)

Lemma nonEmpty_spec (s : string) : nonEmpty s = true <-> s <> "".
Proof. destruct s; simpl; split; congruence. Qed.

Section ParserFacts.

Variable trim : string -> string.
Variable parseFloat : string -> Js.number.
Variable parseInt : string -> Js.number.
Variable add : Js.number -> Js.number -> Js.number.

(** One line gives one part, one error, or nothing. *)
Lemma parseLinearLine_cases (allowance : Js.number)
      (parts : list ParsedLinearPart.t) (errors : list string) (i : nat)
      (line : string) :
  let r := parseLinearLine trim parseFloat parseInt add allowance (parts, errors) i line in
  (exists p,
      r = ((parts ++ [p])%list, errors)
      /\ ParsedLinearPart.id p = Z.of_nat i
      /\ readsLine trim parseFloat parseInt line p
      /\ acceptedLinear add allowance p)
  \/ (exists e, r = (parts, (errors ++ [e])%list))
  \/ r = (parts, errors).
Proof.
  unfold parseLinearLine, push.
  unfold readsLine.
  destruct (splitTrim trim "," line) as [|a [|b [|c [|d rest]]]];
    try (right; left; eexists; reflexivity).
  destruct (nonEmpty a) eqn:Ha; simpl; [|right; left; eexists; reflexivity].
  destruct (Num.isNaN (parseFloat b)) eqn:Hb; simpl;
    [right; left; eexists; reflexivity|].
  destruct (Num.isNaN (parseInt c)) eqn:Hc; simpl;
    [right; left; eexists; reflexivity|].
  destruct (Num.leZero (parseFloat b)) eqn:Hl; simpl;
    [right; left; eexists; reflexivity|].
  destruct (Num.ltZero (parseInt c)) eqn:Hq; simpl;
    [right; left; eexists; reflexivity|].
  destruct (Num.gtZero (parseInt c)) eqn:Hg; [|right; right; reflexivity].
  left. eexists. split; [reflexivity|]. split; [reflexivity|].
  split; [exists b, c; repeat split|].
  unfold acceptedLinear. simpl. apply nonEmpty_spec in Ha. repeat split; assumption.
Qed.

Lemma forEachLine_spec (allowance : Js.number) (lines : list string) :
  forall i parts errors,
    exists newParts newErrors,
      forEachLine trim parseFloat parseInt add allowance i lines (parts, errors)
      = ((parts ++ newParts)%list, (errors ++ newErrors)%list)
      /\ StronglySorted Z.lt (map ParsedLinearPart.id newParts)
      /\ Forall (fun p =>
                   Z.of_nat i <= ParsedLinearPart.id p
                   /\ (exists line,
                          nth_error lines (Z.to_nat (ParsedLinearPart.id p) - i)
                          = Some line
                          /\ readsLine trim parseFloat parseInt line p)
                   /\ acceptedLinear add allowance p) newParts
      /\ (List.length newParts + List.length newErrors <= List.length lines)%nat.
Proof.
  induction lines as [|line rest IH]; intros i parts errors.
  - exists [], []. simpl. rewrite !app_nil_r. repeat split; constructor.
  - cbn [forEachLine].
    assert (Hshift : forall news : list ParsedLinearPart.t,
               Forall (fun p =>
                         Z.of_nat (S i) <= ParsedLinearPart.id p
                         /\ (exists l,
                                nth_error rest (Z.to_nat (ParsedLinearPart.id p) - S i)
                                = Some l
                                /\ readsLine trim parseFloat parseInt l p)
                         /\ acceptedLinear add allowance p) news ->
               Forall (fun p =>
                         Z.of_nat i <= ParsedLinearPart.id p
                         /\ (exists l,
                                nth_error (line :: rest)
                                          (Z.to_nat (ParsedLinearPart.id p) - i)
                                = Some l
                                /\ readsLine trim parseFloat parseInt l p)
                         /\ acceptedLinear add allowance p) news).
    { intros news H. apply Forall_forall. intros p Hp. rewrite Forall_forall in H.
      destruct (H p Hp) as (Hge & (l & Hl & Hread) & Hok).
      split; [lia|]. split; [|exact Hok]. exists l. split; [|exact Hread].
      replace (Z.to_nat (ParsedLinearPart.id p) - i)%nat
        with (S (Z.to_nat (ParsedLinearPart.id p) - S i))%nat by lia.
      exact Hl. }
    destruct (parseLinearLine_cases allowance parts errors i line)
      as [(p & -> & Hid & Hread & Hok)|[(e & ->)| ->]].
    + destruct (IH (S i) (parts ++ [p])%list errors)
        as (np & ne & -> & Hsorted & Hrange & Hlen).
      exists (p :: np), ne. rewrite <- app_assoc. split; [reflexivity|].
      split; [|split].
      * simpl. constructor; [exact Hsorted|].
        apply Forall_forall. intros x Hx. apply in_map_iff in Hx as (q & <- & Hq).
        rewrite Forall_forall in Hrange. destruct (Hrange q Hq) as (Hge & _). lia.
      * constructor; [|exact (Hshift np Hrange)].
        split; [lia|]. split; [|exact Hok]. exists line. split; [|exact Hread].
        replace (Z.to_nat (ParsedLinearPart.id p) - i)%nat with 0%nat by lia.
        reflexivity.
      * cbn [List.length]. lia.
    + destruct (IH (S i) parts (errors ++ [e])%list)
        as (np & ne & -> & Hsorted & Hrange & Hlen).
      exists np, (e :: ne). rewrite <- app_assoc. split; [reflexivity|].
      split; [exact Hsorted|]. split; [exact (Hshift np Hrange)|].
      cbn [List.length]. lia.
    + destruct (IH (S i) parts errors)
        as (np & ne & -> & Hsorted & Hrange & Hlen).
      exists np, ne. split; [reflexivity|].
      split; [exact Hsorted|]. split; [exact (Hshift np Hrange)|].
      cbn [List.length]. lia.
Qed.

Lemma parseSheetRow_cases
      (names lengths widths thicknesses grades quantities : list string)
      (parts : list ParsedPart.t) (errors : list string) (i : nat) :
  let r := parseSheetRow parseFloat parseInt names lengths widths thicknesses grades
                         quantities (parts, errors) i in
  (exists p,
      r = ((parts ++ [p])%list, errors)
      /\ ParsedPart.id p = Z.of_nat i + 1
      /\ readsRow parseFloat parseInt names lengths widths thicknesses grades
                  quantities i p
      /\ acceptedSheet p)
  \/ (exists e, r = (parts, (errors ++ [e])%list))
  \/ r = (parts, errors).
Proof.
  unfold parseSheetRow, push.
  destruct (negb (nonEmpty (cell names i)) && negb (nonEmpty (cell lengths i))
            && negb (nonEmpty (cell widths i)) && negb (nonEmpty (cell thicknesses i))
            && negb (nonEmpty (cell grades i)) && negb (nonEmpty (cell quantities i)));
    [right; right; reflexivity|].
  destruct (nonEmpty (cell names i)) eqn:Hn; simpl;
    [|right; left; eexists; reflexivity].
  destruct (Num.isNaN (parseFloat (cell lengths i))) eqn:H1; simpl;
    [right; left; eexists; reflexivity|].
  destruct (Num.isNaN (parseFloat (cell widths i))) eqn:H2; simpl;
    [right; left; eexists; reflexivity|].
  destruct (Num.isNaN (parseFloat (cell thicknesses i))) eqn:H3; simpl;
    [right; left; eexists; reflexivity|].
  destruct (nonEmpty (cell grades i)) eqn:Hg; simpl;
    [|right; left; eexists; reflexivity].
  destruct (Num.isNaN (parseInt (cell quantities i))) eqn:H4; simpl;
    [right; left; eexists; reflexivity|].
  destruct (Num.isZero (parseInt (cell quantities i))) eqn:H5;
    [right; right; reflexivity|].
  destruct (Num.leZero (parseFloat (cell lengths i))) eqn:H6; simpl;
    [right; left; eexists; reflexivity|].
  destruct (Num.leZero (parseFloat (cell widths i))) eqn:H7; simpl;
    [right; left; eexists; reflexivity|].
  destruct (Num.leZero (parseFloat (cell thicknesses i))) eqn:H8; simpl;
    [right; left; eexists; reflexivity|].
  destruct (Num.ltZero (parseInt (cell quantities i))) eqn:H9;
    [right; left; eexists; reflexivity|].
  left. eexists. split; [reflexivity|]. split; [reflexivity|].
  split; [repeat split|].
  apply nonEmpty_spec in Hn, Hg.
  unfold acceptedSheet. simpl. repeat split; assumption.
Qed.

Lemma parseSheetRows_spec
      (names lengths widths thicknesses grades quantities : list string) (n : nat) :
  forall start parts errors,
    exists newParts newErrors,
      fold_left (parseSheetRow parseFloat parseInt names lengths widths thicknesses
                               grades quantities)
                (seq start n) (parts, errors)
      = ((parts ++ newParts)%list, (errors ++ newErrors)%list)
      /\ StronglySorted Z.lt (map ParsedPart.id newParts)
      /\ Forall (fun p =>
                   Z.of_nat start + 1 <= ParsedPart.id p <= Z.of_nat (start + n)
                   /\ readsRow parseFloat parseInt names lengths widths thicknesses
                               grades quantities (Z.to_nat (ParsedPart.id p - 1)) p
                   /\ acceptedSheet p) newParts
      /\ (List.length newParts + List.length newErrors <= n)%nat.
Proof.
  induction n as [|n IH]; intros start parts errors.
  - exists [], []. simpl. rewrite !app_nil_r. repeat split; constructor.
  - cbn [seq fold_left].
    assert (Hshift : forall news : list ParsedPart.t,
               Forall (fun p =>
                         Z.of_nat (S start) + 1 <= ParsedPart.id p
                         <= Z.of_nat (S start + n)
                         /\ readsRow parseFloat parseInt names lengths widths
                                     thicknesses grades quantities
                                     (Z.to_nat (ParsedPart.id p - 1)) p
                         /\ acceptedSheet p) news ->
               Forall (fun p =>
                         Z.of_nat start + 1 <= ParsedPart.id p
                         <= Z.of_nat (start + S n)
                         /\ readsRow parseFloat parseInt names lengths widths
                                     thicknesses grades quantities
                                     (Z.to_nat (ParsedPart.id p - 1)) p
                         /\ acceptedSheet p) news).
    { intros news H. apply Forall_forall. intros p Hp. rewrite Forall_forall in H.
      destruct (H p Hp) as (Hr & Hrest). split; [lia | exact Hrest]. }
    destruct (parseSheetRow_cases names lengths widths thicknesses grades quantities
                                  parts errors start)
      as [(p & -> & Hid & Hread & Hok)|[(e & ->)| ->]].
    + destruct (IH (S start) (parts ++ [p])%list errors)
        as (np & ne & -> & Hsorted & Hrange & Hlen).
      exists (p :: np), ne. rewrite <- app_assoc. split; [reflexivity|].
      split; [|split].
      * simpl. constructor; [exact Hsorted|].
        apply Forall_forall. intros x Hx. apply in_map_iff in Hx as (q & <- & Hq).
        rewrite Forall_forall in Hrange. destruct (Hrange q Hq) as (Hr & _). lia.
      * constructor; [|exact (Hshift np Hrange)].
        replace (Z.to_nat (ParsedPart.id p - 1)) with start by lia.
        split; [lia|]. split; [exact Hread | exact Hok].
      * cbn [List.length]. lia.
    + destruct (IH (S start) parts (errors ++ [e])%list)
        as (np & ne & -> & Hsorted & Hrange & Hlen).
      exists np, (e :: ne). rewrite <- app_assoc. split; [reflexivity|].
      split; [exact Hsorted|]. split; [exact (Hshift np Hrange)|].
      cbn [List.length]. lia.
    + destruct (IH (S start) parts errors)
        as (np & ne & -> & Hsorted & Hrange & Hlen).
      exists np, ne. split; [reflexivity|].
      split; [exact Hsorted|]. split; [exact (Hshift np Hrange) | lia].
Qed.

End ParserFacts.

Lemma StronglySorted_lt_NoDup (l : list Z) : StronglySorted Z.lt l -> NoDup l.
Proof.
  induction 1 as [|x l Hl IH Hx]; constructor; [|exact IH].
  intros Hin. rewrite Forall_forall in Hx. specialize (Hx x Hin). lia.
Qed.

(** ** The remaining pool of each bar *)

Lemma getOwn_NoDup {V : Type} (k : string) (v : V) (o : Js.Obj V) :
  NoDup (map fst o) -> In (k, v) o -> Js.getOwn k o = Some v.
Proof.
  induction o as [|[k' v'] o IH]; simpl; intros Hnd Hin; [contradiction|].
  inversion Hnd as [|? ? Hnot Hnd']; subst.
  destruct (String.eqb_spec k k') as [->|Hne].
  - destruct Hin as [[= ->]|Hin]; [reflexivity|].
    exfalso. apply Hnot. apply in_map_iff. exists (k', v). split; [reflexivity | exact Hin].
  - destruct Hin as [[= -> _]|Hin]; [congruence|]. exact (IH Hnd' Hin).
Qed.

(** The group of a key holds the parts of that key, in the order of the
    input. *)
Lemma groupBy_filter {P : Type} (keyOf : P -> string) (parts : list P) :
  forall acc o,
    Js.groupBy keyOf parts acc = Returned o ->
    forall k,
      Js.getOwn k o
      = match Js.getOwn k acc, filter (fun p => String.eqb (keyOf p) k) parts with
        | Some g, found => Some (g ++ found)%list
        | None, [] => None
        | None, found => Some found
        end.
Proof.
  induction parts as [|q parts IH]; simpl; intros acc o H k.
  - injection H as <-. destruct (Js.getOwn k acc); [rewrite app_nil_r|]; reflexivity.
  - apply bind_Returned in H as (acc' & Hpush & Hrest).
    rewrite (IH acc' o Hrest k). clear IH Hrest.
    unfold Js.pushTo in Hpush.
    destruct (String.eqb_spec (keyOf q) k) as [Hk|Hk].
    + subst k. destruct (Js.getOwn (keyOf q) acc) as [group|] eqn:Hget.
      * injection Hpush as <-. rewrite getOwn_set_same, <- app_assoc. reflexivity.
      * destruct (Js.inheritedKey (keyOf q)); [discriminate|].
        injection Hpush as <-. rewrite getOwn_set_same. reflexivity.
    + assert (Hother : Js.getOwn k acc' = Js.getOwn k acc).
      { destruct (Js.getOwn (keyOf q) acc) as [group|].
        - injection Hpush as <-. apply getOwn_set_other. congruence.
        - destruct (Js.inheritedKey (keyOf q)); [discriminate|].
          injection Hpush as <-. apply getOwn_set_other. congruence. }
      rewrite Hother. reflexivity.
Qed.

Lemma groupBy_group {P : Type} (keyOf : P -> string) (parts : list P)
      (o : Js.Obj (list P)) (k : string) (g : list P) :
  Js.groupBy keyOf parts [] = Returned o ->
  In (k, g) (Js.forIn o) ->
  g = filter (fun p => String.eqb (keyOf p) k) parts.
Proof.
  intros Hg Hin. apply JsFacts.forIn_In in Hin.
  pose proof (groupBy_keys _ _ _ _ Hg (NoDup_nil _)) as Hnd.
  pose proof (getOwn_NoDup k g o Hnd Hin) as Hget.
  rewrite (groupBy_filter keyOf parts [] o Hg k) in Hget. simpl in Hget.
  destruct (filter (fun p => String.eqb (keyOf p) k) parts); congruence.
Qed.

Lemma firstn_members {A : Type} (n : nat) (l : list A) (x : A) :
  In x (firstn n l) -> In x l.
Proof.
  revert n. induction l as [|a l IH]; intros [|n]; simpl; try contradiction.
  intros [<-|H]; [left; reflexivity | right; exact (IH n H)].
Qed.

Lemma poolAfter_finalize (before : list StockLayout.t) :
  forall pool, poolAfter pool (map finalize before) = poolAfter pool before.
Proof.
  unfold poolAfter. induction before as [|b before IH]; intros pool; simpl;
    [reflexivity|]. apply IH.
Qed.

Lemma filter_finalize (k : string) (l : list StockLayout.t) :
  filter (fun b => String.eqb (StockLayout.rawMaterial b) k) (map finalize l)
  = map finalize (filter (fun b => String.eqb (StockLayout.rawMaterial b) k) l).
Proof.
  induction l as [|b l IH]; simpl; [reflexivity|].
  destruct (String.eqb _ _); simpl; rewrite IH; reflexivity.
Qed.

Section RemainingPool.

Variable stockLength : Z.
Variable optimizationGoal : OptimizationGoal.
Variables leftEndAllowance rightEndAllowance : Z.
Variable random : nat -> nat.

Let chain := barsOf stockLength optimizationGoal leftEndAllowance rightEndAllowance random.
Let chains :=
  barsOfGroups stockLength optimizationGoal leftEndAllowance rightEndAllowance random.
Let choose :=
  bestCutsFor stockLength optimizationGoal leftEndAllowance rightEndAllowance random.

(** The bar at position [i] of a chain is chosen on the pool that the
    bars before it leave. *)
Lemma barsOf_pool (rawMaterial : string) (opened : list StockLayout.t) :
  forall counter pool i layout,
    chain rawMaterial counter pool opened ->
    nth_error opened i = Some layout ->
    poolAfter pool (firstn i opened) <> []
    /\ exists calls,
         StockLayout.cuts layout
         = fst (fst (choose (poolAfter pool (firstn i opened)) calls)).
Proof.
  unfold chain in *.
  induction opened as [|b opened IH]; intros counter pool i layout Hchain Hi.
  - destruct i; discriminate Hi.
  - simpl in Hchain. destruct Hchain as (calls & Hne & Hcuts & _ & _ & Hrest).
    destruct i as [|i]; simpl in Hi.
    + injection Hi as <-. simpl. split; [exact Hne|]. exists calls. exact Hcuts.
    + exact (IH _ _ _ _ Hrest Hi).
Qed.

Lemma barsOf_material (rawMaterial : string) (opened : list StockLayout.t) :
  forall counter pool,
    chain rawMaterial counter pool opened ->
    Forall (fun l => StockLayout.rawMaterial l = rawMaterial) opened.
Proof.
  unfold chain in *.
  induction opened as [|b opened IH]; intros counter pool Hchain; [constructor|].
  simpl in Hchain. destruct Hchain as (calls & _ & _ & _ & Hb & Hrest).
  constructor; [rewrite Hb; reflexivity | exact (IH _ _ Hrest)].
Qed.

Lemma filter_material_all (k : string) (l : list StockLayout.t) :
  Forall (fun b => StockLayout.rawMaterial b = k) l ->
  filter (fun b => String.eqb (StockLayout.rawMaterial b) k) l = l.
Proof.
  induction 1 as [|b l Hb _ IH]; simpl; [reflexivity|].
  rewrite Hb, String.eqb_refl, IH. reflexivity.
Qed.

Lemma filter_material_none (k k' : string) (l : list StockLayout.t) :
  k <> k' ->
  Forall (fun b => StockLayout.rawMaterial b = k) l ->
  filter (fun b => String.eqb (StockLayout.rawMaterial b) k') l = [].
Proof.
  intros Hne. induction 1 as [|b l Hb _ IH]; simpl; [reflexivity|].
  rewrite Hb. destruct (String.eqb_spec k k'); [contradiction | exact IH].
Qed.

(** The bar at position [i] of a run is chosen on the pool of its group
    without the cuts of the earlier bars of its raw material. *)
Lemma barsOfGroups_pool (groups : list (string * list LinearPart.t)) :
  NoDup (map fst groups) ->
  forall counter bars i layout,
    chains groups counter bars ->
    nth_error bars i = Some layout ->
    exists partsInGroup,
      In (StockLayout.rawMaterial layout, partsInGroup) groups
      /\ let pool :=
           poolAfter
             (poolOf stockLength leftEndAllowance rightEndAllowance partsInGroup)
             (filter (fun l => String.eqb (StockLayout.rawMaterial l)
                                          (StockLayout.rawMaterial layout))
                     (firstn i bars)) in
         pool <> []
         /\ exists calls, StockLayout.cuts layout = fst (fst (choose pool calls)).
Proof.
  unfold chains, chain in *.
  induction groups as [|[k g] rest IH]; intros Hnd counter bars i layout Hchains Hi.
  - simpl in Hchains. subst bars. destruct i; discriminate Hi.
  - simpl in Hchains. destruct Hchains as (opened & others & -> & Hchain & Hrest).
    inversion Hnd as [|? ? Hnot Hnd']; subst.
    pose proof (barsOf_material _ _ _ _ Hchain) as Hmat.
    destruct (Nat.lt_ge_cases i (List.length opened)) as [Hlt|Hge].
    + rewrite nth_error_app1 in Hi by exact Hlt.
      assert (Hk : StockLayout.rawMaterial layout = k).
      { rewrite Forall_forall in Hmat. exact (Hmat _ (nth_error_In _ _ Hi)). }
      exists g. rewrite Hk. split; [left; reflexivity|].
      rewrite firstn_app. replace (i - List.length opened)%nat with 0%nat by lia.
      simpl firstn. rewrite app_nil_r.
      rewrite filter_material_all.
      * exact (barsOf_pool _ _ _ _ _ _ Hchain Hi).
      * rewrite Forall_forall in *. intros b Hb. apply Hmat.
        exact (firstn_members i opened b Hb).
    + rewrite nth_error_app2 in Hi by exact Hge.
      destruct (IH Hnd' _ _ _ _ Hrest Hi) as (g' & Hin & Hpool).
      exists g'. split; [right; exact Hin|].
      assert (Hne : k <> StockLayout.rawMaterial layout).
      { intros ->. apply Hnot. apply in_map_iff.
        exists (StockLayout.rawMaterial layout, g'). split; [reflexivity | exact Hin]. }
      rewrite firstn_app, (firstn_all2 opened) by lia.
      rewrite filter_app, (filter_material_none k _ opened Hne Hmat). exact Hpool.
Qed.

(** Every layout of a result is chosen on its remaining pool. *)
Lemma performLinearNesting_pool (parts : list LinearPart.t)
      (r : LinearNestingResult.t) (i : nat) (layout : StockLayout.t) :
  performLinearNesting stockLength optimizationGoal leftEndAllowance
                       rightEndAllowance random parts = Returned r ->
  nth_error (LinearNestingResult.layouts r) i = Some layout ->
  let pool := remainingPool stockLength leftEndAllowance rightEndAllowance parts
                            (LinearNestingResult.layouts r) i layout in
  pool <> []
  /\ exists calls, StockLayout.cuts layout = fst (fst (choose pool calls)).
Proof.
  intros Hr Hi.
  destruct (performLinearNesting_chains _ _ _ _ _ _ _ Hr)
    as (groups & bars & Hg & Hchains & Hlay & _).
  rewrite Hlay, nth_error_map in Hi.
  destruct (nth_error bars i) as [bar|] eqn:Hbar; [|discriminate Hi].
  injection Hi as <-.
  assert (Hnd : NoDup (map fst (Js.forIn groups)))
    by (apply forIn_keys; exact (groupBy_keys _ _ _ _ Hg (NoDup_nil _))).
  destruct (barsOfGroups_pool (Js.forIn groups) Hnd 1 bars i bar Hchains Hbar)
    as (g & Hin & Hpool).
  rewrite (groupBy_group _ _ _ _ _ Hg Hin) in Hpool.
  unfold remainingPool. rewrite Hlay, firstn_map.
  change (StockLayout.rawMaterial (finalize bar)) with (StockLayout.rawMaterial bar).
  change (StockLayout.cuts (finalize bar)) with (StockLayout.cuts bar).
  rewrite filter_finalize, poolAfter_finalize. exact Hpool.
Qed.

End RemainingPool.

(** ** The packers on integers, inside the packers on numbers that may be [NaN] *)


Lemma fold_left_lift {A B C : Type} (f : C -> B -> C) (g : A -> B) (l : list A) :
  forall c, fold_left f (map g l) c = fold_left (fun c a => f c (g a)) l c.
Proof.
  induction l as [|a l IH]; intros c; simpl; [reflexivity|]. apply IH.
Qed.

Lemma bind_lift {A B A' B' : Type} (f : A -> A') (g : B -> B')
      (m : outcome A) (k : A -> outcome B) (k' : A' -> outcome B') :
  (forall a, k' (f a) = Lift.outcome g (k a)) ->
  bind (Lift.outcome f m) k' = Lift.outcome g (bind m k).
Proof. intros H. destruct m; simpl; [apply H | reflexivity | reflexivity]. Qed.

Section SheetOnIntegers.

Variables (partToPartDist partToSheetDist : Z).
Variable rotation : RotationOption.
Variable material : Material.t.

Let d := Number.Int partToPartDist.
Let e := Number.Int partToSheetDist.

Lemma overlaps_lift (width height : Z) (pos : Point) (other : PlacedPart.t) :
  WithNaN.overlaps width height (Lift.point pos) (Lift.placed other) d
  = overlaps width height pos other partToPartDist.
Proof. reflexivity. Qed.














End SheetOnIntegers.

Lemma setNth_lift {A B : Type} (f : A -> B) (n : nat) (a : A) (l : list A) :
  setNth n (f a) (map f l) = map f (setNth n a l).
Proof.
  revert n. induction l as [|b l IH]; intros n; simpl; [reflexivity|].
  destruct n; simpl; [reflexivity | rewrite IH; reflexivity].
Qed.

Lemma swap_lift {A B : Type} (f : A -> B) (t : list A) (j k : nat) :
  swap (map f t) j k = map f (swap t j k).
Proof.
  unfold swap. rewrite !nth_error_map.
  destruct (nth_error t j) as [tj|]; simpl; [|reflexivity].
  destruct (nth_error t k) as [tk|]; simpl; [|reflexivity].
  rewrite !setNth_lift. reflexivity.
Qed.

Lemma find_lift {A B : Type} (f : A -> B) (test : B -> bool) (l : list A) :
  find test (map f l) = option_map f (find (fun a => test (f a)) l).
Proof.
  induction l as [|a l IH]; simpl; [reflexivity|].
  destruct (test (f a)); [reflexivity | exact IH].
Qed.

Lemma filter_lift {A B : Type} (f : A -> B) (test : B -> bool) (l : list A) :
  filter test (map f l) = map f (filter (fun a => test (f a)) l).
Proof.
  induction l as [|a l IH]; simpl; [reflexivity|].
  destruct (test (f a)); simpl; rewrite IH; reflexivity.
Qed.

(** Grouping and [for ... in] do not look at the grouped values. *)
Section GroupsLifted.

Context {A B : Type}.
Variable f : A -> B.
Variable keyOf : A -> string.
Variable keyOf' : B -> string.
Hypothesis keyOf_lift : forall a, keyOf' (f a) = keyOf a.

Lemma getOwn_lift (k : string) (o : Js.Obj (list A)) :
  Js.getOwn k (Lift.groups f o) = option_map (map f) (Js.getOwn k o).
Proof.
  induction o as [|[k' v] o IH]; simpl; [reflexivity|].
  destruct (String.eqb k k'); [reflexivity | exact IH].
Qed.

Lemma set_lift (k : string) (v : list A) (o : Js.Obj (list A)) :
  Js.set k (map f v) (Lift.groups f o) = Lift.groups f (Js.set k v o).
Proof.
  induction o as [|[k' v'] o IH]; simpl; [reflexivity|].
  destruct (String.eqb k k'); simpl; [reflexivity | rewrite IH; reflexivity].
Qed.

Lemma groupBy_lift (parts : list A) :
  forall acc,
    Js.groupBy keyOf' (map f parts) (Lift.groups f acc)
    = Lift.outcome (Lift.groups f) (Js.groupBy keyOf parts acc).
Proof.
  induction parts as [|p parts IH]; intros acc; simpl; [reflexivity|].
  unfold Js.pushTo. rewrite keyOf_lift, getOwn_lift.
  destruct (Js.getOwn (keyOf p) acc) as [group|]; simpl.
  - change [f p] with (map f [p]). rewrite <- map_app, set_lift. apply IH.
  - destruct (Js.inheritedKey (keyOf p)); simpl; [reflexivity|].
    change [f p] with (map f [p]). rewrite set_lift. apply IH.
Qed.

Let liftEntry (kv : string * list A) : string * list B := (fst kv, map f (snd kv)).

Lemma insertIndexed_lift (i : Z) (kv : string * list A)
      (l : list (Z * (string * list A))) :
  Js.insertIndexed (i, liftEntry kv) (map (fun e => (fst e, liftEntry (snd e))) l)
  = map (fun e => (fst e, liftEntry (snd e))) (Js.insertIndexed (i, kv) l).
Proof.
  induction l as [|e' l IH]; simpl; [reflexivity|].
  destruct (i <=? fst e'); simpl; [reflexivity | rewrite IH; reflexivity].
Qed.

Lemma indexedEntries_lift (o : Js.Obj (list A)) :
  Js.indexedEntries (Lift.groups f o)
  = map (fun e => (fst e, liftEntry (snd e))) (Js.indexedEntries o).
Proof.
  induction o as [|kv o IH]; simpl; [reflexivity|].
  unfold Js.indexedEntries in *. simpl. rewrite IH.
  destruct (Js.arrayIndex (fst kv)) as [i|]; [|reflexivity].
  apply insertIndexed_lift.
Qed.

Lemma forIn_lift (o : Js.Obj (list A)) :
  Js.forIn (Lift.groups f o) = Lift.groups f (Js.forIn o).
Proof.
  unfold Js.forIn, Lift.groups. rewrite map_app. f_equal.
  - fold (Lift.groups f o). rewrite indexedEntries_lift, !map_map. reflexivity.
  - unfold Js.namedEntries. rewrite filter_lift. reflexivity.
Qed.

End GroupsLifted.

Lemma sum_lift {A : Type} (f : A -> Z) (l : list A) :
  forall z,
    fold_left (fun acc a => Number.add acc (Number.Int (f a))) l (Number.Int z)
    = Number.Int (fold_left (fun acc a => acc + f a) l z).
Proof.
  induction l as [|a l IH]; intros z; simpl; [reflexivity|]. apply IH.
Qed.

Lemma percentage_lift (part whole : Z) :
  Number.percentage (Number.Int part) (Number.Int whole) = Some (percentage part whole).
Proof.
  unfold Number.percentage, percentage. simpl. destruct (whole >? 0); reflexivity.
Qed.

Lemma insertByLength_lift (a : CutPart.t) (l : list CutPart.t) :
  WithNaN.insertByLength (Lift.cut a) (map Lift.cut l)
  = map Lift.cut (insertByLength a l).
Proof.
  induction l as [|b l IH]; simpl; [reflexivity|].
  destruct (CutPart.effectiveLength b - CutPart.effectiveLength a <=? 0); simpl;
    [reflexivity | rewrite IH; reflexivity].
Qed.

Lemma sortByLength_lift (l : list CutPart.t) :
  WithNaN.sortByLength (map Lift.cut l) = map Lift.cut (sortByLength l).
Proof.
  induction l as [|a l IH]; simpl; [reflexivity|].
  unfold WithNaN.sortByLength, sortByLength in *. simpl.
  rewrite IH. apply insertByLength_lift.
Qed.

Lemma sumEffective_lift (l : list CutPart.t) :
  WithNaN.sumEffective (map Lift.cut l) = Number.Int (sumEffective l).
Proof.
  unfold WithNaN.sumEffective, Number.sum, sumEffective.
  rewrite fold_left_lift. exact (sum_lift CutPart.effectiveLength l 0).
Qed.

Lemma instances_lift (p : LinearPart.t) :
  WithNaN.instances (Lift.linearPart p) = map Lift.cut (instances p).
Proof. unfold WithNaN.instances, instances. rewrite map_map. reflexivity. Qed.

Lemma removePlaced_lift (chosen pool : list CutPart.t) :
  WithNaN.removePlaced (map Lift.cut chosen) (map Lift.cut pool)
  = map Lift.cut (removePlaced chosen pool).
Proof.
  unfold WithNaN.removePlaced, removePlaced. rewrite filter_lift, map_map. reflexivity.
Qed.

Section LinearOnIntegers.

Variable stockLength : Z.
Variable optimizationGoal : OptimizationGoal.
Variables leftEndAllowance rightEndAllowance : Z.
Variable random : nat -> nat.

Let s := Number.Int stockLength.
Let l := Number.Int leftEndAllowance.
Let r := Number.Int rightEndAllowance.

Lemma expandGroup_lift (partsInGroup : list LinearPart.t) :
  forall cuts unplaced,
    WithNaN.expandGroup s l r (map Lift.linearPart partsInGroup)
                        (map Lift.cut cuts) (map Lift.linearPart unplaced)
    = (map Lift.cut
           (fst (expandGroup stockLength leftEndAllowance rightEndAllowance
                             partsInGroup cuts unplaced)),
       map Lift.linearPart
           (snd (expandGroup stockLength leftEndAllowance rightEndAllowance
                             partsInGroup cuts unplaced))).
Proof.
  induction partsInGroup as [|p parts IH]; intros cuts unplaced; simpl; [reflexivity|].
  unfold usableStockLength.
  match goal with |- context [if ?c then _ else _] => destruct c end.
  - change [Lift.linearPart p] with (map Lift.linearPart [p]).
    rewrite <- map_app. apply IH.
  - rewrite instances_lift, <- map_app. apply IH.
Qed.

Lemma accumulate_lift (parts : list CutPart.t) :
  forall cuts used,
    WithNaN.accumulate s l r (map Lift.cut parts) (map Lift.cut cuts) (Number.Int used)
    = (map Lift.cut
           (fst (accumulate stockLength leftEndAllowance rightEndAllowance
                            parts cuts used)),
       Number.Int
         (snd (accumulate stockLength leftEndAllowance rightEndAllowance
                          parts cuts used))).
Proof.
  induction parts as [|part parts IH]; intros cuts used; simpl; [reflexivity|].
  unfold usableStockLength.
  match goal with |- context [if ?c then _ else _] => destruct c end.
  - change [Lift.cut part] with (map Lift.cut [part]).
    rewrite <- map_app. apply IH.
  - apply IH.
Qed.

Lemma shuffleFrom_lift (j : nat) :
  forall t calls,
    WithNaN.shuffleFrom random j (map Lift.cut t) calls
    = (map Lift.cut (fst (shuffleFrom random j t calls)),
       snd (shuffleFrom random j t calls)).
Proof.
  induction j as [|j IH]; intros t calls; simpl; [reflexivity|].
  rewrite swap_lift. apply IH.
Qed.

Lemma shuffle_lift (t : list CutPart.t) (calls : nat) :
  WithNaN.shuffle random (map Lift.cut t) calls
  = (map Lift.cut (fst (shuffle random t calls)), snd (shuffle random t calls)).
Proof.
  unfold WithNaN.shuffle, shuffle. rewrite length_map. apply shuffleFrom_lift.
Qed.

Let liftChoice (c : list CutPart.t * Z * nat)
  : list WithNaN.CutPart.t * Number.t * nat :=
  (map Lift.cut (fst (fst c)), Number.Int (snd (fst c)), snd c).

Lemma trials_lift (i : nat) :
  forall temp calls best bestWaste,
    WithNaN.trials s l r random i (map Lift.cut temp) calls (map Lift.cut best)
                   (Number.Int bestWaste)
    = liftChoice (trials stockLength leftEndAllowance rightEndAllowance random
                         i temp calls best bestWaste).
Proof.
  induction i as [|i IH]; intros temp calls best bestWaste; simpl; [reflexivity|].
  rewrite shuffle_lift.
  destruct (shuffle random temp calls) as [temp' calls']. simpl fst. simpl snd.
  pose proof (accumulate_lift temp' [] 0) as Hacc.
  change (map Lift.cut []) with (@nil WithNaN.CutPart.t) in Hacc.
  rewrite Hacc. clear Hacc.
  destruct (accumulate stockLength leftEndAllowance rightEndAllowance temp' [] 0)
    as [currentCuts currentUsed]. simpl fst. simpl snd.
  unfold usableStockLength. simpl.
  match goal with |- context [if ?c then _ else _] => destruct c end; apply IH.
Qed.

Lemma bestCutsFor_lift (pool : list CutPart.t) (calls : nat) :
  WithNaN.bestCutsFor s optimizationGoal l r random (map Lift.cut pool) calls
  = liftChoice (bestCutsFor stockLength optimizationGoal leftEndAllowance
                            rightEndAllowance random pool calls).
Proof.
  unfold WithNaN.bestCutsFor, bestCutsFor, WithNaN.greedyBaseline, greedyBaseline.
  rewrite sortByLength_lift.
  pose proof (accumulate_lift (sortByLength pool) [] 0) as Hacc.
  change (map Lift.cut []) with (@nil WithNaN.CutPart.t) in Hacc.
  rewrite Hacc. clear Hacc.
  destruct (accumulate stockLength leftEndAllowance rightEndAllowance
                       (sortByLength pool) [] 0) as [greedyCuts usedLength].
  simpl fst. simpl snd. rewrite length_map.
  change (WithNaN.minimizesWaste optimizationGoal)
    with (minimizesWaste optimizationGoal).
  destruct (minimizesWaste optimizationGoal && (1 <? List.length pool)%nat);
    [|reflexivity].
  apply trials_lift.
Qed.

Let liftCounts (m : list (Z * (LinearPart.t * nat)))
  : list (Z * (WithNaN.LinearPart.t * nat)) :=
  map (fun e => (fst e, (Lift.linearPart (fst (snd e)), snd (snd e)))) m.

Lemma countOriginal_lift (original : LinearPart.t)
      (m : list (Z * (LinearPart.t * nat))) :
  WithNaN.countOriginal (Lift.linearPart original) (liftCounts m)
  = liftCounts (countOriginal original m).
Proof.
  induction m as [|[k [part count]] m IH]; [reflexivity|].
  unfold liftCounts in *. cbn [map fst snd WithNaN.countOriginal countOriginal].
  change (WithNaN.LinearPart.id (Lift.linearPart original)) with (LinearPart.id original).
  destruct (k =? LinearPart.id original); cbn [map fst snd]; [reflexivity|].
  rewrite IH. reflexivity.
Qed.

Lemma rollBack_lift (partsInGroup : list LinearPart.t) (pool : list CutPart.t) :
  forall m,
    WithNaN.rollBack (map Lift.linearPart partsInGroup) (map Lift.cut pool)
                     (liftCounts m)
    = Lift.outcome liftCounts (rollBack partsInGroup pool m).
Proof.
  induction pool as [|rcp pool IH]; intros m; simpl; [reflexivity|].
  rewrite find_lift. simpl.
  destruct (find (fun p => LinearPart.id p =? CutPart.id rcp) partsInGroup)
    as [original|]; simpl; [|reflexivity].
  rewrite countOriginal_lift. apply IH.
Qed.

Lemma fillBars_lift (rawMaterial : string) (partsInGroup : list LinearPart.t)
      (fuel : nat) :
  forall pool st,
    WithNaN.fillBars s optimizationGoal l r random fuel rawMaterial
                     (map Lift.linearPart partsInGroup) (map Lift.cut pool)
                     (Lift.barState st)
    = Lift.outcome Lift.barState
        (fillBars stockLength optimizationGoal leftEndAllowance rightEndAllowance
                  random fuel rawMaterial partsInGroup pool st).
Proof.
  induction fuel as [|fuel IH]; intros pool st.
  - destruct pool; reflexivity.
  - destruct pool as [|c pool]; [reflexivity|].
    cbn [WithNaN.fillBars fillBars map].
    change (Lift.cut c :: map Lift.cut pool) with (map Lift.cut (c :: pool)).
    cbn [WithNaN.bs_calls Lift.barState].
    rewrite bestCutsFor_lift.
    destruct (bestCutsFor stockLength optimizationGoal leftEndAllowance
                          rightEndAllowance random (c :: pool) (bs_calls st))
      as [[chosen waste] calls'].
    unfold liftChoice. cbn [fst snd].
    destruct chosen as [|k chosen]; cbn [map];
      change (Lift.cut c :: map Lift.cut pool) with (map Lift.cut (c :: pool)).
    + pose proof (rollBack_lift partsInGroup (c :: pool) []) as Hroll.
      change (liftCounts []) with (@nil (Z * (WithNaN.LinearPart.t * nat))) in Hroll.
      rewrite Hroll. clear Hroll.
      destruct (rollBack partsInGroup (c :: pool) []) as [unplacedMap| |]; simpl;
        [|reflexivity|reflexivity].
      unfold Lift.barState, liftCounts. simpl. rewrite map_app, !map_map. reflexivity.
    + change (Lift.cut k :: map Lift.cut chosen) with (map Lift.cut (k :: chosen)).
      rewrite removePlaced_lift. rewrite <- IH. f_equal.
      unfold Lift.barState. cbn [WithNaN.bs_unplaced WithNaN.bs_layouts
                                 WithNaN.bs_counter bs_unplaced bs_layouts
                                 bs_counter bs_calls].
      rewrite map_app.
      change (map Lift.stock
                  [newStockLayout stockLength (bs_counter st) rawMaterial (k :: chosen)])
        with [Lift.stock (newStockLayout stockLength (bs_counter st) rawMaterial
                                         (k :: chosen))].
      unfold WithNaN.newStockLayout, newStockLayout, Lift.stock.
      cbn [StockLayout.stockIndex StockLayout.stockLength StockLayout.cuts
           StockLayout.usedLength StockLayout.wasteLength StockLayout.wastePercentage
           StockLayout.rawMaterial].
      rewrite sumEffective_lift. reflexivity.
Qed.

Lemma nestMaterial_lift (st : LinearState) (entry : string * list LinearPart.t) :
  WithNaN.nestMaterial s optimizationGoal l r random (Lift.linearState st)
                       (fst entry, map Lift.linearPart (snd entry))
  = Lift.outcome Lift.linearState
      (nestMaterial stockLength optimizationGoal leftEndAllowance rightEndAllowance
                    random st entry).
Proof.
  destruct entry as [rawMaterial partsInGroup].
  unfold WithNaN.nestMaterial, nestMaterial. cbn [fst snd].
  pose proof (expandGroup_lift partsInGroup [] []) as Hexp.
  change (map Lift.cut []) with (@nil WithNaN.CutPart.t) in Hexp.
  change (map Lift.linearPart []) with (@nil WithNaN.LinearPart.t) in Hexp.
  rewrite Hexp. clear Hexp.
  destruct (expandGroup stockLength leftEndAllowance rightEndAllowance
                        partsInGroup [] []) as [allCutParts unplacedForGroup].
  cbn [fst snd]. rewrite length_map.
  change (WithNaN.mkBarState (map Lift.linearPart unplacedForGroup)
                             (WithNaN.ls_layouts (Lift.linearState st))
                             (WithNaN.ls_counter (Lift.linearState st))
                             (WithNaN.ls_calls (Lift.linearState st)))
    with (Lift.barState (mkBarState unplacedForGroup (ls_layouts st) (ls_counter st)
                                    (ls_calls st))).
  rewrite fillBars_lift. apply bind_lift.
  intros bs. unfold Lift.linearState. simpl. rewrite map_app. reflexivity.
Qed.

Lemma nestMaterials_lift (groups : list (string * list LinearPart.t)) :
  forall st,
    WithNaN.nestMaterials s optimizationGoal l r random
                          (Lift.groups Lift.linearPart groups) (Lift.linearState st)
    = Lift.outcome Lift.linearState
        (nestMaterials stockLength optimizationGoal leftEndAllowance
                       rightEndAllowance random groups st).
Proof.
  induction groups as [|entry rest IH]; intros st; [reflexivity|].
  unfold Lift.groups in *. cbn [map WithNaN.nestMaterials nestMaterials].
  rewrite nestMaterial_lift. apply bind_lift. exact IH.
Qed.

Lemma finalize_lift (layout : StockLayout.t) :
  WithNaN.finalize (Lift.stock layout) = Lift.stock (finalize layout).
Proof.
  unfold WithNaN.finalize, finalize, Lift.stock. simpl.
  rewrite percentage_lift. reflexivity.
Qed.

Lemma addQuantity_lift (part : LinearPart.t) (acc : list LinearPart.t) :
  WithNaN.addQuantity (Lift.linearPart part) (map Lift.linearPart acc)
  = option_map (map Lift.linearPart) (addQuantity part acc).
Proof.
  induction acc as [|p acc IH]; simpl; [reflexivity|].
  destruct (LinearPart.id p =? LinearPart.id part); simpl; [reflexivity|].
  rewrite IH. destruct (addQuantity part acc); reflexivity.
Qed.

Lemma consolidateLinear_lift (unplaced : list LinearPart.t) :
  WithNaN.consolidateLinear (map Lift.linearPart unplaced)
  = map Lift.linearPart (consolidateLinear unplaced).
Proof.
  unfold WithNaN.consolidateLinear, consolidateLinear.
  change (@nil WithNaN.LinearPart.t) with (map Lift.linearPart []).
  generalize (@nil LinearPart.t).
  induction unplaced as [|part unplaced IH]; intros acc; simpl; [reflexivity|].
  unfold WithNaN.consolidateLinearStep at 2, consolidateLinearStep at 2.
  rewrite addQuantity_lift.
  destruct (addQuantity part acc) as [acc'|]; simpl; [apply IH|].
  change [Lift.linearPart part] with (map Lift.linearPart [part]).
  rewrite <- map_app. apply IH.
Qed.

(** On an integer stock length, integer end allowances and integer
    effective lengths the packer with [NaN] is the integer packer. *)
Lemma performLinearNesting_lift (parts : list LinearPart.t) :
  WithNaN.performLinearNesting s optimizationGoal l r random
                               (map Lift.linearPart parts)
  = Lift.outcome Lift.linearResult
      (performLinearNesting stockLength optimizationGoal leftEndAllowance
                            rightEndAllowance random parts).
Proof.
  unfold WithNaN.performLinearNesting, performLinearNesting.
  pose proof (groupBy_lift Lift.linearPart LinearPart.rawMaterial
                           WithNaN.LinearPart.rawMaterial (fun a => eq_refl) parts [])
    as Hg.
  change (Lift.groups Lift.linearPart []) with (@nil (string * list WithNaN.LinearPart.t))
    in Hg.
  rewrite Hg. clear Hg.
  destruct (Js.groupBy LinearPart.rawMaterial parts []) as [partGroups| |]; simpl;
    [|reflexivity|reflexivity].
  rewrite forIn_lift.
  change (WithNaN.mkLinearState [] [] 1 0%nat)
    with (Lift.linearState (mkLinearState [] [] 1 0%nat)).
  rewrite nestMaterials_lift.
  destruct (nestMaterials stockLength optimizationGoal leftEndAllowance
                          rightEndAllowance random (Js.forIn partGroups)
                          (mkLinearState [] [] 1 0%nat)) as [st| |];
    simpl; [|reflexivity|reflexivity].
  unfold Lift.linearResult. simpl.
  rewrite consolidateLinear_lift, !length_map.
  assert (Hfin : map (WithNaN.finalize) (map Lift.stock (ls_layouts st))
                 = map Lift.stock (map finalize (ls_layouts st))).
  { rewrite !map_map. apply map_ext. intros a. apply finalize_lift. }
  rewrite Hfin.
  assert (Hsum : Number.sum WithNaN.StockLayout.wasteLength
                            (map Lift.stock (map finalize (ls_layouts st)))
                 = Number.Int (sumZ StockLayout.wasteLength
                                    (map finalize (ls_layouts st)))).
  { unfold Number.sum, sumZ. rewrite fold_left_lift.
    exact (sum_lift StockLayout.wasteLength _ 0). }
  rewrite Hsum. simpl. rewrite percentage_lift. reflexivity.
Qed.

End LinearOnIntegers.

(** ** The bar loop on numbers that may be [NaN] *)

Lemma leb_Int (a b : Number.t) :
  Number.leb a b = true -> exists x y, a = Number.Int x /\ b = Number.Int y /\ x <= y.
Proof.
  destruct a as [|x], b as [|y]; simpl; try discriminate.
  intros H. exists x, y. apply Z.leb_le in H. auto.
Qed.

Module NaNFacts.

Import WithNaN.

Lemma insertByLength_member (a x : CutPart.t) (l : list CutPart.t) :
  In x (insertByLength a l) <-> x = a \/ In x l.
Proof.
  induction l as [|b l IH]; simpl; [intuition auto|].
  destruct (Number.notPositive _); simpl; [intuition auto|].
  rewrite IH. intuition auto.
Qed.

Lemma sortByLength_member (x : CutPart.t) (l : list CutPart.t) :
  In x (sortByLength l) <-> In x l.
Proof.
  induction l as [|a l IH]; simpl; [reflexivity|].
  rewrite insertByLength_member, IH. intuition auto.
Qed.

Lemma removePlaced_within (chosen pool : list CutPart.t) :
  incl (removePlaced chosen pool) pool.
Proof. intros x Hx. unfold removePlaced in Hx. apply filter_In in Hx. exact (proj1 Hx). Qed.

Lemma removePlaced_shortens (chosen pool : list CutPart.t) :
  chosen <> [] -> incl chosen pool ->
  (List.length (removePlaced chosen pool) < List.length pool)%nat.
Proof.
  intros Hne Hincl. destruct chosen as [|c chosen]; [congruence|].
  assert (Hc : In c pool) by (apply Hincl; left; reflexivity).
  unfold removePlaced.
  set (stays := fun p : CutPart.t =>
                  negb (existsb (String.eqb (CutPart.instanceId p))
                                (map CutPart.instanceId (c :: chosen)))).
  assert (Hgone : stays c = false).
  { unfold stays. simpl. rewrite String.eqb_refl. reflexivity. }
  clearbody stays. clear Hincl Hne.
  induction pool as [|p pool IH]; [contradiction|]. simpl.
  destruct Hc as [->|Hc].
  - rewrite Hgone. pose proof (filter_length_le stays pool). lia.
  - specialize (IH Hc). destruct (stays p); simpl; lia.
Qed.

Section Bars.

Variable stockLength : Number.t.
Variable optimizationGoal : OptimizationGoal.
Variables leftEndAllowance rightEndAllowance : Number.t.
Variable random : nat -> nat.

Let usable := usableStockLength stockLength leftEndAllowance rightEndAllowance.
Let acc := accumulate stockLength leftEndAllowance rightEndAllowance.
Let choose :=
  bestCutsFor stockLength optimizationGoal leftEndAllowance rightEndAllowance random.
Let fill :=
  fillBars stockLength optimizationGoal leftEndAllowance rightEndAllowance random.

(** The accumulation appends cuts of the list it scans. *)
Lemma accumulate_appends (parts : list CutPart.t) :
  forall cuts used,
    exists added,
      fst (acc parts cuts used) = (cuts ++ added)%list /\ incl added parts.
Proof.
  induction parts as [|part parts IH]; intros cuts used; unfold acc; simpl.
  - exists []. rewrite app_nil_r. split; [reflexivity | intros x []].
  - destruct (Number.leb _ _).
    + destruct (IH (cuts ++ [part])%list
                   (Number.add used (CutPart.effectiveLength part)))
        as (added & Hc & Hincl).
      exists (part :: added). unfold acc in Hc. rewrite Hc, <- app_assoc.
      split; [reflexivity|].
      intros x [<-|Hx]; [left; reflexivity | right; exact (Hincl x Hx)].
    + destruct (IH cuts used) as (added & Hc & Hincl).
      exists added. split; [exact Hc|]. intros x Hx. right. exact (Hincl x Hx).
Qed.

Lemma accumulate_incl (parts : list CutPart.t) :
  incl (fst (acc parts [] (Number.Int 0))) parts.
Proof.
  destruct (accumulate_appends parts [] (Number.Int 0)) as (added & -> & Hincl).
  exact Hincl.
Qed.

(** A first element that fits is taken. *)
Lemma accumulate_takes_first (part : CutPart.t) (parts : list CutPart.t) :
  OnNumbers.fits usable part -> fst (acc (part :: parts) [] (Number.Int 0)) <> [].
Proof.
  intros Hfit. unfold acc. simpl. fold usable.
  destruct (leb_Int _ _ Hfit) as (x & y & Hx & Hy & Hle).
  rewrite Hx, Hy. simpl.
  assert (Hb : (x <=? y) = true) by (apply Z.leb_le; exact Hle).
  rewrite Hb.
  destruct (accumulate_appends parts [part] (Number.Int x)) as (added & Hc & _).
  unfold acc in Hc. rewrite Hc. discriminate.
Qed.

(** With a usable length that is [NaN] nothing is ever accumulated. *)
Lemma accumulate_NaN (parts : list CutPart.t) :
  usable = Number.NaN ->
  forall cuts used, acc parts cuts used = (cuts, used).
Proof.
  intros Hnan. induction parts as [|part parts IH]; intros cuts used; unfold acc; simpl;
    [reflexivity|].
  fold usable. rewrite Hnan.
  destruct (Number.add used (CutPart.effectiveLength part)); simpl; apply IH.
Qed.

Lemma shuffleFrom_member (j : nat) :
  forall t calls x, In x (fst (shuffleFrom random j t calls)) -> In x t.
Proof.
  induction j as [|j IH]; intros t calls x; simpl; [auto|].
  intros H. apply IH in H. exact (swap_In _ _ _ _ H).
Qed.

Lemma shuffleFrom_size (j : nat) :
  forall t calls, List.length (fst (shuffleFrom random j t calls)) = List.length t.
Proof.
  induction j as [|j IH]; intros t calls; simpl; [reflexivity|].
  rewrite IH. apply swap_length.
Qed.

(** The trial loop keeps cuts of the pool. *)
Lemma trials_incl (pool : list CutPart.t) (i : nat) :
  forall temp calls best bestWaste,
    incl temp pool -> incl best pool ->
    incl (fst (fst (trials stockLength leftEndAllowance rightEndAllowance random
                           i temp calls best bestWaste))) pool.
Proof.
  induction i as [|i IH]; intros temp calls best bestWaste Htemp Hbest; simpl;
    [exact Hbest|].
  unfold shuffle.
  pose proof (shuffleFrom_member (List.length temp - 1) temp calls) as Hsh.
  destruct (shuffleFrom random (List.length temp - 1) temp calls) as [temp' calls'].
  simpl in Hsh.
  assert (Htemp' : incl temp' pool) by (intros x Hx; exact (Htemp x (Hsh x Hx))).
  pose proof (accumulate_incl temp') as Hcur. unfold acc in Hcur.
  destruct (accumulate stockLength leftEndAllowance rightEndAllowance temp' []
                       (Number.Int 0)) as [currentCuts currentUsed].
  simpl in Hcur.
  destruct (Number.ltb _ _); apply IH; try assumption.
  intros x Hx. exact (Htemp' x (Hcur x Hx)).
Qed.

(** With a pool that fits, a non-empty incumbent stays non-empty. *)
Lemma trials_some (pool : list CutPart.t) (i : nat) :
  Forall (OnNumbers.fits usable) pool ->
  forall temp calls best bestWaste,
    incl temp pool -> temp <> [] -> best <> [] ->
    fst (fst (trials stockLength leftEndAllowance rightEndAllowance random
                     i temp calls best bestWaste)) <> [].
Proof.
  intros Hfits. rewrite Forall_forall in Hfits.
  induction i as [|i IH]; intros temp calls best bestWaste Htemp Hne Hbest; simpl;
    [exact Hbest|].
  unfold shuffle.
  pose proof (shuffleFrom_member (List.length temp - 1) temp calls) as Hsh.
  pose proof (shuffleFrom_size (List.length temp - 1) temp calls) as Hlen.
  destruct (shuffleFrom random (List.length temp - 1) temp calls) as [temp' calls'].
  simpl in Hsh, Hlen.
  assert (Htemp' : incl temp' pool) by (intros x Hx; exact (Htemp x (Hsh x Hx))).
  assert (Hne' : temp' <> []).
  { intros ->. destruct temp; [congruence | discriminate Hlen]. }
  assert (Hcur : fst (acc temp' [] (Number.Int 0)) <> []).
  { destruct temp' as [|c temp']; [congruence|].
    apply accumulate_takes_first. apply Hfits, Htemp'. left; reflexivity. }
  unfold acc in Hcur.
  destruct (accumulate stockLength leftEndAllowance rightEndAllowance temp' []
                       (Number.Int 0)) as [currentCuts currentUsed].
  simpl in Hcur.
  destruct (Number.ltb _ _); apply IH; assumption.
Qed.

(** With a usable length that is [NaN] the trial loop keeps an empty
    incumbent. *)
Lemma trials_NaN (i : nat) :
  usable = Number.NaN ->
  forall temp calls bestWaste,
    fst (fst (trials stockLength leftEndAllowance rightEndAllowance random
                     i temp calls [] bestWaste)) = [].
Proof.
  intros Hnan. induction i as [|i IH]; intros temp calls bestWaste; simpl;
    [reflexivity|].
  destruct (shuffle random temp calls) as [temp' calls'].
  pose proof (accumulate_NaN temp' Hnan [] (Number.Int 0)) as Hacc.
  unfold acc in Hacc. rewrite Hacc.
  destruct (Number.ltb _ _); apply IH.
Qed.

Lemma bestCutsFor_unfold_NaN (pool : list CutPart.t) (calls : nat) :
  choose pool calls
  = let baseline := acc (sortByLength pool) [] (Number.Int 0) in
    if minimizesWaste optimizationGoal && (1 <? List.length pool)%nat
    then trials stockLength leftEndAllowance rightEndAllowance random
                SHUFFLE_ITERATIONS pool calls
                (fst baseline) (Number.sub usable (snd baseline))
    else (fst baseline, Number.sub usable (snd baseline), calls).
Proof.
  unfold choose, bestCutsFor, greedyBaseline, acc.
  destruct (accumulate stockLength leftEndAllowance rightEndAllowance
                       (sortByLength pool) [] (Number.Int 0)).
  reflexivity.
Qed.

(** The cuts chosen for a bar are cuts of the pool. *)
Lemma bestCutsFor_incl (pool : list CutPart.t) (calls : nat) :
  incl (fst (fst (choose pool calls))) pool.
Proof.
  rewrite bestCutsFor_unfold_NaN. cbv zeta.
  assert (Hbase : incl (fst (acc (sortByLength pool) [] (Number.Int 0))) pool).
  { intros x Hx. apply sortByLength_member, (accumulate_incl _ x Hx). }
  destruct (minimizesWaste optimizationGoal && (1 <? List.length pool)%nat).
  - apply trials_incl; [apply incl_refl | exact Hbase].
  - exact Hbase.
Qed.

(** On a non-empty pool whose cuts all fit, some cut is chosen. *)
Lemma bestCutsFor_some (pool : list CutPart.t) (calls : nat) :
  pool <> [] -> Forall (OnNumbers.fits usable) pool ->
  fst (fst (choose pool calls)) <> [].
Proof.
  intros Hne Hfits. rewrite bestCutsFor_unfold_NaN. cbv zeta.
  assert (Hbase : fst (acc (sortByLength pool) [] (Number.Int 0)) <> []).
  { destruct (sortByLength pool) as [|c sorted] eqn:E.
    - destruct pool as [|c pool]; [congruence|].
      assert (Hin : In c (sortByLength (c :: pool)))
        by (apply sortByLength_member; left; reflexivity).
      rewrite E in Hin. destruct Hin.
    - apply accumulate_takes_first. rewrite Forall_forall in Hfits.
      apply Hfits, sortByLength_member. rewrite E. left; reflexivity. }
  destruct (minimizesWaste optimizationGoal && (1 <? List.length pool)%nat).
  - apply trials_some with (pool := pool); try assumption. apply incl_refl.
  - exact Hbase.
Qed.

(** With a usable length that is [NaN] no cut is chosen. *)
Lemma bestCutsFor_NaN (pool : list CutPart.t) (calls : nat) :
  usable = Number.NaN -> fst (fst (choose pool calls)) = [].
Proof.
  intros Hnan. rewrite bestCutsFor_unfold_NaN. cbv zeta.
  rewrite (accumulate_NaN (sortByLength pool) Hnan [] (Number.Int 0)). cbn [fst snd].
  destruct (minimizesWaste optimizationGoal && (1 <? List.length pool)%nat);
    [apply trials_NaN; exact Hnan | reflexivity].
Qed.

(** The roll-back finds the part of every cut of an owned pool. *)
Lemma rollBack_returns (partsInGroup : list LinearPart.t) (pool : list CutPart.t) :
  OnNumbers.owned partsInGroup pool ->
  forall m, exists m', rollBack partsInGroup pool m = Returned m'.
Proof.
  induction 1 as [|c pool (p & Hp & Hid) _ IH]; intros m; simpl.
  - exists m. reflexivity.
  - destruct (find (fun q => LinearPart.id q =? CutPart.id c) partsInGroup)
      as [original|] eqn:Hfind.
    + apply IH.
    + exfalso. apply (find_none _ _ Hfind) in Hp. rewrite Hid, Z.eqb_refl in Hp.
      discriminate Hp.
Qed.

Lemma rollBack_no_fuel (partsInGroup : list LinearPart.t) (pool : list CutPart.t) :
  forall m, rollBack partsInGroup pool m <> OutOfFuel.
Proof.
  induction pool as [|c pool IH]; intros m; simpl; [discriminate|].
  destruct (find _ partsInGroup); [apply IH | discriminate].
Qed.

Lemma expandGroup_owned (partsInGroup : list LinearPart.t)
      (group : list LinearPart.t) :
  incl group partsInGroup ->
  forall cuts unplaced,
    OnNumbers.owned partsInGroup cuts ->
    OnNumbers.owned partsInGroup
      (fst (expandGroup stockLength leftEndAllowance rightEndAllowance
                        group cuts unplaced)).
Proof.
  induction group as [|p group IH]; intros Hincl cuts unplaced Hcuts; simpl;
    [exact Hcuts|].
  assert (Hrest : incl group partsInGroup)
    by (intros x Hx; apply Hincl; right; exact Hx).
  destruct (Number.gtb _ _); [apply IH; assumption|].
  apply IH; [exact Hrest|]. apply Forall_app. split; [exact Hcuts|].
  apply Forall_forall. intros c Hc. unfold instances in Hc.
  apply in_map_iff in Hc as (i & <- & _).
  exists p. split; [apply Hincl; left; reflexivity | reflexivity].
Qed.

(** The bar loop never uses up a fuel of the size of the pool: every
    iteration either takes the roll-back branch and leaves, or commits a
    bar and shortens the pool. *)
Lemma fillBars_no_fuel (rawMaterial : string) (partsInGroup : list LinearPart.t)
      (fuel : nat) :
  forall pool st,
    (List.length pool <= fuel)%nat ->
    fill fuel rawMaterial partsInGroup pool st <> OutOfFuel.
Proof.
  induction fuel as [|fuel IH]; intros pool st Hlen.
  - destruct pool; [discriminate | simpl in Hlen; lia].
  - destruct pool as [|c pool]; [discriminate|].
    unfold fill. cbn [fillBars].
    pose proof (bestCutsFor_incl (c :: pool) (bs_calls st)) as Hincl.
    unfold choose in Hincl.
    destruct (bestCutsFor stockLength optimizationGoal leftEndAllowance
                          rightEndAllowance random (c :: pool) (bs_calls st))
      as [[chosen waste] calls']. simpl in Hincl.
    destruct chosen as [|k chosen].
    + pose proof (rollBack_no_fuel partsInGroup (c :: pool) []) as Hroll.
      destruct (rollBack partsInGroup (c :: pool) []); simpl;
        [discriminate | discriminate | congruence].
    + apply IH.
      pose proof (removePlaced_shortens (k :: chosen) (c :: pool)
                                       ltac:(discriminate) Hincl).
      simpl in Hlen. simpl List.length in *. lia.
Qed.

(** On an owned pool the bar loop returns. *)
Lemma fillBars_returns (rawMaterial : string) (partsInGroup : list LinearPart.t)
      (fuel : nat) :
  forall pool st,
    (List.length pool <= fuel)%nat ->
    OnNumbers.owned partsInGroup pool ->
    exists st', fill fuel rawMaterial partsInGroup pool st = Returned st'.
Proof.
  induction fuel as [|fuel IH]; intros pool st Hlen Hown.
  - destruct pool; [exists st; reflexivity | simpl in Hlen; lia].
  - destruct pool as [|c pool]; [exists st; reflexivity|].
    unfold fill. cbn [fillBars].
    pose proof (bestCutsFor_incl (c :: pool) (bs_calls st)) as Hincl.
    unfold choose in Hincl.
    destruct (bestCutsFor stockLength optimizationGoal leftEndAllowance
                          rightEndAllowance random (c :: pool) (bs_calls st))
      as [[chosen waste] calls']. simpl in Hincl.
    destruct chosen as [|k chosen].
    + destruct (rollBack_returns partsInGroup (c :: pool) Hown []) as (m & ->).
      simpl. eexists. reflexivity.
    + apply IH.
      * pose proof (removePlaced_shortens (k :: chosen) (c :: pool)
                                         ltac:(discriminate) Hincl).
        simpl in Hlen. simpl List.length in *. lia.
      * unfold OnNumbers.owned in *. rewrite Forall_forall in *.
        intros x Hx. apply Hown, (removePlaced_within _ _ x Hx).
Qed.

(** On a pool that fits the bar loop never takes the roll-back branch: it
    returns and leaves the unplaced parts of the group as they are. *)
Lemma fillBars_fitting (rawMaterial : string) (partsInGroup : list LinearPart.t)
      (fuel : nat) :
  forall pool st,
    (List.length pool <= fuel)%nat ->
    Forall (OnNumbers.fits usable) pool ->
    exists st',
      fill fuel rawMaterial partsInGroup pool st = Returned st'
      /\ bs_unplaced st' = bs_unplaced st.
Proof.
  induction fuel as [|fuel IH]; intros pool st Hlen Hfits.
  - destruct pool; [exists st; split; reflexivity | simpl in Hlen; lia].
  - destruct pool as [|c pool]; [exists st; split; reflexivity|].
    unfold fill. cbn [fillBars].
    pose proof (bestCutsFor_incl (c :: pool) (bs_calls st)) as Hincl.
    pose proof (bestCutsFor_some (c :: pool) (bs_calls st) ltac:(discriminate) Hfits)
      as Hsome.
    unfold choose in Hincl, Hsome.
    destruct (bestCutsFor stockLength optimizationGoal leftEndAllowance
                          rightEndAllowance random (c :: pool) (bs_calls st))
      as [[chosen waste] calls']. simpl in Hincl, Hsome.
    destruct chosen as [|k chosen]; [congruence|].
    destruct (IH (removePlaced (k :: chosen) (c :: pool))
                 (mkBarState (bs_unplaced st)
                    (bs_layouts st
                     ++ [newStockLayout stockLength (bs_counter st) rawMaterial
                                        (k :: chosen)])%list
                    (bs_counter st + 1) calls'))
      as (st' & Hrun & Hun).
    + pose proof (removePlaced_shortens (k :: chosen) (c :: pool)
                                       ltac:(discriminate) Hincl).
      simpl in Hlen. simpl List.length in *. lia.
    + rewrite Forall_forall in *. intros x Hx.
      apply Hfits, (removePlaced_within _ _ x Hx).
    + exists st'. split; [exact Hrun | exact Hun].
Qed.

(** With a usable length that is [NaN] the bar loop opens no bar: on a
    non-empty pool it takes the roll-back branch at once. *)
Lemma fillBars_NaN (rawMaterial : string) (partsInGroup : list LinearPart.t)
      (fuel : nat) (pool : list CutPart.t) (st st' : BarState) :
  usable = Number.NaN ->
  fill fuel rawMaterial partsInGroup pool st = Returned st' ->
  bs_layouts st' = bs_layouts st.
Proof.
  intros Hnan. destruct pool as [|c pool].
  - destruct fuel; simpl; intros H; injection H as <-; reflexivity.
  - destruct fuel as [|fuel]; [discriminate|].
    unfold fill. cbn [fillBars].
    pose proof (bestCutsFor_NaN (c :: pool) (bs_calls st) Hnan) as Hnone.
    unfold choose in Hnone.
    destruct (bestCutsFor stockLength optimizationGoal leftEndAllowance
                          rightEndAllowance random (c :: pool) (bs_calls st))
      as [[chosen waste] calls']. simpl in Hnone. subst chosen.
    destruct (rollBack partsInGroup (c :: pool) []); simpl; [|discriminate|discriminate].
    intros H. injection H as <-. reflexivity.
Qed.

Lemma nestMaterial_returns (st : LinearState) (entry : string * list LinearPart.t) :
  exists st',
    nestMaterial stockLength optimizationGoal leftEndAllowance rightEndAllowance
                 random st entry = Returned st'
    /\ (usable = Number.NaN -> ls_layouts st' = ls_layouts st).
Proof.
  destruct entry as [rawMaterial partsInGroup]. unfold nestMaterial.
  pose proof (expandGroup_owned partsInGroup partsInGroup (incl_refl _) [] []
                                (Forall_nil _)) as Hown.
  destruct (expandGroup stockLength leftEndAllowance rightEndAllowance
                        partsInGroup [] []) as [allCutParts unplacedForGroup].
  simpl in Hown.
  destruct (fillBars_returns rawMaterial partsInGroup (List.length allCutParts)
              allCutParts
              (mkBarState unplacedForGroup (ls_layouts st) (ls_counter st) (ls_calls st))
              (Nat.le_refl _) Hown) as (bs & Hrun).
  unfold fill in Hrun. rewrite Hrun. simpl.
  eexists. split; [reflexivity|]. simpl. intros Hnan.
  exact (fillBars_NaN _ _ _ _ _ _ Hnan Hrun).
Qed.

Lemma nestMaterials_returns (groups : list (string * list LinearPart.t)) :
  forall st,
    exists st',
      nestMaterials stockLength optimizationGoal leftEndAllowance rightEndAllowance
                    random groups st = Returned st'
      /\ (usable = Number.NaN -> ls_layouts st' = ls_layouts st).
Proof.
  induction groups as [|entry rest IH]; intros st; simpl.
  - exists st. split; reflexivity.
  - destruct (nestMaterial_returns st entry) as (st1 & -> & H1). simpl.
    destruct (IH st1) as (st' & Hrun & H').
    exists st'. split; [exact Hrun|]. intros Hnan.
    rewrite (H' Hnan). exact (H1 Hnan).
Qed.

(** The linear packer returns whenever the grouping does, and with a
    usable length that is [NaN] it returns no layout. *)
Lemma performLinearNesting_grouped (parts : list LinearPart.t)
      (groups : Js.Obj (list LinearPart.t)) :
  Js.groupBy LinearPart.rawMaterial parts [] = Returned groups ->
  exists r,
    performLinearNesting stockLength optimizationGoal leftEndAllowance
                         rightEndAllowance random parts = Returned r
    /\ (usable = Number.NaN -> LinearNestingResult.layouts r = []).
Proof.
  intros Hg. unfold performLinearNesting. rewrite Hg. simpl.
  destruct (nestMaterials_returns (Js.forIn groups) (mkLinearState [] [] 1 0%nat))
    as (st & -> & Hst).
  simpl. eexists. split; [reflexivity|]. simpl. intros Hnan.
  rewrite (Hst Hnan). reflexivity.
Qed.

(** Immediate rejection leaves cuts that fit, when the usable length and
    the effective lengths are numbers. *)
Lemma expandGroup_fits (group : list LinearPart.t) :
  usable <> Number.NaN ->
  (forall p, In p group -> LinearPart.effectiveLength p <> Number.NaN) ->
  forall cuts unplaced,
    Forall (OnNumbers.fits usable) cuts ->
    Forall (OnNumbers.fits usable)
           (fst (expandGroup stockLength leftEndAllowance rightEndAllowance
                             group cuts unplaced)).
Proof.
  intros Hu. induction group as [|p group IH]; intros Hnum cuts unplaced Hcuts; simpl;
    [exact Hcuts|].
  assert (Hrest : forall q, In q group -> LinearPart.effectiveLength q <> Number.NaN)
    by (intros q Hq; apply Hnum; right; exact Hq).
  fold usable.
  destruct (Number.gtb (LinearPart.effectiveLength p) usable) eqn:Hp;
    [apply IH; assumption|].
  apply IH; [exact Hrest|]. apply Forall_app. split; [exact Hcuts|].
  apply Forall_forall. intros c Hc. unfold instances in Hc.
  apply in_map_iff in Hc as (i & <- & _). unfold OnNumbers.fits. simpl.
  pose proof (Hnum p (or_introl eq_refl)) as Hnp.
  destruct (LinearPart.effectiveLength p) as [|x]; [congruence|].
  destruct usable as [|y]; [congruence|]. simpl in *.
  apply Z.leb_le. rewrite Z.gtb_ltb in Hp. apply Z.ltb_ge in Hp. exact Hp.
Qed.

(** The linear packer never runs out of fuel, and returns unless the
    grouping throws. *)
Lemma performLinearNesting_total (parts : list LinearPart.t) :
  let run := performLinearNesting stockLength optimizationGoal leftEndAllowance
                                  rightEndAllowance random parts in
  run <> OutOfFuel
  /\ ((forall p, In p parts -> Js.inheritedKey (LinearPart.rawMaterial p) = false) ->
      exists r, run = Returned r)
  /\ (usable = Number.NaN ->
      forall r, run = Returned r -> LinearNestingResult.layouts r = []).
Proof.
  intros run. split; [|split].
  - destruct (Js.groupBy LinearPart.rawMaterial parts []) as [groups| |] eqn:Hg.
    + destruct (performLinearNesting_grouped parts groups Hg) as (r & Hr & _).
      unfold run. rewrite Hr. discriminate.
    + unfold run, performLinearNesting. rewrite Hg. discriminate.
    + exfalso. exact (groupBy_no_fuel _ _ _ Hg).
  - intros Hsafe.
    destruct (JsFacts.groupBy_returns LinearPart.rawMaterial parts Hsafe [])
      as (groups & Hg).
    destruct (performLinearNesting_grouped parts groups Hg) as (r & Hr & _).
    exists r. exact Hr.
  - intros Hnan r Hr.
    destruct (Js.groupBy LinearPart.rawMaterial parts []) as [groups| |] eqn:Hg.
    + destruct (performLinearNesting_grouped parts groups Hg) as (r' & Hr' & Hlay).
      unfold run in Hr. rewrite Hr' in Hr. injection Hr as <-. exact (Hlay Hnan).
    + unfold run, performLinearNesting in Hr. rewrite Hg in Hr. discriminate Hr.
    + exfalso. exact (groupBy_no_fuel _ _ _ Hg).
Qed.

End Bars.

End NaNFacts.

(** ** The sheet packer on clearances that are numbers *)

Lemma ltb_Int (a b : Number.t) :
  a <> Number.NaN -> b <> Number.NaN -> Number.ltb a b = false -> Number.leb b a = true.
Proof.
  destruct a as [|x], b as [|y]; try congruence. simpl. intros _ _ H.
  apply Z.leb_le. apply Z.ltb_ge in H. exact H.
Qed.


(** With a part-to-part clearance that is [NaN] a part can be placed off
    the sheet: after a first part, the corner to its right has the
    coordinate [NaN], the bounds test of [canPlace] is false there, and a
    second part twice as wide as the sheet is accepted. *)
Lemma blank_clearance_places_off_the_sheet :
  exists r layout pp,
    WithNaN.performSheetNesting
      Number.NaN (Number.Int 0) NONE steel [sheetStock]
      [Part.mk 1 "wide" 400 900 2 "MS" 1 1; Part.mk 2 "wider" 10 2000 2 "MS" 1 2]
    = Returned r
    /\ WithNaN.SheetNestingResult.layouts r = [layout]
    /\ nth_error (WithNaN.SheetLayout.placedParts layout) 1 = Some pp
    /\ WithNaN.PlacedPart.x pp = Number.NaN
    /\ WithNaN.PlacedPart.extentH pp = 2000
    /\ Sheet.length (WithNaN.SheetLayout.sheet layout) = 1000
    /\ ~ OnNumbers.inside (Number.Int 0) (WithNaN.SheetLayout.sheet layout) pp.
Proof.
  do 3 eexists. split; [vm_compute; reflexivity|].
  split; [reflexivity|]. split; [reflexivity|]. split; [reflexivity|].
  split; [reflexivity|]. split; [reflexivity|].
  intros (H & _). discriminate H.
Qed.

(** ** The overlap test on clearances that may be [NaN] *)

Module SheetFacts.

Import WithNaN.

Section OnePass.

Variables (partToPartDist partToSheetDist : Number.t).
Variable rotation : RotationOption.
Variable material : Material.t.
Variable sheetDef : Sheet.t.

Let free := OnNumbers.clashFree partToPartDist.
Let pass := placeOnSheet partToPartDist partToSheetDist rotation sheetDef.









End OnePass.

Section Loops.

Variables (partToPartDist partToSheetDist : Number.t).
Variable rotation : RotationOption.
Variable material : Material.t.
Variable availableSheets : list Sheet.t.






End Loops.

End SheetFacts.

(** * The properties of the specification *)

(** C1 at a group without a matching sheet: five units of the identity 1
    are requested and none is placed, yet the consolidated remainder
    reports a single unit, so placed plus unplaced is 1 and not 5. *)
Theorem unmatched_group_reports_one_unit :
  exists r,
    performSheetNesting 0 0 NONE steel [] [partFive] = Returned r
    /\ SheetNestingResult.layouts r = []
    /\ SheetNestingResult.unplacedParts r = [Part.withQuantity partFive 1]
    /\ requestedQuantity 1 [partFive] = 5%nat
    /\ (placedQuantity 1 (SheetNestingResult.layouts r)
        + requestedQuantity 1 (SheetNestingResult.unplacedParts r) = 1)%nat.
Proof.
  eexists. split; [vm_compute; reflexivity|].
  repeat split.
Qed.

(** C2, as stated, fails: on the input of scenario B no placed part of the
    result is rotated. *)
Lemma scenario_B_rotated_refuted :
  ~ (exists r layout pp,
        performSheetNesting 0 0 NINETY steel [sheetB] [partB] = Returned r
        /\ In layout (SheetNestingResult.layouts r)
        /\ In pp (SheetLayout.placedParts layout)
        /\ PlacedPart.rotated pp = true).
Proof.
  intros (r & layout & pp & Hr & Hl & Hp & Hrot).
  vm_compute in Hr. injection Hr as <-.
  destruct Hl as [<-|[]]. destruct Hp as [<-|[]]. discriminate Hrot.
Qed.

(** C2, amended.  On a sheet of length 300 and width 500 with supply, a
    part of length 450 and width 100 in quantity 1, zero clearances and
    rotation permitted, the part is placed and nothing is left unplaced;
    only the unrotated orientation fits (horizontal extent [width], vertical
    extent [length]), and the placed part sits at the origin with
    [rotated = false]. *)
Theorem scenario_B_unrotated
        (s : Sheet.t) (p : Part.t) (rotation : RotationOption) (material : Material.t) :
  Sheet.length s = 300 -> Sheet.width s = 500 -> 1 <= Sheet.quantity s ->
  Part.length p = 450 -> Part.width p = 100 -> Part.quantity p = 1%nat ->
  sheetDefsFor [s] (groupKey p) = [s] ->
  permitsRotation rotation = true ->
  let instance := Part.withIdQuantity p (Part.id p * 1000 + 0) 1 in
  feasible instance s [] 0 0 false (mkPoint 0 0)
  /\ (forall pt, ~ feasible instance s [] 0 0 true pt)
  /\ exists r layout,
       performSheetNesting 0 0 rotation material [s] [p] = Returned r
       /\ SheetNestingResult.unplacedParts r = []
       /\ SheetNestingResult.layouts r = [layout]
       /\ SheetLayout.sheet layout = s
       /\ SheetLayout.placedParts layout = [PlacedPart.mk instance 0 0 false].
Proof.
  intros Hsl Hsw Hsq Hpl Hpw Hpq Hmatch Hrot instance.
  assert (Hil : Part.length instance = 450) by exact Hpl.
  assert (Hiw : Part.width instance = 100) by exact Hpw.
  destruct (feasible_scenario_B instance s Hil Hiw Hsl Hsw) as [Hun Hro].
  split; [exact Hun|]. split; [exact Hro|].
  eexists. eexists. split.
  - unfold performSheetNesting. rewrite groupBy_single. simpl bind.
    rewrite forIn_single. cbn [nestGroups]. unfold nestGroup. rewrite Hmatch.
    simpl flat_map. unfold expand. rewrite Hpq. simpl map. simpl sortByArea.
    fold instance. cbn [overSheetDefs fillSheets List.length Nat.ltb Nat.leb andb].
    assert (Hq : (0 <? Sheet.quantity s) = true) by (apply Z.ltb_lt; lia).
    rewrite Hq. cbn [placeOnSheet].
    rewrite (findBestPosition_scenario_B instance s rotation Hil Hiw Hsl Hsw).
    simpl. reflexivity.
  - simpl. repeat split.
Qed.

(** Scenario B on concrete records. *)
Lemma scenario_B_witness :
  exists r layout,
    performSheetNesting 0 0 NINETY steel [sheetB] [partB] = Returned r
    /\ SheetNestingResult.unplacedParts r = []
    /\ SheetNestingResult.layouts r = [layout]
    /\ SheetLayout.sheet layout = sheetB
    /\ SheetLayout.placedParts layout
       = [PlacedPart.mk (Part.withIdQuantity partB 1000 1) 0 0 false].
Proof.
  exact (proj2 (proj2 (scenario_B_unrotated sheetB partB NINETY steel
                         eq_refl eq_refl ltac:(simpl; lia) eq_refl eq_refl eq_refl
                         eq_refl eq_refl))).
Defined.

(** C3.  In waste-minimisation mode, whatever the draws: the cuts chosen
    for a bar leave a waste that is at most the waste of the
    first-fit-decreasing baseline on the same pool; they are the first
    candidate of least waste among the baseline and the trials in the order
    they are found, so a later candidate replaces the incumbent only when
    strictly better; and every layout of every result holds the cuts
    chosen in that way on its own remaining pool, the instances of the
    fitting parts of its raw material that the earlier layouts of that raw
    material have not cut, so that its waste is at most the waste of the
    baseline on that pool. *)
Theorem minimize_waste_not_worse_than_baseline
        (stockLength leftEndAllowance rightEndAllowance : Z) (random : nat -> nat) :
  let usable := usableStockLength stockLength leftEndAllowance rightEndAllowance in
  let choose := bestCutsFor stockLength MINIMIZE_WASTE leftEndAllowance
                            rightEndAllowance random in
  let baseline := greedyBaseline stockLength leftEndAllowance rightEndAllowance in
  let wasteOf (cuts : list CutPart.t) := usable - sumEffective cuts in
  (forall pool calls,
      let result := fst (choose pool calls) in
      let candidates :=
        (fst (baseline pool), wasteOf (fst (baseline pool)))
        :: (if (1 <? List.length pool)%nat
            then trialResults stockLength leftEndAllowance rightEndAllowance random
                              SHUFFLE_ITERATIONS pool calls
            else []) in
      snd result = wasteOf (fst result)
      /\ wasteOf (fst result) <= wasteOf (fst (baseline pool))
      /\ exists n,
           nth_error candidates n = Some result
           /\ (forall e, In e candidates -> snd result <= snd e)
           /\ (forall m e, (m < n)%nat -> nth_error candidates m = Some e ->
                           snd result < snd e))
  /\ (forall parts r i layout,
         performLinearNesting stockLength MINIMIZE_WASTE leftEndAllowance
                              rightEndAllowance random parts = Returned r ->
         nth_error (LinearNestingResult.layouts r) i = Some layout ->
         let pool := remainingPool stockLength leftEndAllowance rightEndAllowance
                                   parts (LinearNestingResult.layouts r) i layout in
         pool <> []
         /\ (exists calls, StockLayout.cuts layout = fst (fst (choose pool calls)))
         /\ wasteOf (StockLayout.cuts layout) <= wasteOf (fst (baseline pool)))
  /\ (forall parts,
         (forall p, In p parts -> Js.inheritedKey (LinearPart.rawMaterial p) = false) ->
         exists r, performLinearNesting stockLength MINIMIZE_WASTE leftEndAllowance
                                        rightEndAllowance random parts = Returned r).
Proof.
  intros usable choose baseline wasteOf.
  assert (Hchoose : forall pool calls,
             snd (fst (choose pool calls)) = wasteOf (fst (fst (choose pool calls)))
             /\ wasteOf (fst (fst (choose pool calls))) <= wasteOf (fst (baseline pool))).
  { intros pool calls.
    destruct (bestCutsFor_candidate stockLength MINIMIZE_WASTE leftEndAllowance
                rightEndAllowance random pool calls) as [(Hw & _) Hle].
    fold choose in Hw, Hle. fold usable in Hw, Hle.
    rewrite (greedyBaseline_used stockLength leftEndAllowance rightEndAllowance pool) in Hle.
    split; [exact Hw|]. unfold wasteOf, baseline. rewrite <- Hw. exact Hle. }
  split; [|split].
  - intros pool calls result candidates.
    destruct (Hchoose pool calls) as [Hw Hle].
    split; [exact Hw|]. split; [exact Hle|].
    unfold result, candidates, choose.
    rewrite (bestCutsFor_unfold stockLength MINIMIZE_WASTE leftEndAllowance
                                rightEndAllowance random pool calls).
    rewrite (greedyBaseline_used stockLength leftEndAllowance rightEndAllowance pool).
    cbn [minimizesWaste andb].
    destruct (1 <? List.length pool)%nat.
    + exact (trials_first_minimum stockLength leftEndAllowance rightEndAllowance random
               SHUFFLE_ITERATIONS pool calls (fst (baseline pool))
               (wasteOf (fst (baseline pool)))).
    + exists 0%nat. split; [reflexivity|]. split.
      * intros e [<-|[]]. apply Z.le_refl.
      * intros m e Hm. lia.
  - intros parts r i layout Hr Hi pool.
    destruct (performLinearNesting_pool stockLength MINIMIZE_WASTE leftEndAllowance
                rightEndAllowance random parts r i layout Hr Hi) as (Hne & calls & Hcuts).
    fold pool in Hne, Hcuts.
    split; [exact Hne|]. split; [exists calls; exact Hcuts|].
    rewrite Hcuts. exact (proj2 (Hchoose pool calls)).
  - intros parts. apply performLinearNesting_returns.
Qed.

(** On lengths 6, 5 and 5 a trial beats the baseline: the bar chosen holds
    the two fives and wastes nothing, where first-fit-decreasing wastes 4;
    and in the result on bars of length 10 the second layout, the 6, is
    chosen on the pool that the first leaves, which holds the 6 alone. *)
Lemma minimize_waste_witness :
  let pool := (instances partSix ++ instances partFives)%list in
  let result := fst (bestCutsFor 10 MINIMIZE_WASTE 0 0 drawsZero pool 0) in
  snd result = 0
  /\ usableStockLength 10 0 0 - sumEffective (fst (greedyBaseline 10 0 0 pool)) = 4
  /\ usableStockLength 10 0 0 - sumEffective (fst result)
     <= usableStockLength 10 0 0 - sumEffective (fst (greedyBaseline 10 0 0 pool))
  /\ exists r first second,
       performLinearNesting 10 MINIMIZE_WASTE 0 0 drawsZero [partSix; partFives]
       = Returned r
       /\ LinearNestingResult.layouts r = [first; second]
       /\ remainingPool 10 0 0 [partSix; partFives]
                        (LinearNestingResult.layouts r) 1 second
          = instances partSix
       /\ usableStockLength 10 0 0 - sumEffective (StockLayout.cuts second)
          <= usableStockLength 10 0 0
             - sumEffective (fst (greedyBaseline 10 0 0 (instances partSix))).
Proof.
  intros pool result. split; [vm_compute; reflexivity|].
  split; [vm_compute; reflexivity|].
  split.
  - exact (proj1 (proj2 (proj1 (minimize_waste_not_worse_than_baseline 10 0 0 drawsZero)
                               pool 0%nat))).
  - destruct (performLinearNesting 10 MINIMIZE_WASTE 0 0 drawsZero [partSix; partFives])
      as [r| |] eqn:Hr; vm_compute in Hr; try discriminate Hr.
    injection Hr as <-.
    eexists. eexists. eexists. split; [reflexivity|]. split; [reflexivity|].
    split; [vm_compute; reflexivity|].
    assert (Hrun : performLinearNesting 10 MINIMIZE_WASTE 0 0 drawsZero
                                        [partSix; partFives] = Returned _)
      by (vm_compute; reflexivity).
    exact (proj2 (proj2 (proj1 (proj2 (minimize_waste_not_worse_than_baseline
                                         10 0 0 drawsZero))
                               [partSix; partFives] _ 1%nat _ Hrun eq_refl))).
Defined.




(** C5.  Both packers are functions of their arguments: equal arguments
    give equal results, layouts, placements, unplaced lists and metrics
    included.  [performSheetNesting] reads no draw at all, and
    [performLinearNesting] with [PRIORITIZE_SPEED] returns the same
    outcome whatever the sequence of draws behind [Math.random]. *)
Theorem nesting_deterministic :
  (forall partToPartDist partToSheetDist rotation material
          sheets1 sheets2 parts1 parts2,
      sheets1 = sheets2 -> parts1 = parts2 ->
      performSheetNesting partToPartDist partToSheetDist rotation material
                          sheets1 parts1
      = performSheetNesting partToPartDist partToSheetDist rotation material
                            sheets2 parts2)
  /\ (forall stockLength leftEndAllowance rightEndAllowance random1 random2
             parts1 parts2,
         parts1 = parts2 ->
         performLinearNesting stockLength PRIORITIZE_SPEED leftEndAllowance
                              rightEndAllowance random1 parts1
         = performLinearNesting stockLength PRIORITIZE_SPEED leftEndAllowance
                                rightEndAllowance random2 parts2).
Proof.
  split.
  - intros ? ? ? ? ? ? ? ? -> ->. reflexivity.
  - intros stockLength leftEndAllowance rightEndAllowance random1 random2
           parts1 parts2 ->.
    unfold performLinearNesting.
    apply bind_ext. intros groups.
    rewrite (nestMaterials_speed stockLength leftEndAllowance rightEndAllowance
                                 random1 random2).
    reflexivity.
Qed.

(** The speed mode of C5 on the pool that separates the draws in
    waste-minimisation mode. *)
Lemma nesting_deterministic_witness :
  performLinearNesting 10 PRIORITIZE_SPEED 0 0 drawsZero [partSix; partFives]
  = performLinearNesting 10 PRIORITIZE_SPEED 0 0 drawsOne [partSix; partFives].
Proof.
  exact (proj2 nesting_deterministic 10 0 0 drawsZero drawsOne
               [partSix; partFives] [partSix; partFives] eq_refl).
Defined.

(** In waste-minimisation mode the result does depend on the draws. *)
Lemma minimize_waste_depends_on_draws :
  performLinearNesting 10 MINIMIZE_WASTE 0 0 drawsZero [partSix; partFives]
  <> performLinearNesting 10 MINIMIZE_WASTE 0 0 drawsOne [partSix; partFives].
Proof. vm_compute. discriminate. Qed.

(** C6 at a raw material named [constructor]: the grouping reads the
    inherited [Object.prototype.constructor], finds it truthy, and calls its
    missing [push]: the call throws instead of reporting the part. *)
Theorem oversize_part_constructor_throws
        (optimizationGoal : OptimizationGoal) (random : nat -> nat) :
  LinearPart.effectiveLength partConstructor > usableStockLength 1000 0 0
  /\ performLinearNesting 1000 optimizationGoal 0 0 random [partConstructor]
     = TypeError.
Proof. split; reflexivity. Qed.



(** C8.  Every layout committed by [performLinearNesting] has a used length
    equal to the sum of the effective lengths of its cuts, and that sum is
    at most the usable stock length; the packer returns such a result
    whenever the grouping by raw material does not throw. *)
Theorem performLinearNesting_bar_capacity
        (stockLength : Z) (optimizationGoal : OptimizationGoal)
        (leftEndAllowance rightEndAllowance : Z) (random : nat -> nat)
        (parts : list LinearPart.t) :
  let run := performLinearNesting stockLength optimizationGoal leftEndAllowance
                                  rightEndAllowance random parts in
  (forall r layout,
      run = Returned r ->
      In layout (LinearNestingResult.layouts r) ->
      StockLayout.usedLength layout = sumEffective (StockLayout.cuts layout)
      /\ StockLayout.usedLength layout
         <= stockLength - leftEndAllowance - rightEndAllowance)
  /\ ((forall p, In p parts -> Js.inheritedKey (LinearPart.rawMaterial p) = false) ->
      exists r, run = Returned r).
Proof.
  intros run. split; [|apply performLinearNesting_returns].
  intros r layout Hr Hin.
  destruct (performLinearNesting_layouts _ _ _ _ _ _ _ _ Hr Hin)
    as (committed & (pool & calls & _ & _ & Hcuts & Hne & Hused & _) & ->).
  simpl. split; [exact Hused|]. rewrite Hused.
  destruct (bestCutsFor_candidate stockLength optimizationGoal leftEndAllowance
              rightEndAllowance random pool calls) as [(_ & _ & Hcap) _].
  rewrite <- Hcuts in Hcap. destruct Hcap as [Hcap|Hcap]; [congruence|].
  exact Hcap.
Qed.

(** Scenario C under the theorem of C8: one bar, filled to 5000 of 6000. *)
Lemma bar_capacity_witness :
  exists r layout,
    performLinearNesting 6000 MINIMIZE_WASTE 0 0 drawsZero [partC1; partC2] = Returned r
    /\ LinearNestingResult.layouts r = [layout]
    /\ StockLayout.usedLength layout = 5000
    /\ StockLayout.usedLength layout <= 6000 - 0 - 0.
Proof.
  destruct (performLinearNesting 6000 MINIMIZE_WASTE 0 0 drawsZero [partC1; partC2])
    as [r| |] eqn:Hr; vm_compute in Hr; try discriminate Hr.
  injection Hr as <-.
  eexists. eexists. split; [reflexivity|]. split; [reflexivity|].
  split; [reflexivity|].
  refine (proj2 (proj1 (performLinearNesting_bar_capacity
                          6000 MINIMIZE_WASTE 0 0 drawsZero [partC1; partC2])
                       _ _ _ _)).
  - vm_compute. reflexivity.
  - left. reflexivity.
Defined.

(** C9.  A part whose grade holds a hyphen is never placed on a sheet of
    its own grade: the sheet of its layout was selected with the first
    hyphen-separated segment of the group key as grade and the number
    parsed from the second segment as thickness, and a grade with a hyphen
    differs from any first segment. *)
Theorem performSheetNesting_hyphen_grade
        (partToPartDist partToSheetDist : Z) (rotation : RotationOption)
        (material : Material.t) (availableSheets : list Sheet.t)
        (parts : list Part.t) :
  exists r,
    performSheetNesting partToPartDist partToSheetDist rotation material
                        availableSheets parts = Returned r
    /\ forall layout pp,
         In layout (SheetNestingResult.layouts r) ->
         In pp (SheetLayout.placedParts layout) ->
         let key := groupKey (PlacedPart.part pp) in
         let sheet := SheetLayout.sheet layout in
         hd_error (Js.split "-" key) = Some (Sheet.grade sheet)
         /\ Js.strictEq (Js.parseFloat (nth 1 (Js.split "-" key) "undefined"))
                        (Sheet.thickness sheet) = true
         /\ (Js.contains "-" (Part.grade (PlacedPart.part pp)) = true ->
             Sheet.grade sheet <> Part.grade (PlacedPart.part pp)).
Proof.
  destruct (performSheetNesting_returns partToPartDist partToSheetDist rotation
                                        material availableSheets parts) as (r & Hr).
  exists r. split; [exact Hr|].
  intros layout pp Hin Hpp key sheet.
  pose proof (performSheetNesting_built _ _ _ _ _ _ _ Hr) as Hbuilt.
  rewrite Forall_forall in Hbuilt.
  pose proof (builtLayout_lookup _ _ _ _ _ _ _ (Hbuilt layout Hin) Hpp) as Hlook.
  destruct (sheetDefsFor_In _ _ _ Hlook) as (_ & Hhd & Hth).
  split; [exact Hhd|]. split; [exact Hth|].
  intros Hgrade Heq. apply sheetDefsFor_grade in Hlook.
  fold sheet in Hlook. rewrite Heq in Hlook. congruence.
Qed.

(** The theorem of C9 on a part of grade [SS-304] and thickness 5: it is
    placed, on the sheet of grade [SS] and thickness 304. *)
Lemma hyphen_grade_witness :
  exists r layout pp,
    performSheetNesting 0 0 NONE steel [sheetHyphen] [partHyphen] = Returned r
    /\ In layout (SheetNestingResult.layouts r)
    /\ In pp (SheetLayout.placedParts layout)
    /\ Part.grade (PlacedPart.part pp) = "SS-304"
    /\ Sheet.grade (SheetLayout.sheet layout) = "SS"
    /\ Sheet.thickness (SheetLayout.sheet layout) = 304
    /\ Sheet.grade (SheetLayout.sheet layout) <> Part.grade (PlacedPart.part pp).
Proof.
  destruct (performSheetNesting_hyphen_grade 0 0 NONE steel [sheetHyphen] [partHyphen])
    as (r & Hr & Hgrade).
  exists r. vm_compute in Hr. injection Hr as <-.
  do 2 eexists. split; [vm_compute; reflexivity|].
  split; [left; reflexivity|]. split; [left; reflexivity|].
  split; [reflexivity|]. split; [reflexivity|]. split; [reflexivity|].
  exact (proj2 (proj2 (Hgrade _ _ (or_introl eq_refl) (or_introl eq_refl))) eq_refl).
Defined.

(** C10, as stated, fails when the stock length is [NaN], which is what
    the form passes when its field is blank.  The two parts have positive
    effective lengths, yet the rejection test [effectiveLength >
    usableStockLength] is false for both, so their three instances stay in
    the pool; none of them fits, the greedy pass and the trials select
    nothing, and the empty-bar branch is what ends the loop, reporting
    every part unplaced. *)
Lemma blank_stock_length_takes_empty_bar_branch :
  let parts := [Lift.linearPart partC1; Lift.linearPart partC2] in
  let usable := WithNaN.usableStockLength Number.NaN (Number.Int 0) (Number.Int 0) in
  let pool := fst (WithNaN.expandGroup Number.NaN (Number.Int 0) (Number.Int 0)
                                       parts [] []) in
  (forall p, In p parts ->
             (Number.Int 0 <? WithNaN.LinearPart.effectiveLength p)%num = true)
  /\ List.length pool = 3%nat
  /\ (forall c, In c pool -> ~ OnNumbers.fits usable c)
  /\ fst (fst (WithNaN.bestCutsFor Number.NaN MINIMIZE_WASTE (Number.Int 0)
                                   (Number.Int 0) drawsZero pool 0)) = []
  /\ exists r,
       WithNaN.performLinearNesting Number.NaN MINIMIZE_WASTE (Number.Int 0)
                                    (Number.Int 0) drawsZero parts = Returned r
       /\ WithNaN.LinearNestingResult.layouts r = []
       /\ WithNaN.LinearNestingResult.unplacedParts r = parts.
Proof.
  intros parts usable pool. split.
  - intros p [<-|[<-|[]]]; reflexivity.
  - split; [reflexivity|]. split.
    + intros c Hc Hfit. unfold OnNumbers.fits in Hfit.
      destruct (WithNaN.CutPart.effectiveLength c); discriminate Hfit.
    + split; [vm_compute; reflexivity|].
      eexists. split; [vm_compute; reflexivity|]. split; reflexivity.
Qed.

(** C10, amended.  On every input the linear packer terminates: the fuel
    of the bar loop, the size of the pool, is never used up, and the
    packer returns unless the grouping throws.  When the usable length is
    a number, immediate rejection leaves only instances that fit a bar
    for parts of positive effective length; on a non-empty pool that fits,
    some cut is chosen, so the empty-bar branch is not taken, and removing
    the chosen instances shortens the pool.  When the usable length is
    [NaN] no layout is returned. *)
Theorem performLinearNesting_terminates
        (stockLength : Number.t) (optimizationGoal : OptimizationGoal)
        (leftEndAllowance rightEndAllowance : Number.t) (random : nat -> nat)
        (parts : list WithNaN.LinearPart.t) :
  let usable :=
    WithNaN.usableStockLength stockLength leftEndAllowance rightEndAllowance in
  let fits := OnNumbers.fits usable in
  let run := WithNaN.performLinearNesting stockLength optimizationGoal
                                          leftEndAllowance rightEndAllowance
                                          random parts in
  run <> OutOfFuel
  /\ ((forall p, In p parts ->
                 Js.inheritedKey (WithNaN.LinearPart.rawMaterial p) = false) ->
      exists r, run = Returned r)
  /\ (usable <> Number.NaN ->
      forall partsInGroup,
        (forall p, In p partsInGroup ->
                   (Number.Int 0 <? WithNaN.LinearPart.effectiveLength p)%num = true) ->
        Forall fits (fst (WithNaN.expandGroup stockLength leftEndAllowance
                                              rightEndAllowance partsInGroup [] [])))
  /\ (forall pool calls,
         pool <> [] -> Forall fits pool ->
         let chosen := fst (fst (WithNaN.bestCutsFor stockLength optimizationGoal
                                                     leftEndAllowance rightEndAllowance
                                                     random pool calls)) in
         chosen <> []
         /\ (List.length (WithNaN.removePlaced chosen pool) < List.length pool)%nat
         /\ Forall fits (WithNaN.removePlaced chosen pool))
  /\ (forall rawMaterial partsInGroup pool st,
         Forall fits pool ->
         exists st',
           WithNaN.fillBars stockLength optimizationGoal leftEndAllowance
                            rightEndAllowance random (List.length pool) rawMaterial
                            partsInGroup pool st
           = Returned st'
           /\ WithNaN.bs_unplaced st' = WithNaN.bs_unplaced st)
  /\ (usable = Number.NaN ->
      forall r, run = Returned r -> WithNaN.LinearNestingResult.layouts r = []).
Proof.
  intros usable fits run.
  destruct (NaNFacts.performLinearNesting_total stockLength optimizationGoal
              leftEndAllowance rightEndAllowance random parts) as (Hfuel & Hret & Hnan).
  split; [exact Hfuel|]. split; [exact Hret|]. split; [|split; [|split]].
  - intros Hu partsInGroup Hpos.
    apply NaNFacts.expandGroup_fits; [exact Hu| |constructor].
    intros p Hp Hnp. specialize (Hpos p Hp). rewrite Hnp in Hpos. discriminate Hpos.
  - intros pool calls Hne Hfits chosen.
    pose proof (NaNFacts.bestCutsFor_some stockLength optimizationGoal leftEndAllowance
                  rightEndAllowance random pool calls Hne Hfits) as Hsome.
    pose proof (NaNFacts.bestCutsFor_incl stockLength optimizationGoal leftEndAllowance
                  rightEndAllowance random pool calls) as Hincl.
    split; [exact Hsome|]. split.
    + exact (NaNFacts.removePlaced_shortens chosen pool Hsome Hincl).
    + unfold fits in *. rewrite Forall_forall in *. intros x Hx.
      apply Hfits, (NaNFacts.removePlaced_within _ _ x Hx).
  - intros rawMaterial partsInGroup pool st Hfits.
    exact (NaNFacts.fillBars_fitting stockLength optimizationGoal leftEndAllowance
             rightEndAllowance random rawMaterial partsInGroup (List.length pool)
             pool st (Nat.le_refl _) Hfits).
  - exact Hnan.
Qed.

(** The theorem of C10 on scenario C: the packer returns, and the three
    instances left by immediate rejection fit a bar of 6000. *)
Lemma terminates_witness :
  let parts := [Lift.linearPart partC1; Lift.linearPart partC2] in
  WithNaN.performLinearNesting (Number.Int 6000) MINIMIZE_WASTE (Number.Int 0)
                               (Number.Int 0) drawsZero parts <> OutOfFuel
  /\ Forall (OnNumbers.fits (Number.Int 6000))
            (fst (WithNaN.expandGroup (Number.Int 6000) (Number.Int 0) (Number.Int 0)
                                      parts [] [])).
Proof.
  intros parts.
  pose proof (performLinearNesting_terminates
                (Number.Int 6000) MINIMIZE_WASTE (Number.Int 0) (Number.Int 0)
                drawsZero parts) as H.
  cbv zeta in H. destruct H as (Hfuel & _ & Hfits & _).
  split; [exact Hfuel|].
  apply (Hfits ltac:(discriminate) parts).
  intros p [<-|[<-|[]]]; reflexivity.
Defined.

(** * Further properties of the code *)



(** X2.  Rotation.  A placed part is rotated only when rotation is
    permitted: with [RotationOption.NONE] every placed part of every
    layout has [rotated = false]. *)
Theorem performSheetNesting_rotation
        (partToPartDist partToSheetDist : Z) (rotation : RotationOption)
        (material : Material.t) (availableSheets : list Sheet.t)
        (parts : list Part.t) :
  exists r,
    performSheetNesting partToPartDist partToSheetDist rotation material
                        availableSheets parts = Returned r
    /\ forall layout pp,
         In layout (SheetNestingResult.layouts r) ->
         In pp (SheetLayout.placedParts layout) ->
         (PlacedPart.rotated pp = true -> rotation <> NONE)
         /\ (rotation = NONE -> PlacedPart.rotated pp = false).
Proof.
  destruct (performSheetNesting_returns partToPartDist partToSheetDist rotation
                                        material availableSheets parts) as (r & Hr).
  exists r. split; [exact Hr|]. intros layout pp Hin Hpp.
  apply In_nth_error in Hin as (i & Hi).
  destruct (performSheetNesting_at _ _ _ _ _ _ _ _ _ Hr Hi)
    as (key & sheetDef & pool & placed & remaining & count & _ & _ & Hpass & _ & ->).
  simpl in *.
  destruct (placeOnSheet_appends partToPartDist partToSheetDist rotation sheetDef
              (fun pp => PlacedPart.rotated pp = true -> permitsRotation rotation = true)
              pool
              (fun part pl pos _ H => proj2 (findBestPosition_inside _ _ _ _ _ _ _ H))
              _ _ _ _ _ _ Hpass) as (added & -> & _ & Hall).
  rewrite Forall_forall in Hall. specialize (Hall pp Hpp). simpl in Hall.
  split.
  - intros Hrot ->. specialize (Hall Hrot). discriminate Hall.
  - intros ->. destruct (PlacedPart.rotated pp); [|reflexivity].
    specialize (Hall eq_refl). discriminate Hall.
Qed.

(** The theorem of X2 without rotation: the parts of the first sheet are
    not rotated. *)
Lemma rotation_witness :
  exists r layout,
    performSheetNesting 0 0 NONE steel [sheetStock] [partFive] = Returned r
    /\ nth_error (SheetNestingResult.layouts r) 0 = Some layout
    /\ forall pp, In pp (SheetLayout.placedParts layout) ->
                  PlacedPart.rotated pp = false.
Proof.
  destruct (performSheetNesting_rotation 0 0 NONE steel [sheetStock] [partFive])
    as (r & Hr & Hrot).
  exists r. vm_compute in Hr. injection Hr as <-.
  eexists. split; [vm_compute; reflexivity|]. split; [reflexivity|].
  intros pp Hpp. exact (proj2 (Hrot _ pp (or_introl eq_refl) Hpp) eq_refl).
Defined.

(** X3.  Numbering and occupancy.  The layout at position [i] of the result
    carries [sheetIndex = i + 1], lies on one of the available sheets, and
    holds at least one part: the packer never returns an empty layout, and
    the first part of every layout sits in the corner, at the
    part-to-sheet clearance from both edges. *)
Theorem performSheetNesting_layout_shape
        (partToPartDist partToSheetDist : Z) (rotation : RotationOption)
        (material : Material.t) (availableSheets : list Sheet.t)
        (parts : list Part.t) :
  exists r,
    performSheetNesting partToPartDist partToSheetDist rotation material
                        availableSheets parts = Returned r
    /\ forall i layout,
         nth_error (SheetNestingResult.layouts r) i = Some layout ->
         SheetLayout.sheetIndex layout = Z.of_nat i + 1
         /\ In (SheetLayout.sheet layout) availableSheets
         /\ exists first rest,
              SheetLayout.placedParts layout = first :: rest
              /\ PlacedPart.x first = partToSheetDist
              /\ PlacedPart.y first = partToSheetDist.
Proof.
  destruct (performSheetNesting_returns partToPartDist partToSheetDist rotation
                                        material availableSheets parts) as (r & Hr).
  exists r. split; [exact Hr|]. intros i layout Hi.
  destruct (performSheetNesting_at _ _ _ _ _ _ _ _ _ Hr Hi)
    as (key & sheetDef & pool & placed & remaining & count & Hdef & _ & Hpass & Hc & ->).
  simpl. split; [reflexivity|]. split.
  - exact (proj1 (sheetDefsFor_In _ _ _ Hdef)).
  - exact (placeOnSheet_corner _ _ _ _ _ _ _ _ _ Hpass Hc).
Qed.

(** The theorem of X3 on the same input with clearances: the second
    layout is numbered 2 and its first part sits at (20, 20). *)
Lemma layout_shape_witness :
  exists r layout first rest,
    performSheetNesting 10 20 NINETY steel [sheetStock] [partFive] = Returned r
    /\ nth_error (SheetNestingResult.layouts r) 1 = Some layout
    /\ SheetLayout.sheetIndex layout = 2
    /\ SheetLayout.placedParts layout = first :: rest
    /\ PlacedPart.x first = 20 /\ PlacedPart.y first = 20.
Proof.
  destruct (performSheetNesting_layout_shape 10 20 NINETY steel [sheetStock] [partFive])
    as (r & Hr & Hshape).
  exists r. pose proof Hr as Hrun. vm_compute in Hr. injection Hr as <-.
  destruct (Hshape 1%nat _ eq_refl) as (Hidx & _ & first & rest & Hparts & Hx & Hy).
  eexists. exists first, rest. split; [exact Hrun|]. split; [reflexivity|].
  split; [exact Hidx|]. split; [exact Hparts|]. split; assumption.
Defined.

(** X4.  Placed parts are units of the input.  Every placed part is a unit
    instance [{ ...p, id: p.id * 1000 + i, quantity: 1 }] of a row [p] of
    the input with [i < p.quantity], and its sheet is one that the key of
    its group selects: the packer invents no part and changes no
    dimension, name, grade or identity. *)
Theorem performSheetNesting_places_units
        (partToPartDist partToSheetDist : Z) (rotation : RotationOption)
        (material : Material.t) (availableSheets : list Sheet.t)
        (parts : list Part.t) :
  exists r,
    performSheetNesting partToPartDist partToSheetDist rotation material
                        availableSheets parts = Returned r
    /\ forall layout pp,
         In layout (SheetNestingResult.layouts r) ->
         In pp (SheetLayout.placedParts layout) ->
         unitOf parts (PlacedPart.part pp)
         /\ In (SheetLayout.sheet layout)
               (sheetDefsFor availableSheets (groupKey (PlacedPart.part pp))).
Proof.
  destruct (performSheetNesting_returns partToPartDist partToSheetDist rotation
                                        material availableSheets parts) as (r & Hr).
  exists r. split; [exact Hr|]. intros layout pp Hin Hpp.
  apply In_nth_error in Hin as (i & Hi).
  destruct (performSheetNesting_at _ _ _ _ _ _ _ _ _ Hr Hi)
    as (key & sheetDef & pool & placed & remaining & count & Hdef & Hpool & Hpass & _ & ->).
  simpl in *.
  pose proof (placeOnSheet_placed _ _ _ _ (fun q => groupKey q = key /\ unitOf parts q)
                                  _ _ _ _ _ _ _ Hpass Hpool (Forall_nil _)) as Hplaced.
  rewrite Forall_forall in Hplaced. destruct (Hplaced pp Hpp) as [Hk Hu].
  split; [exact Hu|]. rewrite Hk. exact Hdef.
Qed.

(** The theorem of X4 on the same input: the parts placed are units of
    the row of the five panels. *)
Lemma places_units_witness :
  exists r layout,
    performSheetNesting 10 20 NINETY steel [sheetStock] [partFive] = Returned r
    /\ nth_error (SheetNestingResult.layouts r) 0 = Some layout
    /\ List.length (SheetLayout.placedParts layout) = 3%nat
    /\ forall pp, In pp (SheetLayout.placedParts layout) ->
                  unitOf [partFive] (PlacedPart.part pp).
Proof.
  destruct (performSheetNesting_places_units 10 20 NINETY steel [sheetStock] [partFive])
    as (r & Hr & Hunits).
  exists r. vm_compute in Hr. injection Hr as <-.
  eexists. split; [vm_compute; reflexivity|]. split; [reflexivity|].
  split; [reflexivity|].
  intros pp Hpp. exact (proj1 (Hunits _ pp (or_introl eq_refl) Hpp)).
Defined.

(** X6.  Usage counts.  [totalSheetsUsed] holds, under each sheet key
    [`${length}x${width}x${thickness}-${grade}`], the number of layouts of
    the result cut from a sheet of that key, and holds no key that no layout
    uses. *)
Theorem performSheetNesting_usage_counts
        (partToPartDist partToSheetDist : Z) (rotation : RotationOption)
        (material : Material.t) (availableSheets : list Sheet.t)
        (parts : list Part.t) :
  exists r,
    performSheetNesting partToPartDist partToSheetDist rotation material
                        availableSheets parts = Returned r
    /\ forall key,
         Js.getOwn key (SheetNestingResult.totalSheetsUsed r)
         = if (layoutsOf key (SheetNestingResult.layouts r) =? 0)%nat then None
           else Some (Z.of_nat (layoutsOf key (SheetNestingResult.layouts r))).
Proof.
  destruct (performSheetNesting_returns partToPartDist partToSheetDist rotation
                                        material availableSheets parts) as (r & Hr).
  exists r. split; [exact Hr|].
  unfold performSheetNesting in Hr.
  apply bind_Returned in Hr as (groups & _ & Hr).
  apply bind_Returned in Hr as (st & Hst & Hr).
  injection Hr as <-. simpl.
  apply (nestGroups_counts _ _ _ _ _ _ _ _ Hst).
  intros key. reflexivity.
Qed.

(** X7.  Matching by grade and thickness.  For a part whose grade holds no
    hyphen and whose thickness is not negative, the group key
    [`${grade}-${thickness}`], split and parsed back, selects exactly the
    available sheets of the part's grade and thickness; accordingly every
    such part that is placed lies on a sheet of its own grade and
    thickness. *)
Theorem performSheetNesting_same_grade_and_thickness
        (partToPartDist partToSheetDist : Z) (rotation : RotationOption)
        (material : Material.t) (availableSheets : list Sheet.t)
        (parts : list Part.t) :
  (forall p,
      Js.contains "-" (Part.grade p) = false -> 0 <= Part.thickness p ->
      sheetDefsFor availableSheets (groupKey p) = sheetsLike availableSheets p)
  /\ exists r,
       performSheetNesting partToPartDist partToSheetDist rotation material
                           availableSheets parts = Returned r
       /\ forall layout pp,
            In layout (SheetNestingResult.layouts r) ->
            In pp (SheetLayout.placedParts layout) ->
            Js.contains "-" (Part.grade (PlacedPart.part pp)) = false ->
            0 <= Part.thickness (PlacedPart.part pp) ->
            Sheet.grade (SheetLayout.sheet layout) = Part.grade (PlacedPart.part pp)
            /\ Sheet.thickness (SheetLayout.sheet layout)
               = Part.thickness (PlacedPart.part pp).
Proof.
  split; [intros p; apply sheetDefsFor_exact|].
  destruct (performSheetNesting_returns partToPartDist partToSheetDist rotation
                                        material availableSheets parts) as (r & Hr).
  exists r. split; [exact Hr|]. intros layout pp Hin Hpp Hg Ht.
  pose proof (performSheetNesting_built _ _ _ _ _ _ _ Hr) as Hbuilt.
  rewrite Forall_forall in Hbuilt.
  pose proof (builtLayout_lookup _ _ _ _ _ _ _ (Hbuilt layout Hin) Hpp) as Hsel.
  rewrite (sheetDefsFor_exact _ _ Hg Ht) in Hsel.
  unfold sheetsLike in Hsel. apply filter_In in Hsel as [_ Hsel].
  apply andb_true_iff in Hsel as [H1 H2].
  apply String.eqb_eq in H1. apply Z.eqb_eq in H2. split; assumption.
Qed.

(** The theorem of X7 on the same input: the panels of grade [MS] and
    thickness 2 lie on a sheet of grade [MS] and thickness 2. *)
Lemma same_grade_and_thickness_witness :
  sheetDefsFor [sheetStock; sheetHyphen] (groupKey partFive) = [sheetStock]
  /\ exists r layout,
       performSheetNesting 10 20 NINETY steel [sheetStock; sheetHyphen] [partFive]
       = Returned r
       /\ nth_error (SheetNestingResult.layouts r) 0 = Some layout
       /\ forall pp, In pp (SheetLayout.placedParts layout) ->
                     Sheet.grade (SheetLayout.sheet layout) = "MS"
                     /\ Sheet.thickness (SheetLayout.sheet layout) = 2.
Proof.
  destruct (performSheetNesting_same_grade_and_thickness
              10 20 NINETY steel [sheetStock; sheetHyphen] [partFive])
    as (Hsel & r & Hr & Hsame).
  split; [rewrite (Hsel partFive eq_refl); [reflexivity | vm_compute; discriminate]|].
  exists r. vm_compute in Hr. injection Hr as <-.
  eexists. split; [vm_compute; reflexivity|]. split; [reflexivity|].
  intros pp Hpp. pose proof (Hsame _ pp (or_introl eq_refl) Hpp) as H.
  destruct Hpp as [<-|[<-|[<-|[]]]];
    exact (H eq_refl ltac:(vm_compute; discriminate)).
Defined.

(** X8.  Enough sheets.  When every row of the input has, among the sheets
    its group key selects, one whose quantity is at least the number of
    units requested in all and on which, empty, every row of the same
    group fits in a permitted orientation, the packer places every unit:
    nothing is reported unplaced and the layouts hold the requested
    quantity of every identity. *)
Theorem performSheetNesting_enough_sheets
        (partToPartDist partToSheetDist : Z) (rotation : RotationOption)
        (material : Material.t) (availableSheets : list Sheet.t)
        (parts : list Part.t) :
  (forall p,
      In p parts ->
      exists s,
        In s (sheetDefsFor availableSheets (groupKey p))
        /\ Z.of_nat (totalUnits parts) <= Sheet.quantity s
        /\ forall q, In q parts -> groupKey q = groupKey p ->
                     fitsEmpty partToSheetDist rotation s q) ->
  exists r,
    performSheetNesting partToPartDist partToSheetDist rotation material
                        availableSheets parts = Returned r
    /\ SheetNestingResult.unplacedParts r = []
    /\ forall o, placedQuantity o (SheetNestingResult.layouts r)
                 = requestedQuantity o parts.
Proof.
  intros Hsupply.
  destruct (performSheetNesting_returns partToPartDist partToSheetDist rotation
                                        material availableSheets parts) as (r & Hr).
  exists r. split; [exact Hr|].
  assert (Hun : SheetNestingResult.unplacedParts r = []).
  { pose proof Hr as Hr'. unfold performSheetNesting in Hr'.
    apply bind_Returned in Hr' as (groups & Hg & Hr').
    apply bind_Returned in Hr' as (st & Hst & Hr').
    injection Hr' as <-. simpl.
    assert (Hperm : Permutation (flat_map snd (Js.forIn groups)) parts).
    { apply Permutation_trans with (flat_map snd groups).
      - apply Permutation_flat_map, GroupFacts.forIn_permutation.
      - exact (GroupFacts.groupBy_permutation _ _ _ _ Hg). }
    assert (Hin : forall k g p, In (k, g) (Js.forIn groups) -> In p g -> In p parts).
    { intros k g p Hkg Hp. apply (Permutation_in p Hperm).
      apply in_flat_map. exists (k, g). split; assumption. }
    assert (Hkeys : forall k g p, In (k, g) (Js.forIn groups) -> In p g -> groupKey p = k).
    { intros k g p Hkg Hp. apply JsFacts.forIn_In in Hkg.
      apply (JsFacts.groupBy_groups groupKey parts [] groups Hg) with (g := g);
        try assumption.
      intros ? ? ? []. }
    rewrite (nestGroups_nothing_left _ _ _ _ _ _ _ _ Hst); [reflexivity|].
    intros k g Hkg. destruct g as [|p0 g']; [left; reflexivity | right].
    destruct (Hsupply p0 (Hin _ _ p0 Hkg (or_introl eq_refl))) as (s & Hs & Hq & Hfit).
    rewrite (Hkeys _ _ p0 Hkg (or_introl eq_refl)) in Hs, Hfit.
    exists s. split; [exact Hs|]. split.
    - pose proof (totalUnits_group _ _ _ Hkg) as Hle.
      rewrite (totalUnits_permutation _ _ Hperm) in Hle. lia.
    - apply Forall_forall. intros q Hq'.
      apply fitsEmpty_finds.
      exact (Hfit q (Hin _ _ q Hkg Hq') (Hkeys _ _ q Hkg Hq')). }
  split; [exact Hun|].
  intros o.
  assert (Hmatched : forall p, In p parts -> matched availableSheets p = true).
  { intros p Hp. destruct (Hsupply p Hp) as (s & Hs & _). unfold matched.
    destruct (sheetDefsFor availableSheets (groupKey p)); [destruct Hs | reflexivity]. }
  pose proof (performSheetNesting_conserves _ _ _ _ _ _ _ o Hr Hmatched) as Hq.
  rewrite Hun in Hq. unfold requestedQuantity at 1 in Hq. simpl in Hq. lia.
Qed.

(** The theorem of X8 on five panels and a stock of ten sheets: two
    layouts, nothing unplaced. *)
Lemma enough_sheets_witness :
  exists r,
    performSheetNesting 0 0 NONE steel [sheetStock] [partFive] = Returned r
    /\ List.length (SheetNestingResult.layouts r) = 2%nat
    /\ SheetNestingResult.unplacedParts r = []
    /\ placedQuantity 1 (SheetNestingResult.layouts r) = 5%nat.
Proof.
  destruct (performSheetNesting_enough_sheets 0 0 NONE steel [sheetStock] [partFive])
    as (r & Hr & Hun & Hq).
  - intros p [<-|[]]. exists sheetStock.
    split; [left; reflexivity|]. split; [vm_compute; discriminate|].
    intros q [<-|[]] _. left. vm_compute. split; discriminate.
  - exists r. split; [exact Hr|]. split; [|split; [exact Hun | rewrite Hq; reflexivity]].
    vm_compute in Hr. injection Hr as <-. reflexivity.
Defined.

(** X9.  The unplaced list.  [unplacedParts] names every identity at most
    once, gives each entry a quantity of at least one, and each entry
    repeats the name, dimensions, thickness, grade and [originalId] of a
    row of the input. *)
Theorem performSheetNesting_unplaced_shape
        (partToPartDist partToSheetDist : Z) (rotation : RotationOption)
        (material : Material.t) (availableSheets : list Sheet.t)
        (parts : list Part.t) :
  exists r,
    performSheetNesting partToPartDist partToSheetDist rotation material
                        availableSheets parts = Returned r
    /\ NoDup (map Part.originalId (SheetNestingResult.unplacedParts r))
    /\ forall u,
         In u (SheetNestingResult.unplacedParts r) ->
         (1 <= Part.quantity u)%nat
         /\ exists p, In p parts /\ sameRow p u.
Proof.
  destruct (performSheetNesting_returns partToPartDist partToSheetDist rotation
                                        material availableSheets parts) as (r & Hr).
  exists r. split; [exact Hr|].
  unfold performSheetNesting in Hr.
  apply bind_Returned in Hr as (groups & Hg & Hr).
  apply bind_Returned in Hr as (st & Hst & Hr).
  injection Hr as <-. simpl.
  destruct (consolidateUnplaced_shape (st_unplaced st)) as (Hnd & Hq & _).
  split; [exact Hnd|]. intros u Hu. split.
  - rewrite Forall_forall in Hq. exact (Hq u Hu).
  - assert (Hrows : Forall (fun u => exists p, In p parts /\ sameRow p u)
                           (consolidateUnplaced (st_unplaced st))).
    { apply consolidateUnplaced_rows.
      - intros v n (p & Hp & Hsame). exists p. split; assumption.
      - apply (nestGroups_rows _ _ _ _ _ _ _ _ _ Hst); [|constructor].
        intros k g p Hkg Hp.
        apply (Permutation_in p (GroupFacts.groupBy_permutation _ _ _ _ Hg)).
        apply (Permutation_in p (Permutation_flat_map snd
                                   (GroupFacts.forIn_permutation groups))).
        apply in_flat_map. exists (k, g). split; assumption. }
    rewrite Forall_forall in Hrows. exact (Hrows u Hu).
Qed.

(** The theorem of X9 on five panels and a single sheet: the two panels
    left over are reported once, with the dimensions of their row. *)
Lemma unplaced_shape_witness :
  exists r u,
    performSheetNesting 0 0 NINETY steel [sheetWide] [partFive] = Returned r
    /\ SheetNestingResult.unplacedParts r = [u]
    /\ Part.quantity u = 2%nat
    /\ exists p, In p [partFive] /\ sameRow p u.
Proof.
  destruct (performSheetNesting_unplaced_shape 0 0 NINETY steel [sheetWide] [partFive])
    as (r & Hr & _ & Hrows).
  exists r. vm_compute in Hr. injection Hr as <-.
  eexists. split; [vm_compute; reflexivity|]. split; [reflexivity|].
  split; [reflexivity|].
  exact (proj2 (Hrows _ (or_introl eq_refl))).
Defined.

(** X10.  Accounting of the units.  For every identity, the units placed
    on the layouts and the quantity reported unplaced add up to the
    quantity requested by the rows whose group key selects some sheet, plus
    one unit for each row whose group key selects none. *)
Theorem performSheetNesting_accounts_units
        (partToPartDist partToSheetDist : Z) (rotation : RotationOption)
        (material : Material.t) (availableSheets : list Sheet.t)
        (parts : list Part.t) :
  exists r,
    performSheetNesting partToPartDist partToSheetDist rotation material
                        availableSheets parts = Returned r
    /\ forall o,
         (placedQuantity o (SheetNestingResult.layouts r)
          + requestedQuantity o (SheetNestingResult.unplacedParts r)
          = requestedQuantity o (filter (matched availableSheets) parts)
            + unitCount o (filter (fun p => negb (matched availableSheets p)) parts))%nat.
Proof.
  destruct (performSheetNesting_returns partToPartDist partToSheetDist rotation
                                        material availableSheets parts) as (r & Hr).
  exists r. split; [exact Hr|]. intros o.
  exact (performSheetNesting_quantities _ _ _ _ _ _ _ o Hr).
Qed.

(** X11.  Numbering of the bars.  In every result of [performLinearNesting]
    the layout at position [i] carries [stockIndex = i + 1] and the stock
    length of the call, and [totalStockUsed] is the number of layouts. *)
Theorem performLinearNesting_numbering
        (stockLength : Z) (optimizationGoal : OptimizationGoal)
        (leftEndAllowance rightEndAllowance : Z) (random : nat -> nat)
        (parts : list LinearPart.t) (r : LinearNestingResult.t) :
  performLinearNesting stockLength optimizationGoal leftEndAllowance
                       rightEndAllowance random parts = Returned r ->
  LinearNestingResult.totalStockUsed r
  = Z.of_nat (List.length (LinearNestingResult.layouts r))
  /\ forall i layout,
       nth_error (LinearNestingResult.layouts r) i = Some layout ->
       StockLayout.stockIndex layout = Z.of_nat i + 1
       /\ StockLayout.stockLength layout = stockLength.
Proof.
  intros Hr. split.
  - destruct (performLinearNesting_chains _ _ _ _ _ _ _ Hr)
      as (groups & bars & _ & _ & Hlay & Hn & _).
    rewrite Hn, Hlay, length_map. reflexivity.
  - intros i layout Hi.
    destruct (performLinearNesting_nth _ _ _ _ _ _ _ _ _ Hr Hi) as (H1 & H2 & _).
    split; assumption.
Qed.

(** The theorem of X11 on lengths 6, 5 and 5 and bars of length 10: two
    bars, numbered 1 and 2. *)
Lemma numbering_witness :
  exists r first second,
    performLinearNesting 10 PRIORITIZE_SPEED 0 0 drawsZero [partSix; partFives]
    = Returned r
    /\ LinearNestingResult.layouts r = [first; second]
    /\ StockLayout.stockIndex first = 1
    /\ StockLayout.stockIndex second = 2
    /\ LinearNestingResult.totalStockUsed r = 2.
Proof.
  destruct (performLinearNesting 10 PRIORITIZE_SPEED 0 0 drawsZero [partSix; partFives])
    as [r| |] eqn:Hr; vm_compute in Hr; try discriminate Hr.
  injection Hr as <-.
  eexists. eexists. eexists. split; [reflexivity|]. split; [reflexivity|].
  assert (Hrun : performLinearNesting 10 PRIORITIZE_SPEED 0 0 drawsZero
                                      [partSix; partFives] = Returned _)
    by (vm_compute; reflexivity).
  destruct (performLinearNesting_numbering 10 PRIORITIZE_SPEED 0 0 drawsZero
                                           [partSix; partFives] _ Hrun) as [Hn Hidx].
  split; [exact (proj1 (Hidx 0%nat _ eq_refl))|].
  split; [exact (proj1 (Hidx 1%nat _ eq_refl)) | exact Hn].
Defined.

(** X13.  Cuts come from the input.  Every cut of every layout is an
    instance [`${p.id}-${k}`], [k < p.quantity], of a part [p] of the input
    that fits a bar and has the raw material of the layout; it carries the
    id, the length and the effective length of [p].  No bar mixes raw
    materials and no cut is invented. *)
Theorem performLinearNesting_cuts_from_parts
        (stockLength : Z) (optimizationGoal : OptimizationGoal)
        (leftEndAllowance rightEndAllowance : Z) (random : nat -> nat)
        (parts : list LinearPart.t) (r : LinearNestingResult.t) :
  performLinearNesting stockLength optimizationGoal leftEndAllowance
                       rightEndAllowance random parts = Returned r ->
  forall layout c,
    In layout (LinearNestingResult.layouts r) ->
    In c (StockLayout.cuts layout) ->
    CutPart.rawMaterial c = StockLayout.rawMaterial layout
    /\ exists p k,
         In p parts /\ (k < LinearPart.quantity p)%nat
         /\ LinearPart.rawMaterial p = StockLayout.rawMaterial layout
         /\ LinearPart.effectiveLength p
            <= stockLength - leftEndAllowance - rightEndAllowance
         /\ CutPart.id c = LinearPart.id p
         /\ CutPart.length c = LinearPart.length p
         /\ CutPart.effectiveLength c = LinearPart.effectiveLength p
         /\ CutPart.instanceId c
            = Js.numToString (LinearPart.id p) ++ "-" ++ Js.numToString (Z.of_nat k).
Proof.
  intros Hr layout c Hin Hc. apply In_nth_error in Hin as (i & Hi).
  destruct (performLinearNesting_nth _ _ _ _ _ _ _ _ _ Hr Hi)
    as (_ & _ & _ & _ & _ & pool & calls & Hpool & Hcuts).
  destruct (bestCutsFor_candidate stockLength optimizationGoal leftEndAllowance
              rightEndAllowance random pool calls) as [(_ & Hincl & _) _].
  rewrite <- Hcuts in Hincl. rewrite Forall_forall in Hpool.
  destruct (Hpool c (Hincl c Hc)) as [(p & Hp & Hinst & Hfit) Hmat].
  split; [exact Hmat|].
  unfold instances in Hinst. apply in_map_iff in Hinst as (k & <- & Hk).
  apply in_seq in Hk. simpl in Hmat.
  exists p, k. repeat split; try assumption; lia.
Qed.

(** The theorem of X13 on the same parts, waste minimized: the first bar
    holds the two cuts of length 5, the first of them an instance of the
    part of id 1. *)
Lemma cuts_from_parts_witness :
  exists r first second c,
    performLinearNesting 10 MINIMIZE_WASTE 0 0 drawsZero [partSix; partFives]
    = Returned r
    /\ LinearNestingResult.layouts r = [first; second]
    /\ nth_error (StockLayout.cuts first) 0 = Some c
    /\ CutPart.rawMaterial c = "rod"
    /\ exists p k,
         In p [partSix; partFives] /\ CutPart.id c = LinearPart.id p
         /\ CutPart.instanceId c
            = Js.numToString (LinearPart.id p) ++ "-" ++ Js.numToString (Z.of_nat k).
Proof.
  destruct (performLinearNesting 10 MINIMIZE_WASTE 0 0 drawsZero [partSix; partFives])
    as [r| |] eqn:Hr; vm_compute in Hr; try discriminate Hr.
  injection Hr as <-.
  eexists. eexists. eexists. eexists.
  split; [reflexivity|]. split; [reflexivity|]. split; [reflexivity|].
  assert (Hrun : performLinearNesting 10 MINIMIZE_WASTE 0 0 drawsZero
                                      [partSix; partFives] = Returned _)
    by (vm_compute; reflexivity).
  destruct (performLinearNesting_cuts_from_parts 10 MINIMIZE_WASTE 0 0 drawsZero
              [partSix; partFives] _ Hrun _ _ (or_introl eq_refl) (or_introl eq_refl))
    as (Hmat & p & k & Hp & _ & _ & _ & Hid & _ & _ & Hinst).
  split; [exact Hmat|]. exists p, k. repeat split; assumption.
Defined.

(** X14.  First fit decreasing.  With [PRIORITIZE_SPEED] the cuts of every
    layout are in non-increasing order of effective length. *)
Theorem performLinearNesting_speed_descending
        (stockLength leftEndAllowance rightEndAllowance : Z) (random : nat -> nat)
        (parts : list LinearPart.t) (r : LinearNestingResult.t) :
  performLinearNesting stockLength PRIORITIZE_SPEED leftEndAllowance
                       rightEndAllowance random parts = Returned r ->
  forall layout i j a b,
    In layout (LinearNestingResult.layouts r) ->
    (i < j)%nat ->
    nth_error (StockLayout.cuts layout) i = Some a ->
    nth_error (StockLayout.cuts layout) j = Some b ->
    CutPart.effectiveLength b <= CutPart.effectiveLength a.
Proof.
  intros Hr layout i j a b Hin Hij Ha Hb. apply In_nth_error in Hin as (n & Hn).
  destruct (performLinearNesting_nth _ _ _ _ _ _ _ _ _ Hr Hn)
    as (_ & _ & _ & _ & _ & pool & calls & _ & Hcuts).
  rewrite bestCutsFor_speed in Hcuts. simpl in Hcuts.
  pose proof (greedyBaseline_descending stockLength leftEndAllowance rightEndAllowance
                                        pool) as Hsorted.
  rewrite <- Hcuts in Hsorted.
  exact (StronglySorted_nth notLonger _ Hsorted i j a b Hij Ha Hb).
Qed.

(** The theorem of X14 on the same parts and bars of length 20: one bar,
    cut 6, 5, 5. *)
Lemma speed_descending_witness :
  exists r layout a b,
    performLinearNesting 20 PRIORITIZE_SPEED 0 0 drawsZero [partFives; partSix]
    = Returned r
    /\ LinearNestingResult.layouts r = [layout]
    /\ nth_error (StockLayout.cuts layout) 0 = Some a
    /\ nth_error (StockLayout.cuts layout) 1 = Some b
    /\ CutPart.effectiveLength a = 6
    /\ CutPart.effectiveLength b <= CutPart.effectiveLength a.
Proof.
  destruct (performLinearNesting 20 PRIORITIZE_SPEED 0 0 drawsZero [partFives; partSix])
    as [r| |] eqn:Hr; vm_compute in Hr; try discriminate Hr.
  injection Hr as <-.
  eexists. eexists. eexists. eexists.
  split; [reflexivity|]. split; [reflexivity|]. split; [reflexivity|].
  split; [reflexivity|]. split; [reflexivity|].
  assert (Hrun : performLinearNesting 20 PRIORITIZE_SPEED 0 0 drawsZero
                                      [partFives; partSix] = Returned _)
    by (vm_compute; reflexivity).
  refine (performLinearNesting_speed_descending 20 0 0 drawsZero [partFives; partSix]
            _ Hrun _ 0%nat 1%nat _ _ (or_introl eq_refl) _ eq_refl eq_refl).
  lia.
Defined.

(** X15.  First fit.  When no part has a negative effective length, a cut
    never lies on a bar while an earlier bar of the same raw material has
    room for it: for layouts at positions [i < j] with the same raw
    material, every cut of the later one is longer than what the earlier
    one leaves of the usable length, so the two bars together hold more
    than one usable length.  This holds in both modes. *)
Theorem performLinearNesting_first_fit
        (stockLength : Z) (optimizationGoal : OptimizationGoal)
        (leftEndAllowance rightEndAllowance : Z) (random : nat -> nat)
        (parts : list LinearPart.t) (r : LinearNestingResult.t) :
  (forall p, In p parts -> 0 <= LinearPart.effectiveLength p) ->
  performLinearNesting stockLength optimizationGoal leftEndAllowance
                       rightEndAllowance random parts = Returned r ->
  forall i j earlier later,
    (i < j)%nat ->
    nth_error (LinearNestingResult.layouts r) i = Some earlier ->
    nth_error (LinearNestingResult.layouts r) j = Some later ->
    StockLayout.rawMaterial earlier = StockLayout.rawMaterial later ->
    (forall c,
        In c (StockLayout.cuts later) ->
        stockLength - leftEndAllowance - rightEndAllowance
        < StockLayout.usedLength earlier + CutPart.effectiveLength c)
    /\ stockLength - leftEndAllowance - rightEndAllowance
       < StockLayout.usedLength earlier + StockLayout.usedLength later.
Proof.
  intros Hnn Hr i j earlier later Hij Hi Hj Hmat.
  assert (Hcut : forall c,
             In c (StockLayout.cuts later) ->
             stockLength - leftEndAllowance - rightEndAllowance
             < StockLayout.usedLength earlier + CutPart.effectiveLength c).
  { intros c Hc.
    destruct (performLinearNesting_chains _ _ _ _ _ _ _ Hr)
      as (groups & bars & Hg & Hchains & Hlay & _).
    rewrite Hlay, nth_error_map in Hi, Hj.
    destruct (nth_error bars i) as [bi|] eqn:Hbi; [|discriminate Hi].
    destruct (nth_error bars j) as [bj|] eqn:Hbj; [|discriminate Hj].
    injection Hi as <-. injection Hj as <-.
    destruct (barsOfGroups_first_fit stockLength optimizationGoal leftEndAllowance
                rightEndAllowance random (Js.forIn groups) 1 bars Hchains)
      as [_ Hsorted].
    - apply forIn_keys. exact (groupBy_keys _ _ _ _ Hg (NoDup_nil _)).
    - intros k g p Hkg Hp. apply Hnn.
      apply (Permutation_in p (GroupFacts.groupBy_permutation _ _ _ _ Hg)).
      apply (Permutation_in p (Permutation_flat_map snd
                                 (GroupFacts.forIn_permutation groups))).
      apply in_flat_map. exists (k, g). split; assumption.
    - exact (StronglySorted_nth _ _ Hsorted i j bi bj Hij Hbi Hbj Hmat c Hc). }
  split; [exact Hcut|].
  destruct (performLinearNesting_nth _ _ _ _ _ _ _ _ _ Hr Hj)
    as (_ & _ & Hused & _ & Hne & pool & calls & Hpool & Hcuts).
  destruct (StockLayout.cuts later) as [|c cs] eqn:Hcs; [contradiction|].
  assert (Hall : Forall (fun x => 0 <= CutPart.effectiveLength x) (c :: cs)).
  { destruct (bestCutsFor_candidate stockLength optimizationGoal leftEndAllowance
                rightEndAllowance random pool calls) as [(_ & Hincl & _) _].
    rewrite <- Hcuts in Hincl. apply Forall_forall. intros x Hx.
    rewrite Forall_forall in Hpool.
    destruct (Hpool x (Hincl x Hx)) as [(p & Hp & Hinst & _) _].
    unfold instances in Hinst. apply in_map_iff in Hinst as (k & <- & _). simpl.
    exact (Hnn p Hp). }
  pose proof (sumEffective_member (c :: cs) c Hall (or_introl eq_refl)) as Hle.
  specialize (Hcut c (or_introl eq_refl)). rewrite Hused. lia.
Qed.

(** The theorem of X15 on lengths 6, 5 and 5 and bars of length 10: the
    cuts of length 5 on the second bar do not fit beside the 6 of the
    first. *)
Lemma first_fit_witness :
  exists r first second,
    performLinearNesting 10 MINIMIZE_WASTE 0 0 drawsOne [partSix; partFives]
    = Returned r
    /\ LinearNestingResult.layouts r = [first; second]
    /\ 10 - 0 - 0 < StockLayout.usedLength first + StockLayout.usedLength second.
Proof.
  destruct (performLinearNesting 10 MINIMIZE_WASTE 0 0 drawsOne [partSix; partFives])
    as [r| |] eqn:Hr; vm_compute in Hr; try discriminate Hr.
  injection Hr as <-.
  eexists. eexists. eexists. split; [reflexivity|]. split; [reflexivity|].
  assert (Hrun : performLinearNesting 10 MINIMIZE_WASTE 0 0 drawsOne
                                      [partSix; partFives] = Returned _)
    by (vm_compute; reflexivity).
  refine (proj2 (performLinearNesting_first_fit 10 MINIMIZE_WASTE 0 0 drawsOne
                   [partSix; partFives] _ _ Hrun 0%nat 1%nat _ _ _ eq_refl eq_refl
                   eq_refl)).
  - intros p [<-|[<-|[]]]; discriminate.
  - lia.
Defined.

(** X16.  When the call throws.  [performLinearNesting] throws a
    [TypeError] exactly when some part has a raw material named like a
    property that every object inherits ([constructor], [toString],
    [__proto__], ...), and returns a result exactly when no part has. *)
Theorem performLinearNesting_throws_iff
        (stockLength : Z) (optimizationGoal : OptimizationGoal)
        (leftEndAllowance rightEndAllowance : Z) (random : nat -> nat)
        (parts : list LinearPart.t) :
  let run := performLinearNesting stockLength optimizationGoal leftEndAllowance
                                  rightEndAllowance random parts in
  (run = TypeError
   <-> exists p, In p parts /\ Js.inheritedKey (LinearPart.rawMaterial p) = true)
  /\ ((exists r, run = Returned r)
      <-> forall p, In p parts -> Js.inheritedKey (LinearPart.rawMaterial p) = false).
Proof.
  intros run.
  assert (Hthrows : (exists p, In p parts
                               /\ Js.inheritedKey (LinearPart.rawMaterial p) = true) ->
                    run = TypeError).
  { intros Hex. unfold run, performLinearNesting.
    rewrite (groupBy_inherited LinearPart.rawMaterial parts []); [reflexivity | | exact Hex].
    intros k []. }
  split; split.
  - intros H.
    destruct (performLinearNesting_outcome stockLength optimizationGoal leftEndAllowance
                rightEndAllowance random parts) as [(groups & Hg)|[_ Hex]]; [|exact Hex].
    destruct (performLinearNesting_spec stockLength optimizationGoal leftEndAllowance
                rightEndAllowance random parts groups Hg) as (r & _ & Hr & _).
    unfold run in H. congruence.
  - exact Hthrows.
  - intros (r & Hr) p Hp.
    destruct (Js.inheritedKey (LinearPart.rawMaterial p)) eqn:Hk; [|reflexivity].
    rewrite Hthrows in Hr; [discriminate Hr | exists p; split; assumption].
  - apply performLinearNesting_returns.
Qed.

(** X17.  Draws.  One in-place shuffle returns a permutation of the list
    and reads one draw for each position but the first; accordingly the
    choice of the cuts of a bar reads no draw with [PRIORITIZE_SPEED] or on
    a pool of one instance, and exactly [50 * (n - 1)] draws with
    [MINIMIZE_WASTE] on a pool of [n >= 2] instances. *)
Theorem bestCutsFor_draws
        (stockLength : Z) (optimizationGoal : OptimizationGoal)
        (leftEndAllowance rightEndAllowance : Z) (random : nat -> nat)
        (pool : list CutPart.t) (calls : nat) :
  (Permutation (fst (shuffle random pool calls)) pool
   /\ snd (shuffle random pool calls) = (calls + (List.length pool - 1))%nat)
  /\ snd (bestCutsFor stockLength optimizationGoal leftEndAllowance rightEndAllowance
                      random pool calls)
     = match optimizationGoal with
       | PRIORITIZE_SPEED => calls
       | MINIMIZE_WASTE =>
           if (1 <? List.length pool)%nat
           then (calls + SHUFFLE_ITERATIONS * (List.length pool - 1))%nat
           else calls
       end.
Proof.
  split.
  - unfold shuffle. split; [apply shuffleFrom_permutation | apply shuffleFrom_calls].
  - rewrite bestCutsFor_unfold.
    destruct optimizationGoal; cbn [minimizesWaste andb]; [reflexivity|].
    destruct (1 <? List.length pool)%nat; [|reflexivity].
    apply trials_calls.
Qed.

(** X18.  Immediate rejection.  When the stock length, the end allowances
    and the effective lengths are numbers, in every result of
    [performLinearNesting] no cut exceeds the usable length, so a part
    that is too long lies on no layout; for every id the unplaced parts
    report the total quantity of the too long parts of that id; and when
    the ids of the input are pairwise distinct the unplaced parts are the
    too long parts themselves, each with its quantity.  (With a usable
    length that is [NaN] no part is too long, and every part is reported
    unplaced by the empty-bar branch.) *)
Theorem performLinearNesting_rejects_oversize
        (stockLength : Z) (optimizationGoal : OptimizationGoal)
        (leftEndAllowance rightEndAllowance : Z) (random : nat -> nat)
        (parts : list LinearPart.t) (r : WithNaN.LinearNestingResult.t) :
  let usable := usableStockLength stockLength leftEndAllowance rightEndAllowance in
  let oversize (p : LinearPart.t) := LinearPart.effectiveLength p >? usable in
  WithNaN.performLinearNesting (Number.Int stockLength) optimizationGoal
                               (Number.Int leftEndAllowance)
                               (Number.Int rightEndAllowance) random
                               (map Lift.linearPart parts) = Returned r ->
  (forall layout c,
      In layout (WithNaN.LinearNestingResult.layouts r) ->
      In c (WithNaN.StockLayout.cuts layout) ->
      OnNumbers.fits (Number.Int usable) c)
  /\ (forall id,
         OnNumbers.requestedLength id (WithNaN.LinearNestingResult.unplacedParts r)
         = requestedLength id (filter oversize parts))
  /\ (NoDup (map LinearPart.id parts) ->
      Permutation (WithNaN.LinearNestingResult.unplacedParts r)
                  (map Lift.linearPart (filter oversize parts))).
Proof.
  intros usable oversize Hrun. rewrite performLinearNesting_lift in Hrun.
  destruct (performLinearNesting stockLength optimizationGoal leftEndAllowance
                                 rightEndAllowance random parts) as [r0| |] eqn:Hr0;
    simpl in Hrun; try discriminate Hrun.
  injection Hrun as <-.
  destruct (immediate_rejection _ _ _ _ _ _ _ Hr0) as (Hcuts & Hq & Hperm).
  split; [|split].
  - intros layout c Hin Hc. simpl in Hin.
    apply in_map_iff in Hin as (layout0 & <- & Hin). simpl in Hc.
    apply in_map_iff in Hc as (c0 & <- & Hc).
    unfold OnNumbers.fits. simpl. apply Z.leb_le. exact (Hcuts layout0 c0 Hin Hc).
  - intros id. etransitivity; [|exact (Hq id)]. simpl.
    unfold OnNumbers.requestedLength, requestedLength.
    generalize (LinearNestingResult.unplacedParts r0). intros l.
    induction l as [|p l IH]; simpl; [reflexivity|].
    destruct (LinearPart.id p =? id); simpl; rewrite IH; reflexivity.
  - intros Hnd. simpl. apply Permutation_map. exact (Hperm Hnd).
Qed.

(** The theorem of X18 on a part of length 1200 and two parts that fit,
    on bars of length 1000: the long part is the only unplaced one. *)
Lemma rejects_oversize_witness :
  let parts := [partD; LinearPart.mk 1 400 2 400 "ISMB 200"] in
  exists r,
    WithNaN.performLinearNesting (Number.Int 1000) PRIORITIZE_SPEED (Number.Int 0)
                                 (Number.Int 0) drawsZero (map Lift.linearPart parts)
    = Returned r
    /\ Permutation (WithNaN.LinearNestingResult.unplacedParts r)
                   [Lift.linearPart partD]
    /\ OnNumbers.requestedLength 0 (WithNaN.LinearNestingResult.unplacedParts r)
       = 1%nat.
Proof.
  intros parts.
  destruct (WithNaN.performLinearNesting (Number.Int 1000) PRIORITIZE_SPEED
              (Number.Int 0) (Number.Int 0) drawsZero (map Lift.linearPart parts))
    as [r| |] eqn:Hr; vm_compute in Hr; try discriminate Hr.
  injection Hr as <-.
  eexists. split; [reflexivity|].
  assert (Hrun : WithNaN.performLinearNesting (Number.Int 1000) PRIORITIZE_SPEED
                   (Number.Int 0) (Number.Int 0) drawsZero (map Lift.linearPart parts)
                 = Returned _)
    by (vm_compute; reflexivity).
  destruct (performLinearNesting_rejects_oversize 1000 PRIORITIZE_SPEED 0 0 drawsZero
              parts _ Hrun) as (_ & Hq & Hperm).
  split.
  - apply Hperm. repeat constructor; simpl; intuition discriminate.
  - exact (Hq 0).
Defined.

(** X19.  Conservation in the linear packer.  When the ids of the input are
    pairwise distinct, then in every result and for every id the number of
    cuts of that id on the layouts plus the quantity reported unplaced is
    the quantity requested: no unit is lost and none is cut twice. *)
Theorem performLinearNesting_conserves_units
        (stockLength : Z) (optimizationGoal : OptimizationGoal)
        (leftEndAllowance rightEndAllowance : Z) (random : nat -> nat)
        (parts : list LinearPart.t) (r : LinearNestingResult.t) :
  NoDup (map LinearPart.id parts) ->
  performLinearNesting stockLength optimizationGoal leftEndAllowance
                       rightEndAllowance random parts = Returned r ->
  forall id,
    (cutQuantity id (LinearNestingResult.layouts r)
     + requestedLength id (LinearNestingResult.unplacedParts r))%nat
    = requestedLength id parts.
Proof. exact (performLinearNesting_conserves _ _ _ _ _ _ _). Qed.

(** The theorem of X19 on lengths 6, 5 and 5: both units of the part of
    length 5 are cut. *)
Lemma conserves_units_witness :
  exists r,
    performLinearNesting 10 MINIMIZE_WASTE 0 0 drawsOne [partSix; partFives]
    = Returned r
    /\ LinearNestingResult.unplacedParts r = []
    /\ cutQuantity 1 (LinearNestingResult.layouts r) = 2%nat.
Proof.
  destruct (performLinearNesting 10 MINIMIZE_WASTE 0 0 drawsOne [partSix; partFives])
    as [r| |] eqn:Hr; vm_compute in Hr; try discriminate Hr.
  injection Hr as <-.
  eexists. split; [reflexivity|]. split; [reflexivity|].
  assert (Hrun : performLinearNesting 10 MINIMIZE_WASTE 0 0 drawsOne
                                      [partSix; partFives] = Returned _)
    by (vm_compute; reflexivity).
  assert (Hnd : NoDup (map LinearPart.id [partSix; partFives]))
    by (repeat constructor; simpl; intuition discriminate).
  pose proof (performLinearNesting_conserves_units 10 MINIMIZE_WASTE 0 0 drawsOne
                [partSix; partFives] _ Hnd Hrun 1) as Hq.
  exact Hq.
Defined.

(** X20.  The parser of the linear parts.  Whatever [trim], [parseFloat],
    [parseInt] and the addition return, the parts that [parseLinearParts]
    yields have strictly increasing, hence pairwise distinct, ids; the id
    of a part is the position of its line among the non-blank lines, and
    the part records that line: its three fields are the raw material,
    the text of the length and the text of the quantity.  Every part has
    a raw material, a length above zero, a quantity above zero and the
    allowance added to its length; a line gives at most one part or one
    error, so parts and errors together are at most the non-blank lines;
    and an input without a non-blank line gives no part and no error. *)
Theorem parseLinearParts_reads_lines
        (trim : string -> string) (parseFloat parseInt : string -> Js.number)
        (add : Js.number -> Js.number -> Js.number)
        (csvData : string) (allowance : Js.number) :
  let lines := linearLines trim csvData in
  let result := parseLinearParts trim parseFloat parseInt add csvData allowance in
  StronglySorted Z.lt (map ParsedLinearPart.id (fst result))
  /\ NoDup (map ParsedLinearPart.id (fst result))
  /\ (forall p,
         In p (fst result) ->
         0 <= ParsedLinearPart.id p
         /\ (exists line,
                nth_error lines (Z.to_nat (ParsedLinearPart.id p)) = Some line
                /\ readsLine trim parseFloat parseInt line p)
         /\ acceptedLinear add allowance p)
  /\ (List.length (fst result) + List.length (snd result) <= List.length lines)%nat
  /\ (lines = [] -> result = ([], [])).
Proof.
  intros lines result. unfold result, parseLinearParts. fold lines.
  destruct (forEachLine_spec trim parseFloat parseInt add allowance lines 0 [] [])
    as (np & ne & -> & Hsorted & Hall & Hlen).
  simpl. split; [exact Hsorted|]. split; [exact (StronglySorted_lt_NoDup _ Hsorted)|].
  split; [|split; [exact Hlen|]].
  - intros p Hp. rewrite Forall_forall in Hall.
    destruct (Hall p Hp) as (Hge & (line & Hline & Hread) & Hok).
    split; [lia|]. split; [|exact Hok]. exists line. split; [|exact Hread].
    rewrite Nat.sub_0_r in Hline. exact Hline.
  - intros Hnil. rewrite Hnil in Hlen. simpl in Hlen.
    destruct np; [|simpl in Hlen; lia]. destruct ne; [reflexivity | simpl in Hlen; lia].
Qed.

(** The parser of X20 run on six lines, one of them blank: the three
    well-formed lines of positive quantity give the parts of ids 0, 1 and
    4, the well-formed line of quantity zero gives nothing, the line
    without quantity gives the one error, and the ids are distinct. *)
Lemma parseLinearParts_witness :
  let result :=
    parseLinearParts asciiTrim Js.parseFloat parseInt10 addNumbers demoCsv
                     (Js.Finite 5) in
  map ParsedLinearPart.id (fst result) = [0; 1; 4]
  /\ map ParsedLinearPart.rawMaterial (fst result) = ["MS"; "SS"; "SS"]
  /\ snd result
     = ["Error on line 4: Expected 3 fields (raw material, length, quantity), but found 2."]
  /\ NoDup (map ParsedLinearPart.id (fst result)).
Proof.
  split; [vm_compute; reflexivity|]. split; [vm_compute; reflexivity|].
  split; [vm_compute; reflexivity|].
  exact (proj1 (proj2 (parseLinearParts_reads_lines
                         asciiTrim Js.parseFloat parseInt10 addNumbers demoCsv
                         (Js.Finite 5)))).
Defined.

(** X21.  The parser of the sheet parts.  Whatever [trim], [parseFloat] and
    [parseInt] return, the parts that [parseSheetPartsFromColumns] yields
    have [id] and [originalId] equal to the number of their row, counted
    from 1 through all the rows, blank ones included, so the ids are
    strictly increasing and pairwise distinct; a part records the cells of
    its row in the six columns; it has a name, a grade, dimensions above
    zero and a quantity that is neither zero nor negative; and parts and
    errors together are at most the rows of the longest column. *)
Theorem parseSheetPartsFromColumns_reads_rows
        (trim : string -> string) (parseFloat parseInt : string -> Js.number)
        (namesStr lengthsStr widthsStr thicknessesStr gradesStr quantitiesStr : string) :
  let names := splitTrim trim "010" namesStr in
  let lengths := splitTrim trim "010" lengthsStr in
  let widths := splitTrim trim "010" widthsStr in
  let thicknesses := splitTrim trim "010" thicknessesStr in
  let grades := splitTrim trim "010" gradesStr in
  let quantities := splitTrim trim "010" quantitiesStr in
  let lineCount :=
    fold_left Nat.max
              [List.length lengths; List.length widths; List.length thicknesses;
               List.length grades; List.length quantities]
              (List.length names) in
  let result :=
    parseSheetPartsFromColumns trim parseFloat parseInt namesStr lengthsStr widthsStr
                               thicknessesStr gradesStr quantitiesStr in
  StronglySorted Z.lt (map ParsedPart.id (fst result))
  /\ NoDup (map ParsedPart.id (fst result))
  /\ (forall p,
         In p (fst result) ->
         1 <= ParsedPart.id p <= Z.of_nat lineCount
         /\ readsRow parseFloat parseInt names lengths widths thicknesses grades
                     quantities (Z.to_nat (ParsedPart.id p - 1)) p
         /\ acceptedSheet p)
  /\ (List.length (fst result) + List.length (snd result) <= lineCount)%nat.
Proof.
  intros names lengths widths thicknesses grades quantities lineCount result.
  unfold result, parseSheetPartsFromColumns.
  fold names lengths widths thicknesses grades quantities. fold lineCount.
  destruct ((lineCount =? 1)%nat
            && isEmptyAt names 0 && isEmptyAt lengths 0 && isEmptyAt widths 0
            && isEmptyAt thicknesses 0 && isEmptyAt grades 0
            && isEmptyAt quantities 0).
  - simpl. split; [constructor|]. split; [constructor|].
    split; [intros p []|lia].
  - destruct (parseSheetRows_spec parseFloat parseInt names lengths widths thicknesses
                                  grades quantities lineCount 0 [] [])
      as (np & ne & -> & Hsorted & Hall & Hlen).
    simpl. split; [exact Hsorted|]. split; [exact (StronglySorted_lt_NoDup _ Hsorted)|].
    split; [|exact Hlen].
    intros p Hp. rewrite Forall_forall in Hall.
    destruct (Hall p Hp) as (Hr & Hread & Hok).
    split; [simpl in Hr; lia|]. split; assumption.
Qed.

(** The parser of X21 run on three rows, the second one blank: the parts
    carry the row numbers 1 and 3. *)
Lemma parseSheetPartsFromColumns_witness :
  let nl := String "010" EmptyString in
  let result :=
    parseSheetPartsFromColumns asciiTrim Js.parseFloat parseInt10
      (String.concat nl ["panel"; ""; "cover"]) (String.concat nl ["400"; ""; "100"])
      (String.concat nl ["300"; ""; "100"]) (String.concat nl ["2"; ""; "5"])
      (String.concat nl ["MS"; ""; "SS-304"]) (String.concat nl ["5"; ""; "2"]) in
  map ParsedPart.id (fst result) = [1; 3]
  /\ map ParsedPart.originalId (fst result) = [1; 3]
  /\ map ParsedPart.grade (fst result) = ["MS"; "SS-304"]
  /\ snd result = []
  /\ NoDup (map ParsedPart.id (fst result)).
Proof.
  split; [vm_compute; reflexivity|]. split; [vm_compute; reflexivity|].
  split; [vm_compute; reflexivity|]. split; [vm_compute; reflexivity|].
  exact (proj1 (proj2 (parseSheetPartsFromColumns_reads_rows
                         asciiTrim Js.parseFloat parseInt10 _ _ _ _ _ _))).
Defined.
